(* ===== verification/_CoqProject ===== *)
-Q . S2P
Prelude.v
Config.v
Reg.v
Fifo.v
Ram.v
Flash.v
Sdlkey.v
Machine.v
Ulite.v
Spi.v
Device.v
Mmu.v
Memory.v
ExecAlu.v
ExecMdu.v
ExecMem.v
Softfloat.v
ExecFloat.v
Decode.v
Cpu.v
Elfsym.v
Monitor.v
GdbProto.v
GdbServer.v
Hash.v
Perf.v
Frame.v
Invariant.v
Exits.v
Samples.v
Exceptions.v
ArithProps.v
MmuProps.v
Layout.v
MemProps.v
CacheInv.v
LoadStoreProps.v
DecodeProps.v
CpuProps.v
Cp0Props.v
DeviceProps.v
MonitorProps.v
BootProps.v
ElfsymProps.v
GdbProps.v
GdbServerProps.v
HashProps.v
PerfProps.v
FlashProps.v
FloatSpec.v
FloatProps.v
FloatAdd.v
FloatDiv.v
FloatSqrt.v
FloatInt.v
