(* ===== verification/Prelude.v ===== *)
(** * NEMU-MIPS32: a verification library

    nemu-mips32 is a full-system emulator of a MIPS32 processor.  A loop
    (cpu_exec, src/cpu/cpu.c) fetches a word through the MMU, dispatches it through
    label tables (src/cpu/exec/exec-handlers.h) to one of about two hundred handlers
    (src/cpu/exec), and at the end of each turn takes a pending exception or
    interrupt.  Memory accesses go through the TLB (src/cpu/mmu.c), an optional cache
    of translations (src/cpu/mmu-cache.h) and a page table of devices
    (src/cpu/memory.c) to the devices of src/dev: two RAMs, a serial port, an SPI
    controller with a flash chip, a clock, a trap device, a keyboard and a screen.
    The program is single-threaded; a host timer calls update_irq between
    instructions.

    ** Model

    The global and static variables are one record, [machine] (Machine.v).  Every
    function is a computation [EM A] over it: [Ok] with a value, [Exit] for the
    [goto exit] of a handler, or [Stop] with the way the program ends ([HExit],
    [HPanic], [HAssert], [HCPUAssert]) or with [HUndefined] where the C code has
    undefined behaviour.  C integers are [Z] with the conversions [uw] and [sw]
    written where C converts; the bit-fields of CP0 registers are [field]s of 32-bit
    words; byte arrays are maps from offsets with absent bytes standing for their
    initial value.  What the emulator reads from outside (clock, random numbers,
    stdin, key events) is a record of lists, so every theorem holds for all of them.
    The CONFIG_ options are the class [Config]: theorems hold for every build unless
    they name one.

    The files, with what they translate:
    - Config.v: Kconfig options and the defconfigs of configs/
    - Reg.v: include/cpu/reg.h (registers, CP0, instruction fields)
    - Fifo.v: include/utils/fifo.h
    - Ram.v: src/dev/bram.c, src/dev/ddr.c, the checks of include/device.h
    - Flash.v: src/dev/flash.c
    - Sdlkey.v: src/utils/sdlkey.c
    - Machine.v: the global state, nemu_set_irq, the clearing of both caches,
      src/cpu/decode-cache.h
    - Ulite.v: src/dev/xlnx-ulite.c, src/dev/nemu-kbd.c
    - Spi.v: src/dev/xlnx-spi.c
    - Device.v: the other devices, src/dev/register.c, include/device.h,
      src/cpu/memory.c (init_mmio), src/dev/events.c (update_irq)
    - Mmu.v: src/cpu/mmu.c, raise_exception of src/cpu/cpu.c, src/monitor/iq.c
    - Memory.v: include/cpu/memory.h, src/cpu/mmu-cache.h, vaddr_read and
      vaddr_write of src/cpu/cpu.c, src/cpu/memory.c
    - ExecAlu.v, ExecMdu.v, ExecMem.v, ExecFloat.v: the handlers of src/cpu/exec
    - Softfloat.v: the part of src/utils/softfloat.c the handlers call
    - Decode.v: src/cpu/exec/exec-handlers.h, decoder_get_handler, decoder_set_state
    - Cpu.v: src/cpu/cpu.c and src/cpu/exec/exec.h
    - Elfsym.v: src/utils/elfsym.c, and the bytes of a file as a host buffer
    - Monitor.v: the loaders and init_monitor of src/monitor/monitor.c
    - GdbProto.v: src/utils/gdbstub/gdb-proto.c
    - GdbServer.v: src/utils/gdbstub/gdb-server.c
    - Hash.v: src/utils/hash.c, include/utils/hash.h
    - Perf.v: src/monitor/instr-perf.c, src/monitor/elfperf.c

    ** Theorems

    Frame.v, Invariant.v and Exits.v hold the infrastructure: the class [DevFrame]
    states what a relation on states must tolerate to be kept by every device
    operation, [BusFrame] by memory accesses and [ExecFrame] by every handler; the
    well-formedness invariant [wf], the memory map and others are instances, so that
    each is proved once.  Samples.v has concrete states.
    - Exceptions.v: raise_exception for every code, the round trip with eret, delivery
      of interrupts, the timer
    - ArithProps.v: arithmetic, multiplication and division, counting, bit-fields
    - MmuProps.v: translation refines an abstract TLB; an entry written by tlbwi is
      read back by a later tlbr whatever the registers hold by then; tlbp
    - Layout.v: the device map built at start
    - MemProps.v, CacheInv.v: the translation cache is transparent, and the
      invariant that makes it so is kept by every instruction but tlbr
    - LoadStoreProps.v: stores read back; what each load and store does when its
      translation faults or its address is misaligned (ll and swc1 are the exceptions);
      unaligned words
    - DecodeProps.v: the decode cache is transparent for the instructions whose
      operands it keeps
    - CpuProps.v: the decoder is total, runs are safe, register 0, the delay slot of
      every branch and jump
    - Cp0Props.v: the writable bits of every CP0 register
    - DeviceProps.v: ring buffers refine queues (and what a pop of an empty one gives),
      RAM contract, serial input with the ^X question
    - FlashProps.v: what a page program stores is read back; every access of the
      chip's array is within it, but for an erase command near the end
    - MonitorProps.v: load_elf puts the segments of the file where they belong;
      BootProps.v: from reset the machine reaches the entry point of the file
    - ElfsymProps.v: symbol lookup and its cache
    - GdbProps.v: packets of the remote protocol survive the link;
      GdbServerProps.v: memory written by the debugger reads back, breakpoints leave no
      trace, the reply to g decodes to the 38 registers
    - HashProps.v: the chained table refines a map to stacks of values;
      PerfProps.v: what the profilers count
    - FloatSpec.v: IEEE rounding on integers, and roundAndPackFloat against it;
      FloatProps.v, FloatAdd.v, FloatDiv.v, FloatSqrt.v, FloatInt.v: multiplication,
      addition and subtraction, division, square root, conversion to integers return
      the correctly rounded result for every encoding of both precisions

    ** Bounds and fuel

    cpu_exec takes its number of instructions as a [nat], as the C function does.
    The SPI flush loop is given as many turns as the queue has bytes, which is all it
    can make.  The correction loops of the softfloat division and square root have
    fuel [loop_fuel] = 8, which is enough for every operand: float_div_correct and
    float_sqrt_correct prove that the operations return.
    gdb_send and gdb_recv have one turn more than there are bytes to read: every turn
    reads at least one (gdb_packets_roundtrip).  A walk along a chain of a hash table
    follows at most as many elements as are allocated, which is enough for every chain
    without a cycle (hash_refines_stacks).  cpu_exec(-1) of the gdb server is given a
    number of turns, [forever], that its theorems quantify over.

    ** Not modelled

    Printing, which does not change the state; the monitor's command line,
    differential testing, the tracing of a guest kernel, host networking and the
    kconfig tool, which are host I/O or developer aids; the network device, which the
    Makefile does not compile, and the disk device, which is a host file.  The floating point
    exception flags are computed into a local of each handler and discarded, so they
    are left out.  ldc1 and sdc1 are modelled, but the behaviour after a fault of their
    first access is not the subject of a theorem. *)
From Stdlib Require Export ZArith Lia Bool List.
From stdpp Require Export base tactics option list gmap.

#[global] Open Scope Z_scope.
Declare Scope nemu_scope.
Delimit Scope nemu_scope with nemu.

(** ** Machine words

    A C integer of width [w] is a [Z]; [uw w] is the conversion to the unsigned
    type and [sw w] the conversion to the signed (two's complement) type. *)
Definition uw (w x : Z) : Z := x mod 2 ^ w.
Definition sw (w x : Z) : Z := (x + 2 ^ (w - 1)) mod 2 ^ w - 2 ^ (w - 1).

Abbreviation u8 := (uw 8).
Abbreviation u16 := (uw 16).
Abbreviation u32 := (uw 32).
Abbreviation u64 := (uw 64).
Abbreviation s8 := (sw 8).
Abbreviation s16 := (sw 16).
Abbreviation s32 := (sw 32).

Definition in_u (w x : Z) : Prop := 0 <= x < 2 ^ w.
Abbreviation is_u32 := (in_u 32).

(** A bit-field of a 32-bit word: [f_len] bits from bit [f_lo], as gcc lays out
    the structs of include/cpu/reg.h on a little-endian host. *)
Record field := mkField { f_lo : Z; f_len : Z }.

Definition bf_get (f : field) (w : Z) : Z :=
  Z.land (Z.shiftr w (f_lo f)) (Z.ones (f_len f)).

Definition bf_set (f : field) (v w : Z) : Z :=
  Z.lor (Z.ldiff w (Z.shiftl (Z.ones (f_len f)) (f_lo f)))
        (Z.shiftl (Z.land v (Z.ones (f_len f))) (f_lo f)).

(** [b2z] is the C conversion of a truth value to an integer. *)
Definition b2z (b : bool) : Z := if b then 1 else 0.

(** ** Bit-level reasoning *)
Lemma testbit_uw w x i : 0 <= w -> Z.testbit (uw w x) i = (i <? w) && Z.testbit x i.
Proof.
  intros Hw. unfold uw. destruct (Z.ltb_spec i w).
  - rewrite Z.mod_pow2_bits_low by lia. done.
  - rewrite Z.mod_pow2_bits_high by lia. done.
Qed.

Lemma testbit_ones w i : 0 <= w -> Z.testbit (Z.ones w) i = (0 <=? i) && (i <? w).
Proof. intros. rewrite Z.testbit_ones by lia. done. Qed.

Lemma testbit_in_u w x i : in_u w x -> 0 <= w -> w <= i -> Z.testbit x i = false.
Proof.
  intros [? Hx] Hw Hi. destruct (decide (x = 0)) as [->|]; [apply Z.testbit_0_l|].
  apply Z.bits_above_log2; [lia|].
  apply Z.log2_lt_pow2; [lia|]. apply Z.lt_le_trans with (2 ^ w); [lia|].
  apply Z.pow_le_mono_r; lia.
Qed.

(** [bitblast] proves an equality of integers bit by bit: it rewrites the bit of
    every operation, then splits on the comparisons of bit positions. *)
Ltac bb_rewrite :=
  repeat first
    [ rewrite Z.land_spec | rewrite Z.lor_spec | rewrite Z.lxor_spec
    | rewrite Z.ldiff_spec | rewrite Z.testbit_0_l
    | rewrite Z.shiftl_spec by lia | rewrite Z.shiftr_spec by lia
    | rewrite Z.lnot_spec by lia | rewrite testbit_uw by lia
    | rewrite testbit_ones by lia | rewrite Z.pow2_bits_eqb by lia ].

Ltac bb_split :=
  repeat match goal with
    | |- context [?a <=? ?b] => destruct (Z.leb_spec a b); cbn [andb orb negb]
    | |- context [?a <? ?b] => destruct (Z.ltb_spec a b); cbn [andb orb negb]
    | |- context [?a =? ?b] => destruct (Z.eqb_spec a b); cbn [andb orb negb]
    end.

Ltac bb_finish :=
  repeat first
    [ progress cbn [andb orb negb xorb]
    | rewrite andb_false_r | rewrite andb_true_r | rewrite orb_false_r
    | rewrite orb_true_r | rewrite xorb_false_r
    | rewrite Z.testbit_neg_r by lia
    | rewrite Z.shiftr_spec by lia | rewrite Z.shiftl_spec by lia ];
  try (first [ reflexivity | lia | (f_equal; lia) | (repeat f_equal; lia) ]).

Ltac bitblast :=
  apply Z.bits_inj'; let i := fresh "i" in let Hi := fresh "Hi" in
  intros i Hi; bb_rewrite; bb_split; bb_finish.

(** ** Lemmas on words and bit-fields *)
Create HintDb words discriminated.
Create HintDb keeps discriminated.

Lemma uw_range w x : 0 <= w -> in_u w (uw w x).
Proof. intros. apply Z.mod_pos_bound. apply Z.pow_pos_nonneg; lia. Qed.

Lemma uw_small w x : in_u w x -> uw w x = x.
Proof. intros. by apply Z.mod_small. Qed.

Lemma uw_land w x : 0 <= w -> uw w x = Z.land x (Z.ones w).
Proof. intros. unfold uw. by rewrite Z.land_ones. Qed.

Lemma uw_uw w x : 0 <= w -> uw w (uw w x) = uw w x.
Proof. intros. apply uw_small. by apply uw_range. Qed.

Lemma sw_range w x : 0 < w -> - 2 ^ (w - 1) <= sw w x < 2 ^ (w - 1).
Proof.
  intros. unfold sw.
  assert (2 ^ w = 2 * 2 ^ (w - 1)) as E.
  { rewrite <- Z.pow_succ_r by lia. f_equal. lia. }
  assert (0 < 2 ^ (w - 1)) by (apply Z.pow_pos_nonneg; lia).
  pose proof (Z.mod_pos_bound (x + 2 ^ (w - 1)) (2 ^ w)). lia.
Qed.

Lemma sw_small w x : 0 < w -> - 2 ^ (w - 1) <= x < 2 ^ (w - 1) -> sw w x = x.
Proof.
  intros Hw Hx. unfold sw.
  assert (2 ^ w = 2 * 2 ^ (w - 1)) as E.
  { rewrite <- Z.pow_succ_r by lia. f_equal. lia. }
  rewrite Z.mod_small; lia.
Qed.

Lemma uw_sw w x : 0 < w -> uw w (sw w x) = uw w x.
Proof.
  intros. unfold uw, sw. rewrite Zminus_mod_idemp_l. f_equal. lia.
Qed.

Lemma sw_uw w x : 0 < w -> sw w (uw w x) = sw w x.
Proof. intros. unfold uw, sw. by rewrite Zplus_mod_idemp_l. Qed.

(** The signed reading of an unsigned word. *)
Lemma s32_cases x :
  is_u32 x -> s32 x = if x <? 2 ^ 31 then x else x - 2 ^ 32.
Proof.
  intros [? ?]. unfold sw. change (32 - 1) with 31.
  destruct (Z.ltb_spec x (2 ^ 31)).
  - rewrite Z.mod_small; lia.
  - replace (x + 2 ^ 31) with (x - 2 ^ 31 + 1 * 2 ^ 32) by lia.
    rewrite Z.mod_add by lia. rewrite Z.mod_small; lia.
Qed.

Lemma bf_get_range f w : 0 <= f_len f -> in_u (f_len f) (bf_get f w).
Proof. intros. unfold bf_get. rewrite Z.land_ones by done. by apply uw_range. Qed.

Lemma bf_set_range f v w :
  0 <= f_lo f -> 0 <= f_len f -> f_lo f + f_len f <= 32 ->
  is_u32 w -> is_u32 (bf_set f v w).
Proof.
  intros Hl Hn Hs Hw.
  assert (bf_set f v w = u32 (bf_set f v w)) as ->; [|by apply uw_range].
  unfold bf_set. apply Z.bits_inj'; intros i Hi. bb_rewrite.
  destruct (Z.ltb_spec i 32); [done|].
  rewrite (testbit_in_u 32 w i) by (done || lia). cbn.
  bb_split; bb_finish.
Qed.

Lemma bf_get_set f v w :
  0 <= f_lo f -> 0 <= f_len f -> bf_get f (bf_set f v w) = uw (f_len f) v.
Proof.
  intros. unfold bf_get, bf_set. bitblast.
Qed.

Definition bf_disjoint (f g : field) : Prop :=
  f_lo f + f_len f <= f_lo g \/ f_lo g + f_len g <= f_lo f.

Lemma bf_get_set_ne f g v w :
  0 <= f_lo f -> 0 <= f_len f -> 0 <= f_lo g -> 0 <= f_len g ->
  bf_disjoint f g -> bf_get f (bf_set g v w) = bf_get f w.
Proof.
  unfold bf_disjoint, bf_get, bf_set. intros ???? [?|?]; bitblast.
Qed.

(** Joining a high and a low part. *)
Lemma lor_in_u w x y : 0 <= w -> in_u w x -> in_u w y -> in_u w (Z.lor x y).
Proof.
  intros Hw Hx Hy. rewrite <- (uw_small w x Hx), <- (uw_small w y Hy).
  replace (Z.lor (uw w x) (uw w y)) with (uw w (Z.lor x y)); [by apply uw_range|].
  apply Z.bits_inj'. intros i Hi. rewrite Z.lor_spec, !testbit_uw, Z.lor_spec by lia.
  by destruct (i <? w).
Qed.

Lemma lor_shift_add hi lo n :
  0 <= n -> in_u n lo -> Z.lor (Z.shiftl hi n) lo = hi * 2 ^ n + lo.
Proof.
  intros Hn Hl. rewrite <- Z.shiftl_mul_pow2 by lia. rewrite <- Z.add_lor_land.
  replace (Z.land (Z.shiftl hi n) lo) with 0; [lia|]. apply Z.bits_inj'. intros i Hi.
  bb_rewrite. destruct (Z.ltb_spec i n).
  - by rewrite (Z.testbit_neg_r hi) by lia.
  - rewrite (testbit_in_u n lo i) by (done || lia). by rewrite andb_false_r.
Qed.

(** ** Arrays: a C array of words as a list; an index outside it reads 0 and
    writes nothing (the code never does either: indices are bit-fields). *)
Definition arr_get (l : list Z) (i : Z) : Z := default 0 (l !! Z.to_nat i).
Definition arr_set (l : list Z) (i v : Z) : list Z := <[Z.to_nat i := v]> l.
Arguments arr_get : simpl never.
Arguments arr_set : simpl never.

Lemma length_arr_set l i v : length (arr_set l i v) = length l.
Proof. apply length_insert. Qed.

Lemma arr_get_set_eq l i v :
  0 <= i < Z.of_nat (length l) -> arr_get (arr_set l i v) i = v.
Proof.
  intros. unfold arr_get, arr_set. rewrite list_lookup_insert_eq by lia. done.
Qed.

Lemma arr_get_set_ne l i j v :
  0 <= i -> 0 <= j -> i <> j -> arr_get (arr_set l i v) j = arr_get l j.
Proof.
  intros. unfold arr_get, arr_set. rewrite list_lookup_insert_ne by lia. done.
Qed.

Lemma Forall_arr_set (P : Z -> Prop) l i v :
  Forall P l -> P v -> Forall P (arr_set l i v).
Proof. intros. by apply Forall_insert. Qed.

Lemma Forall_arr_get (P : Z -> Prop) l i : P 0 -> Forall P l -> P (arr_get l i).
Proof.
  intros H0 Hl. unfold arr_get.
  destruct (l !! Z.to_nat i) as [x|] eqn:E; [|done].
  cbn. by eapply Forall_lookup_1.
Qed.

(** ** Effects

    Emulator code reads and writes one global state, may [goto exit] out of an
    instruction handler, and may end the process or the run. *)
Inductive halt : Type :=
| HAssert       (** assert(3) failed: abort() *)
| HPanic        (** panic() or Assert(): exit(-1) *)
| HCPUAssert    (** CPUAssert(): CPUAbort(), i.e. longjmp in gdb mode, abort() otherwise *)
| HExit         (** nemu_exit(): exit(0) *)
| HUndefined.   (** undefined behaviour of C (division trap, oversized shift, ...) *)

#[global] Instance halt_eq_dec : EqDecision halt.
Proof. solve_decision. Defined.

Inductive res (S A : Type) : Type :=
| Ok (a : A) (s : S)      (** normal completion *)
| Exit (s : S)            (** goto exit *)
| Stop (h : halt) (s : S) (** the process or the run ends *).
Arguments Ok {S A} a s.
Arguments Exit {S A} s.
Arguments Stop {S A} h s.

Definition M (S A : Type) : Type := S -> res S A.

Definition ret {S A} (a : A) : M S A := fun s => Ok a s.

Definition bind {S A B} (m : M S A) (k : A -> M S B) : M S B :=
  fun s => match m s with
           | Ok a s' => k a s'
           | Exit s' => Exit s'
           | Stop h s' => Stop h s'
           end.

Definition get {S} : M S S := fun s => Ok s s.
Definition gets {S A} (f : S -> A) : M S A := fun s => Ok (f s) s.
Definition modify {S} (f : S -> S) : M S unit := fun s => Ok tt (f s).
Definition stop {S A} (h : halt) : M S A := fun s => Stop h s.
Definition goto_exit {S A} : M S A := fun s => Exit s.
Definition when {S} (b : bool) (m : M S unit) : M S unit := if b then m else ret tt.
Definition ensure {S} (b : bool) (h : halt) : M S unit := if b then ret tt else stop h.

(** A computation on a part of the state. *)
Definition zoom {S T A} (part : S -> T) (put : T -> S -> S) (k : M T A) : M S A := fun s =>
  match k (part s) with
  | Ok a t => Ok a (put t s)
  | Exit t => Exit (put t s)
  | Stop h t => Stop h (put t s)
  end.

Notation "'let!' x ':=' m 'in' k" := (bind m (fun x => k))
  (at level 10, x name, m at level 100, k at level 200,
   format "'[v' 'let!'  x  ':='  m  'in' '/' k ']'") : nemu_scope.
Notation "m ;; k" := (bind m (fun _ => k))
  (at level 100, right associativity) : nemu_scope.

(** The state a computation leaves, on whatever path. *)
Definition st {S A} (r : res S A) : S :=
  match r with Ok _ s => s | Exit s => s | Stop _ s => s end.

(** [keeps R m]: every run of [m] relates its initial and final states by [R]. An
    invariant [I] is kept when [keeps (inv I) m]. *)
Definition keeps {S A} (R : relation S) (m : M S A) : Prop := forall s, R s (st (m s)).
Definition inv {S} (I : S -> Prop) : relation S := fun s s' => I s -> I s'.

#[global] Instance inv_preorder {S} (I : S -> Prop) : PreOrder (inv I).
Proof. split; unfold inv; [intros ? ?|intros ? ? ? ? ? ?]; auto. Qed.

Section Keeps.
Context {S : Type} (R : relation S) `{!PreOrder R}.

Lemma keeps_ret {A} (a : A) : keeps R (ret a).
Proof. intros s. cbn. reflexivity. Qed.

Lemma keeps_get : keeps R get.
Proof. intros s. cbn. reflexivity. Qed.

Lemma keeps_gets {A} (f : S -> A) : keeps R (gets f).
Proof. intros s. cbn. reflexivity. Qed.

Lemma keeps_stop {A} h : keeps R (stop (A := A) h).
Proof. intros s. cbn. reflexivity. Qed.

Lemma keeps_goto_exit {A} : keeps R (goto_exit (A := A)).
Proof. intros s. cbn. reflexivity. Qed.

Lemma keeps_modify f : (forall s, R s (f s)) -> keeps R (modify f).
Proof. intros H s. cbn. apply H. Qed.

Lemma keeps_bind {A B} (m : M S A) (k : A -> M S B) :
  keeps R m -> (forall a, keeps R (k a)) -> keeps R (bind m k).
Proof.
  intros Hm Hk s. unfold bind. specialize (Hm s).
  destruct (m s) as [a s'|s'|h s']; cbn in *; [|done|done].
  etransitivity; [exact Hm|apply Hk].
Qed.

Lemma keeps_if {A} (b : bool) (m1 m2 : M S A) :
  keeps R m1 -> keeps R m2 -> keeps R (if b then m1 else m2).
Proof. by destruct b. Qed.

Lemma keeps_when b m : keeps R m -> keeps R (when b m).
Proof. intros. apply keeps_if; [done|apply keeps_ret]. Qed.

Lemma keeps_ensure b h : keeps R (ensure b h).
Proof. apply keeps_if; [apply keeps_ret|apply keeps_stop]. Qed.
End Keeps.

#[export] Hint Resolve keeps_ret keeps_get keeps_gets keeps_stop keeps_goto_exit
  keeps_bind keeps_if keeps_when keeps_ensure : keeps.
#[export] Hint Extern 0 (PreOrder _) => exact _ : keeps.

(** Running a computation forward. *)
Lemma bind_ok {S A B} (m : M S A) (k : A -> M S B) s a s' :
  m s = Ok a s' -> bind m k s = k a s'.
Proof. intros H. unfold bind. by rewrite H. Qed.

Lemma zoom_ok {S T A} (part : S -> T) put (k : M T A) s a t :
  k (part s) = Ok a t -> zoom part put k s = Ok a (put t s).
Proof. intros H. unfold zoom. by rewrite H. Qed.

Lemma bind_exit {S A B} (m : M S A) (k : A -> M S B) s s' :
  m s = Exit s' -> bind m k s = Exit s'.
Proof. intros H. unfold bind. by rewrite H. Qed.

Lemma bind_stop {S A B} (m : M S A) (k : A -> M S B) s h s' :
  m s = Stop h s' -> bind m k s = Stop h s'.
Proof. intros H. unfold bind. by rewrite H. Qed.
