(* ===== verification/Config.v ===== *)
(** * Build configuration

    The CONFIG_ options of Kconfig that change the behaviour of the modelled
    code, as a class, so that every operation is stated for all builds at once,
    and the defconfigs of configs/ as instances.  Options that are unset in all
    four defconfigs (INSTR_PERF, ELF_PERF, FUNCTION_TRACE_LOG, DUMP_SYSCALL,
    CHECK_IMAGE, NEMU_DISK and the cache statistics) are taken as 0 throughout, and the
    devices that every machine of Kconfig selects (BRAM, DDR, NEMU_TRAP, XLNX_ULITE) as
    present. *)
From S2P Require Import Prelude.

Class Config : Type := mkConfig {
  CONFIG_DELAYSLOT : bool;
  CONFIG_EXCEPTION : bool;
  CONFIG_PAGING : bool;
  CONFIG_INTR : bool;
  CONFIG_MARCH_NOOP : bool;
  CONFIG_MMU_CACHE : bool;
  CONFIG_DECODE_CACHE : bool;
  CONFIG_INSTR_LOG : bool;
  CONFIG_DIFF_WITH_QEMU : bool;
  CONFIG_KERNEL_DEBUG_SERIAL : bool;
  CONFIG_GRAPHICS : bool;
  CONFIG_CMDLINE_ADDR : Z;
  CONFIG_BRAM_BASE : Z;
  CONFIG_DDR_BASE : Z;
  CONFIG_NEMU_TRAP_BASE : Z;
  CONFIG_NEMU_CLOCK_BASE : Z;
  CONFIG_XLNX_ULITE_BASE : Z;
  CONFIG_XLNX_SPI_BASE : Z;
  CONFIG_NEMU_PMU_BASE : Z;
  CONFIG_NEMU_KEYBOARD_BASE : Z;
  CONFIG_NEMU_VGA_BASE : Z;
  CONFIG_NEMU_VGA_CTRL_BASE : Z;
  CONFIG_NEMU_CLOCK : bool;
  CONFIG_XLNX_SPI : bool;
  CONFIG_NEMU_PMU : bool;
  CONFIG_NEMU_KEYBOARD : bool;
  CONFIG_NEMU_VGA : bool
}.

(** configs/mips32r1_defconfig: delay slots, exceptions, paging, interrupts, no
    window. *)
Definition mips32r1_defconfig : Config := {|
  CONFIG_DELAYSLOT := true; CONFIG_EXCEPTION := true; CONFIG_PAGING := true;
  CONFIG_INTR := true; CONFIG_MARCH_NOOP := false; CONFIG_MMU_CACHE := false;
  CONFIG_DECODE_CACHE := false; CONFIG_INSTR_LOG := false; CONFIG_DIFF_WITH_QEMU := false;
  CONFIG_KERNEL_DEBUG_SERIAL := true; CONFIG_GRAPHICS := false;
  CONFIG_CMDLINE_ADDR := 0xbfc10000;
  CONFIG_BRAM_BASE := 0x1fc00000; CONFIG_DDR_BASE := 0x00000000;
  CONFIG_NEMU_TRAP_BASE := 0x10000000; CONFIG_NEMU_CLOCK_BASE := 0x10002000;
  CONFIG_XLNX_ULITE_BASE := 0x1fe50000; CONFIG_XLNX_SPI_BASE := 0x1fe80000;
  CONFIG_NEMU_PMU_BASE := 0x1fe95000; CONFIG_NEMU_KEYBOARD_BASE := 0x1fe94000;
  CONFIG_NEMU_VGA_BASE := 0x10400000; CONFIG_NEMU_VGA_CTRL_BASE := 0x10003000;
  CONFIG_NEMU_CLOCK := true; CONFIG_XLNX_SPI := true; CONFIG_NEMU_PMU := true;
  CONFIG_NEMU_KEYBOARD := false; CONFIG_NEMU_VGA := false |}.

(** configs/noop_defconfig: the build compared with the noop core; no interrupts,
    a window, instruction logging. *)
Definition noop_defconfig : Config := {|
  CONFIG_DELAYSLOT := true; CONFIG_EXCEPTION := true; CONFIG_PAGING := true;
  CONFIG_INTR := false; CONFIG_MARCH_NOOP := true; CONFIG_MMU_CACHE := false;
  CONFIG_DECODE_CACHE := false; CONFIG_INSTR_LOG := true; CONFIG_DIFF_WITH_QEMU := false;
  CONFIG_KERNEL_DEBUG_SERIAL := true; CONFIG_GRAPHICS := true;
  CONFIG_CMDLINE_ADDR := 0xbfc10000;
  CONFIG_BRAM_BASE := 0x1fc00000; CONFIG_DDR_BASE := 0x00000000;
  CONFIG_NEMU_TRAP_BASE := 0x10000000; CONFIG_NEMU_CLOCK_BASE := 0x10002000;
  CONFIG_XLNX_ULITE_BASE := 0x1fe50000; CONFIG_XLNX_SPI_BASE := 0x1fe80000;
  CONFIG_NEMU_PMU_BASE := 0x1fe95000; CONFIG_NEMU_KEYBOARD_BASE := 0x1fe94000;
  CONFIG_NEMU_VGA_BASE := 0x10400000; CONFIG_NEMU_VGA_CTRL_BASE := 0x10003000;
  CONFIG_NEMU_CLOCK := true; CONFIG_XLNX_SPI := true; CONFIG_NEMU_PMU := true;
  CONFIG_NEMU_KEYBOARD := true; CONFIG_NEMU_VGA := true |}.

(** mips32r1_defconfig with the MMU cache (CONFIG_MMU_CACHE) turned on, the build
    in which the translation cache is exercised together with paging. *)
Definition mips32r1_mmu_cache : Config := {|
  CONFIG_DELAYSLOT := true; CONFIG_EXCEPTION := true; CONFIG_PAGING := true;
  CONFIG_INTR := true; CONFIG_MARCH_NOOP := false; CONFIG_MMU_CACHE := true;
  CONFIG_DECODE_CACHE := false; CONFIG_INSTR_LOG := false; CONFIG_DIFF_WITH_QEMU := false;
  CONFIG_KERNEL_DEBUG_SERIAL := true; CONFIG_GRAPHICS := false;
  CONFIG_CMDLINE_ADDR := 0xbfc10000;
  CONFIG_BRAM_BASE := 0x1fc00000; CONFIG_DDR_BASE := 0x00000000;
  CONFIG_NEMU_TRAP_BASE := 0x10000000; CONFIG_NEMU_CLOCK_BASE := 0x10002000;
  CONFIG_XLNX_ULITE_BASE := 0x1fe50000; CONFIG_XLNX_SPI_BASE := 0x1fe80000;
  CONFIG_NEMU_PMU_BASE := 0x1fe95000; CONFIG_NEMU_KEYBOARD_BASE := 0x1fe94000;
  CONFIG_NEMU_VGA_BASE := 0x10400000; CONFIG_NEMU_VGA_CTRL_BASE := 0x10003000;
  CONFIG_NEMU_CLOCK := true; CONFIG_XLNX_SPI := true; CONFIG_NEMU_PMU := true;
  CONFIG_NEMU_KEYBOARD := false; CONFIG_NEMU_VGA := false |}.

(** configs/microbench_defconfig: no delay slots, exceptions, paging or interrupts; both
    caches and a window. *)
Definition microbench_defconfig : Config := {|
  CONFIG_DELAYSLOT := false; CONFIG_EXCEPTION := false; CONFIG_PAGING := false;
  CONFIG_INTR := false; CONFIG_MARCH_NOOP := false; CONFIG_MMU_CACHE := true;
  CONFIG_DECODE_CACHE := true; CONFIG_INSTR_LOG := false; CONFIG_DIFF_WITH_QEMU := false;
  CONFIG_KERNEL_DEBUG_SERIAL := false; CONFIG_GRAPHICS := true;
  CONFIG_CMDLINE_ADDR := 0xbfc10000;
  CONFIG_BRAM_BASE := 0x1fc00000; CONFIG_DDR_BASE := 0x00000000;
  CONFIG_NEMU_TRAP_BASE := 0x10000000; CONFIG_NEMU_CLOCK_BASE := 0x10002000;
  CONFIG_XLNX_ULITE_BASE := 0x1fe50000; CONFIG_XLNX_SPI_BASE := 0x1fe80000;
  CONFIG_NEMU_PMU_BASE := 0x1fe95000; CONFIG_NEMU_KEYBOARD_BASE := 0x1fe94000;
  CONFIG_NEMU_VGA_BASE := 0x10400000; CONFIG_NEMU_VGA_CTRL_BASE := 0x10003000;
  CONFIG_NEMU_CLOCK := true; CONFIG_XLNX_SPI := false; CONFIG_NEMU_PMU := false;
  CONFIG_NEMU_KEYBOARD := false; CONFIG_NEMU_VGA := true |}.
