(* ===== verification/Reg.v ===== *)
(** * Registers (include/cpu/reg.h)

    The CP0 register file with its bit-field views, the instruction word, the
    floating-point control register and the CPU state. *)
From S2P Require Import Prelude Config.

Definition CPU_INIT_PC : Z := 0xbfc00000.

(** ** CP0 register numbers *)
Definition CP0_RESERVED_BASE : Z := 0.
Definition CP0_RESERVED_SERIAL : Z := 1.
Definition CP0_RESERVED_CHECK : Z := 2.
Definition CP0_RESERVED_PRINT_REGISTERS : Z := 3.
Definition CP0_RESERVED_PRINT_INSTR_QUEUE : Z := 4.
Definition CP0_RESERVED_TOGGLE_COMMITS : Z := 5.
Definition CP0_RESERVED_HIT_TRAP : Z := 6.

Definition CP0_INDEX : Z := 0.
Definition CP0_RANDOM : Z := 1.
Definition CP0_ENTRY_LO0 : Z := 2.
Definition CP0_ENTRY_LO1 : Z := 3.
Definition CP0_CONTEXT : Z := 4.
Definition CP0_PAGEMASK : Z := 5.
Definition CP0_WIRED : Z := 6.
Definition CP0_RESERVED : Z := 7.
Definition CP0_BADVADDR : Z := 8.
Definition CP0_COUNT : Z := 9.
Definition CP0_ENTRY_HI : Z := 10.
Definition CP0_COMPARE : Z := 11.
Definition CP0_STATUS : Z := 12.
Definition CP0_CAUSE : Z := 13.
Definition CP0_EPC : Z := 14.
Definition CP0_PRID : Z := 15.
Definition CP0_EBASE : Z := 15.
Definition CP0_CONFIG : Z := 16.
Definition CP0_ErrorEPC : Z := 30.
Definition CP0_PRID_SEL : Z := 0.
Definition CP0_EBASE_SEL : Z := 1.
Definition CU0_ENABLE : Z := 1.

(** ** Exceptions *)
Definition EXC_INTR : Z := 0.
Definition EXC_TLBM : Z := 1.
Definition EXC_TLBL : Z := 2.
Definition EXC_TLBS : Z := 3.
Definition EXC_AdEL : Z := 4.
Definition EXC_AdES : Z := 5.
Definition EXC_SYSCALL : Z := 8.
Definition EXC_BP : Z := 9.
Definition EXC_RI : Z := 10.
Definition EXC_OV : Z := 12.
Definition EXC_TRAP : Z := 13.
Definition EX_TLB_REFILL : Z := 7.
Definition EX_TLB_INVALID : Z := 8.
Definition EX_TLB_MODIFIED : Z := 9.
Definition MAKE_EX (EX CODE : Z) : Z := Z.lor (Z.shiftl EX 16) CODE.

(** ** Bit-field layouts

    A field of a CP0 register: register number, select and bits. *)
Record cp0_field := mkCp0 { c_reg : Z; c_sel : Z; c_fld : field }.

(** cp0_status_t *)
Definition status_IE := mkCp0 CP0_STATUS 0 (mkField 0 1).
Definition status_EXL := mkCp0 CP0_STATUS 0 (mkField 1 1).
Definition status_ERL := mkCp0 CP0_STATUS 0 (mkField 2 1).
Definition status_R0 := mkCp0 CP0_STATUS 0 (mkField 3 1).
Definition status_UM := mkCp0 CP0_STATUS 0 (mkField 4 1).
Definition status_UX := mkCp0 CP0_STATUS 0 (mkField 5 1).
Definition status_SX := mkCp0 CP0_STATUS 0 (mkField 6 1).
Definition status_KX := mkCp0 CP0_STATUS 0 (mkField 7 1).
Definition status_IM := mkCp0 CP0_STATUS 0 (mkField 8 8).
Definition status_Impl := mkCp0 CP0_STATUS 0 (mkField 16 2).
Definition status_NMI := mkCp0 CP0_STATUS 0 (mkField 19 1).
Definition status_SR := mkCp0 CP0_STATUS 0 (mkField 20 1).
Definition status_TS := mkCp0 CP0_STATUS 0 (mkField 21 1).
Definition status_BEV := mkCp0 CP0_STATUS 0 (mkField 22 1).
Definition status_PX := mkCp0 CP0_STATUS 0 (mkField 23 1).
Definition status_MX := mkCp0 CP0_STATUS 0 (mkField 24 1).
Definition status_RE := mkCp0 CP0_STATUS 0 (mkField 25 1).
Definition status_FR := mkCp0 CP0_STATUS 0 (mkField 26 1).
Definition status_RP := mkCp0 CP0_STATUS 0 (mkField 27 1).
Definition status_CU := mkCp0 CP0_STATUS 0 (mkField 28 4).

(** cp0_cause_t *)
Definition cause_ExcCode := mkCp0 CP0_CAUSE 0 (mkField 2 5).
Definition cause_IP := mkCp0 CP0_CAUSE 0 (mkField 8 8).
Definition cause_WP := mkCp0 CP0_CAUSE 0 (mkField 22 1).
Definition cause_IV := mkCp0 CP0_CAUSE 0 (mkField 23 1).
Definition cause_PCI := mkCp0 CP0_CAUSE 0 (mkField 26 1).
Definition cause_DC := mkCp0 CP0_CAUSE 0 (mkField 27 1).
Definition cause_CE := mkCp0 CP0_CAUSE 0 (mkField 28 2).
Definition cause_TI := mkCp0 CP0_CAUSE 0 (mkField 30 1).
Definition cause_BD := mkCp0 CP0_CAUSE 0 (mkField 31 1).

(** cp0_config_t and cp0_config1_t *)
Definition config_K0 := mkCp0 CP0_CONFIG 0 (mkField 0 3).
Definition config_MT := mkCp0 CP0_CONFIG 0 (mkField 7 3).
Definition config_AR := mkCp0 CP0_CONFIG 0 (mkField 10 3).
Definition config_AT := mkCp0 CP0_CONFIG 0 (mkField 13 2).
Definition config_BE := mkCp0 CP0_CONFIG 0 (mkField 15 1).
Definition config_Impl := mkCp0 CP0_CONFIG 0 (mkField 16 15).
Definition config_M := mkCp0 CP0_CONFIG 0 (mkField 31 1).
Definition config1_FP := mkCp0 CP0_CONFIG 1 (mkField 0 1).
Definition config1_EP := mkCp0 CP0_CONFIG 1 (mkField 1 1).
Definition config1_CA := mkCp0 CP0_CONFIG 1 (mkField 2 1).
Definition config1_WR := mkCp0 CP0_CONFIG 1 (mkField 3 1).
Definition config1_PC := mkCp0 CP0_CONFIG 1 (mkField 4 1).
Definition config1_MD := mkCp0 CP0_CONFIG 1 (mkField 5 1).
Definition config1_C2 := mkCp0 CP0_CONFIG 1 (mkField 6 1).
Definition config1_DA := mkCp0 CP0_CONFIG 1 (mkField 7 3).
Definition config1_DL := mkCp0 CP0_CONFIG 1 (mkField 10 3).
Definition config1_DS := mkCp0 CP0_CONFIG 1 (mkField 13 3).
Definition config1_IA := mkCp0 CP0_CONFIG 1 (mkField 16 3).
Definition config1_IL := mkCp0 CP0_CONFIG 1 (mkField 19 3).
Definition config1_IS := mkCp0 CP0_CONFIG 1 (mkField 22 3).
Definition config1_MMU_size := mkCp0 CP0_CONFIG 1 (mkField 25 6).
Definition config1_M := mkCp0 CP0_CONFIG 1 (mkField 31 1).

(** cp0_pagemask_t, cp0_entry_hi_t, cp0_entry_lo_t, cp0_context_t, cp0_index_t *)
Definition PABITS : Z := 32.
Definition TLB_BITS : Z := 5.
Definition NR_TLB_ENTRY : Z := 2 ^ TLB_BITS.
Definition pagemask_mask := mkCp0 CP0_PAGEMASK 0 (mkField 13 16).
Definition entry_hi_asid := mkCp0 CP0_ENTRY_HI 0 (mkField 0 8).
Definition entry_hi_vpn := mkCp0 CP0_ENTRY_HI 0 (mkField 13 19).
Definition entry_lo_g (r : Z) := mkCp0 r 0 (mkField 0 1).
Definition entry_lo_v (r : Z) := mkCp0 r 0 (mkField 1 1).
Definition entry_lo_d (r : Z) := mkCp0 r 0 (mkField 2 1).
Definition entry_lo_c (r : Z) := mkCp0 r 0 (mkField 3 3).
Definition entry_lo_pfn (r : Z) := mkCp0 r 0 (mkField 6 (PABITS - 12)).
Definition context_BadVPN2 := mkCp0 CP0_CONTEXT 0 (mkField 4 19).
Definition context_PTEBase := mkCp0 CP0_CONTEXT 0 (mkField 23 9).
Definition index_idx := mkCp0 CP0_INDEX 0 (mkField 0 TLB_BITS).
Definition index_p := mkCp0 CP0_INDEX 0 (mkField 31 1).

(** ** The CP0 register file: the union cp0_t seen as cpr[32][8], row by row *)
Definition cpr_index (reg sel : Z) : Z := 8 * reg + sel.
Definition cpr_get (c : list Z) (reg sel : Z) : Z := arr_get c (cpr_index reg sel).
Definition cpr_set (reg sel v : Z) (c : list Z) : list Z :=
  arr_set c (cpr_index reg sel) (u32 v).

Definition cp0_get (f : cp0_field) (c : list Z) : Z :=
  bf_get (c_fld f) (cpr_get c (c_reg f) (c_sel f)).
Definition cp0_set (f : cp0_field) (v : Z) (c : list Z) : list Z :=
  cpr_set (c_reg f) (c_sel f)
    (bf_set (c_fld f) v (cpr_get c (c_reg f) (c_sel f))) c.

(** ** General purpose registers *)
Definition R_v0 : Z := 2.
Definition R_a0 : Z := 4.
Definition R_a1 : Z := 5.
Definition R_a2 : Z := 6.
Definition R_ra : Z := 31.

(** ** Floating-point control register (fcsr_t) *)
Definition fcsr_RM := mkField 0 2.
Definition fcsr_flags := mkField 2 5.
Definition fcsr_enables := mkField 7 5.
Definition fcsr_causes := mkField 12 6.
Definition fcsr_unused := mkField 18 5.
Definition fcsr_fcc0 := mkField 23 1.
Definition fcsr_fs := mkField 24 1.
Definition fcsr_fcc1_7 := mkField 25 7.

(** ** CPU state.  [fpr32i] is the union of the 32 single and 16 double registers:
    register pair 2k, 2k+1 is the little-endian double k. *)
Record CPU_state := mkCPU {
  gpr : list Z;
  hi : Z;
  lo : Z;
  cp0 : list Z;
  pc : Z;
  br_target : Z;
  is_delayslot : bool;
  has_exception : bool;
  fpr32i : list Z;
  fcsr : Z
}.

Definition set_gpr v c := mkCPU v (hi c) (lo c) (cp0 c) (pc c) (br_target c) (is_delayslot c) (has_exception c) (fpr32i c) (fcsr c).
Definition set_hi v c := mkCPU (gpr c) (u32 v) (lo c) (cp0 c) (pc c) (br_target c) (is_delayslot c) (has_exception c) (fpr32i c) (fcsr c).
Definition set_lo v c := mkCPU (gpr c) (hi c) (u32 v) (cp0 c) (pc c) (br_target c) (is_delayslot c) (has_exception c) (fpr32i c) (fcsr c).
Definition set_cp0 v c := mkCPU (gpr c) (hi c) (lo c) v (pc c) (br_target c) (is_delayslot c) (has_exception c) (fpr32i c) (fcsr c).
Definition set_pc v c := mkCPU (gpr c) (hi c) (lo c) (cp0 c) (u32 v) (br_target c) (is_delayslot c) (has_exception c) (fpr32i c) (fcsr c).
Definition set_br_target v c := mkCPU (gpr c) (hi c) (lo c) (cp0 c) (pc c) (u32 v) (is_delayslot c) (has_exception c) (fpr32i c) (fcsr c).
Definition set_is_delayslot v c := mkCPU (gpr c) (hi c) (lo c) (cp0 c) (pc c) (br_target c) v (has_exception c) (fpr32i c) (fcsr c).
Definition set_has_exception v c := mkCPU (gpr c) (hi c) (lo c) (cp0 c) (pc c) (br_target c) (is_delayslot c) v (fpr32i c) (fcsr c).
Definition set_fpr32i v c := mkCPU (gpr c) (hi c) (lo c) (cp0 c) (pc c) (br_target c) (is_delayslot c) (has_exception c) v (fcsr c).
Definition set_fcsr v c := mkCPU (gpr c) (hi c) (lo c) (cp0 c) (pc c) (br_target c) (is_delayslot c) (has_exception c) (fpr32i c) (u32 v).

(** Assignments to array elements and to CP0 fields. *)
Definition gpr_at (c : CPU_state) (i : Z) : Z := arr_get (gpr c) i.
Definition put_gpr (i v : Z) (c : CPU_state) : CPU_state :=
  set_gpr (arr_set (gpr c) i (u32 v)) c.
Definition put_cp0 (f : cp0_field) (v : Z) (c : CPU_state) : CPU_state :=
  set_cp0 (cp0_set f v (cp0 c)) c.
Definition put_cpr (reg sel v : Z) (c : CPU_state) : CPU_state :=
  set_cp0 (cpr_set reg sel v (cp0 c)) c.
Definition put_fpr32i (i v : Z) (c : CPU_state) : CPU_state :=
  set_fpr32i (arr_set (fpr32i c) i (u32 v)) c.
Definition fpr64i_at (c : CPU_state) (k : Z) : Z :=
  Z.lor (arr_get (fpr32i c) (2 * k)) (Z.shiftl (arr_get (fpr32i c) (2 * k + 1)) 32).
Definition put_fpr64i (k v : Z) (c : CPU_state) : CPU_state :=
  put_fpr32i (2 * k + 1) (Z.shiftr (u64 v) 32) (put_fpr32i (2 * k) v c).

(** ** FPU condition codes; [None] is abort() *)
Definition getFPCondCode (cc : Z) (fc : Z) : option Z :=
  if cc =? 0 then Some (bf_get fcsr_fcc0 fc)
  else if cc <? 8 then
    Some (Z.land (Z.shiftr (bf_get fcsr_fcc1_7 fc) (cc - 1)) 1)
  else None.

Definition setFPCondCode (cc : Z) (v : bool) (fc : Z) : Z :=
  if cc =? 0 then bf_set fcsr_fcc0 (b2z v) fc
  else if cc <? 8 then
    let mask := u8 (Z.lnot (Z.shiftl 1 (cc - 1))) in
    bf_set fcsr_fcc1_7
      (Z.lor (Z.land (bf_get fcsr_fcc1_7 fc) mask) (Z.shiftl (b2z v) (cc - 1))) fc
  else fc.

(** ** Instruction words (union Inst) *)
Definition inst_func := bf_get (mkField 0 6).
Definition inst_shamt := bf_get (mkField 6 5).
Definition inst_rd := bf_get (mkField 11 5).
Definition inst_rt := bf_get (mkField 16 5).
Definition inst_rs := bf_get (mkField 21 5).
Definition inst_op := bf_get (mkField 26 6).
Definition inst_uimm := bf_get (mkField 0 16).
Definition inst_simm (w : Z) : Z := s16 (bf_get (mkField 0 16) w).
Definition inst_addr := bf_get (mkField 0 26).
Definition inst_sel := bf_get (mkField 0 3).
Definition inst_fd := bf_get (mkField 6 5).
Definition inst_fs := bf_get (mkField 11 5).
Definition inst_ft := bf_get (mkField 16 5).
Definition inst_fmt := bf_get (mkField 21 5).
Definition inst_fd64 := bf_get (mkField 7 4).
Definition inst_fs64 := bf_get (mkField 12 4).
Definition inst_ft64 := bf_get (mkField 17 4).
Definition inst_cond := bf_get (mkField 0 4).
Definition inst_fc := bf_get (mkField 4 2).
Definition inst_A0 := bf_get (mkField 6 1).
Definition inst_cc1 := bf_get (mkField 8 3).
Definition inst_tf := bf_get (mkField 16 1).
Definition inst_nd := bf_get (mkField 17 1).
Definition inst_cc2 := bf_get (mkField 18 3).
Definition inst_bc := bf_get (mkField 21 5).

Definition FPU_FMT_S : Z := 16.
Definition FPU_FMT_D : Z := 17.
Definition FPU_FMT_W : Z := 20.

(** ** Operands of a handler

    With DECODE_CACHE=0 the macro [ops] is [&inst]: the operands are the fields of
    the fetched word. *)
Record operands := mkOps {
  o_rs : Z; o_rt : Z; o_rd : Z; o_shamt : Z; o_func : Z;
  o_uimm : Z; o_simm : Z; o_addr : Z; o_sel : Z;
  o_fs : Z; o_ft : Z; o_fd : Z; o_fs64 : Z; o_ft64 : Z; o_fd64 : Z;
  o_cc1 : Z; o_cc2 : Z; o_tf : Z; o_nd : Z
}.

Definition inst_ops (w : Z) : operands := {|
  o_rs := inst_rs w; o_rt := inst_rt w; o_rd := inst_rd w; o_shamt := inst_shamt w;
  o_func := inst_func w; o_uimm := inst_uimm w; o_simm := inst_simm w;
  o_addr := inst_addr w; o_sel := inst_sel w;
  o_fs := inst_fs w; o_ft := inst_ft w; o_fd := inst_fd w;
  o_fs64 := inst_fs64 w; o_ft64 := inst_ft64 w; o_fd64 := inst_fd64 w;
  o_cc1 := inst_cc1 w; o_cc2 := inst_cc2 w; o_tf := inst_tf w; o_nd := inst_nd w |}.

(** ** Well-formedness: every register holds a value of its C type *)
Record wf_cpu (c : CPU_state) : Prop := mkWfCpu {
  wf_gpr_len : length (gpr c) = 32%nat;
  wf_gpr : Forall is_u32 (gpr c);
  wf_hi : is_u32 (hi c);
  wf_lo : is_u32 (lo c);
  wf_cp0_len : length (cp0 c) = 256%nat;
  wf_cp0 : Forall is_u32 (cp0 c);
  wf_pc : is_u32 (pc c);
  wf_br_target : is_u32 (br_target c);
  wf_fpr_len : length (fpr32i c) = 32%nat;
  wf_fpr : Forall is_u32 (fpr32i c);
  wf_fcsr : is_u32 (fcsr c)
}.

Lemma is_u32_u32 x : is_u32 (u32 x).
Proof. by apply uw_range. Qed.

Lemma is_u32_0 : is_u32 0.
Proof. split; lia. Qed.
#[export] Hint Resolve is_u32_u32 is_u32_0 : words.

(** The state update of every register assignment keeps the types. *)
Ltac solve_wf_cpu :=
  intros []; constructor; cbn; unfold cp0_set, cpr_set;
  rewrite ?length_arr_set; try apply Forall_arr_set; auto with words.

Lemma wf_set_hi v c : wf_cpu c -> wf_cpu (set_hi v c).
Proof. solve_wf_cpu. Qed.
Lemma wf_set_lo v c : wf_cpu c -> wf_cpu (set_lo v c).
Proof. solve_wf_cpu. Qed.
Lemma wf_set_pc v c : wf_cpu c -> wf_cpu (set_pc v c).
Proof. solve_wf_cpu. Qed.
Lemma wf_set_br_target v c : wf_cpu c -> wf_cpu (set_br_target v c).
Proof. solve_wf_cpu. Qed.
Lemma wf_set_is_delayslot v c : wf_cpu c -> wf_cpu (set_is_delayslot v c).
Proof. solve_wf_cpu. Qed.
Lemma wf_set_has_exception v c : wf_cpu c -> wf_cpu (set_has_exception v c).
Proof. solve_wf_cpu. Qed.
Lemma wf_set_fcsr v c : wf_cpu c -> wf_cpu (set_fcsr v c).
Proof. solve_wf_cpu. Qed.
Lemma wf_put_gpr i v c : wf_cpu c -> wf_cpu (put_gpr i v c).
Proof. solve_wf_cpu. Qed.
Lemma wf_put_cpr r n v c : wf_cpu c -> wf_cpu (put_cpr r n v c).
Proof. solve_wf_cpu. Qed.
Lemma wf_put_cp0 f v c : wf_cpu c -> wf_cpu (put_cp0 f v c).
Proof. solve_wf_cpu. Qed.
Lemma wf_put_fpr32i i v c : wf_cpu c -> wf_cpu (put_fpr32i i v c).
Proof. solve_wf_cpu. Qed.
#[export] Hint Resolve wf_set_hi wf_set_lo wf_set_pc wf_set_br_target
  wf_set_is_delayslot wf_set_has_exception wf_set_fcsr wf_put_gpr wf_put_cpr
  wf_put_cp0 wf_put_fpr32i : words.

Lemma wf_put_fpr64i k v c : wf_cpu c -> wf_cpu (put_fpr64i k v c).
Proof. intros. unfold put_fpr64i. auto with words. Qed.
#[export] Hint Resolve wf_put_fpr64i : words.

Lemma gpr_at_u32 c i : wf_cpu c -> is_u32 (gpr_at c i).
Proof. intros []. apply (Forall_arr_get is_u32); auto with words. Qed.

Lemma cpr_get_u32 c r n : wf_cpu c -> is_u32 (cpr_get (cp0 c) r n).
Proof. intros []. apply (Forall_arr_get is_u32); auto with words. Qed.
#[export] Hint Resolve gpr_at_u32 cpr_get_u32 : words.

(** ** Reading back a register *)
Lemma gpr_put_eq c i v :
  wf_cpu c -> 0 <= i < 32 -> gpr_at (put_gpr i v c) i = u32 v.
Proof. intros [] ?. unfold gpr_at. cbn. rewrite arr_get_set_eq; [done|lia]. Qed.

Lemma gpr_put_ne c i j v :
  0 <= i -> 0 <= j -> i <> j -> gpr_at (put_gpr i v c) j = gpr_at c j.
Proof. intros. unfold gpr_at. cbn. by rewrite arr_get_set_ne. Qed.

(** A field whose register, select and bits are inside the register file. *)
Definition cp0_ok (f : cp0_field) : Prop :=
  0 <= c_reg f < 32 /\ 0 <= c_sel f < 8 /\
  0 <= f_lo (c_fld f) /\ 0 <= f_len (c_fld f) /\
  f_lo (c_fld f) + f_len (c_fld f) <= 32.

Ltac cp0_ok := unfold cp0_ok, NR_TLB_ENTRY, TLB_BITS, PABITS; cbn; lia.

Lemma cpr_get_set_eq c r n v :
  length c = 256%nat -> 0 <= r < 32 -> 0 <= n < 8 ->
  cpr_get (cpr_set r n v c) r n = u32 v.
Proof.
  intros. unfold cpr_get, cpr_set. rewrite arr_get_set_eq; [done|].
  unfold cpr_index. lia.
Qed.

Lemma cpr_get_set_ne c r n r' n' v :
  0 <= r < 32 -> 0 <= n < 8 -> 0 <= r' < 32 -> 0 <= n' < 8 ->
  (r, n) <> (r', n') -> cpr_get (cpr_set r n v c) r' n' = cpr_get c r' n'.
Proof.
  intros. unfold cpr_get, cpr_set. apply arr_get_set_ne; unfold cpr_index; try lia.
  intros E. assert (r = r') by lia. assert (n = n') by lia. congruence.
Qed.

Lemma cp0_get_set_eq f v c :
  cp0_ok f -> length c = 256%nat -> Forall is_u32 c ->
  cp0_get f (cp0_set f v c) = uw (f_len (c_fld f)) v.
Proof.
  intros (? & ? & ? & ? & ?) Hl Hc. unfold cp0_get, cp0_set.
  rewrite cpr_get_set_eq by done. rewrite uw_small; [by apply bf_get_set|].
  apply bf_set_range; [done..|]. apply (Forall_arr_get is_u32); auto with words.
Qed.

Lemma cp0_get_set_ne f g v c :
  cp0_ok f -> cp0_ok g -> length c = 256%nat -> Forall is_u32 c ->
  (c_reg f, c_sel f) <> (c_reg g, c_sel g) \/ bf_disjoint (c_fld f) (c_fld g) ->
  cp0_get f (cp0_set g v c) = cp0_get f c.
Proof.
  intros (? & ? & ? & ? & ?) (? & ? & ? & ? & ?) Hl Hc Hd. unfold cp0_get, cp0_set.
  destruct (decide ((c_reg g, c_sel g) = (c_reg f, c_sel f))) as [E|E].
  - injection E as E1 E2. rewrite E1, E2. rewrite cpr_get_set_eq by done.
    rewrite uw_small.
    + apply bf_get_set_ne; [done..|]. destruct Hd; [congruence|done].
    + apply bf_set_range; [done..|]. apply (Forall_arr_get is_u32); auto with words.
  - by rewrite cpr_get_set_ne.
Qed.

(** ** Reading CP0 through a chain of assignments *)
Definition cp0_apart (f g : cp0_field) : Prop :=
  (c_reg f, c_sel f) <> (c_reg g, c_sel g) \/ bf_disjoint (c_fld f) (c_fld g).

Section Cp0Chain.
Context (c : CPU_state) (Hc : wf_cpu c).

Lemma get_put_cp0_eq f v :
  cp0_ok f -> cp0_get f (cp0 (put_cp0 f v c)) = uw (f_len (c_fld f)) v.
Proof using Hc. intros. destruct Hc. by apply cp0_get_set_eq. Qed.

Lemma get_put_cp0_ne f g v :
  cp0_ok f -> cp0_ok g -> cp0_apart f g ->
  cp0_get f (cp0 (put_cp0 g v c)) = cp0_get f (cp0 c).
Proof using Hc. intros. destruct Hc. by apply cp0_get_set_ne. Qed.

Lemma get_put_cpr_ne f r n v :
  cp0_ok f -> 0 <= r < 32 -> 0 <= n < 8 -> (r, n) <> (c_reg f, c_sel f) ->
  cp0_get f (cp0 (put_cpr r n v c)) = cp0_get f (cp0 c).
Proof using Hc.
  intros (? & ? & ?) ???. unfold cp0_get. cbn. by rewrite cpr_get_set_ne.
Qed.

Lemma cpr_put_cpr_eq r n v :
  0 <= r < 32 -> 0 <= n < 8 -> cpr_get (cp0 (put_cpr r n v c)) r n = u32 v.
Proof using Hc. intros. destruct Hc. by apply cpr_get_set_eq. Qed.

Lemma cpr_put_cpr_ne r n r' n' v :
  0 <= r < 32 -> 0 <= n < 8 -> 0 <= r' < 32 -> 0 <= n' < 8 -> (r', n') <> (r, n) ->
  cpr_get (cp0 (put_cpr r' n' v c)) r n = cpr_get (cp0 c) r n.
Proof using Hc. intros. by apply cpr_get_set_ne. Qed.

Lemma cpr_put_cp0_ne r n f v :
  0 <= r < 32 -> 0 <= n < 8 -> cp0_ok f -> (c_reg f, c_sel f) <> (r, n) ->
  cpr_get (cp0 (put_cp0 f v c)) r n = cpr_get (cp0 c) r n.
Proof using Hc. intros ?? (? & ? & ?) ?. by apply cpr_get_set_ne. Qed.
End Cp0Chain.

(** [regs] computes what is read from a CPU state after assignments.  It opens the
    assignments to plain registers and rewrites reads of CP0 fields. *)
Ltac cp0_side :=
  first
    [ solve [auto 20 with words]
    | solve [cp0_ok]
    | solve [unfold cp0_apart, bf_disjoint; cbn;
             first [right; cbn; unfold TLB_BITS, PABITS; lia | left; vm_compute; congruence]]
    | solve [vm_compute; repeat split; congruence]
    | solve [cbn; lia] ].

Lemma cp0_set_pc v c : cp0 (set_pc v c) = cp0 c.
Proof. done. Qed.
Lemma cp0_set_br_target v c : cp0 (set_br_target v c) = cp0 c.
Proof. done. Qed.
Lemma cp0_set_is_delayslot v c : cp0 (set_is_delayslot v c) = cp0 c.
Proof. done. Qed.
Lemma cp0_set_has_exception v c : cp0 (set_has_exception v c) = cp0 c.
Proof. done. Qed.
Lemma cp0_put_gpr i v c : cp0 (put_gpr i v c) = cp0 c.
Proof. done. Qed.

Ltac regs :=
  repeat first
    [ rewrite cp0_set_pc | rewrite cp0_set_br_target | rewrite cp0_set_is_delayslot
    | rewrite cp0_set_has_exception | rewrite cp0_put_gpr
    | rewrite get_put_cp0_eq by cp0_side
    | rewrite get_put_cp0_ne by cp0_side
    | rewrite get_put_cpr_ne by cp0_side
    | rewrite cpr_put_cpr_eq by cp0_side
    | rewrite cpr_put_cpr_ne by cp0_side
    | rewrite cpr_put_cp0_ne by cp0_side ].
