(* ===== verification/Fifo.v ===== *)
(** * Ring buffers (include/utils/fifo.h)

    [fifo_type(type, len)] is a struct of a head, a size and an array.  The macros
    become functions on that struct, and the component's contract is a bounded
    first-in first-out list, [fifo_list], which every operation refines. *)
From S2P Require Import Prelude.

(** [head] and [size] are C unsigned; with both at most the capacity (1024 in every
    instance) their sum never wraps, so naturals are exact. *)
Record fifo (A : Type) := mkFifo { f_head : nat; f_size : nat; f_e : list A }.
Arguments mkFifo {A}.
Arguments f_head {A}.
Arguments f_size {A}.
Arguments f_e {A}.

Section Fifo.
Context {A : Type} (dflt : A).

(** A static fifo_type object: all bytes zero. *)
Definition fifo_zero (len : nat) : fifo A := mkFifo 0 0 (replicate len dflt).

Definition fifo_reset (q : fifo A) : fifo A := mkFifo 0 0 (f_e q).
Definition fifo_size (q : fifo A) : nat := f_size q.
Definition fifo_capacity (q : fifo A) : nat := length (f_e q).
#[global] Arguments fifo_capacity : simpl never.
Definition fifo_is_full (q : fifo A) : bool := (f_size q =? fifo_capacity q)%nat.
Definition fifo_is_empty (q : fifo A) : bool := (f_size q =? 0)%nat.

Definition fifo_push (ch : A) (q : fifo A) : fifo A :=
  let next := ((f_head q + f_size q) mod fifo_capacity q)%nat in
  if (f_size q <? fifo_capacity q)%nat
  then mkFifo (f_head q) (S (f_size q)) (<[next := ch]> (f_e q))
  else q.

Definition fifo_top (q : fifo A) : A := nth (f_head q) (f_e q) dflt.

Definition fifo_pop (q : fifo A) : A * fifo A :=
  let old_h := f_head q in
  let q' :=
    if (0 <? f_size q)%nat
    then mkFifo ((f_head q + 1) mod fifo_capacity q) (f_size q - 1) (f_e q)
    else q in
  (nth old_h (f_e q') dflt, q').

(** The elements in the order [fifo_foreach] visits them. *)
Definition fifo_list (q : fifo A) : list A :=
  map (fun i => nth ((f_head q + i) mod fifo_capacity q)%nat (f_e q) dflt)
      (seq 0 (f_size q)).

Definition fifo_wf (q : fifo A) : Prop :=
  (0 < fifo_capacity q)%nat /\ (f_head q < fifo_capacity q)%nat /\
  (f_size q <= fifo_capacity q)%nat.

(** Several pushes in a row, as the input routines of the devices do. *)
Definition fifo_push_all (l : list A) (q : fifo A) : fifo A :=
  fold_left (fun q ch => fifo_push ch q) l q.

(** ** Invariant *)
Lemma fifo_zero_wf len : (0 < len)%nat -> fifo_wf (fifo_zero len).
Proof.
  unfold fifo_wf, fifo_capacity. cbn. rewrite length_replicate. lia.
Qed.

Lemma fifo_reset_wf q : fifo_wf q -> fifo_wf (fifo_reset q).
Proof. unfold fifo_wf, fifo_capacity. cbn. lia. Qed.

Lemma fifo_push_capacity ch q : fifo_capacity (fifo_push ch q) = fifo_capacity q.
Proof.
  unfold fifo_push, fifo_capacity. case_match; [|done]. cbn. by rewrite length_insert.
Qed.

Lemma fifo_pop_capacity q : fifo_capacity (snd (fifo_pop q)) = fifo_capacity q.
Proof. unfold fifo_pop, fifo_capacity. cbn. by case_match. Qed.

Lemma fifo_push_wf ch q : fifo_wf q -> fifo_wf (fifo_push ch q).
Proof.
  intros (H1 & H2 & H3). unfold fifo_wf. rewrite fifo_push_capacity.
  unfold fifo_push. destruct (Nat.ltb_spec (f_size q) (fifo_capacity q)); cbn; lia.
Qed.

Lemma fifo_pop_wf q : fifo_wf q -> fifo_wf (snd (fifo_pop q)).
Proof.
  intros (H1 & H2 & H3). unfold fifo_wf. rewrite fifo_pop_capacity.
  unfold fifo_pop. cbn [snd]. destruct (Nat.ltb_spec 0 (f_size q)); cbn; [|lia].
  pose proof (Nat.mod_upper_bound (f_head q + 1) (fifo_capacity q)). lia.
Qed.

Lemma fifo_push_all_wf l q : fifo_wf q -> fifo_wf (fifo_push_all l q).
Proof. revert q. induction l as [|ch l IH]; intros q H; cbn; [done|]. by apply IH, fifo_push_wf. Qed.

(** ** Refinement to lists *)
Lemma length_fifo_list q : length (fifo_list q) = f_size q.
Proof. unfold fifo_list. by rewrite length_map, length_seq. Qed.

Lemma fifo_slot_inj q i j :
  fifo_wf q -> (i < fifo_capacity q)%nat -> (j < fifo_capacity q)%nat ->
  ((f_head q + i) mod fifo_capacity q = (f_head q + j) mod fifo_capacity q)%nat -> i = j.
Proof.
  intros (H1 & H2 & H3) Hi Hj E.
  set (c := fifo_capacity q) in *.
  assert (forall k, k < c -> (f_head q + k) mod c =
            if (f_head q + k <? c)%nat then f_head q + k else f_head q + k - c)%nat as F.
  { intros k Hk. destruct (Nat.ltb_spec (f_head q + k) c).
    - by apply Nat.mod_small.
    - replace (f_head q + k)%nat with (f_head q + k - c + 1 * c)%nat by lia.
      rewrite Nat.Div0.mod_add. rewrite Nat.mod_small by lia. lia. }
  rewrite !F in E by done.
  destruct (Nat.ltb_spec (f_head q + i) c), (Nat.ltb_spec (f_head q + j) c); lia.
Qed.

Lemma fifo_push_list ch q :
  fifo_wf q ->
  fifo_list (fifo_push ch q) =
  if fifo_is_full q then fifo_list q else fifo_list q ++ [ch].
Proof.
  intros Hwf. pose proof Hwf as (H1 & H2 & H3). unfold fifo_is_full.
  destruct (Nat.eqb_spec (f_size q) (fifo_capacity q)) as [E|E].
  { unfold fifo_push. destruct (Nat.ltb_spec (f_size q) (fifo_capacity q)); [lia|done]. }
  unfold fifo_list at 1. rewrite fifo_push_capacity. unfold fifo_push.
  destruct (Nat.ltb_spec (f_size q) (fifo_capacity q)); [|lia]. cbn [f_head f_size f_e].
  rewrite seq_S, map_app. cbn [map Nat.add]. f_equal.
  - apply map_ext_in. intros i Hi%in_seq. rewrite !nth_lookup.
    rewrite list_lookup_insert_ne; [done|]. intros Ei.
    apply fifo_slot_inj in Ei; [lia|done|lia|lia].
  - rewrite nth_lookup, list_lookup_insert_eq; [done|].
    apply Nat.mod_upper_bound. unfold fifo_capacity in *. lia.
Qed.

Lemma fifo_pop_list q :
  fifo_wf q ->
  match fifo_list q with
  | [] => snd (fifo_pop q) = q
  | x :: l => fst (fifo_pop q) = x /\ fifo_list (snd (fifo_pop q)) = l
  end.
Proof.
  intros Hwf. pose proof Hwf as (H1 & H2 & H3).
  unfold fifo_list at 1. destruct (f_size q) as [|n] eqn:En; cbn [seq map].
  { unfold fifo_pop. cbn. by rewrite En. }
  assert (snd (fifo_pop q) = mkFifo ((f_head q + 1) mod fifo_capacity q) n (f_e q)) as E.
  { unfold fifo_pop. rewrite En. cbn. f_equal. lia. }
  split.
  - rewrite Nat.add_0_r, (Nat.mod_small (f_head q)) by lia. unfold fifo_pop.
    by rewrite En.
  - rewrite E. unfold fifo_list. cbn. rewrite <- seq_shift, map_map.
    apply map_ext_in. intros i _. f_equal.
    rewrite Nat.Div0.add_mod_idemp_l. f_equal. lia.
Qed.

Lemma fifo_reset_list q : fifo_list (fifo_reset q) = [].
Proof. done. Qed.

Lemma fifo_is_empty_list q : fifo_is_empty q = true <-> fifo_list q = [].
Proof.
  unfold fifo_is_empty. rewrite Nat.eqb_eq. split.
  - intros E. unfold fifo_list. by rewrite E.
  - intros E%(f_equal length). by rewrite length_fifo_list in E.
Qed.

Lemma fifo_is_full_list q :
  fifo_is_full q = true <-> length (fifo_list q) = fifo_capacity q.
Proof. unfold fifo_is_full. rewrite Nat.eqb_eq, length_fifo_list. done. Qed.

Lemma fifo_top_list q x l : fifo_wf q -> fifo_list q = x :: l -> fifo_top q = x.
Proof.
  intros Hwf E. pose proof (fifo_pop_list q Hwf) as H. rewrite E in H.
  destruct H as [<- _]. unfold fifo_pop, fifo_top. cbn. by case_match.
Qed.

(** Pushing a list that fits appends it; what does not fit is dropped at the end. *)
Lemma fifo_push_all_list l q :
  fifo_wf q ->
  fifo_list (fifo_push_all l q) =
  fifo_list q ++ take (fifo_capacity q - f_size q) l.
Proof.
  revert q. induction l as [|ch l IH]; intros q Hwf; cbn.
  { by rewrite take_nil, app_nil_r. }
  rewrite IH by (by apply fifo_push_wf). rewrite fifo_push_capacity, fifo_push_list by done.
  pose proof Hwf as (H1 & H2 & H3). unfold fifo_is_full.
  destruct (Nat.eqb_spec (f_size q) (fifo_capacity q)) as [E|E].
  - unfold fifo_push. destruct (Nat.ltb_spec (f_size q) (fifo_capacity q)); [lia|].
    rewrite E, Nat.sub_diag. done.
  - replace (fifo_capacity q - f_size q)%nat with (S (fifo_capacity q - S (f_size q)))%nat by lia.
    cbn. rewrite <- app_assoc. cbn. do 3 f_equal.
    unfold fifo_push. destruct (Nat.ltb_spec (f_size q) (fifo_capacity q)); [done|lia].
Qed.
End Fifo.

#[export] Hint Resolve fifo_push_wf fifo_pop_wf fifo_reset_wf fifo_push_all_wf : words.
#[global] Arguments fifo_push : simpl never.
#[global] Arguments fifo_pop : simpl never.
#[global] Arguments fifo_top : simpl never.
