(* ===== verification/Ram.v ===== *)
(** * Memory devices (src/dev/bram.c, src/dev/ddr.c, include/device.h)

    Host byte arrays as finite maps from offsets to bytes (absent bytes are the
    zeroes of a static array), little-endian word access through pointers, and the
    two RAM devices.  The contract a RAM keeps towards the CPU is the class
    [RamDevice]. *)
From S2P Require Import Prelude.

(** ** Byte arrays *)
Definition ld8 (m : gmap Z Z) (a : Z) : Z := default 0 (m !! a).

(** The [n] bytes from [a], least significant first: a load through a pointer to
    an unsigned integer of that size on a little-endian host. *)
Fixpoint ld_bytes (m : gmap Z Z) (a : Z) (n : nat) : Z :=
  match n with
  | O => 0
  | S n => ld8 m a + 256 * ld_bytes m (a + 1) n
  end.

(** memcpy(&m[a], &v, n) of an integer [v]. *)
Fixpoint st_bytes (m : gmap Z Z) (a : Z) (n : nat) (v : Z) : gmap Z Z :=
  match n with
  | O => m
  | S n => st_bytes (<[a := u8 v]> m) (a + 1) n (Z.shiftr v 8)
  end.

(** memcpy(&m[a], data, n) of a buffer. *)
Fixpoint st_buf (m : gmap Z Z) (a : Z) (bs : list Z) : gmap Z Z :=
  match bs with
  | [] => m
  | b :: bs => st_buf (<[a := u8 b]> m) (a + 1) bs
  end.

(** The 32-bit load at &m[a], masked with ~0u >> ((4 - len) << 3). *)
Definition ld_masked (m : gmap Z Z) (a len : Z) : Z :=
  Z.land (ld_bytes m a 4) (Z.shiftr (Z.ones 32) (Z.shiftl (4 - len) 3)).

(** ** Bounds checks of include/device.h; false is a failed CPUAssert *)
Definition check_ioaddr (addr len size : Z) : bool :=
  (addr <=? size) && (u32 len <=? size) && (u32 (addr + u32 len) <=? size).

Definition check_aligned_ioaddr (addr len size : Z) : bool :=
  (addr <=? size) && (u32 len <=? size) && (u32 (addr + u32 len) <=? size) &&
  (Z.land addr 3 =? 0).

(** ** bram.c *)
Module Bram.
Definition BRAM_SIZE : Z := 1024 * 1024.

Definition bram_map (addr len : Z) : option Z :=
  if check_ioaddr addr len BRAM_SIZE then Some addr else None.

Definition bram_read (addr len : Z) (bram : gmap Z Z) : option Z :=
  if check_ioaddr addr len BRAM_SIZE then Some (ld_masked bram addr len) else None.

Definition bram_write (addr len data : Z) (bram : gmap Z Z) : option (gmap Z Z) :=
  if check_ioaddr addr len BRAM_SIZE then Some (st_bytes bram addr (Z.to_nat len) data)
  else None.

Definition bram_set_block_data (addr : Z) (data : list Z) (bram : gmap Z Z)
  : option (gmap Z Z) :=
  if check_ioaddr addr (Z.of_nat (length data)) BRAM_SIZE
  then Some (st_buf bram addr data) else None.
End Bram.

(** ** ddr.c *)
Module Ddr.
Definition DDR_SIZE : Z := 256 * 1024 * 1024.

Definition ddr_map (addr len : Z) : option Z :=
  if check_ioaddr addr len DDR_SIZE then Some addr else None.

Definition ddr_read (addr len : Z) (ddr : gmap Z Z) : option Z :=
  if check_ioaddr addr len DDR_SIZE then Some (ld_masked ddr addr len) else None.

Definition ddr_write (addr len data : Z) (ddr : gmap Z Z) : option (gmap Z Z) :=
  if check_ioaddr addr len DDR_SIZE then Some (st_bytes ddr addr (Z.to_nat len) data)
  else None.

Definition ddr_set_block_data (addr : Z) (data : list Z) (ddr : gmap Z Z)
  : option (gmap Z Z) :=
  if check_ioaddr addr (Z.of_nat (length data)) DDR_SIZE
  then Some (st_buf ddr addr data) else None.
End Ddr.

(** ** Lemmas on byte arrays *)
Definition mem_wf (m : gmap Z Z) : Prop := map_Forall (fun _ b => in_u 8 b) m.

Lemma mem_wf_empty : mem_wf ∅.
Proof. apply map_Forall_empty. Qed.

Lemma mem_wf_insert m a v : mem_wf m -> mem_wf (<[a := u8 v]> m).
Proof. intros. apply map_Forall_insert_2; [by apply uw_range|done]. Qed.

Lemma mem_wf_st_bytes n m a v : mem_wf m -> mem_wf (st_bytes m a n v).
Proof. revert m a v. induction n; cbn; auto using mem_wf_insert. Qed.

Lemma mem_wf_st_buf bs m a : mem_wf m -> mem_wf (st_buf m a bs).
Proof. revert m a. induction bs; cbn; auto using mem_wf_insert. Qed.
#[export] Hint Resolve mem_wf_empty mem_wf_insert mem_wf_st_bytes mem_wf_st_buf : words.

Lemma ld8_range m a : mem_wf m -> 0 <= ld8 m a < 256.
Proof.
  intros H. unfold ld8. destruct (m !! a) as [b|] eqn:E; cbn; [|lia].
  exact (H _ _ E).
Qed.

Lemma pow256 n : 2 ^ (8 * Z.of_nat (S n)) = 256 * 2 ^ (8 * Z.of_nat n).
Proof. replace (8 * Z.of_nat (S n)) with (8 + 8 * Z.of_nat n) by lia. rewrite Z.pow_add_r by lia. done. Qed.

Lemma ld_bytes_range n m a : mem_wf m -> in_u (8 * Z.of_nat n) (ld_bytes m a n).
Proof.
  intros H. revert a. induction n as [|n IH]; intros a.
  { cbn. unfold in_u. lia. }
  specialize (IH (a + 1)). pose proof (ld8_range m a H). unfold in_u in *.
  rewrite pow256. cbn [ld_bytes]. lia.
Qed.

(** A prefix of the bytes is the value modulo a power of 256. *)
Lemma ld_bytes_prefix k n m a :
  mem_wf m -> (k <= n)%nat -> ld_bytes m a n mod 2 ^ (8 * Z.of_nat k) = ld_bytes m a k.
Proof.
  intros H. revert n a. induction k as [|k IH]; intros n a Hk.
  { cbn. apply Z.mod_1_r. }
  destruct n as [|n]; [lia|]. cbn [ld_bytes].
  rewrite <- (IH n (a + 1)) by lia. rewrite pow256.
  pose proof (ld8_range m a H).
  assert (0 < 2 ^ (8 * Z.of_nat k)) by (apply Z.pow_pos_nonneg; lia).
  pose proof (Z.mod_pos_bound (ld_bytes m (a + 1) n) (2 ^ (8 * Z.of_nat k)) ltac:(lia)).
  rewrite <- (Z.mod_unique_pos (ld8 m a + 256 * ld_bytes m (a + 1) n)
                (256 * 2 ^ (8 * Z.of_nat k)) (ld_bytes m (a + 1) n / 2 ^ (8 * Z.of_nat k))
                (ld8 m a + 256 * (ld_bytes m (a + 1) n mod 2 ^ (8 * Z.of_nat k)))).
  - done.
  - lia.
  - rewrite (Z_div_mod_eq_full (ld_bytes m (a + 1) n) (2 ^ (8 * Z.of_nat k))) at 1. lia.
Qed.

Lemma ld_masked_bytes m a len :
  mem_wf m -> 1 <= len <= 4 -> ld_masked m a len = ld_bytes m a (Z.to_nat len).
Proof.
  intros H Hl. unfold ld_masked.
  replace (Z.shiftr (Z.ones 32) (Z.shiftl (4 - len) 3)) with (Z.ones (8 * len)).
  2:{ assert (len = 1 \/ len = 2 \/ len = 3 \/ len = 4) as [->|[->|[->| ->]]] by lia;
      reflexivity. }
  rewrite Z.land_ones by lia. rewrite <- (ld_bytes_prefix (Z.to_nat len) 4) by (done || lia).
  do 2 f_equal. lia.
Qed.

Lemma ld8_st_bytes_ne n m a v b :
  b < a \/ a + Z.of_nat n <= b -> ld8 (st_bytes m a n v) b = ld8 m b.
Proof.
  revert m a v. induction n as [|n IH]; intros m a v Hb; cbn; [done|].
  rewrite IH by lia. unfold ld8. rewrite lookup_insert_ne by lia. done.
Qed.

Lemma ld_bytes_ext n m m' a :
  (forall b, a <= b < a + Z.of_nat n -> ld8 m b = ld8 m' b) ->
  ld_bytes m a n = ld_bytes m' a n.
Proof.
  revert a. induction n as [|n IH]; intros a H; cbn; [done|].
  rewrite (IH (a + 1)) by (intros; apply H; lia). rewrite H by lia. done.
Qed.

(** Reading back what was written. *)
Lemma ld_st_bytes_eq n m a v :
  ld_bytes (st_bytes m a n v) a n = uw (8 * Z.of_nat n) v.
Proof.
  revert m a v. induction n as [|n IH]; intros m a v.
  { cbn. unfold uw. by rewrite Z.mod_1_r. }
  cbn [ld_bytes st_bytes]. rewrite IH. unfold ld8.
  pose proof (ld8_st_bytes_ne n (<[a := u8 v]> m) (a + 1) (Z.shiftr v 8) a ltac:(lia)) as E.
  unfold ld8 in E. rewrite E, lookup_insert_eq. cbn [default].
  unfold uw. rewrite Z.shiftr_div_pow2 by lia. rewrite pow256.
  change (2 ^ 8) with 256.
  assert (0 < 2 ^ (8 * Z.of_nat n)) by (apply Z.pow_pos_nonneg; lia).
  rewrite (Z.rem_mul_r v 256) by lia. done.
Qed.

Lemma ld_st_bytes_ne n k m a b v :
  b + Z.of_nat k <= a \/ a + Z.of_nat n <= b ->
  ld_bytes (st_bytes m a n v) b k = ld_bytes m b k.
Proof. intros. apply ld_bytes_ext. intros. apply ld8_st_bytes_ne. lia. Qed.

Lemma ld8_st_buf_ne bs m a b :
  b < a \/ a + Z.of_nat (length bs) <= b -> ld8 (st_buf m a bs) b = ld8 m b.
Proof.
  revert m a. induction bs as [|x bs IH]; intros m a Hb; cbn in *; [done|].
  rewrite IH by lia. unfold ld8. rewrite lookup_insert_ne by lia. done.
Qed.

Lemma ld8_st_buf bs m a i x :
  bs !! i = Some x -> ld8 (st_buf m a bs) (a + Z.of_nat i) = u8 x.
Proof.
  revert m a i. induction bs as [|y bs IH]; intros m a i Hi; [done|].
  destruct i as [|i]; cbn in *.
  - injection Hi as ->. rewrite Z.add_0_r, ld8_st_buf_ne by lia.
    unfold ld8. by rewrite lookup_insert_eq.
  - rewrite <- (IH (<[a := u8 y]> m) (a + 1) i Hi). f_equal. lia.
Qed.

(** ** The contract of a RAM device

    [rd_size] bytes; a read or a write of up to four bytes succeeds exactly inside
    the array, a read returns the last value written to its bytes, and a write
    changes no byte outside its range. *)
Class RamDevice (rd_size : Z) (rd : Z -> Z -> gmap Z Z -> option Z)
    (wr : Z -> Z -> Z -> gmap Z Z -> option (gmap Z Z)) : Prop := {
  ram_in_bounds : forall addr len m,
    0 <= addr -> 1 <= len <= 4 -> is_Some (rd addr len m) <-> addr + len <= rd_size;
  ram_write_in_bounds : forall addr len v m,
    0 <= addr -> 1 <= len <= 4 -> is_Some (wr addr len v m) <-> addr + len <= rd_size;
  ram_read_write_eq : forall addr len v m m',
    mem_wf m -> 0 <= addr -> 1 <= len <= 4 ->
    wr addr len v m = Some m' -> rd addr len m' = Some (uw (8 * len) v);
  ram_read_write_ne : forall a alen b blen v m m',
    mem_wf m -> 0 <= a -> 0 <= b -> 1 <= alen <= 4 -> 1 <= blen <= 4 ->
    b + blen <= a \/ a + alen <= b ->
    wr a alen v m = Some m' -> rd b blen m' = rd b blen m;
  ram_write_wf : forall addr len v m m',
    mem_wf m -> wr addr len v m = Some m' -> mem_wf m'
}.

Lemma check_ioaddr_spec addr len size :
  0 <= addr -> 1 <= len <= 4 -> 4 <= size < 2 ^ 31 ->
  check_ioaddr addr len size = (addr + len <=? size).
Proof.
  intros. unfold check_ioaddr.
  rewrite (uw_small 32 len) by (unfold in_u; lia).
  destruct (Z.leb_spec addr size), (Z.leb_spec len size); cbn; try lia.
  rewrite uw_small by (unfold in_u; lia). done.
Qed.

Section RamInstance.
Context (size : Z) (Hsize : 4 <= size < 2 ^ 31).

Definition ram_rd (addr len : Z) (m : gmap Z Z) : option Z :=
  if check_ioaddr addr len size then Some (ld_masked m addr len) else None.
Definition ram_wr (addr len v : Z) (m : gmap Z Z) : option (gmap Z Z) :=
  if check_ioaddr addr len size then Some (st_bytes m addr (Z.to_nat len) v) else None.

Lemma ram_device : RamDevice size ram_rd ram_wr.
Proof using Hsize.
  split; unfold ram_rd, ram_wr.
  - intros addr len m Ha Hl. rewrite check_ioaddr_spec by done.
    destruct (Z.leb_spec (addr + len) size); split; try lia; done.
  - intros addr len v m Ha Hl. rewrite check_ioaddr_spec by done.
    destruct (Z.leb_spec (addr + len) size); split; try lia; done.
  - intros addr len v m m' Hm Ha Hl E. case_match; [|done]. injection E as <-.
    rewrite ld_masked_bytes by auto with words. rewrite ld_st_bytes_eq. do 2 f_equal. lia.
  - intros a alen b blen v m m' Hm Ha Hb Hal Hbl Hd E. case_match; [|done].
    injection E as <-. case_match; [|done]. f_equal.
    rewrite !ld_masked_bytes by auto with words. apply ld_st_bytes_ne. lia.
  - intros addr len v m m' Hm E. case_match; [|done]. injection E as <-. auto with words.
Qed.
End RamInstance.

#[export] Instance bram_ram : RamDevice Bram.BRAM_SIZE Bram.bram_read Bram.bram_write.
Proof. apply ram_device. unfold Bram.BRAM_SIZE. lia. Qed.

#[export] Instance ddr_ram : RamDevice Ddr.DDR_SIZE Ddr.ddr_read Ddr.ddr_write.
Proof. apply ram_device. unfold Ddr.DDR_SIZE. lia. Qed.
