(* ===== verification/Flash.v ===== *)
(** * SPI NOR flash (src/dev/flash.c)

    The command state machine of the m25p80 family.  The C struct [Flash] is the
    state of a monad; a write outside the allocated storage is undefined behaviour
    and stops with [HUndefined].  The backing file (blkio_file) is the contents it
    holds on the host, as far as the chip has been written through to it. *)
From Stdlib Require Import String.
From S2P Require Import Prelude.
Local Open Scope nemu_scope.

(** ** Part table *)
Definition ER_4K : Z := 1.
Definition ER_32K : Z := 2.
Definition EEPROM : Z := 0x100.
Definition MAX_3BYTES_SIZE : Z := 0x1000000.
Definition KiB : Z := 1024.

Record FlashPartInfo := mkPart {
  part_name : string; part_id : list Z; id_len : Z;
  sector_size : Z; n_sectors : Z; page_size : Z; part_flags : Z; die_cnt : Z
}.

Definition jedec_bytes (jedec : Z) : list Z :=
  [Z.land (Z.shiftr jedec 16) 0xff; Z.land (Z.shiftr jedec 8) 0xff; Z.land jedec 0xff].

Definition INFO (name : string) (jedec ext sector n flags : Z) : FlashPartInfo :=
  mkPart name
    (jedec_bytes jedec ++ [Z.land (Z.shiftr ext 8) 0xff; Z.land ext 0xff; 0])
    (if jedec =? 0 then 0 else 3 + (if ext =? 0 then 0 else 2)) sector n 256 flags 0.

Definition INFO6 (name : string) (jedec ext sector n flags : Z) : FlashPartInfo :=
  mkPart name
    (jedec_bytes jedec ++
     [Z.land (Z.shiftr ext 16) 0xff; Z.land (Z.shiftr ext 8) 0xff; Z.land ext 0xff])
    6 sector n 256 flags 0.

Definition INFO_STACKED (name : string) (jedec ext sector n flags die : Z) : FlashPartInfo :=
  mkPart name
    (jedec_bytes jedec ++ [Z.land (Z.shiftr ext 8) 0xff; Z.land ext 0xff; 0])
    (if jedec =? 0 then 0 else 3 + (if ext =? 0 then 0 else 2)) sector n 256 flags die.

(** Configuration register masks. *)
Definition VCFG_DUMMY : Z := 0x1.
Definition VCFG_WRAP_SEQUENTIAL : Z := 0x2.
Definition NVCFG_XIP_MODE_DISABLED : Z := Z.shiftl 7 9.
Definition NVCFG_XIP_MODE_MASK : Z := Z.shiftl 7 9.
Definition VCFG_XIP_MODE_ENABLED : Z := Z.shiftl 1 3.
Definition CFG_DUMMY_CLK_LEN : Z := 4.
Definition NVCFG_DUMMY_CLK_POS : Z := 12.
Definition VCFG_DUMMY_CLK_POS : Z := 4.
Definition EVCFG_OUT_DRIVER_STRENGTH_DEF : Z := 7.
Definition EVCFG_VPP_ACCELERATOR : Z := Z.shiftl 1 3.
Definition EVCFG_RESET_HOLD_ENABLED : Z := Z.shiftl 1 4.
Definition NVCFG_DUAL_IO_MASK : Z := Z.shiftl 1 2.
Definition EVCFG_DUAL_IO_ENABLED : Z := Z.shiftl 1 6.
Definition NVCFG_QUAD_IO_MASK : Z := Z.shiftl 1 3.
Definition EVCFG_QUAD_IO_ENABLED : Z := Z.shiftl 1 7.
Definition NVCFG_4BYTE_ADDR_MASK : Z := Z.shiftl 1 0.
Definition NVCFG_LOWER_SEGMENT_MASK : Z := Z.shiftl 1 1.
Definition FSR_4BYTE_ADDR_MODE_ENABLED : Z := 0x1.
Definition FSR_FLASH_READY : Z := Z.shiftl 1 7.
Definition SPANSION_QUAD_CFG_POS : Z := 0.
Definition SPANSION_QUAD_CFG_LEN : Z := 1.
Definition SPANSION_DUMMY_CLK_POS : Z := 0.
Definition SPANSION_DUMMY_CLK_LEN : Z := 4.
Definition SPANSION_ADDR_LEN_POS : Z := 7.
Definition SPANSION_ADDR_LEN_LEN : Z := 1.
Definition SPANSION_CONTINUOUS_READ_MODE_CMD_LEN : Z := 1.
Definition WINBOND_CONTINUOUS_READ_MODE_CMD_LEN : Z := 1.

Definition known_devices : list FlashPartInfo := [
    INFO "nemu512M"%string 0x20bb23 0 (Z.shiftl 64 10) 8192 ER_4K;
    INFO "nemu1G"%string 0x20bb24 0 (Z.shiftl 64 10) 16384 ER_4K;
    INFO "nemu2G"%string 0x20bb25 0 (Z.shiftl 64 10) 32768 ER_4K;
    INFO "at25fs010"%string 0x1f6601 0 (Z.shiftl 32 10) 4 ER_4K;
    INFO "at25fs040"%string 0x1f6604 0 (Z.shiftl 64 10) 8 ER_4K;
    INFO "at25df041a"%string 0x1f4401 0 (Z.shiftl 64 10) 8 ER_4K;
    INFO "at25df321a"%string 0x1f4701 0 (Z.shiftl 64 10) 64 ER_4K;
    INFO "at25df641"%string 0x1f4800 0 (Z.shiftl 64 10) 128 ER_4K;
    INFO "at26f004"%string 0x1f0400 0 (Z.shiftl 64 10) 8 ER_4K;
    INFO "at26df081a"%string 0x1f4501 0 (Z.shiftl 64 10) 16 ER_4K;
    INFO "at26df161a"%string 0x1f4601 0 (Z.shiftl 64 10) 32 ER_4K;
    INFO "at26df321"%string 0x1f4700 0 (Z.shiftl 64 10) 64 ER_4K;
    INFO "at45db081d"%string 0x1f2500 0 (Z.shiftl 64 10) 16 ER_4K;
    INFO "at25128a-nonjedec"%string 0x0 0 1 131072 EEPROM;
    INFO "at25256a-nonjedec"%string 0x0 0 1 262144 EEPROM;
    INFO "en25f32"%string 0x1c3116 0 (Z.shiftl 64 10) 64 ER_4K;
    INFO "en25p32"%string 0x1c2016 0 (Z.shiftl 64 10) 64 0;
    INFO "en25q32b"%string 0x1c3016 0 (Z.shiftl 64 10) 64 0;
    INFO "en25p64"%string 0x1c2017 0 (Z.shiftl 64 10) 128 0;
    INFO "en25q64"%string 0x1c3017 0 (Z.shiftl 64 10) 128 ER_4K;
    INFO "gd25q32"%string 0xc84016 0 (Z.shiftl 64 10) 64 ER_4K;
    INFO "gd25q64"%string 0xc84017 0 (Z.shiftl 64 10) 128 ER_4K;
    INFO "160s33b"%string 0x898911 0 (Z.shiftl 64 10) 32 0;
    INFO "320s33b"%string 0x898912 0 (Z.shiftl 64 10) 64 0;
    INFO "640s33b"%string 0x898913 0 (Z.shiftl 64 10) 128 0;
    INFO "n25q064"%string 0x20ba17 0 (Z.shiftl 64 10) 128 0;
    INFO "mx25l2005a"%string 0xc22012 0 (Z.shiftl 64 10) 4 ER_4K;
    INFO "mx25l4005a"%string 0xc22013 0 (Z.shiftl 64 10) 8 ER_4K;
    INFO "mx25l8005"%string 0xc22014 0 (Z.shiftl 64 10) 16 0;
    INFO "mx25l1606e"%string 0xc22015 0 (Z.shiftl 64 10) 32 ER_4K;
    INFO "mx25l3205d"%string 0xc22016 0 (Z.shiftl 64 10) 64 0;
    INFO "mx25l6405d"%string 0xc22017 0 (Z.shiftl 64 10) 128 0;
    INFO "mx25l12805d"%string 0xc22018 0 (Z.shiftl 64 10) 256 0;
    INFO "mx25l12855e"%string 0xc22618 0 (Z.shiftl 64 10) 256 0;
    INFO "mx25l25635e"%string 0xc22019 0 (Z.shiftl 64 10) 512 0;
    INFO "mx25l25655e"%string 0xc22619 0 (Z.shiftl 64 10) 512 0;
    INFO "mx66u51235f"%string 0xc2253a 0 (Z.shiftl 64 10) 1024 (Z.lor ER_4K ER_32K);
    INFO "mx66u1g45g"%string 0xc2253b 0 (Z.shiftl 64 10) 2048 (Z.lor ER_4K ER_32K);
    INFO "mx66l1g45g"%string 0xc2201b 0 (Z.shiftl 64 10) 2048 (Z.lor ER_4K ER_32K);
    INFO "n25q032a11"%string 0x20bb16 0 (Z.shiftl 64 10) 64 ER_4K;
    INFO "n25q032a13"%string 0x20ba16 0 (Z.shiftl 64 10) 64 ER_4K;
    INFO "n25q064a11"%string 0x20bb17 0 (Z.shiftl 64 10) 128 ER_4K;
    INFO "n25q064a13"%string 0x20ba17 0 (Z.shiftl 64 10) 128 ER_4K;
    INFO "n25q128a11"%string 0x20bb18 0 (Z.shiftl 64 10) 256 ER_4K;
    INFO "n25q128a13"%string 0x20ba18 0 (Z.shiftl 64 10) 256 ER_4K;
    INFO "n25q256a11"%string 0x20bb19 0 (Z.shiftl 64 10) 512 ER_4K;
    INFO "n25q256a13"%string 0x20ba19 0 (Z.shiftl 64 10) 512 ER_4K;
    INFO "n25q512a11"%string 0x20bb20 0 (Z.shiftl 64 10) 1024 ER_4K;
    INFO "n25q512a13"%string 0x20ba20 0 (Z.shiftl 64 10) 1024 ER_4K;
    INFO "n25q128"%string 0x20ba18 0 (Z.shiftl 64 10) 256 0;
    INFO "n25q256a"%string 0x20ba19 0 (Z.shiftl 64 10) 512 ER_4K;
    INFO "n25q512a"%string 0x20ba20 0 (Z.shiftl 64 10) 1024 ER_4K;
    INFO_STACKED "n25q00"%string 0x20ba21 0x1000 (Z.shiftl 64 10) 2048 ER_4K 4;
    INFO_STACKED "n25q00a"%string 0x20bb21 0x1000 (Z.shiftl 64 10) 2048 ER_4K 4;
    INFO_STACKED "mt25ql01g"%string 0x20ba21 0x1040 (Z.shiftl 64 10) 2048 ER_4K 2;
    INFO_STACKED "mt25qu01g"%string 0x20bb21 0x1040 (Z.shiftl 64 10) 2048 ER_4K 2;
    INFO "s25sl032p"%string 0x010215 0x4d00 (Z.shiftl 64 10) 64 ER_4K;
    INFO "s25sl064p"%string 0x010216 0x4d00 (Z.shiftl 64 10) 128 ER_4K;
    INFO "s25fl256s0"%string 0x010219 0x4d00 (Z.shiftl 256 10) 128 0;
    INFO "s25fl256s1"%string 0x010219 0x4d01 (Z.shiftl 64 10) 512 0;
    INFO6 "s25fl512s"%string 0x010220 0x4d0080 (Z.shiftl 256 10) 256 0;
    INFO6 "s70fl01gs"%string 0x010221 0x4d0080 (Z.shiftl 256 10) 512 0;
    INFO "s25sl12800"%string 0x012018 0x0300 (Z.shiftl 256 10) 64 0;
    INFO "s25sl12801"%string 0x012018 0x0301 (Z.shiftl 64 10) 256 0;
    INFO "s25fl129p0"%string 0x012018 0x4d00 (Z.shiftl 256 10) 64 0;
    INFO "s25fl129p1"%string 0x012018 0x4d01 (Z.shiftl 64 10) 256 0;
    INFO "s25sl004a"%string 0x010212 0 (Z.shiftl 64 10) 8 0;
    INFO "s25sl008a"%string 0x010213 0 (Z.shiftl 64 10) 16 0;
    INFO "s25sl016a"%string 0x010214 0 (Z.shiftl 64 10) 32 0;
    INFO "s25sl032a"%string 0x010215 0 (Z.shiftl 64 10) 64 0;
    INFO "s25sl064a"%string 0x010216 0 (Z.shiftl 64 10) 128 0;
    INFO "s25fl016k"%string 0xef4015 0 (Z.shiftl 64 10) 32 (Z.lor ER_4K ER_32K);
    INFO "s25fl064k"%string 0xef4017 0 (Z.shiftl 64 10) 128 (Z.lor ER_4K ER_32K);
    INFO6 "s25fs512s"%string 0x010220 0x4d0081 (Z.shiftl 256 10) 256 0;
    INFO6 "s70fs01gs"%string 0x010221 0x4d0081 (Z.shiftl 256 10) 512 0;
    INFO "sst25vf040b"%string 0xbf258d 0 (Z.shiftl 64 10) 8 ER_4K;
    INFO "sst25vf080b"%string 0xbf258e 0 (Z.shiftl 64 10) 16 ER_4K;
    INFO "sst25vf016b"%string 0xbf2541 0 (Z.shiftl 64 10) 32 ER_4K;
    INFO "sst25vf032b"%string 0xbf254a 0 (Z.shiftl 64 10) 64 ER_4K;
    INFO "sst25wf512"%string 0xbf2501 0 (Z.shiftl 64 10) 1 ER_4K;
    INFO "sst25wf010"%string 0xbf2502 0 (Z.shiftl 64 10) 2 ER_4K;
    INFO "sst25wf020"%string 0xbf2503 0 (Z.shiftl 64 10) 4 ER_4K;
    INFO "sst25wf040"%string 0xbf2504 0 (Z.shiftl 64 10) 8 ER_4K;
    INFO "sst25wf080"%string 0xbf2505 0 (Z.shiftl 64 10) 16 ER_4K;
    INFO "m25p05"%string 0x202010 0 (Z.shiftl 32 10) 2 0;
    INFO "m25p10"%string 0x202011 0 (Z.shiftl 32 10) 4 0;
    INFO "m25p20"%string 0x202012 0 (Z.shiftl 64 10) 4 0;
    INFO "m25p40"%string 0x202013 0 (Z.shiftl 64 10) 8 0;
    INFO "m25p80"%string 0x202014 0 (Z.shiftl 64 10) 16 0;
    INFO "m25p16"%string 0x202015 0 (Z.shiftl 64 10) 32 0;
    INFO "m25p32"%string 0x202016 0 (Z.shiftl 64 10) 64 0;
    INFO "m25p64"%string 0x202017 0 (Z.shiftl 64 10) 128 0;
    INFO "m25p128"%string 0x202018 0 (Z.shiftl 256 10) 64 0;
    INFO "n25q032"%string 0x20ba16 0 (Z.shiftl 64 10) 64 0;
    INFO "m45pe10"%string 0x204011 0 (Z.shiftl 64 10) 2 0;
    INFO "m45pe80"%string 0x204014 0 (Z.shiftl 64 10) 16 0;
    INFO "m45pe16"%string 0x204015 0 (Z.shiftl 64 10) 32 0;
    INFO "m25pe20"%string 0x208012 0 (Z.shiftl 64 10) 4 0;
    INFO "m25pe80"%string 0x208014 0 (Z.shiftl 64 10) 16 0;
    INFO "m25pe16"%string 0x208015 0 (Z.shiftl 64 10) 32 ER_4K;
    INFO "m25px32"%string 0x207116 0 (Z.shiftl 64 10) 64 ER_4K;
    INFO "m25px32-s0"%string 0x207316 0 (Z.shiftl 64 10) 64 ER_4K;
    INFO "m25px32-s1"%string 0x206316 0 (Z.shiftl 64 10) 64 ER_4K;
    INFO "m25px64"%string 0x207117 0 (Z.shiftl 64 10) 128 0;
    INFO "w25x10"%string 0xef3011 0 (Z.shiftl 64 10) 2 ER_4K;
    INFO "w25x20"%string 0xef3012 0 (Z.shiftl 64 10) 4 ER_4K;
    INFO "w25x40"%string 0xef3013 0 (Z.shiftl 64 10) 8 ER_4K;
    INFO "w25x80"%string 0xef3014 0 (Z.shiftl 64 10) 16 ER_4K;
    INFO "w25x16"%string 0xef3015 0 (Z.shiftl 64 10) 32 ER_4K;
    INFO "w25x32"%string 0xef3016 0 (Z.shiftl 64 10) 64 ER_4K;
    INFO "w25q32"%string 0xef4016 0 (Z.shiftl 64 10) 64 ER_4K;
    INFO "w25q32dw"%string 0xef6016 0 (Z.shiftl 64 10) 64 ER_4K;
    INFO "w25x64"%string 0xef3017 0 (Z.shiftl 64 10) 128 ER_4K;
    INFO "w25q64"%string 0xef4017 0 (Z.shiftl 64 10) 128 ER_4K;
    INFO "w25q80"%string 0xef5014 0 (Z.shiftl 64 10) 16 ER_4K;
    INFO "w25q80bl"%string 0xef4014 0 (Z.shiftl 64 10) 16 ER_4K;
    INFO "w25q256"%string 0xef4019 0 (Z.shiftl 64 10) 512 ER_4K ].

(** ** Commands (FlashCMD) *)
Definition NOP : Z := 0.
Definition WRSR : Z := 0x1.
Definition WRDI : Z := 0x4.
Definition RDSR : Z := 0x5.
Definition WREN : Z := 0x6.
Definition BRRD : Z := 0x16.
Definition BRWR : Z := 0x17.
Definition JEDEC_READ : Z := 0x9f.
Definition BULK_ERASE_60 : Z := 0x60.
Definition BULK_ERASE : Z := 0xc7.
Definition READ_FSR : Z := 0x70.
Definition RDCR : Z := 0x15.
Definition READ : Z := 0x03.
Definition READ4 : Z := 0x13.
Definition FAST_READ : Z := 0x0b.
Definition FAST_READ4 : Z := 0x0c.
Definition DOR : Z := 0x3b.
Definition DOR4 : Z := 0x3c.
Definition QOR : Z := 0x6b.
Definition QOR4 : Z := 0x6c.
Definition DIOR : Z := 0xbb.
Definition DIOR4 : Z := 0xbc.
Definition QIOR : Z := 0xeb.
Definition QIOR4 : Z := 0xec.
Definition PP : Z := 0x02.
Definition PP4 : Z := 0x12.
Definition PP4_4 : Z := 0x3e.
Definition DPP : Z := 0xa2.
Definition QPP : Z := 0x32.
Definition QPP_4 : Z := 0x34.
Definition RDID_90 : Z := 0x90.
Definition RDID_AB : Z := 0xab.
Definition ERASE_4K : Z := 0x20.
Definition ERASE4_4K : Z := 0x21.
Definition ERASE_32K : Z := 0x52.
Definition ERASE4_32K : Z := 0x5c.
Definition ERASE_SECTOR : Z := 0xd8.
Definition ERASE4_SECTOR : Z := 0xdc.
Definition EN_4BYTE_ADDR : Z := 0xB7.
Definition EX_4BYTE_ADDR : Z := 0xE9.
Definition EXTEND_ADDR_READ : Z := 0xC8.
Definition EXTEND_ADDR_WRITE : Z := 0xC5.
Definition RESET_ENABLE : Z := 0x66.
Definition RESET_MEMORY : Z := 0x99.
Definition RDCR_EQIO : Z := 0x35.
Definition RSTQIO : Z := 0xf5.
Definition RNVCR : Z := 0xB5.
Definition WNVCR : Z := 0xB1.
Definition RVCR : Z := 0x85.
Definition WVCR : Z := 0x81.
Definition REVCR : Z := 0x65.
Definition WEVCR : Z := 0x61.
Definition DIE_ERASE : Z := 0xC4.

Inductive CMDState : Type :=
| STATE_IDLE
| STATE_PAGE_PROGRAM
| STATE_READ
| STATE_COLLECTING_DATA
| STATE_COLLECTING_VAR_LEN_DATA
| STATE_READING_DATA.

Inductive Manufacturer : Type :=
| MAN_SPANSION
| MAN_MACRONIX
| MAN_NUMONYX
| MAN_WINBOND
| MAN_SST
| MAN_GENERIC.

#[global] Instance CMDState_eq_dec : EqDecision CMDState.
Proof. solve_decision. Defined.
#[global] Instance Manufacturer_eq_dec : EqDecision Manufacturer.
Proof. solve_decision. Defined.

Definition M25P80_INTERNAL_DATA_BUFFER_SZ : Z := 16.

(** ** The chip.  [storage] maps an address to its byte; an address that is absent
    holds 0xFF, the erased value every byte has after flash_init. *)
Record Flash := mkFlash {
  storage : gmap Z Z;
  fsize : Z;
  fstate : CMDState;
  fdata : list Z;
  flen : Z;
  fpos : Z;
  data_read_loop : bool;
  needed_bytes : Z;
  cmd_in_progress : Z;
  cur_addr : Z;
  nonvolatile_cfg : Z;
  volatile_cfg : Z;
  enh_volatile_cfg : Z;
  spansion_cr1nv : Z;
  spansion_cr2nv : Z;
  spansion_cr3nv : Z;
  spansion_cr4nv : Z;
  spansion_cr1v : Z;
  spansion_cr2v : Z;
  spansion_cr3v : Z;
  spansion_cr4v : Z;
  write_enable : bool;
  four_bytes_address_mode : bool;
  reset_enable : bool;
  quad_enable : bool;
  ear : Z;
  dirty_page : Z;
  blkio_file : option (gmap Z Z);
  pi : FlashPartInfo
}.
Definition set_storage (v : gmap Z Z) (s : Flash) : Flash :=
  mkFlash v (fsize s) (fstate s) (fdata s) (flen s) (fpos s) (data_read_loop s) (needed_bytes s)
    (cmd_in_progress s) (cur_addr s) (nonvolatile_cfg s) (volatile_cfg s) (enh_volatile_cfg s)
    (spansion_cr1nv s) (spansion_cr2nv s) (spansion_cr3nv s) (spansion_cr4nv s) (spansion_cr1v
    s) (spansion_cr2v s) (spansion_cr3v s) (spansion_cr4v s) (write_enable s)
    (four_bytes_address_mode s) (reset_enable s) (quad_enable s) (ear s) (dirty_page s)
    (blkio_file s) (pi s).
Definition set_fsize (v : Z) (s : Flash) : Flash :=
  mkFlash (storage s) (u32 v) (fstate s) (fdata s) (flen s) (fpos s) (data_read_loop s)
    (needed_bytes s) (cmd_in_progress s) (cur_addr s) (nonvolatile_cfg s) (volatile_cfg s)
    (enh_volatile_cfg s) (spansion_cr1nv s) (spansion_cr2nv s) (spansion_cr3nv s)
    (spansion_cr4nv s) (spansion_cr1v s) (spansion_cr2v s) (spansion_cr3v s) (spansion_cr4v s)
    (write_enable s) (four_bytes_address_mode s) (reset_enable s) (quad_enable s) (ear s)
    (dirty_page s) (blkio_file s) (pi s).
Definition set_fstate (v : CMDState) (s : Flash) : Flash :=
  mkFlash (storage s) (fsize s) v (fdata s) (flen s) (fpos s) (data_read_loop s) (needed_bytes
    s) (cmd_in_progress s) (cur_addr s) (nonvolatile_cfg s) (volatile_cfg s) (enh_volatile_cfg
    s) (spansion_cr1nv s) (spansion_cr2nv s) (spansion_cr3nv s) (spansion_cr4nv s)
    (spansion_cr1v s) (spansion_cr2v s) (spansion_cr3v s) (spansion_cr4v s) (write_enable s)
    (four_bytes_address_mode s) (reset_enable s) (quad_enable s) (ear s) (dirty_page s)
    (blkio_file s) (pi s).
Definition set_fdata (v : list Z) (s : Flash) : Flash :=
  mkFlash (storage s) (fsize s) (fstate s) v (flen s) (fpos s) (data_read_loop s) (needed_bytes
    s) (cmd_in_progress s) (cur_addr s) (nonvolatile_cfg s) (volatile_cfg s) (enh_volatile_cfg
    s) (spansion_cr1nv s) (spansion_cr2nv s) (spansion_cr3nv s) (spansion_cr4nv s)
    (spansion_cr1v s) (spansion_cr2v s) (spansion_cr3v s) (spansion_cr4v s) (write_enable s)
    (four_bytes_address_mode s) (reset_enable s) (quad_enable s) (ear s) (dirty_page s)
    (blkio_file s) (pi s).
Definition set_flen (v : Z) (s : Flash) : Flash :=
  mkFlash (storage s) (fsize s) (fstate s) (fdata s) (u32 v) (fpos s) (data_read_loop s)
    (needed_bytes s) (cmd_in_progress s) (cur_addr s) (nonvolatile_cfg s) (volatile_cfg s)
    (enh_volatile_cfg s) (spansion_cr1nv s) (spansion_cr2nv s) (spansion_cr3nv s)
    (spansion_cr4nv s) (spansion_cr1v s) (spansion_cr2v s) (spansion_cr3v s) (spansion_cr4v s)
    (write_enable s) (four_bytes_address_mode s) (reset_enable s) (quad_enable s) (ear s)
    (dirty_page s) (blkio_file s) (pi s).
Definition set_fpos (v : Z) (s : Flash) : Flash :=
  mkFlash (storage s) (fsize s) (fstate s) (fdata s) (flen s) (u32 v) (data_read_loop s)
    (needed_bytes s) (cmd_in_progress s) (cur_addr s) (nonvolatile_cfg s) (volatile_cfg s)
    (enh_volatile_cfg s) (spansion_cr1nv s) (spansion_cr2nv s) (spansion_cr3nv s)
    (spansion_cr4nv s) (spansion_cr1v s) (spansion_cr2v s) (spansion_cr3v s) (spansion_cr4v s)
    (write_enable s) (four_bytes_address_mode s) (reset_enable s) (quad_enable s) (ear s)
    (dirty_page s) (blkio_file s) (pi s).
Definition set_data_read_loop (v : bool) (s : Flash) : Flash :=
  mkFlash (storage s) (fsize s) (fstate s) (fdata s) (flen s) (fpos s) v (needed_bytes s)
    (cmd_in_progress s) (cur_addr s) (nonvolatile_cfg s) (volatile_cfg s) (enh_volatile_cfg s)
    (spansion_cr1nv s) (spansion_cr2nv s) (spansion_cr3nv s) (spansion_cr4nv s) (spansion_cr1v
    s) (spansion_cr2v s) (spansion_cr3v s) (spansion_cr4v s) (write_enable s)
    (four_bytes_address_mode s) (reset_enable s) (quad_enable s) (ear s) (dirty_page s)
    (blkio_file s) (pi s).
Definition set_needed_bytes (v : Z) (s : Flash) : Flash :=
  mkFlash (storage s) (fsize s) (fstate s) (fdata s) (flen s) (fpos s) (data_read_loop s) (u8 v)
    (cmd_in_progress s) (cur_addr s) (nonvolatile_cfg s) (volatile_cfg s) (enh_volatile_cfg s)
    (spansion_cr1nv s) (spansion_cr2nv s) (spansion_cr3nv s) (spansion_cr4nv s) (spansion_cr1v
    s) (spansion_cr2v s) (spansion_cr3v s) (spansion_cr4v s) (write_enable s)
    (four_bytes_address_mode s) (reset_enable s) (quad_enable s) (ear s) (dirty_page s)
    (blkio_file s) (pi s).
Definition set_cmd_in_progress (v : Z) (s : Flash) : Flash :=
  mkFlash (storage s) (fsize s) (fstate s) (fdata s) (flen s) (fpos s) (data_read_loop s)
    (needed_bytes s) (u8 v) (cur_addr s) (nonvolatile_cfg s) (volatile_cfg s) (enh_volatile_cfg
    s) (spansion_cr1nv s) (spansion_cr2nv s) (spansion_cr3nv s) (spansion_cr4nv s)
    (spansion_cr1v s) (spansion_cr2v s) (spansion_cr3v s) (spansion_cr4v s) (write_enable s)
    (four_bytes_address_mode s) (reset_enable s) (quad_enable s) (ear s) (dirty_page s)
    (blkio_file s) (pi s).
Definition set_cur_addr (v : Z) (s : Flash) : Flash :=
  mkFlash (storage s) (fsize s) (fstate s) (fdata s) (flen s) (fpos s) (data_read_loop s)
    (needed_bytes s) (cmd_in_progress s) (u32 v) (nonvolatile_cfg s) (volatile_cfg s)
    (enh_volatile_cfg s) (spansion_cr1nv s) (spansion_cr2nv s) (spansion_cr3nv s)
    (spansion_cr4nv s) (spansion_cr1v s) (spansion_cr2v s) (spansion_cr3v s) (spansion_cr4v s)
    (write_enable s) (four_bytes_address_mode s) (reset_enable s) (quad_enable s) (ear s)
    (dirty_page s) (blkio_file s) (pi s).
Definition set_nonvolatile_cfg (v : Z) (s : Flash) : Flash :=
  mkFlash (storage s) (fsize s) (fstate s) (fdata s) (flen s) (fpos s) (data_read_loop s)
    (needed_bytes s) (cmd_in_progress s) (cur_addr s) (u32 v) (volatile_cfg s) (enh_volatile_cfg
    s) (spansion_cr1nv s) (spansion_cr2nv s) (spansion_cr3nv s) (spansion_cr4nv s)
    (spansion_cr1v s) (spansion_cr2v s) (spansion_cr3v s) (spansion_cr4v s) (write_enable s)
    (four_bytes_address_mode s) (reset_enable s) (quad_enable s) (ear s) (dirty_page s)
    (blkio_file s) (pi s).
Definition set_volatile_cfg (v : Z) (s : Flash) : Flash :=
  mkFlash (storage s) (fsize s) (fstate s) (fdata s) (flen s) (fpos s) (data_read_loop s)
    (needed_bytes s) (cmd_in_progress s) (cur_addr s) (nonvolatile_cfg s) (u32 v)
    (enh_volatile_cfg s) (spansion_cr1nv s) (spansion_cr2nv s) (spansion_cr3nv s)
    (spansion_cr4nv s) (spansion_cr1v s) (spansion_cr2v s) (spansion_cr3v s) (spansion_cr4v s)
    (write_enable s) (four_bytes_address_mode s) (reset_enable s) (quad_enable s) (ear s)
    (dirty_page s) (blkio_file s) (pi s).
Definition set_enh_volatile_cfg (v : Z) (s : Flash) : Flash :=
  mkFlash (storage s) (fsize s) (fstate s) (fdata s) (flen s) (fpos s) (data_read_loop s)
    (needed_bytes s) (cmd_in_progress s) (cur_addr s) (nonvolatile_cfg s) (volatile_cfg s) (u32
    v) (spansion_cr1nv s) (spansion_cr2nv s) (spansion_cr3nv s) (spansion_cr4nv s)
    (spansion_cr1v s) (spansion_cr2v s) (spansion_cr3v s) (spansion_cr4v s) (write_enable s)
    (four_bytes_address_mode s) (reset_enable s) (quad_enable s) (ear s) (dirty_page s)
    (blkio_file s) (pi s).
Definition set_spansion_cr1nv (v : Z) (s : Flash) : Flash :=
  mkFlash (storage s) (fsize s) (fstate s) (fdata s) (flen s) (fpos s) (data_read_loop s)
    (needed_bytes s) (cmd_in_progress s) (cur_addr s) (nonvolatile_cfg s) (volatile_cfg s)
    (enh_volatile_cfg s) (u8 v) (spansion_cr2nv s) (spansion_cr3nv s) (spansion_cr4nv s)
    (spansion_cr1v s) (spansion_cr2v s) (spansion_cr3v s) (spansion_cr4v s) (write_enable s)
    (four_bytes_address_mode s) (reset_enable s) (quad_enable s) (ear s) (dirty_page s)
    (blkio_file s) (pi s).
Definition set_spansion_cr2nv (v : Z) (s : Flash) : Flash :=
  mkFlash (storage s) (fsize s) (fstate s) (fdata s) (flen s) (fpos s) (data_read_loop s)
    (needed_bytes s) (cmd_in_progress s) (cur_addr s) (nonvolatile_cfg s) (volatile_cfg s)
    (enh_volatile_cfg s) (spansion_cr1nv s) (u8 v) (spansion_cr3nv s) (spansion_cr4nv s)
    (spansion_cr1v s) (spansion_cr2v s) (spansion_cr3v s) (spansion_cr4v s) (write_enable s)
    (four_bytes_address_mode s) (reset_enable s) (quad_enable s) (ear s) (dirty_page s)
    (blkio_file s) (pi s).
Definition set_spansion_cr3nv (v : Z) (s : Flash) : Flash :=
  mkFlash (storage s) (fsize s) (fstate s) (fdata s) (flen s) (fpos s) (data_read_loop s)
    (needed_bytes s) (cmd_in_progress s) (cur_addr s) (nonvolatile_cfg s) (volatile_cfg s)
    (enh_volatile_cfg s) (spansion_cr1nv s) (spansion_cr2nv s) (u8 v) (spansion_cr4nv s)
    (spansion_cr1v s) (spansion_cr2v s) (spansion_cr3v s) (spansion_cr4v s) (write_enable s)
    (four_bytes_address_mode s) (reset_enable s) (quad_enable s) (ear s) (dirty_page s)
    (blkio_file s) (pi s).
Definition set_spansion_cr4nv (v : Z) (s : Flash) : Flash :=
  mkFlash (storage s) (fsize s) (fstate s) (fdata s) (flen s) (fpos s) (data_read_loop s)
    (needed_bytes s) (cmd_in_progress s) (cur_addr s) (nonvolatile_cfg s) (volatile_cfg s)
    (enh_volatile_cfg s) (spansion_cr1nv s) (spansion_cr2nv s) (spansion_cr3nv s) (u8 v)
    (spansion_cr1v s) (spansion_cr2v s) (spansion_cr3v s) (spansion_cr4v s) (write_enable s)
    (four_bytes_address_mode s) (reset_enable s) (quad_enable s) (ear s) (dirty_page s)
    (blkio_file s) (pi s).
Definition set_spansion_cr1v (v : Z) (s : Flash) : Flash :=
  mkFlash (storage s) (fsize s) (fstate s) (fdata s) (flen s) (fpos s) (data_read_loop s)
    (needed_bytes s) (cmd_in_progress s) (cur_addr s) (nonvolatile_cfg s) (volatile_cfg s)
    (enh_volatile_cfg s) (spansion_cr1nv s) (spansion_cr2nv s) (spansion_cr3nv s)
    (spansion_cr4nv s) (u8 v) (spansion_cr2v s) (spansion_cr3v s) (spansion_cr4v s)
    (write_enable s) (four_bytes_address_mode s) (reset_enable s) (quad_enable s) (ear s)
    (dirty_page s) (blkio_file s) (pi s).
Definition set_spansion_cr2v (v : Z) (s : Flash) : Flash :=
  mkFlash (storage s) (fsize s) (fstate s) (fdata s) (flen s) (fpos s) (data_read_loop s)
    (needed_bytes s) (cmd_in_progress s) (cur_addr s) (nonvolatile_cfg s) (volatile_cfg s)
    (enh_volatile_cfg s) (spansion_cr1nv s) (spansion_cr2nv s) (spansion_cr3nv s)
    (spansion_cr4nv s) (spansion_cr1v s) (u8 v) (spansion_cr3v s) (spansion_cr4v s)
    (write_enable s) (four_bytes_address_mode s) (reset_enable s) (quad_enable s) (ear s)
    (dirty_page s) (blkio_file s) (pi s).
Definition set_spansion_cr3v (v : Z) (s : Flash) : Flash :=
  mkFlash (storage s) (fsize s) (fstate s) (fdata s) (flen s) (fpos s) (data_read_loop s)
    (needed_bytes s) (cmd_in_progress s) (cur_addr s) (nonvolatile_cfg s) (volatile_cfg s)
    (enh_volatile_cfg s) (spansion_cr1nv s) (spansion_cr2nv s) (spansion_cr3nv s)
    (spansion_cr4nv s) (spansion_cr1v s) (spansion_cr2v s) (u8 v) (spansion_cr4v s)
    (write_enable s) (four_bytes_address_mode s) (reset_enable s) (quad_enable s) (ear s)
    (dirty_page s) (blkio_file s) (pi s).
Definition set_spansion_cr4v (v : Z) (s : Flash) : Flash :=
  mkFlash (storage s) (fsize s) (fstate s) (fdata s) (flen s) (fpos s) (data_read_loop s)
    (needed_bytes s) (cmd_in_progress s) (cur_addr s) (nonvolatile_cfg s) (volatile_cfg s)
    (enh_volatile_cfg s) (spansion_cr1nv s) (spansion_cr2nv s) (spansion_cr3nv s)
    (spansion_cr4nv s) (spansion_cr1v s) (spansion_cr2v s) (spansion_cr3v s) (u8 v)
    (write_enable s) (four_bytes_address_mode s) (reset_enable s) (quad_enable s) (ear s)
    (dirty_page s) (blkio_file s) (pi s).
Definition set_write_enable (v : bool) (s : Flash) : Flash :=
  mkFlash (storage s) (fsize s) (fstate s) (fdata s) (flen s) (fpos s) (data_read_loop s)
    (needed_bytes s) (cmd_in_progress s) (cur_addr s) (nonvolatile_cfg s) (volatile_cfg s)
    (enh_volatile_cfg s) (spansion_cr1nv s) (spansion_cr2nv s) (spansion_cr3nv s)
    (spansion_cr4nv s) (spansion_cr1v s) (spansion_cr2v s) (spansion_cr3v s) (spansion_cr4v s) v
    (four_bytes_address_mode s) (reset_enable s) (quad_enable s) (ear s) (dirty_page s)
    (blkio_file s) (pi s).
Definition set_four_bytes_address_mode (v : bool) (s : Flash) : Flash :=
  mkFlash (storage s) (fsize s) (fstate s) (fdata s) (flen s) (fpos s) (data_read_loop s)
    (needed_bytes s) (cmd_in_progress s) (cur_addr s) (nonvolatile_cfg s) (volatile_cfg s)
    (enh_volatile_cfg s) (spansion_cr1nv s) (spansion_cr2nv s) (spansion_cr3nv s)
    (spansion_cr4nv s) (spansion_cr1v s) (spansion_cr2v s) (spansion_cr3v s) (spansion_cr4v s)
    (write_enable s) v (reset_enable s) (quad_enable s) (ear s) (dirty_page s) (blkio_file s)
    (pi s).
Definition set_reset_enable (v : bool) (s : Flash) : Flash :=
  mkFlash (storage s) (fsize s) (fstate s) (fdata s) (flen s) (fpos s) (data_read_loop s)
    (needed_bytes s) (cmd_in_progress s) (cur_addr s) (nonvolatile_cfg s) (volatile_cfg s)
    (enh_volatile_cfg s) (spansion_cr1nv s) (spansion_cr2nv s) (spansion_cr3nv s)
    (spansion_cr4nv s) (spansion_cr1v s) (spansion_cr2v s) (spansion_cr3v s) (spansion_cr4v s)
    (write_enable s) (four_bytes_address_mode s) v (quad_enable s) (ear s) (dirty_page s)
    (blkio_file s) (pi s).
Definition set_quad_enable (v : bool) (s : Flash) : Flash :=
  mkFlash (storage s) (fsize s) (fstate s) (fdata s) (flen s) (fpos s) (data_read_loop s)
    (needed_bytes s) (cmd_in_progress s) (cur_addr s) (nonvolatile_cfg s) (volatile_cfg s)
    (enh_volatile_cfg s) (spansion_cr1nv s) (spansion_cr2nv s) (spansion_cr3nv s)
    (spansion_cr4nv s) (spansion_cr1v s) (spansion_cr2v s) (spansion_cr3v s) (spansion_cr4v s)
    (write_enable s) (four_bytes_address_mode s) (reset_enable s) v (ear s) (dirty_page s)
    (blkio_file s) (pi s).
Definition set_ear (v : Z) (s : Flash) : Flash :=
  mkFlash (storage s) (fsize s) (fstate s) (fdata s) (flen s) (fpos s) (data_read_loop s)
    (needed_bytes s) (cmd_in_progress s) (cur_addr s) (nonvolatile_cfg s) (volatile_cfg s)
    (enh_volatile_cfg s) (spansion_cr1nv s) (spansion_cr2nv s) (spansion_cr3nv s)
    (spansion_cr4nv s) (spansion_cr1v s) (spansion_cr2v s) (spansion_cr3v s) (spansion_cr4v s)
    (write_enable s) (four_bytes_address_mode s) (reset_enable s) (quad_enable s) (u8 v)
    (dirty_page s) (blkio_file s) (pi s).
Definition set_dirty_page (v : Z) (s : Flash) : Flash :=
  mkFlash (storage s) (fsize s) (fstate s) (fdata s) (flen s) (fpos s) (data_read_loop s)
    (needed_bytes s) (cmd_in_progress s) (cur_addr s) (nonvolatile_cfg s) (volatile_cfg s)
    (enh_volatile_cfg s) (spansion_cr1nv s) (spansion_cr2nv s) (spansion_cr3nv s)
    (spansion_cr4nv s) (spansion_cr1v s) (spansion_cr2v s) (spansion_cr3v s) (spansion_cr4v s)
    (write_enable s) (four_bytes_address_mode s) (reset_enable s) (quad_enable s) (ear s) v
    (blkio_file s) (pi s).
Definition set_blkio_file (v : option (gmap Z Z)) (s : Flash) : Flash :=
  mkFlash (storage s) (fsize s) (fstate s) (fdata s) (flen s) (fpos s) (data_read_loop s)
    (needed_bytes s) (cmd_in_progress s) (cur_addr s) (nonvolatile_cfg s) (volatile_cfg s)
    (enh_volatile_cfg s) (spansion_cr1nv s) (spansion_cr2nv s) (spansion_cr3nv s)
    (spansion_cr4nv s) (spansion_cr1v s) (spansion_cr2v s) (spansion_cr3v s) (spansion_cr4v s)
    (write_enable s) (four_bytes_address_mode s) (reset_enable s) (quad_enable s) (ear s)
    (dirty_page s) v (pi s).
Definition set_pi (v : FlashPartInfo) (s : Flash) : Flash :=
  mkFlash (storage s) (fsize s) (fstate s) (fdata s) (flen s) (fpos s) (data_read_loop s)
    (needed_bytes s) (cmd_in_progress s) (cur_addr s) (nonvolatile_cfg s) (volatile_cfg s)
    (enh_volatile_cfg s) (spansion_cr1nv s) (spansion_cr2nv s) (spansion_cr3nv s)
    (spansion_cr4nv s) (spansion_cr1v s) (spansion_cr2v s) (spansion_cr3v s) (spansion_cr4v s)
    (write_enable s) (four_bytes_address_mode s) (reset_enable s) (quad_enable s) (ear s)
    (dirty_page s) (blkio_file s) v.

Definition storage_at (s : Flash) (a : Z) : Z := default 0xFF (storage s !! a).
Definition data_at (s : Flash) (i : Z) : Z := arr_get (fdata s) i.
Definition put_data (i v : Z) (s : Flash) : Flash := set_fdata (arr_set (fdata s) i (u8 v)) s.

(** memset(m + off, 0xff, len) on a map whose absent entries are 0xFF. *)
Definition erase_range (off len : Z) (m : gmap Z Z) : gmap Z Z :=
  filter (fun kv => ~ (off <= fst kv < off + len)) m.

(** Copy the bytes [off, off+len) of [src] over those of [dst]. *)
Definition copy_range (off len : Z) (src dst : gmap Z Z) : gmap Z Z :=
  filter (fun kv => off <= fst kv < off + len) src ∪ erase_range off len dst.

Definition one_of (v : Z) (l : list Z) : bool := existsb (Z.eqb v) l.

Definition FM := M Flash.

Definition get_man (s : Flash) : Manufacturer :=
  let id0 := arr_get (part_id (pi s)) 0 in
  if id0 =? 0x20 then MAN_NUMONYX
  else if id0 =? 0xEF then MAN_WINBOND
  else if id0 =? 0x01 then MAN_SPANSION
  else if id0 =? 0xC2 then MAN_MACRONIX
  else if id0 =? 0xBF then MAN_SST
  else MAN_GENERIC.

(** The asserts of deposit32 and extract32 (start >= 0, length > 0, length <= 32 -
    start) hold at every call: all positions and lengths are constants. *)
Definition deposit32 (value start length fieldval : Z) : Z :=
  let mask := u32 (Z.shiftl (Z.shiftr (Z.ones 32) (32 - length)) start) in
  Z.lor (Z.ldiff value mask) (Z.land (u32 (Z.shiftl fieldval start)) mask).

Definition extract32 (value start length : Z) : Z :=
  Z.land (Z.shiftr value start) (Z.shiftr (Z.ones 32) (32 - length)).

Definition flash_sync_area (off len : Z) : FM unit :=
  let! s := get in
  match blkio_file s with
  | None => ret tt
  | Some f => modify (set_blkio_file (Some (copy_range off len (storage s) f)))
  end.

Definition flash_sync_page (page : Z) : FM unit :=
  let! s := get in flash_sync_area (page * page_size (pi s)) (page_size (pi s)).

(** The erase length of a command; [None] leaves the switch by return. *)
Definition erase_len (s : Flash) (cmd : Z) : option Z :=
  if one_of cmd [ERASE_4K; ERASE4_4K] then Some (4 * KiB)
  else if one_of cmd [ERASE_32K; ERASE4_32K] then Some (32 * KiB)
  else if one_of cmd [ERASE_SECTOR; ERASE4_SECTOR] then Some (sector_size (pi s))
  else if cmd =? BULK_ERASE then Some (fsize s)
  else if die_cnt (pi s) =? 0 then None else Some (fsize s / die_cnt (pi s)).

Definition flash_erase (offset cmd : Z) : FM unit :=
  ensure (one_of cmd [ERASE_4K; ERASE4_4K; ERASE_32K; ERASE4_32K; ERASE_SECTOR;
                      ERASE4_SECTOR; BULK_ERASE; DIE_ERASE]) HAssert ;;
  let! s := get in
  match erase_len s cmd with
  | None => ret tt
  | Some len =>
      let offset := if cmd =? DIE_ERASE then Z.land offset (u32 (Z.lnot (len - 1)))
                    else offset in
      if negb (write_enable s) then ret tt
      else
        ensure (offset + len <=? fsize s) HUndefined ;;
        modify (fun s => set_storage (erase_range offset len (storage s)) s) ;;
        flash_sync_area offset len
  end.

Definition flash_sync_dirty (newpage : Z) : FM unit :=
  let! s := get in
  when ((0 <=? dirty_page s) && negb (dirty_page s =? newpage))
    (flash_sync_page (dirty_page s) ;; modify (set_dirty_page newpage)).

Definition flash_write8 (addr data : Z) : FM unit :=
  let! s := get in
  let page := addr / page_size (pi s) in
  ensure (cur_addr s <? fsize s) HUndefined ;;
  let new := if Z.land (part_flags (pi s)) EEPROM =? 0
             then Z.land (storage_at s (cur_addr s)) data else data in
  modify (set_storage (<[cur_addr s := u8 new]> (storage s))) ;;
  flash_sync_dirty page ;;
  modify (set_dirty_page page).

Definition get_addr_length (s : Flash) : Z :=
  if part_flags (pi s) =? EEPROM then 2
  else if one_of (cmd_in_progress s)
            [PP4; PP4_4; QPP_4; READ4; QIOR4; ERASE4_4K; ERASE4_32K; ERASE4_SECTOR;
             FAST_READ4; DOR4; QOR4; DIOR4] then 4
  else if four_bytes_address_mode s then 4 else 3.

(** The address bytes folded most significant first, starting from the extended
    address register in three-byte mode. *)
Definition collect_addr (s : Flash) (n : Z) : Z :=
  fold_left (fun a i => Z.lor (u32 (Z.shiftl a 8)) (data_at s (Z.of_nat i)))
    (seq 0 (Z.to_nat n)) (if n =? 3 then ear s else 0).

Definition complete_wrsr : FM unit :=
  let! s := get in
  match get_man s with
  | MAN_SPANSION =>
      modify (set_quad_enable (negb (Z.land (data_at s 1) 0x02 =? 0)))
  | MAN_MACRONIX =>
      modify (set_quad_enable (negb (extract32 (data_at s 0) 6 1 =? 0))) ;;
      when (1 <? flen s)
        (modify (set_volatile_cfg (data_at s 1)) ;;
         modify (set_four_bytes_address_mode (negb (extract32 (data_at s 1) 5 1 =? 0))))
  | _ => ret tt
  end ;;
  let! s := get in when (write_enable s) (modify (set_write_enable false)).

Definition complete_rdid : FM unit :=
  let! s := get in
  if decide (get_man s = MAN_SST) then
    when (cur_addr s <=? 1)
      ((if negb (cur_addr s =? 0)
        then modify (put_data 0 (arr_get (part_id (pi s)) 2)) ;;
             modify (put_data 1 (arr_get (part_id (pi s)) 0))
        else modify (put_data 0 (arr_get (part_id (pi s)) 0)) ;;
             modify (put_data 1 (arr_get (part_id (pi s)) 2))) ;;
       modify (set_fpos 0) ;; modify (set_flen 2) ;;
       modify (set_data_read_loop true) ;; modify (set_fstate STATE_READING_DATA))
  else ret tt.

Definition complete_collecting_data : FM unit :=
  let! s := get in
  modify (set_cur_addr (collect_addr s (get_addr_length s))) ;;
  modify (fun s => set_cur_addr (Z.land (cur_addr s) (u32 (fsize s - 1))) s) ;;
  modify (set_fstate STATE_IDLE) ;;
  let! s := get in
  let cmd := cmd_in_progress s in
  if one_of cmd [DPP; QPP; QPP_4; PP; PP4; PP4_4] then
    modify (set_fstate STATE_PAGE_PROGRAM)
  else if one_of cmd [READ; READ4; FAST_READ; FAST_READ4; DOR; DOR4; QOR; QOR4;
                      DIOR; DIOR4; QIOR; QIOR4] then
    modify (set_fstate STATE_READ)
  else if one_of cmd [ERASE_4K; ERASE4_4K; ERASE_32K; ERASE4_32K; ERASE_SECTOR;
                      ERASE4_SECTOR; DIE_ERASE] then
    flash_erase (cur_addr s) cmd
  else if cmd =? WRSR then complete_wrsr
  else if one_of cmd [BRWR; EXTEND_ADDR_WRITE] then modify (set_ear (data_at s 0))
  else if cmd =? WNVCR then
    modify (set_nonvolatile_cfg (Z.lor (data_at s 0) (Z.shiftl (data_at s 1) 8)))
  else if cmd =? WVCR then modify (set_volatile_cfg (data_at s 0))
  else if cmd =? WEVCR then modify (set_enh_volatile_cfg (data_at s 0))
  else if one_of cmd [RDID_90; RDID_AB] then complete_rdid
  else ret tt.

Definition or_volatile (v : Z) : FM unit :=
  modify (fun s => set_volatile_cfg (Z.lor (volatile_cfg s) v) s).
Definition or_enh (v : Z) : FM unit :=
  modify (fun s => set_enh_volatile_cfg (Z.lor (enh_volatile_cfg s) v) s).

Definition reset_memory : FM unit :=
  modify (set_cmd_in_progress NOP) ;; modify (set_cur_addr 0) ;; modify (set_ear 0) ;;
  modify (set_four_bytes_address_mode false) ;; modify (set_flen 0) ;;
  modify (set_needed_bytes 0) ;; modify (set_fpos 0) ;; modify (set_fstate STATE_IDLE) ;;
  modify (set_write_enable false) ;; modify (set_reset_enable false) ;;
  modify (set_quad_enable false) ;;
  let! s := get in
  match get_man s with
  | MAN_NUMONYX =>
      modify (set_volatile_cfg 0) ;;
      or_volatile VCFG_DUMMY ;; or_volatile VCFG_WRAP_SEQUENTIAL ;;
      when (negb (Z.land (nonvolatile_cfg s) NVCFG_XIP_MODE_MASK =? NVCFG_XIP_MODE_DISABLED))
        (or_volatile VCFG_XIP_MODE_ENABLED) ;;
      modify (fun s => set_volatile_cfg
        (Z.lor (volatile_cfg s)
          (deposit32 (volatile_cfg s) VCFG_DUMMY_CLK_POS CFG_DUMMY_CLK_LEN
            (extract32 (nonvolatile_cfg s) NVCFG_DUMMY_CLK_POS CFG_DUMMY_CLK_LEN))) s) ;;
      modify (set_enh_volatile_cfg 0) ;;
      or_enh EVCFG_OUT_DRIVER_STRENGTH_DEF ;; or_enh EVCFG_VPP_ACCELERATOR ;;
      or_enh EVCFG_RESET_HOLD_ENABLED ;;
      when (negb (Z.land (nonvolatile_cfg s) NVCFG_DUAL_IO_MASK =? 0))
        (or_enh EVCFG_DUAL_IO_ENABLED) ;;
      when (negb (Z.land (nonvolatile_cfg s) NVCFG_QUAD_IO_MASK =? 0))
        (or_enh EVCFG_QUAD_IO_ENABLED) ;;
      when (Z.land (nonvolatile_cfg s) NVCFG_4BYTE_ADDR_MASK =? 0)
        (modify (set_four_bytes_address_mode true)) ;;
      when (Z.land (nonvolatile_cfg s) NVCFG_LOWER_SEGMENT_MASK =? 0)
        (modify (set_ear (fsize s / MAX_3BYTES_SIZE - 1)))
  | MAN_MACRONIX => modify (set_volatile_cfg 0x7)
  | MAN_SPANSION =>
      modify (set_spansion_cr1v (spansion_cr1nv s)) ;;
      modify (set_spansion_cr2v (spansion_cr2nv s)) ;;
      modify (set_spansion_cr3v (spansion_cr3nv s)) ;;
      modify (set_spansion_cr4v (spansion_cr4nv s)) ;;
      modify (fun s => set_quad_enable (negb (extract32 (spansion_cr1v s)
        SPANSION_QUAD_CFG_POS SPANSION_QUAD_CFG_LEN =? 0)) s) ;;
      modify (fun s => set_four_bytes_address_mode (negb (extract32 (spansion_cr2v s)
        SPANSION_ADDR_LEN_POS SPANSION_ADDR_LEN_LEN =? 0)) s)
  | _ => ret tt
  end.

(** The common tail of the decode functions: collect [n] bytes from scratch. *)
Definition start_collecting (n : Z) : FM unit :=
  modify (set_needed_bytes n) ;; modify (set_fpos 0) ;; modify (set_flen 0) ;;
  modify (set_fstate STATE_COLLECTING_DATA).

Definition decode_fast_read_cmd : FM unit :=
  let! s := get in
  let n := get_addr_length s in
  start_collecting
    match get_man s with
    | MAN_WINBOND => n + 8
    | MAN_NUMONYX => n + extract32 (volatile_cfg s) 4 4
    | MAN_MACRONIX => if extract32 (volatile_cfg s) 6 2 =? 1 then n + 6 else n + 8
    | MAN_SPANSION =>
        n + extract32 (spansion_cr2v s) SPANSION_DUMMY_CLK_POS SPANSION_DUMMY_CLK_LEN
    | _ => n
    end.

Definition decode_dio_read_cmd : FM unit :=
  let! s := get in
  let n := get_addr_length s in
  start_collecting
    match get_man s with
    | MAN_WINBOND => n + WINBOND_CONTINUOUS_READ_MODE_CMD_LEN
    | MAN_SPANSION =>
        n + SPANSION_CONTINUOUS_READ_MODE_CMD_LEN +
        extract32 (spansion_cr2v s) SPANSION_DUMMY_CLK_POS SPANSION_DUMMY_CLK_LEN
    | MAN_NUMONYX => n + extract32 (volatile_cfg s) 4 4
    | MAN_MACRONIX =>
        let v := extract32 (volatile_cfg s) 6 2 in
        if v =? 1 then n + 6 else if v =? 2 then n + 8 else n + 4
    | _ => n
    end.

Definition decode_qio_read_cmd : FM unit :=
  let! s := get in
  let n := get_addr_length s in
  start_collecting
    match get_man s with
    | MAN_WINBOND => n + WINBOND_CONTINUOUS_READ_MODE_CMD_LEN + 4
    | MAN_SPANSION =>
        n + SPANSION_CONTINUOUS_READ_MODE_CMD_LEN +
        extract32 (spansion_cr2v s) SPANSION_DUMMY_CLK_POS SPANSION_DUMMY_CLK_LEN
    | MAN_NUMONYX => n + extract32 (volatile_cfg s) 4 4
    | MAN_MACRONIX =>
        let v := extract32 (volatile_cfg s) 6 2 in
        if v =? 1 then n + 4 else if v =? 2 then n + 8 else n + 6
    | _ => n
    end.

(** Leave [n] reply bytes in the internal buffer. *)
Definition start_reading (n : Z) : FM unit :=
  modify (set_fpos 0) ;; modify (set_flen n) ;; modify (set_fstate STATE_READING_DATA).

Definition decode_wrsr : FM unit :=
  let! s := get in
  when (write_enable s)
    (match get_man s with
     | MAN_SPANSION =>
         modify (set_needed_bytes 2) ;; modify (set_fstate STATE_COLLECTING_DATA)
     | MAN_MACRONIX =>
         modify (set_needed_bytes 2) ;; modify (set_fstate STATE_COLLECTING_VAR_LEN_DATA)
     | _ => modify (set_needed_bytes 1) ;; modify (set_fstate STATE_COLLECTING_DATA)
     end ;;
     modify (set_fpos 0)).

(** for (i = 0; i < id_len; i++) data[i] = id[i] *)
Definition fill_jedec (s : Flash) : list Z :=
  fold_left (fun d i => arr_set d (Z.of_nat i) (u8 (arr_get (part_id (pi s)) (Z.of_nat i))))
    (seq 0 (Z.to_nat (id_len (pi s)))) (fdata s).

Definition decode_new_cmd (value : Z) : FM unit :=
  modify (set_cmd_in_progress value) ;;
  when (negb (value =? RESET_MEMORY)) (modify (set_reset_enable false)) ;;
  let! s := get in
  if one_of value [ERASE_4K; ERASE4_4K; ERASE_32K; ERASE4_32K; ERASE_SECTOR;
                   ERASE4_SECTOR; READ; READ4; DPP; QPP; QPP_4; PP; PP4; PP4_4;
                   DIE_ERASE; RDID_90; RDID_AB] then
    start_collecting (get_addr_length s)
  else if one_of value [FAST_READ; FAST_READ4; DOR; DOR4; QOR; QOR4] then
    decode_fast_read_cmd
  else if one_of value [DIOR; DIOR4] then decode_dio_read_cmd
  else if one_of value [QIOR; QIOR4] then decode_qio_read_cmd
  else if value =? WRSR then decode_wrsr
  else if value =? WRDI then modify (set_write_enable false)
  else if value =? WREN then modify (set_write_enable true)
  else if value =? RDSR then
    modify (put_data 0 (Z.lor (Z.shiftl (b2z (write_enable s)) 1)
      (if decide (get_man s = MAN_MACRONIX) then Z.shiftl (b2z (quad_enable s)) 6 else 0))) ;;
    start_reading 1 ;; modify (set_data_read_loop true)
  else if value =? READ_FSR then
    modify (put_data 0 (Z.lor FSR_FLASH_READY
      (if four_bytes_address_mode s then FSR_4BYTE_ADDR_MODE_ENABLED else 0))) ;;
    start_reading 1 ;; modify (set_data_read_loop true)
  else if value =? JEDEC_READ then
    modify (fun s => set_fdata (fill_jedec s) s) ;; start_reading (id_len (pi s))
  else if value =? RDCR then
    modify (put_data 0 (Z.lor (Z.land (volatile_cfg s) 0xFF)
      (Z.shiftl (b2z (four_bytes_address_mode s)) 5))) ;; start_reading 1
  else if one_of value [BULK_ERASE_60; BULK_ERASE] then
    when (write_enable s) (flash_erase 0 BULK_ERASE)
  else if value =? NOP then ret tt
  else if value =? EN_4BYTE_ADDR then modify (set_four_bytes_address_mode true)
  else if value =? EX_4BYTE_ADDR then modify (set_four_bytes_address_mode false)
  else if one_of value [BRRD; EXTEND_ADDR_READ] then
    modify (put_data 0 (ear s)) ;; start_reading 1
  else if one_of value [BRWR; EXTEND_ADDR_WRITE] then
    when (write_enable s) (start_collecting 1)
  else if value =? RNVCR then
    modify (put_data 0 (Z.land (nonvolatile_cfg s) 0xFF)) ;;
    modify (put_data 1 (Z.land (Z.shiftr (nonvolatile_cfg s) 8) 0xFF)) ;; start_reading 2
  else if value =? WNVCR then
    when (write_enable s && bool_decide (get_man s = MAN_NUMONYX)) (start_collecting 2)
  else if value =? RVCR then
    modify (put_data 0 (Z.land (volatile_cfg s) 0xFF)) ;; start_reading 1
  else if value =? WVCR then when (write_enable s) (start_collecting 1)
  else if value =? REVCR then
    modify (put_data 0 (Z.land (enh_volatile_cfg s) 0xFF)) ;; start_reading 1
  else if value =? WEVCR then when (write_enable s) (start_collecting 1)
  else if value =? RESET_ENABLE then modify (set_reset_enable true)
  else if value =? RESET_MEMORY then when (reset_enable s) reset_memory
  else if value =? RDCR_EQIO then
    match get_man s with
    | MAN_SPANSION =>
        modify (put_data 0 (Z.shiftl (b2z (quad_enable s)) 1)) ;; start_reading 1
    | MAN_MACRONIX => modify (set_quad_enable true)
    | _ => ret tt
    end
  else if value =? RSTQIO then modify (set_quad_enable false)
  else ret tt.

Definition m25p80_cs (select : bool) : FM unit :=
  when select
    (let! s := get in
     when (bool_decide (fstate s = STATE_COLLECTING_VAR_LEN_DATA)) complete_collecting_data ;;
     modify (set_flen 0) ;; modify (set_fpos 0) ;; modify (set_fstate STATE_IDLE) ;;
     flash_sync_dirty (-1) ;; modify (set_data_read_loop false)).

Definition advance : FM unit :=
  modify (fun s => set_cur_addr (Z.land (u32 (cur_addr s + 1)) (u32 (fsize s - 1))) s).

Definition m25p80_transfer8 (tx : Z) : FM Z :=
  let! s := get in
  match fstate s with
  | STATE_PAGE_PROGRAM =>
      flash_write8 (cur_addr s) (u8 tx) ;; advance ;; ret 0
  | STATE_READ =>
      ensure (cur_addr s <? fsize s) HUndefined ;;
      advance ;; ret (storage_at s (cur_addr s))
  | STATE_COLLECTING_DATA | STATE_COLLECTING_VAR_LEN_DATA =>
      if M25P80_INTERNAL_DATA_BUFFER_SZ <=? flen s then
        modify (set_flen 0) ;; modify (set_fpos 0) ;; modify (set_fstate STATE_IDLE) ;;
        ret 0
      else
        modify (put_data (flen s) (u8 tx)) ;;
        modify (set_flen (flen s + 1)) ;;
        let! s := get in
        when (flen s =? needed_bytes s) complete_collecting_data ;; ret 0
  | STATE_READING_DATA =>
      if M25P80_INTERNAL_DATA_BUFFER_SZ <=? fpos s then
        modify (set_flen 0) ;; modify (set_fpos 0) ;; modify (set_fstate STATE_IDLE) ;;
        ret 0
      else
        let r := data_at s (fpos s) in
        modify (set_fpos (fpos s + 1)) ;;
        let! s := get in
        when (fpos s =? flen s)
          (modify (set_fpos 0) ;;
           when (negb (data_read_loop s)) (modify (set_fstate STATE_IDLE))) ;;
        ret r
  | STATE_IDLE => decode_new_cmd (u8 tx) ;; ret 0
  end.

(** ** Initialisation

    [file] is the contents of the backing file named on the command line, if any.
    The part chosen is the first that is large enough. *)
Definition part_bytes (p : FlashPartInfo) : Z := u32 (sector_size p * n_sectors p).

Definition pick_part (blkio_size : Z) : option FlashPartInfo :=
  find (fun p => blkio_size <=? part_bytes p) known_devices.

(** The first [n] bytes of the file over an erased chip. *)
Definition load_image (file : list Z) : gmap Z Z :=
  list_to_map (zip (map Z.of_nat (seq 0 (length file))) (map u8 file)).

Definition flash_init (file : option (list Z)) : FM unit :=
  modify (set_dirty_page (-1)) ;;
  match pick_part (Z.of_nat (length (default [] file))) with
  | None => stop HPanic
  | Some p =>
      modify (set_pi p) ;; modify (set_fsize (part_bytes p)) ;;
      modify (set_storage (load_image (default [] file))) ;;
      modify (set_blkio_file (load_image <$> file))
  end.

(** The static object [flash]: all bytes zero. *)
Definition flash_zero : Flash :=
  mkFlash ∅ 0 STATE_IDLE (replicate 16 0) 0 0 false 0 0 0 0 0 0 0 0 0 0 0 0 0 0
    false false false false 0 0 None (mkPart EmptyString [] 0 0 0 0 0 0).
