(* ===== verification/Sdlkey.v ===== *)
(** * Key codes (src/utils/sdlkey.c)

    SDLKey is an enumeration of the SDL library; the constructors are the keys the
    two tables name, [SDLK_other] any other key of the enumeration and
    [SDLK_invalid] a value outside it (negative or at least SDLK_LAST).  The tables
    are arrays with designated initialisers: an entry not listed is zero. *)
From S2P Require Import Prelude.

Inductive SDLKey : Type :=
| SDLK_ESCAPE | SDLK_F1 | SDLK_F2 | SDLK_F3 | SDLK_F4 | SDLK_F5 | SDLK_F6 | SDLK_F7
| SDLK_F8 | SDLK_F9 | SDLK_F10 | SDLK_F11 | SDLK_F12 | SDLK_SCROLLOCK | SDLK_BACKQUOTE
| SDLK_1 | SDLK_2 | SDLK_3 | SDLK_4 | SDLK_5 | SDLK_6 | SDLK_7 | SDLK_8 | SDLK_9
| SDLK_0 | SDLK_MINUS | SDLK_EQUALS | SDLK_BACKSPACE | SDLK_TAB | SDLK_q | SDLK_w
| SDLK_e | SDLK_r | SDLK_t | SDLK_y | SDLK_u | SDLK_i | SDLK_o | SDLK_p
| SDLK_LEFTBRACKET | SDLK_RIGHTBRACKET | SDLK_SLASH | SDLK_CAPSLOCK | SDLK_a | SDLK_s
| SDLK_d | SDLK_f | SDLK_g | SDLK_h | SDLK_j | SDLK_k | SDLK_l | SDLK_SEMICOLON
| SDLK_QUOTE | SDLK_RETURN | SDLK_LSHIFT | SDLK_z | SDLK_x | SDLK_c | SDLK_v | SDLK_b
| SDLK_n | SDLK_m | SDLK_COMMA | SDLK_PERIOD | SDLK_BACKSLASH | SDLK_RSHIFT
| SDLK_LCTRL | SDLK_LALT | SDLK_SPACE | SDLK_RALT | SDLK_RCTRL | SDLK_INSERT
| SDLK_HOME | SDLK_PAGEUP | SDLK_DELETE | SDLK_END | SDLK_PAGEDOWN | SDLK_UP
| SDLK_LEFT | SDLK_DOWN | SDLK_RIGHT | SDLK_NUMLOCK | SDLK_KP_DIVIDE | SDLK_KP_MULTIPLY
| SDLK_KP_MINUS | SDLK_KP_PLUS | SDLK_KP7 | SDLK_KP8 | SDLK_KP9 | SDLK_KP4 | SDLK_KP5
| SDLK_KP6 | SDLK_KP1 | SDLK_KP2 | SDLK_KP3 | SDLK_KP0 | SDLK_KP_EQUALS | SDLK_KP_ENTER
| SDLK_KP_PERIOD
| SDLK_other | SDLK_invalid.

(** The keys with an entry in a table. *)
Definition listed_keys : list SDLKey :=
  [SDLK_ESCAPE; SDLK_F1; SDLK_F2; SDLK_F3; SDLK_F4; SDLK_F5; SDLK_F6; SDLK_F7;
   SDLK_F8; SDLK_F9; SDLK_F10; SDLK_F11; SDLK_F12; SDLK_SCROLLOCK; SDLK_BACKQUOTE;
   SDLK_1; SDLK_2; SDLK_3; SDLK_4; SDLK_5; SDLK_6; SDLK_7; SDLK_8; SDLK_9; SDLK_0;
   SDLK_MINUS; SDLK_EQUALS; SDLK_BACKSPACE; SDLK_TAB; SDLK_q; SDLK_w; SDLK_e; SDLK_r;
   SDLK_t; SDLK_y; SDLK_u; SDLK_i; SDLK_o; SDLK_p; SDLK_LEFTBRACKET;
   SDLK_RIGHTBRACKET; SDLK_SLASH; SDLK_CAPSLOCK; SDLK_a; SDLK_s; SDLK_d; SDLK_f;
   SDLK_g; SDLK_h; SDLK_j; SDLK_k; SDLK_l; SDLK_SEMICOLON; SDLK_QUOTE; SDLK_RETURN;
   SDLK_LSHIFT; SDLK_z; SDLK_x; SDLK_c; SDLK_v; SDLK_b; SDLK_n; SDLK_m; SDLK_COMMA;
   SDLK_PERIOD; SDLK_BACKSLASH; SDLK_RSHIFT; SDLK_LCTRL; SDLK_LALT; SDLK_SPACE;
   SDLK_RALT; SDLK_RCTRL; SDLK_INSERT; SDLK_HOME; SDLK_PAGEUP; SDLK_DELETE; SDLK_END;
   SDLK_PAGEDOWN; SDLK_UP; SDLK_LEFT; SDLK_DOWN; SDLK_RIGHT; SDLK_NUMLOCK;
   SDLK_KP_DIVIDE; SDLK_KP_MULTIPLY; SDLK_KP_MINUS; SDLK_KP_PLUS; SDLK_KP7; SDLK_KP8;
   SDLK_KP9; SDLK_KP4; SDLK_KP5; SDLK_KP6; SDLK_KP1; SDLK_KP2; SDLK_KP3; SDLK_KP0;
   SDLK_KP_EQUALS; SDLK_KP_ENTER; SDLK_KP_PERIOD].

(** SDLK2scancode_map: down code and up code. *)
Definition SDLK2scancode_map (k : SDLKey) : Z * Z :=
  match k with
  | SDLK_ESCAPE => (0x76, 0xF076)
  | SDLK_F1 => (0x05, 0xF005)
  | SDLK_F2 => (0x06, 0xF006)
  | SDLK_F3 => (0x04, 0xF004)
  | SDLK_F4 => (0x0C, 0xF00C)
  | SDLK_F5 => (0x03, 0xF003)
  | SDLK_F6 => (0x0B, 0xF00B)
  | SDLK_F7 => (0x83, 0xF083)
  | SDLK_F8 => (0x0A, 0xF00A)
  | SDLK_F9 => (0x01, 0xF001)
  | SDLK_F10 => (0x09, 0xF009)
  | SDLK_F11 => (0x78, 0xF078)
  | SDLK_F12 => (0x07, 0xF007)
  | SDLK_SCROLLOCK => (0x7E, 0xF07E)
  | SDLK_BACKQUOTE => (0x0E, 0xF00E)
  | SDLK_1 => (0x16, 0xF016)
  | SDLK_2 => (0x1E, 0xF01E)
  | SDLK_3 => (0x26, 0xF026)
  | SDLK_4 => (0x25, 0xF025)
  | SDLK_5 => (0x2E, 0xF02E)
  | SDLK_6 => (0x36, 0xF036)
  | SDLK_7 => (0x3D, 0xF03D)
  | SDLK_8 => (0x3E, 0xF03E)
  | SDLK_9 => (0x46, 0xF046)
  | SDLK_0 => (0x45, 0xF045)
  | SDLK_MINUS => (0x4E, 0xF04E)
  | SDLK_EQUALS => (0x55, 0xF055)
  | SDLK_BACKSPACE => (0x66, 0xF066)
  | SDLK_TAB => (0x0D, 0xF00D)
  | SDLK_q => (0x15, 0xF015)
  | SDLK_w => (0x1D, 0xF01D)
  | SDLK_e => (0x24, 0xF024)
  | SDLK_r => (0x2D, 0xF02D)
  | SDLK_t => (0x2C, 0xF02C)
  | SDLK_y => (0x35, 0xF035)
  | SDLK_u => (0x3C, 0xF03C)
  | SDLK_i => (0x43, 0xF043)
  | SDLK_o => (0x44, 0xF044)
  | SDLK_p => (0x4D, 0xF04D)
  | SDLK_LEFTBRACKET => (0x54, 0xF054)
  | SDLK_RIGHTBRACKET => (0x5B, 0xF05B)
  | SDLK_SLASH => (0x5D, 0xF05D)
  | SDLK_CAPSLOCK => (0x58, 0xF058)
  | SDLK_a => (0x1C, 0xF01C)
  | SDLK_s => (0x1B, 0xF01B)
  | SDLK_d => (0x23, 0xF023)
  | SDLK_f => (0x2B, 0xF02B)
  | SDLK_g => (0x34, 0xF034)
  | SDLK_h => (0x33, 0xF033)
  | SDLK_j => (0x3B, 0xF03B)
  | SDLK_k => (0x42, 0xF042)
  | SDLK_l => (0x4B, 0xF04B)
  | SDLK_SEMICOLON => (0x4C, 0xF04C)
  | SDLK_QUOTE => (0x52, 0xF052)
  | SDLK_RETURN => (0x5A, 0xF05A)
  | SDLK_LSHIFT => (0x12, 0xF012)
  | SDLK_z => (0x1A, 0xF01A)
  | SDLK_x => (0x22, 0xF022)
  | SDLK_c => (0x21, 0xF021)
  | SDLK_v => (0x2A, 0xF02A)
  | SDLK_b => (0x32, 0xF032)
  | SDLK_n => (0x31, 0xF031)
  | SDLK_m => (0x3A, 0xF03A)
  | SDLK_COMMA => (0x41, 0xF041)
  | SDLK_PERIOD => (0x49, 0xF049)
  | SDLK_BACKSLASH => (0x4A, 0xF04A)
  | SDLK_RSHIFT => (0x59, 0xF059)
  | SDLK_LCTRL => (0x14, 0xF014)
  | SDLK_LALT => (0x11, 0xF011)
  | SDLK_SPACE => (0x29, 0xF029)
  | SDLK_RALT => (0xE011, 0xE0F011)
  | SDLK_RCTRL => (0xE014, 0xE0F014)
  | SDLK_INSERT => (0xE070, 0xE0F070)
  | SDLK_HOME => (0xE06C, 0xE0F06C)
  | SDLK_PAGEUP => (0xE07D, 0xE0F07D)
  | SDLK_DELETE => (0xE071, 0xE0F071)
  | SDLK_END => (0xE069, 0xE0F069)
  | SDLK_PAGEDOWN => (0xE07A, 0xE0F07A)
  | SDLK_UP => (0xE075, 0xE0F075)
  | SDLK_LEFT => (0xE06B, 0xE0F06B)
  | SDLK_DOWN => (0xE072, 0xE0F072)
  | SDLK_RIGHT => (0xE074, 0xE0F074)
  | SDLK_NUMLOCK => (0x77, 0xF077)
  | SDLK_KP_DIVIDE => (0xE04A, 0xE0F04A)
  | SDLK_KP_MULTIPLY => (0x7C, 0xF07C)
  | SDLK_KP_MINUS => (0x7B, 0xF07B)
  | SDLK_KP_PLUS => (0x79, 0xF079)
  | SDLK_KP7 => (0x6C, 0xF06C)
  | SDLK_KP8 => (0x75, 0xF075)
  | SDLK_KP9 => (0x7D, 0xF07D)
  | SDLK_KP4 => (0x6B, 0xF06B)
  | SDLK_KP5 => (0x73, 0xF073)
  | SDLK_KP6 => (0x74, 0xF074)
  | SDLK_KP1 => (0x69, 0xF069)
  | SDLK_KP2 => (0x72, 0xF072)
  | SDLK_KP3 => (0x7A, 0xF07A)
  | SDLK_KP0 => (0x70, 0xF070)
  | SDLK_KP_EQUALS => (0x71, 0xF071)
  | SDLK_KP_ENTER => (0xE05A, 0xE0F05A)
  | _ => (0, 0)
  end.

Definition SDLKey_to_scancode (is_keyup : bool) (key : SDLKey) : Z :=
  match key with
  | SDLK_invalid => 0
  | _ => if is_keyup then snd (SDLK2scancode_map key) else fst (SDLK2scancode_map key)
  end.

(** SDLK2ascii_map: the bytes of the string; [None] is a null pointer. *)
Definition SDLK2ascii_map (k : SDLKey) : option (list Z) :=
  match k with
  | SDLK_ESCAPE => Some [27]
  | SDLK_F1 => Some [27; 79; 80]
  | SDLK_F2 => Some [27; 79; 81]
  | SDLK_F3 => Some [27; 79; 82]
  | SDLK_F4 => Some [27; 79; 83]
  | SDLK_F5 => Some [27; 91; 49; 53; 126]
  | SDLK_F6 => Some [27; 91; 49; 55; 126]
  | SDLK_F7 => Some [27; 91; 49; 56; 126]
  | SDLK_F8 => Some [27; 91; 49; 57; 126]
  | SDLK_F9 => Some [27; 91; 50; 48; 126]
  | SDLK_F10 => Some [27; 91; 50; 49; 126]
  | SDLK_F11 => Some [27; 91; 50; 50; 126]
  | SDLK_F12 => Some [27; 91; 50; 52; 126]
  | SDLK_BACKQUOTE => Some [96]
  | SDLK_1 => Some [49]
  | SDLK_2 => Some [50]
  | SDLK_3 => Some [51]
  | SDLK_4 => Some [52]
  | SDLK_5 => Some [53]
  | SDLK_6 => Some [54]
  | SDLK_7 => Some [55]
  | SDLK_8 => Some [56]
  | SDLK_9 => Some [57]
  | SDLK_0 => Some [48]
  | SDLK_MINUS => Some [45]
  | SDLK_EQUALS => Some [61]
  | SDLK_BACKSPACE => Some [8]
  | SDLK_TAB => Some [9]
  | SDLK_q => Some [113]
  | SDLK_w => Some [119]
  | SDLK_e => Some [101]
  | SDLK_r => Some [114]
  | SDLK_t => Some [116]
  | SDLK_y => Some [121]
  | SDLK_u => Some [117]
  | SDLK_i => Some [105]
  | SDLK_o => Some [111]
  | SDLK_p => Some [112]
  | SDLK_LEFTBRACKET => Some [123]
  | SDLK_RIGHTBRACKET => Some [125]
  | SDLK_SLASH => Some [47]
  | SDLK_a => Some [97]
  | SDLK_s => Some [115]
  | SDLK_d => Some [100]
  | SDLK_f => Some [102]
  | SDLK_g => Some [103]
  | SDLK_h => Some [104]
  | SDLK_j => Some [106]
  | SDLK_k => Some [107]
  | SDLK_l => Some [108]
  | SDLK_SEMICOLON => Some [59]
  | SDLK_QUOTE => Some [39]
  | SDLK_RETURN => Some [10]
  | SDLK_LSHIFT => Some []
  | SDLK_z => Some [122]
  | SDLK_x => Some [120]
  | SDLK_c => Some [99]
  | SDLK_v => Some [118]
  | SDLK_b => Some [98]
  | SDLK_n => Some [110]
  | SDLK_m => Some [109]
  | SDLK_COMMA => Some [44]
  | SDLK_PERIOD => Some [46]
  | SDLK_BACKSLASH => Some [92]
  | SDLK_RSHIFT => Some []
  | SDLK_LCTRL => Some [27; 68]
  | SDLK_LALT => Some []
  | SDLK_SPACE => Some [32]
  | SDLK_RALT => Some []
  | SDLK_RCTRL => Some []
  | SDLK_INSERT => Some [27; 91; 50; 126]
  | SDLK_HOME => Some [27; 91; 49; 126]
  | SDLK_PAGEUP => Some [27; 91; 53; 126]
  | SDLK_DELETE => Some [127]
  | SDLK_END => Some [27; 91; 52; 126]
  | SDLK_PAGEDOWN => Some [27; 91; 54; 126]
  | SDLK_UP => Some [27; 91; 65]
  | SDLK_LEFT => Some [27; 91; 68]
  | SDLK_DOWN => Some [27; 91; 66]
  | SDLK_RIGHT => Some [27; 91; 67]
  | SDLK_KP_DIVIDE => Some [47]
  | SDLK_KP_MULTIPLY => Some [42]
  | SDLK_KP_MINUS => Some [45]
  | SDLK_KP_PLUS => Some [43]
  | SDLK_KP7 => Some [55]
  | SDLK_KP8 => Some [56]
  | SDLK_KP9 => Some [57]
  | SDLK_KP4 => Some [52]
  | SDLK_KP5 => Some [53]
  | SDLK_KP6 => Some [54]
  | SDLK_KP1 => Some [49]
  | SDLK_KP2 => Some [50]
  | SDLK_KP3 => Some [51]
  | SDLK_KP0 => Some [48]
  | SDLK_KP_EQUALS => Some [61]
  | SDLK_KP_ENTER => Some [10]
  | SDLK_KP_PERIOD => Some [46]
  | _ => None
  end.

Definition SDLKey_to_ascii (is_keyup : bool) (key : SDLKey) : option (list Z) :=
  match key with SDLK_invalid => Some [] | _ => SDLK2ascii_map key end.
