(* ===== verification/Machine.v ===== *)
(** * Global state of the emulator

    The global and static variables of the program as one record: the CPU, the TLB,
    the translation cache, the devices, the run state of the monitor, and the host
    (the sources of nondeterminism the emulator reads and the console it writes).
    Every operation is a computation [EM A] over it. *)
From S2P Require Import Prelude Config Reg Fifo Ram Flash Sdlkey.
Local Open Scope nemu_scope.

(** ** include/monitor.h *)
Inductive nemu_state_t : Type := NEMU_STOP | NEMU_RUNNING | NEMU_END.
#[global] Instance nemu_state_eq_dec : EqDecision nemu_state_t.
Proof. solve_decision. Defined.

Definition MODE_GDB : Z := 0.
Definition MODE_BATCH : Z := 1.
Definition MODE_DIFF : Z := 3.
Definition MODE_LOG : Z := 5.

(** ** TLB (include/cpu/mmu.h) *)
Record tlb_phyn_t := mkPhyn { pfn : Z; phyn_c : Z; phyn_d : Z; phyn_v : Z }.
Record tlb_entry_t := mkTlb {
  pagemask : Z; vpn : Z; tlb_g : Z; asid : Z; p0 : tlb_phyn_t; p1 : tlb_phyn_t
}.
Definition phyn_zero : tlb_phyn_t := mkPhyn 0 0 0 0.
Definition tlb_zero : tlb_entry_t := mkTlb 0 0 0 0 phyn_zero phyn_zero.

(** ** Devices (the static device_t objects of src/dev) *)
Inductive dev : Type :=
| blackhole_dev | bram_dev | ddr_dev | nemu_clock_dev | nemu_trap_dev
| xlnx_ulite_dev | xlnx_spi_dev | nemu_pmu_dev | nemu_keyboard_dev
| nemu_vga_dev | screen_dev.
#[global] Instance dev_eq_dec : EqDecision dev.
Proof. solve_decision. Defined.

(** ** Translation cache (src/cpu/mmu-cache.h).  [ptr] is a host pointer into the
    array of a memory device: the device and the offset. *)
Definition MMU_BITS : Z := 12.
Record mmu_cache_t := mkMmuCache {
  mc_id : Z; mc_ptr : option (dev * Z); mc_can_write : bool
}.
Definition mmu_cache_zero : mmu_cache_t := mkMmuCache 0 None false.

(** ** Instruction labels (src/cpu/exec/exec-handlers.h): the addresses [goto *] takes *)
Inductive handler : Type :=
| H_sll | H_movci | H_srl | H_sra | H_sllv | H_inv | H_srlv | H_srav | H_jr | H_jalr
| H_movz | H_movn | H_syscall | H_breakpoint | H_sync | H_mfhi | H_mthi | H_mflo | H_mtlo
| H_mult | H_multu | H_divide | H_divu | H_add | H_addu | H_sub | H_subu | H_and | H_or
| H_xor | H_nor | H_slt | H_sltu | H_tge | H_tgeu | H_tlt | H_tltu | H_teq | H_tne
| H_madd | H_maddu | H_mul | H_msub | H_msubu | H_clz | H_clo | H_ext | H_ins
| H_exec_bshfl | H_wsbh | H_seb | H_seh | H_bltz | H_bgez | H_bltzl | H_bgezl | H_tgei
| H_tgeiu | H_tlti | H_tltiu | H_teqi | H_tnei | H_bltzal | H_bgezal | H_bltzall
| H_bgezall | H_synci | H_mfc0 | H_mtc0 | H_tlbr | H_tlbwi | H_tlbwr | H_tlbp | H_eret
| H_wait | H_mfc1 | H_cfc1 | H_mfhc1 | H_mtc1 | H_ctc1 | H_mthc1 | H_bc1 | H_add_s
| H_sub_s | H_mul_s | H_div_s | H_sqrt_s | H_abs_s | H_mov_s | H_neg_s | H_trunc_w_s
| H_movcf_s | H_movz_s | H_movn_s | H_cvt_d_s | H_cvt_w_s | H_c_un_s | H_c_eq_s
| H_c_ueq_s | H_c_olt_s | H_c_ult_s | H_c_ole_s | H_c_ule_s | H_c_lt_s | H_c_le_s
| H_add_d | H_sub_d | H_mul_d | H_div_d | H_sqrt_d | H_abs_d | H_mov_d | H_neg_d
| H_trunc_w_d | H_movcf_d | H_movz_d | H_movn_d | H_cvt_s_d | H_cvt_w_d | H_c_un_d
| H_c_eq_d | H_c_ueq_d | H_c_olt_d | H_c_ult_d | H_c_ole_d | H_c_ule_d | H_c_lt_d
| H_c_le_d | H_cvt_s_w | H_cvt_d_w | H_exec_special | H_exec_regimm | H_j | H_jal | H_beq
| H_bne | H_blez | H_bgtz | H_addi | H_addiu | H_slti | H_sltiu | H_andi | H_ori | H_xori
| H_lui | H_exec_cop0 | H_exec_cop1 | H_beql | H_bnel | H_blezl | H_bgtzl
| H_exec_special2 | H_exec_special3 | H_lb | H_lh | H_lwl | H_lw | H_lbu | H_lhu | H_lwr
| H_sb | H_sh | H_swl | H_sw | H_swr | H_cache | H_ll | H_lwc1 | H_pref | H_ldc1 | H_sc
| H_swc1 | H_sdc1.

(** ** Decode cache (src/cpu/decode-cache.h, include/cpu/decode.h)

    A decode_state_t is kept as its words: the fields named here are the first members
    of the unions, so that [ds_rs] is also addr, [ds_rd] also fs, uimm and simm,
    [ds_shamt] also fd, and [ds_ext] is nd, tf, cc1, cc2, fs64, fd64 and ft64.  The array
    holds the heads; the other states are malloc'ed blocks, named by a counter that
    [dc_brk] holds, with the contents [dc_junk] when they are allocated.  A block that
    is not in [dc_heap] was freed.  [dc_ds] is the local variable ds of cpu_exec. *)
Definition DECODE_CACHE_BITS : Z := 12.
Record decode_state_t := mkDs {
  ds_handler : option handler; ds_next : option Z; ds_pc : Z;
  ds_rs : Z; ds_rt : Z; ds_rd : Z; ds_shamt : Z; ds_func : Z; ds_sel : Z; ds_ext : Z;
  ds_inst : Z
}.
Definition ds_zero : decode_state_t := mkDs None None 0 0 0 0 0 0 0 0 0.
Inductive ds_ptr : Type := DsHead (i : Z) | DsNode (b : Z).
#[global] Instance ds_ptr_eq_dec : EqDecision ds_ptr.
Proof. solve_decision. Defined.
Record decode_cache_t := mkDc {
  dc_tab : list decode_state_t;
  dc_heap : gmap Z decode_state_t;
  dc_brk : Z;
  dc_junk : Z -> decode_state_t;
  dc_ds : ds_ptr
}.
Definition set_dc_tab (v : list decode_state_t) (d : decode_cache_t) : decode_cache_t :=
  mkDc v (dc_heap d) (dc_brk d) (dc_junk d) (dc_ds d).
Definition set_dc_heap (v : gmap Z decode_state_t) (d : decode_cache_t) : decode_cache_t :=
  mkDc (dc_tab d) v (dc_brk d) (dc_junk d) (dc_ds d).
Definition set_dc_brk (v : Z) (d : decode_cache_t) : decode_cache_t :=
  mkDc (dc_tab d) (dc_heap d) v (dc_junk d) (dc_ds d).
Definition set_dc_ds (v : ds_ptr) (d : decode_cache_t) : decode_cache_t :=
  mkDc (dc_tab d) (dc_heap d) (dc_brk d) (dc_junk d) v.
Definition set_ds_handler (v : option handler) (d : decode_state_t) : decode_state_t :=
  mkDs v (ds_next d) (ds_pc d) (ds_rs d) (ds_rt d) (ds_rd d) (ds_shamt d) (ds_func d)
    (ds_sel d) (ds_ext d) (ds_inst d).
Definition set_ds_next (v : option Z) (d : decode_state_t) : decode_state_t :=
  mkDs (ds_handler d) v (ds_pc d) (ds_rs d) (ds_rt d) (ds_rd d) (ds_shamt d) (ds_func d)
    (ds_sel d) (ds_ext d) (ds_inst d).
Definition set_ds_pc (v : Z) (d : decode_state_t) : decode_state_t :=
  mkDs (ds_handler d) (ds_next d) v (ds_rs d) (ds_rt d) (ds_rd d) (ds_shamt d) (ds_func d)
    (ds_sel d) (ds_ext d) (ds_inst d).
Definition set_ds_inst (v : Z) (d : decode_state_t) : decode_state_t :=
  mkDs (ds_handler d) (ds_next d) (ds_pc d) (ds_rs d) (ds_rt d) (ds_rd d) (ds_shamt d)
    (ds_func d) (ds_sel d) (ds_ext d) v.

(** ** Instruction queue (src/monitor/iq.c) *)
Record iq_element_t := mkIqe { iqe_pc : Z; iqe_instr : Z; iqe_enq : bool }.
Definition NR_IQ : Z := 20.
Record iq_t := mkIq { pc_ptr : Z; instr_ptr : Z; iq_arr : list iq_element_t }.
Definition iq_zero : iq_t := mkIq 0 0 (replicate (Z.to_nat NR_IQ) (mkIqe 0 0 false)).

(** ** UART (src/dev/xlnx-ulite.c).  The stop string is a NUL-terminated string of
    signed characters; its pointer is the rest of the string it points at. *)
Record ulite_t := mkUlite {
  ulite_q : fifo Z;
  intr_enabled : Z;
  tx_fifo_empty : Z;
  stop_string : option (list Z);
  stop_string_ptr : option (list Z)
}.
Definition set_ulite_q (v : fifo Z) (s : ulite_t) : ulite_t :=
  mkUlite v (intr_enabled s) (tx_fifo_empty s) (stop_string s) (stop_string_ptr s).
Definition set_intr_enabled (v : Z) (s : ulite_t) : ulite_t :=
  mkUlite (ulite_q s) (u32 v) (tx_fifo_empty s) (stop_string s) (stop_string_ptr s).
Definition set_tx_fifo_empty (v : Z) (s : ulite_t) : ulite_t :=
  mkUlite (ulite_q s) (intr_enabled s) (u32 v) (stop_string s) (stop_string_ptr s).
Definition set_stop_string (v : option (list Z)) (s : ulite_t) : ulite_t :=
  mkUlite (ulite_q s) (intr_enabled s) (tx_fifo_empty s) v (stop_string_ptr s).
Definition set_stop_string_ptr (v : option (list Z)) (s : ulite_t) : ulite_t :=
  mkUlite (ulite_q s) (intr_enabled s) (tx_fifo_empty s) (stop_string s) v.
Definition ulite_zero : ulite_t := mkUlite (fifo_zero 0 1024) 0 0 None None.

(** ** SPI controller (src/dev/xlnx-spi.c) *)
Definition R_MAX : Z := 31.
Record spi_t := mkSpi {
  sp_flash : Flash;
  sp_regs : list Z;
  sp_tx : fifo Z;
  sp_rx : fifo Z
}.
Definition set_sp_flash (v : Flash) (s : spi_t) : spi_t :=
  mkSpi v (sp_regs s) (sp_tx s) (sp_rx s).
Definition set_sp_regs (v : list Z) (s : spi_t) : spi_t :=
  mkSpi (sp_flash s) v (sp_tx s) (sp_rx s).
Definition set_sp_tx (v : fifo Z) (s : spi_t) : spi_t :=
  mkSpi (sp_flash s) (sp_regs s) v (sp_rx s).
Definition set_sp_rx (v : fifo Z) (s : spi_t) : spi_t :=
  mkSpi (sp_flash s) (sp_regs s) (sp_tx s) v.
Definition spi_zero : spi_t :=
  mkSpi flash_zero (replicate (Z.to_nat R_MAX) 0) (fifo_zero 0 1024) (fifo_zero 0 1024).

(** ** The host: microsecond clock readings, results of rand(), characters waiting
    on stdin, window key events (key up, key), and what went to the console. *)
Record host_t := mkHost {
  h_times : list Z;
  h_rands : list Z;
  h_stdin : list Z;
  h_keys : list (bool * SDLKey);
  h_out : list Z
}.
Definition set_h_times (v : list Z) (s : host_t) : host_t :=
  mkHost v (h_rands s) (h_stdin s) (h_keys s) (h_out s).
Definition set_h_rands (v : list Z) (s : host_t) : host_t :=
  mkHost (h_times s) v (h_stdin s) (h_keys s) (h_out s).
Definition set_h_stdin (v : list Z) (s : host_t) : host_t :=
  mkHost (h_times s) (h_rands s) v (h_keys s) (h_out s).
Definition set_h_keys (v : list (bool * SDLKey)) (s : host_t) : host_t :=
  mkHost (h_times s) (h_rands s) (h_stdin s) v (h_out s).
Definition set_h_out (v : list Z) (s : host_t) : host_t :=
  mkHost (h_times s) (h_rands s) (h_stdin s) (h_keys s) v.

(** ** The machine *)
Record machine := mkMachine {
  cpu : CPU_state;
  tlb : list tlb_entry_t;
  mmu_cache : list mmu_cache_t;
  decode_cache : decode_cache_t;
  nemu_state : nemu_state_t;
  work_mode : Z;
  memory_regions : gmap Z dev;
  bram : gmap Z Z;
  ddr : gmap Z Z;
  ulite : ulite_t;
  spi : spi_t;
  kbd_queue : fifo Z;
  screen : option (gmap Z Z);
  iq : iq_t;
  nemu_start_time : Z;
  host : host_t
}.
Definition set_cpu (v : CPU_state) (s : machine) : machine :=
    mkMachine v (tlb s) (mmu_cache s) (decode_cache s) (nemu_state s) (work_mode s)
    (memory_regions s) (bram s) (ddr s) (ulite s) (spi s) (kbd_queue s) (screen s) (iq s)
    (nemu_start_time s) (host s).
Definition set_tlb (v : list tlb_entry_t) (s : machine) : machine :=
    mkMachine (cpu s) v (mmu_cache s) (decode_cache s) (nemu_state s) (work_mode s)
    (memory_regions s) (bram s) (ddr s) (ulite s) (spi s) (kbd_queue s) (screen s) (iq s)
    (nemu_start_time s) (host s).
Definition set_mmu_cache (v : list mmu_cache_t) (s : machine) : machine :=
    mkMachine (cpu s) (tlb s) v (decode_cache s) (nemu_state s) (work_mode s) (memory_regions
    s) (bram s) (ddr s) (ulite s) (spi s) (kbd_queue s) (screen s) (iq s) (nemu_start_time s)
    (host s).
Definition set_decode_cache (v : decode_cache_t) (s : machine) : machine :=
    mkMachine (cpu s) (tlb s) (mmu_cache s) v (nemu_state s) (work_mode s) (memory_regions s)
    (bram s) (ddr s) (ulite s) (spi s) (kbd_queue s) (screen s) (iq s) (nemu_start_time s)
    (host s).
Definition set_nemu_state (v : nemu_state_t) (s : machine) : machine :=
    mkMachine (cpu s) (tlb s) (mmu_cache s) (decode_cache s) v (work_mode s) (memory_regions s)
    (bram s) (ddr s) (ulite s) (spi s) (kbd_queue s) (screen s) (iq s) (nemu_start_time s)
    (host s).
Definition set_work_mode (v : Z) (s : machine) : machine :=
    mkMachine (cpu s) (tlb s) (mmu_cache s) (decode_cache s) (nemu_state s) v (memory_regions
    s) (bram s) (ddr s) (ulite s) (spi s) (kbd_queue s) (screen s) (iq s) (nemu_start_time s)
    (host s).
Definition set_memory_regions (v : gmap Z dev) (s : machine) : machine :=
    mkMachine (cpu s) (tlb s) (mmu_cache s) (decode_cache s) (nemu_state s) (work_mode s) v
    (bram s) (ddr s) (ulite s) (spi s) (kbd_queue s) (screen s) (iq s) (nemu_start_time s)
    (host s).
Definition set_bram (v : gmap Z Z) (s : machine) : machine :=
    mkMachine (cpu s) (tlb s) (mmu_cache s) (decode_cache s) (nemu_state s) (work_mode s)
    (memory_regions s) v (ddr s) (ulite s) (spi s) (kbd_queue s) (screen s) (iq s)
    (nemu_start_time s) (host s).
Definition set_ddr (v : gmap Z Z) (s : machine) : machine :=
    mkMachine (cpu s) (tlb s) (mmu_cache s) (decode_cache s) (nemu_state s) (work_mode s)
    (memory_regions s) (bram s) v (ulite s) (spi s) (kbd_queue s) (screen s) (iq s)
    (nemu_start_time s) (host s).
Definition set_ulite (v : ulite_t) (s : machine) : machine :=
    mkMachine (cpu s) (tlb s) (mmu_cache s) (decode_cache s) (nemu_state s) (work_mode s)
    (memory_regions s) (bram s) (ddr s) v (spi s) (kbd_queue s) (screen s) (iq s)
    (nemu_start_time s) (host s).
Definition set_spi (v : spi_t) (s : machine) : machine :=
    mkMachine (cpu s) (tlb s) (mmu_cache s) (decode_cache s) (nemu_state s) (work_mode s)
    (memory_regions s) (bram s) (ddr s) (ulite s) v (kbd_queue s) (screen s) (iq s)
    (nemu_start_time s) (host s).
Definition set_kbd_queue (v : fifo Z) (s : machine) : machine :=
    mkMachine (cpu s) (tlb s) (mmu_cache s) (decode_cache s) (nemu_state s) (work_mode s)
    (memory_regions s) (bram s) (ddr s) (ulite s) (spi s) v (screen s) (iq s) (nemu_start_time
    s) (host s).
Definition set_screen (v : option (gmap Z Z)) (s : machine) : machine :=
    mkMachine (cpu s) (tlb s) (mmu_cache s) (decode_cache s) (nemu_state s) (work_mode s)
    (memory_regions s) (bram s) (ddr s) (ulite s) (spi s) (kbd_queue s) v (iq s)
    (nemu_start_time s) (host s).
Definition set_iq (v : iq_t) (s : machine) : machine :=
    mkMachine (cpu s) (tlb s) (mmu_cache s) (decode_cache s) (nemu_state s) (work_mode s)
    (memory_regions s) (bram s) (ddr s) (ulite s) (spi s) (kbd_queue s) (screen s) v
    (nemu_start_time s) (host s).
Definition set_nemu_start_time (v : Z) (s : machine) : machine :=
    mkMachine (cpu s) (tlb s) (mmu_cache s) (decode_cache s) (nemu_state s) (work_mode s)
    (memory_regions s) (bram s) (ddr s) (ulite s) (spi s) (kbd_queue s) (screen s) (iq s) (u64
    v) (host s).
Definition set_host (v : host_t) (s : machine) : machine :=
    mkMachine (cpu s) (tlb s) (mmu_cache s) (decode_cache s) (nemu_state s) (work_mode s)
    (memory_regions s) (bram s) (ddr s) (ulite s) (spi s) (kbd_queue s) (screen s) (iq s)
    (nemu_start_time s) v.

Definition EM (A : Type) : Type := M machine A.

(** ** Access *)
Definition upd_cpu (f : CPU_state -> CPU_state) : EM unit :=
  modify (fun m => set_cpu (f (cpu m)) m).
Definition upd_ulite (f : ulite_t -> ulite_t) : EM unit :=
  modify (fun m => set_ulite (f (ulite m)) m).
Definition upd_spi (f : spi_t -> spi_t) : EM unit :=
  modify (fun m => set_spi (f (spi m)) m).
Definition upd_host (f : host_t -> host_t) : EM unit :=
  modify (fun m => set_host (f (host m)) m).
Definition putchar (c : Z) : EM unit :=
  upd_host (fun h => set_h_out (h_out h ++ [u8 c]) h).

(** A flash operation on the chip behind the SPI controller. *)
Definition on_flash {A} (f : FM A) : EM A := fun m =>
  match f (sp_flash (spi m)) with
  | Ok a fl => Ok a (set_spi (set_sp_flash fl (spi m)) m)
  | Exit fl => Exit (set_spi (set_sp_flash fl (spi m)) m)
  | Stop h fl => Stop h (set_spi (set_sp_flash fl (spi m)) m)
  end.

(** gettimeofday and rand. *)
Definition get_current_time : EM Z :=
  let! m := get in
  match h_times (host m) with
  | [] => ret (u64 (0 - nemu_start_time m))
  | t :: ts => upd_host (set_h_times ts) ;; ret (u64 (t - nemu_start_time m))
  end.

Definition rand : EM Z :=
  let! m := get in
  match h_rands (host m) with
  | [] => ret 0
  | r :: rs => upd_host (set_h_rands rs) ;; ret (uw 31 r)
  end.

(** ** cpu.c: nemu_set_irq *)
Definition nemu_set_irq (irqno : Z) (val : bool) : EM unit :=
  ensure ((0 <=? irqno) && (irqno <? 8)) HAssert ;;
  upd_cpu (fun c =>
    let ip := cp0_get cause_IP (cp0 c) in
    put_cp0 cause_IP
      (if val then Z.lor ip (Z.shiftl 1 irqno)
       else Z.land ip (Z.lnot (Z.shiftl 1 irqno))) c).

(** ** mmu-cache.h and decode-cache.h: clearing *)
Definition clear_mmu_cache : EM unit :=
  modify (fun m => set_mmu_cache
    (map (fun e => mkMmuCache 0xFFFFFFFF None (mc_can_write e)) (mmu_cache m)) m).

Definition dc_clear (d : decode_cache_t) : decode_cache_t :=
  set_dc_tab (map (fun e => set_ds_next None (set_ds_handler None e)) (dc_tab d)) d.
Definition clear_decode_cache : EM unit :=
  modify (fun m => set_decode_cache (dc_clear (decode_cache m)) m).

(** ** decode-cache.h: the rest *)
Definition upd_dc (f : decode_cache_t -> decode_cache_t) : EM unit :=
  modify (fun m => set_decode_cache (f (decode_cache m)) m).

Definition decode_cache_index (vaddr : Z) : Z :=
  Z.land (Z.shiftr vaddr 2) (2 ^ DECODE_CACHE_BITS - 1).

(** Free the blocks of a chain.  Every turn removes a block, so that one turn more than
    there are blocks reaches the end of the chain or a block already freed. *)
Fixpoint free_chain (n : nat) (ds : option Z) (h : gmap Z decode_state_t)
  : option (gmap Z decode_state_t) :=
  match ds, n with
  | None, _ => Some h
  | Some b, S n =>
      match h !! b with
      | Some d => free_chain n (ds_next d) (delete b h)
      | None => None
      end
  | Some _, O => None
  end.
Definition free_decode_state_chain (ds : option Z) : EM unit :=
  let! m := get in
  let h := dc_heap (decode_cache m) in
  match free_chain (S (size h)) ds h with
  | Some h => upd_dc (set_dc_heap h)
  | None => stop HUndefined
  end.

Definition tab_at (d : decode_cache_t) (i : Z) : decode_state_t :=
  default ds_zero (dc_tab d !! Z.to_nat i).
Definition put_tab (i : Z) (e : decode_state_t) (d : decode_cache_t) : decode_cache_t :=
  set_dc_tab (<[Z.to_nat i := e]> (dc_tab d)) d.

Definition decode_cache_fetch (pc : Z) : EM ds_ptr :=
  let idx := decode_cache_index pc in
  let! m := get in
  let e := tab_at (decode_cache m) idx in
  when (negb (ds_pc e =? pc))
    (free_decode_state_chain (ds_next e) ;;
     upd_dc (put_tab idx (set_ds_pc pc (set_ds_next None (set_ds_handler None e))))) ;;
  ret (DsHead idx).

(** ds = decode_cache_fetch(pc) *)
Definition refetch_ds (pc : Z) : EM unit :=
  let! p := decode_cache_fetch pc in upd_dc (set_dc_ds p).
