(* ===== verification/Ulite.v ===== *)
(** * Serial port and keyboard (src/dev/xlnx-ulite.c, src/dev/nemu-kbd.c)

    The receive queues between the host and the guest.  The registers are decoded
    as in the C code; an access that the code rejects with CPUAssert stops with
    [HCPUAssert]. *)
From S2P Require Import Prelude Reg Fifo Ram Flash Sdlkey Machine.
Local Open Scope nemu_scope.

Definition Rx : Z := 0x0.
Definition Tx : Z := 0x4.
Definition STAT : Z := 0x8.
Definition CTRL : Z := 0xC.
Definition XLNX_ULITE_SIZE : Z := 0x10.
Definition XLNX_ULITE_IRQ_NO : Z := 4.
Definition SR_CTRL_INTR_BIT : Z := Z.shiftl 1 4.
Definition SR_TX_FIFO_EMPTY : Z := Z.shiftl 1 2.
Definition SR_RX_FIFO_VALID_DATA : Z := Z.shiftl 1 0.

Definition xlnx_ulite_enqueue (ch : Z) : EM unit :=
  upd_ulite (fun u => set_ulite_q (fifo_push (s32 ch) (ulite_q u)) u).

Definition xlnx_ulite_set_irq : EM unit :=
  let! m := get in
  when (negb (intr_enabled (ulite m) =? 0)) (nemu_set_irq XLNX_ULITE_IRQ_NO true).

Definition stop_cpu_when_ulite_send (string : option (list Z)) : EM unit :=
  upd_ulite (fun u => set_stop_string_ptr string (set_stop_string string u)).

(** [ch] is a C char.  At the end of the string the pointer is on the NUL: a NUL
    character then moves it out of the string, and reading there is undefined. *)
Definition stop_cpu_check (ch : Z) : EM unit :=
  let! m := get in
  let u := ulite m in
  match stop_string_ptr u with
  | None => ret tt
  | Some [] =>
      if ch =? 0 then stop HUndefined
      else upd_ulite (fun u => set_stop_string_ptr (stop_string u) u)
  | Some (c :: rest) =>
      if c =? ch then
        upd_ulite (set_stop_string_ptr (Some rest)) ;;
        when (bool_decide (rest = []))
          (modify (set_nemu_state NEMU_STOP))
      else upd_ulite (fun u => set_stop_string_ptr (stop_string u) u)
  end.

Definition xlnx_ulite_peek (addr len : Z) : EM Z :=
  let! m := get in
  let u := ulite m in
  if addr =? Rx then ret (u32 (fifo_top 0 (ulite_q u)))
  else if addr =? STAT then
    ret (Z.lor (Z.lor
      (if fifo_is_empty (ulite_q u) then 0 else SR_RX_FIFO_VALID_DATA)
      (if intr_enabled u =? 0 then 0 else SR_CTRL_INTR_BIT))
      (if tx_fifo_empty u =? 0 then 0 else SR_TX_FIFO_EMPTY))
  else if addr =? CTRL then ret 0
  else stop HCPUAssert.

Definition xlnx_ulite_read (addr len : Z) : EM Z :=
  ensure (check_ioaddr addr len XLNX_ULITE_SIZE) HCPUAssert ;;
  if addr =? Rx then
    nemu_set_irq XLNX_ULITE_IRQ_NO false ;;
    let! m := get in
    let (ch, q) := fifo_pop 0 (ulite_q (ulite m)) in
    upd_ulite (set_ulite_q q) ;; ret (u32 ch)
  else xlnx_ulite_peek addr len.

Definition xlnx_ulite_write (addr len data : Z) : EM unit :=
  ensure (check_ioaddr addr len XLNX_ULITE_SIZE) HCPUAssert ;;
  if addr =? Tx then
    putchar data ;;
    stop_cpu_check (s8 data) ;;
    when (s8 data =? 10)
      (upd_ulite (fun u => set_tx_fifo_empty (Z.lor (tx_fifo_empty u) SR_TX_FIFO_EMPTY) u))
  else if addr =? CTRL then
    upd_ulite (set_intr_enabled (Z.land data SR_CTRL_INTR_BIT)) ;;
    let! m := get in
    when (intr_enabled (ulite m) =? 0)
      (upd_ulite (set_tx_fifo_empty 0) ;; nemu_set_irq XLNX_ULITE_IRQ_NO false)
  else stop HCPUAssert.

(** ^X asks on the console whether to quit; getchar() takes the next character of
    stdin (-1 at end of file). *)
Definition getchar : EM Z :=
  let! m := get in
  match h_stdin (host m) with
  | [] => ret (-1)
  | c :: cs => upd_host (set_h_stdin cs) ;; ret (u8 c)
  end.

Definition check_ctrl_x_commands (ch : Z) : EM unit :=
  when (ch =? 0x18)
    (let! c := getchar in when (c =? 113) (stop HExit)).

Fixpoint ulite_receive (data : list Z) : EM unit :=
  match data with
  | [] => ret tt
  | ch :: data =>
      check_ctrl_x_commands (s8 ch) ;; xlnx_ulite_enqueue (s8 ch) ;; ulite_receive data
  end.

(** The [n] characters FIONREAD reports are read into a buffer at once; a getchar()
    for ^X takes a later one. *)
Definition xlnx_ulite_update_irq (n : nat) : EM bool :=
  let! m := get in
  let data := take n (h_stdin (host m)) in
  match data with
  | [] => ret false
  | _ =>
      upd_host (fun h => set_h_stdin (drop n (h_stdin h)) h) ;;
      ulite_receive data ;;
      xlnx_ulite_set_irq ;; ret true
  end.

Definition xlnx_ulite_set_fifo_data (data : list Z) : EM unit :=
  upd_ulite (fun u => set_ulite_q (fifo_push_all (map s8 data) (ulite_q u)) u).

Inductive signal : Type := SIGINT | SIGTSTP | SIGOTHER.

Definition ulite_ctrl_code_handler (no : signal) : EM unit :=
  match no with
  | SIGINT => xlnx_ulite_enqueue 0x03 ;; xlnx_ulite_set_irq
  | SIGTSTP => xlnx_ulite_enqueue 0x1a ;; xlnx_ulite_set_irq
  | SIGOTHER => ret tt
  end.

(** xlnx_ulite_init only installs this handler (with CONFIG_INTR): the macro
    fifo_init expands to nothing. *)

(** ** nemu-kbd.c *)
Definition NEMU_KEYBOARD_CODE : Z := 0x0.
Definition NEMU_KEYBOARD_STAT : Z := 0x4.
Definition NEMU_KEYBOARD_SIZE : Z := 0x10.

Definition nemu_keyboard_update_irq : EM bool :=
  let! m := get in
  match h_keys (host m) with
  | [] => ret false
  | (up, key) :: keys =>
      upd_host (set_h_keys keys) ;;
      modify (fun m => set_kbd_queue
        (fifo_push (SDLKey_to_scancode up key) (kbd_queue m)) m) ;;
      ret false
  end.

Definition nemu_keyboard_rp (addr len : Z) (poll_data : bool) : EM Z :=
  ensure (check_ioaddr addr len NEMU_KEYBOARD_SIZE) HCPUAssert ;;
  let! _ := nemu_keyboard_update_irq in
  let! m := get in
  if addr =? NEMU_KEYBOARD_STAT then ret (b2z (negb (fifo_is_empty (kbd_queue m))))
  else if addr =? NEMU_KEYBOARD_CODE then
    if poll_data then
      let (code, q) := fifo_pop 0 (kbd_queue m) in
      modify (set_kbd_queue q) ;; ret code
    else ret (fifo_top 0 (kbd_queue m))
  else stop HCPUAssert.

Definition nemu_keyboard_peek (addr len : Z) : EM Z := nemu_keyboard_rp addr len false.
Definition nemu_keyboard_read (addr len : Z) : EM Z := nemu_keyboard_rp addr len true.
