(* ===== verification/Spi.v ===== *)
(** * SPI controller (src/dev/xlnx-spi.c)

    The register file, the transmit and receive queues and the interrupt line of the
    controller; bytes it sends go to the flash chip of Flash.v. *)
From S2P Require Import Prelude Reg Fifo Ram Flash Machine.
Local Open Scope nemu_scope.

Definition R_DGIER : Z := 0x1c / 4.
Definition R_DGIER_IE : Z := Z.shiftl 1 31.
Definition R_IPISR : Z := 0x20 / 4.
Definition IRQ_DRR_NOT_EMPTY : Z := Z.shiftl 1 (31 - 23).
Definition IRQ_DRR_OVERRUN : Z := Z.shiftl 1 (31 - 26).
Definition IRQ_DRR_FULL : Z := Z.shiftl 1 (31 - 27).
Definition IRQ_DTR_EMPTY : Z := Z.shiftl 1 (31 - 29).
Definition XLNX_SPI_IRQ_NO : Z := 5.
Definition R_IPIER : Z := 0x28 / 4.
Definition R_SRR : Z := 0x40 / 4.
Definition R_SPICR : Z := 0x60 / 4.
Definition R_SPICR_TXFF_RST : Z := Z.shiftl 1 5.
Definition R_SPICR_RXFF_RST : Z := Z.shiftl 1 6.
Definition R_SPICR_MTI : Z := Z.shiftl 1 8.
Definition R_SPISR : Z := 0x64 / 4.
Definition SR_SLAVE_MODE_SELECT : Z := Z.shiftl 1 5.
Definition SR_TX_FULL : Z := Z.shiftl 1 3.
Definition SR_TX_EMPTY : Z := Z.shiftl 1 2.
Definition SR_RX_FULL : Z := Z.shiftl 1 1.
Definition SR_RX_EMPTY : Z := Z.shiftl 1 0.
Definition R_SPIDTR : Z := 0x68 / 4.
Definition R_SPIDRR : Z := 0x6C / 4.
Definition R_SPISSR : Z := 0x70 / 4.
Definition SPI_SIZE : Z := R_MAX * 4.

(** ** Register access: xlnx_spi_regs[r] = v, |= v and &= ~v *)
Definition sreg (s : spi_t) (r : Z) : Z := arr_get (sp_regs s) r.
Definition put_sreg (r v : Z) (s : spi_t) : spi_t :=
  set_sp_regs (arr_set (sp_regs s) r (u32 v)) s.
Definition or_sreg (r v : Z) (s : spi_t) : spi_t := put_sreg r (Z.lor (sreg s r) v) s.
Definition clr_sreg (r v : Z) (s : spi_t) : spi_t :=
  put_sreg r (Z.land (sreg s r) (Z.lnot v)) s.
Definition bit_set (v mask : Z) : bool := negb (Z.land v mask =? 0).

(** fifo_pop of either queue *)
Definition pop_tx : EM Z :=
  let! m := get in
  let (b, q) := fifo_pop 0 (sp_tx (spi m)) in
  upd_spi (set_sp_tx q) ;; ret b.
Definition pop_rx : EM Z :=
  let! m := get in
  let (b, q) := fifo_pop 0 (sp_rx (spi m)) in
  upd_spi (set_sp_rx q) ;; ret b.

Definition txfifo_reset : EM unit :=
  upd_spi (fun s => set_sp_tx (fifo_reset (sp_tx s)) s) ;;
  upd_spi (clr_sreg R_SPISR SR_TX_FULL) ;;
  upd_spi (or_sreg R_SPISR SR_TX_EMPTY).

Definition rxfifo_reset : EM unit :=
  upd_spi (fun s => set_sp_rx (fifo_reset (sp_rx s)) s) ;;
  upd_spi (or_sreg R_SPISR SR_RX_EMPTY) ;;
  upd_spi (clr_sreg R_SPISR SR_RX_FULL).

Definition xlnx_spi_update_cs : EM unit := on_flash (m25p80_cs true).

Definition xlnx_spi_update_irq : EM bool :=
  nemu_set_irq XLNX_SPI_IRQ_NO false ;;
  upd_spi (fun s => or_sreg R_IPISR
    (Z.lor (if fifo_is_empty (sp_rx s) then 0 else IRQ_DRR_NOT_EMPTY)
           (if fifo_is_full (sp_rx s) then IRQ_DRR_FULL else 0)) s) ;;
  let! m := get in
  let s := spi m in
  let pending := bit_set (sreg s R_IPISR) (sreg s R_IPIER) &&
                 bit_set (sreg s R_DGIER) R_DGIER_IE in
  when pending (nemu_set_irq XLNX_SPI_IRQ_NO true) ;; ret pending.

Definition xlnx_spi_do_reset : EM unit :=
  upd_spi (set_sp_regs (replicate (Z.to_nat R_MAX) 0)) ;;
  rxfifo_reset ;; txfifo_reset ;;
  upd_spi (or_sreg R_SPICR 0x180) ;;
  upd_spi (or_sreg R_SPISR SR_SLAVE_MODE_SELECT) ;;
  upd_spi (put_sreg R_SPISSR (Z.lnot 0)) ;;
  let! _ := xlnx_spi_update_irq in
  xlnx_spi_update_cs.

Definition spi_master_enabled (s : spi_t) : bool :=
  negb (bit_set (sreg s R_SPICR) R_SPICR_MTI).

(** What the loop does with the byte [rx] that came back for one sent byte. *)
Definition spi_receive (rx : Z) (s : spi_t) : spi_t :=
  let s :=
    if fifo_is_full (sp_rx s) then or_sreg R_IPISR IRQ_DRR_OVERRUN s
    else
      let s := set_sp_rx (fifo_push (u8 rx) (sp_rx s)) s in
      if fifo_is_full (sp_rx s)
      then or_sreg R_IPISR IRQ_DRR_FULL (or_sreg R_SPISR SR_RX_FULL s) else s in
  let s := clr_sreg R_SPISR SR_RX_EMPTY s in
  let s := clr_sreg R_SPISR SR_TX_FULL s in
  let s := or_sreg R_SPISR SR_TX_EMPTY s in
  let s := or_sreg R_IPISR IRQ_DTR_EMPTY s in
  or_sreg R_IPISR IRQ_DRR_NOT_EMPTY s.

(** One turn of the loop: pop a byte, exchange it with the chip, queue the reply. *)
Definition spi_flush_one : EM unit :=
  let! tx := pop_tx in
  let! m := get in
  let! rx := (if bit_set (sreg (spi m) R_SPISSR) 1 then ret 0
              else on_flash (m25p80_transfer8 tx)) in
  upd_spi (spi_receive rx).

(** while (!fifo_is_empty(spi_tx_fifo)): each turn takes one byte off the queue, so
    [n] turns are enough for a queue of at most [n] bytes. *)
Fixpoint spi_flush_loop (n : nat) : EM unit :=
  let! m := get in
  if fifo_is_empty (sp_tx (spi m)) then ret tt
  else match n with
       | O => stop HUndefined
       | S n => spi_flush_one ;; spi_flush_loop n
       end.

Definition spi_flush_txfifo : EM unit :=
  let! m := get in spi_flush_loop (f_size (sp_tx (spi m))).

Definition xlnx_spi_read (addr size : Z) : EM Z :=
  let addr := Z.shiftr addr 2 in
  let! m := get in
  if (addr =? R_SPIDRR) && fifo_is_empty (sp_rx (spi m)) then ret 0xdeadbeef
  else
    let! r :=
      (if addr =? R_SPIDRR then
         upd_spi (clr_sreg R_SPISR SR_RX_FULL) ;;
         let! b := pop_rx in
         let! m := get in
         when (fifo_is_empty (sp_rx (spi m))) (upd_spi (or_sreg R_SPISR SR_RX_EMPTY)) ;;
         ret b
       else if addr <? R_MAX then ret (sreg (spi m) addr)
       else ret 0) in
    let! _ := xlnx_spi_update_irq in
    ret r.

Definition xlnx_spi_write (addr len data : Z) : EM unit :=
  let addr := Z.shiftr addr 2 in
  (if addr =? R_SRR then when (data =? 0xa) xlnx_spi_do_reset
   else if addr =? R_SPIDTR then
     upd_spi (clr_sreg R_SPISR SR_TX_EMPTY) ;;
     upd_spi (fun s => set_sp_tx (fifo_push (u8 data) (sp_tx s)) s) ;;
     let! m := get in
     when (fifo_is_full (sp_tx (spi m))) (upd_spi (or_sreg R_SPISR SR_TX_FULL)) ;;
     let! m := get in
     when (spi_master_enabled (spi m)) spi_flush_txfifo
   else if addr =? R_SPISR then ret tt
   else if addr =? R_IPISR then
     upd_spi (fun s => put_sreg addr (Z.lxor (sreg s addr) data) s)
   else if addr =? R_SPISSR then
     upd_spi (put_sreg addr data) ;; xlnx_spi_update_cs
   else if addr =? R_SPICR then
     when (bit_set data R_SPICR_RXFF_RST) rxfifo_reset ;;
     when (bit_set data R_SPICR_TXFF_RST) txfifo_reset ;;
     let data := Z.land data (Z.lnot (Z.lor R_SPICR_RXFF_RST R_SPICR_TXFF_RST)) in
     upd_spi (put_sreg addr data) ;;
     when (negb (bit_set data R_SPICR_MTI)) spi_flush_txfifo
   else when (addr <? R_MAX) (upd_spi (put_sreg addr data))) ;;
  let! _ := xlnx_spi_update_irq in
  ret tt.

(** [file] is the image given with -b for the block device, if any. *)
Definition xlnx_spi_init (file : option (list Z)) : EM unit :=
  on_flash (flash_init file) ;; xlnx_spi_do_reset.
