(* ===== verification/Device.v ===== *)
(** * Device table and address decoding

    The remaining devices (black_hole.c, nemu-trap.c, nemu-clock.c, nemu-pmu.c,
    nemu-vga.c, nemu-vga-ctrl.c), the operations each device_t object provides, the
    page table of devices [memory_regions] (src/cpu/memory.c, include/device.h) and
    its initialisation. *)
From S2P Require Import Prelude Config Reg Fifo Ram Flash Sdlkey Machine Ulite Spi.
Local Open Scope nemu_scope.

(** A checked access of Ram.v: a failed check is a failed CPUAssert. *)
Definition checked {A} (o : option A) : EM A :=
  match o with Some a => ret a | None => stop HCPUAssert end.

(** ** black_hole.c *)
Definition BLACKHOLE_ADDR : Z := 0x1fe96000.
Definition BLACKHOLE_SIZE : Z := 0x1000.
Definition blackhole_read (addr len : Z) : EM Z := ret 0.
Definition blackhole_write (addr len data : Z) : EM unit := ret tt.

(** ** nemu-clock.c *)
Definition NEMU_CLOCK_SIZE : Z := 0x4.
Definition nemu_clock_read (addr len : Z) : EM Z :=
  ensure (check_ioaddr addr len NEMU_CLOCK_SIZE) HCPUAssert ;;
  let! t := get_current_time in
  ret (u32 (t / 1000)).

(** ** nemu-trap.c *)
Definition NEMU_TRAP_SIZE : Z := 0x1000.
Definition nemu_trap_write (addr len data : Z) : EM unit :=
  ensure (check_ioaddr addr len 4) HCPUAssert ;;
  modify (set_nemu_state NEMU_END) ;;
  let! m := get in
  when (negb (Z.land (work_mode m) MODE_BATCH =? 0)) (stop HExit).

(** ** nemu-pmu.c *)
Definition NEMU_PMU_SIZE : Z := 0x1000.

(** ** nemu-vga.c: every pixel of the guest is a 2x2 block of the window *)
Definition SCR_W : Z := 400.
Definition SCR_H : Z := 300.
Definition WINDOW_W : Z := SCR_W * 2.
Definition WINDOW_H : Z := SCR_H * 2.
Definition NEMU_VGA_SIZE : Z := 0x100000.
Definition VMEM_SIZE : Z := WINDOW_H * WINDOW_W.

Definition get_x (addr : Z) : Z := (addr / 4) mod SCR_W.
Definition get_y (addr : Z) : Z := (addr / 4) / SCR_W.

(** The byte offset of ptr[row][col] in the pixel array. *)
Definition pixel (row col : Z) : Z := 4 * (row * WINDOW_W + col).

(** screen->pixels; without a window the dereference is undefined. *)
Definition screen_pixels : EM (gmap Z Z) :=
  let! m := get in
  match screen m with Some p => ret p | None => stop HUndefined end.

Definition nemu_vga_read (addr len : Z) : EM Z :=
  ensure (check_ioaddr addr len VMEM_SIZE) HCPUAssert ;;
  let offset := addr mod 4 in
  let x := get_x addr in
  let y := get_y addr in
  let! px := screen_pixels in
  ensure ((x <? SCR_W) && (y <? SCR_H)) HAssert ;;
  ret (ld_masked px (pixel (2 * y) (2 * x) + offset) len).

Definition nemu_vga_write (addr len data : Z) : EM unit :=
  ensure (check_ioaddr addr len VMEM_SIZE) HCPUAssert ;;
  let offset := addr mod 4 in
  let x := get_x addr in
  let y := get_y addr in
  let! px := screen_pixels in
  ensure ((x <? SCR_W) && (y <? SCR_H)) HAssert ;;
  let store p row col := st_bytes p (pixel row col + offset) (Z.to_nat len) data in
  let px := store px (2 * y) (2 * x) in
  let px := store px (2 * y + 1) (2 * x) in
  let px := store px (2 * y) (2 * x + 1) in
  let px := store px (2 * y + 1) (2 * x + 1) in
  modify (set_screen (Some px)).

(** ** nemu-vga-ctrl.c.  SDL_Flip only shows the pixels. *)
Definition screen_read (addr len : Z) : EM Z :=
  ensure (addr =? 0) HAssert ;; ret (Z.shiftl SCR_W 16 + SCR_H).
Definition screen_write (addr len data : Z) : EM unit :=
  ensure (addr =? 4) HAssert.

(** ** The device_t objects *)
Section Device.
Context {cfg : Config}.

Definition dev_start (d : dev) : Z :=
  match d with
  | blackhole_dev => BLACKHOLE_ADDR
  | bram_dev => CONFIG_BRAM_BASE
  | ddr_dev => CONFIG_DDR_BASE
  | nemu_clock_dev => CONFIG_NEMU_CLOCK_BASE
  | nemu_trap_dev => CONFIG_NEMU_TRAP_BASE
  | xlnx_ulite_dev => CONFIG_XLNX_ULITE_BASE
  | xlnx_spi_dev => CONFIG_XLNX_SPI_BASE
  | nemu_pmu_dev => CONFIG_NEMU_PMU_BASE
  | nemu_keyboard_dev => CONFIG_NEMU_KEYBOARD_BASE
  | nemu_vga_dev => CONFIG_NEMU_VGA_BASE
  | screen_dev => CONFIG_NEMU_VGA_CTRL_BASE
  end.

Definition dev_size (d : dev) : Z :=
  match d with
  | blackhole_dev => BLACKHOLE_SIZE
  | bram_dev => Bram.BRAM_SIZE
  | ddr_dev => Ddr.DDR_SIZE
  | nemu_clock_dev => NEMU_CLOCK_SIZE
  | nemu_trap_dev => NEMU_TRAP_SIZE
  | xlnx_ulite_dev => XLNX_ULITE_SIZE
  | xlnx_spi_dev => SPI_SIZE
  | nemu_pmu_dev => NEMU_PMU_SIZE
  | nemu_keyboard_dev => NEMU_KEYBOARD_SIZE
  | nemu_vga_dev => NEMU_VGA_SIZE
  | screen_dev => 4
  end.

Definition bram_rd (addr len : Z) : EM Z :=
  let! m := get in checked (Bram.bram_read addr len (bram m)).
Definition bram_wr (addr len data : Z) : EM unit :=
  let! m := get in
  let! b := checked (Bram.bram_write addr len data (bram m)) in modify (set_bram b).
Definition ddr_rd (addr len : Z) : EM Z :=
  let! m := get in checked (Ddr.ddr_read addr len (ddr m)).
Definition ddr_wr (addr len data : Z) : EM unit :=
  let! m := get in
  let! b := checked (Ddr.ddr_write addr len data (ddr m)) in modify (set_ddr b).

(** [None] is a null function pointer. *)
Definition dev_read (d : dev) : option (Z -> Z -> EM Z) :=
  match d with
  | blackhole_dev => Some blackhole_read
  | bram_dev => Some bram_rd
  | ddr_dev => Some ddr_rd
  | nemu_clock_dev => Some nemu_clock_read
  | nemu_trap_dev => None
  | xlnx_ulite_dev => Some xlnx_ulite_read
  | xlnx_spi_dev => Some xlnx_spi_read
  | nemu_pmu_dev => None
  | nemu_keyboard_dev => Some nemu_keyboard_read
  | nemu_vga_dev => Some nemu_vga_read
  | screen_dev => Some screen_read
  end.

Definition dev_write (d : dev) : option (Z -> Z -> Z -> EM unit) :=
  match d with
  | blackhole_dev => Some blackhole_write
  | bram_dev => Some bram_wr
  | ddr_dev => Some ddr_wr
  | nemu_clock_dev => None
  | nemu_trap_dev => Some nemu_trap_write
  | xlnx_ulite_dev => Some xlnx_ulite_write
  | xlnx_spi_dev => Some xlnx_spi_write
  | nemu_pmu_dev => None
  | nemu_keyboard_dev => None
  | nemu_vga_dev => Some nemu_vga_write
  | screen_dev => Some screen_write
  end.

Definition dev_map (d : dev) : option (Z -> Z -> EM (dev * Z)) :=
  match d with
  | bram_dev => Some (fun addr len =>
      let! p := checked (Bram.bram_map addr len) in ret (bram_dev, p))
  | ddr_dev => Some (fun addr len =>
      let! p := checked (Ddr.ddr_map addr len) in ret (ddr_dev, p))
  | _ => None
  end.

Definition dev_peek (d : dev) : option (Z -> Z -> EM Z) :=
  match d with
  | bram_dev => Some bram_rd
  | ddr_dev => Some ddr_rd
  | nemu_clock_dev => Some nemu_clock_read
  | xlnx_ulite_dev => Some xlnx_ulite_peek
  | nemu_keyboard_dev => Some nemu_keyboard_peek
  | screen_dev => Some screen_read
  | _ => None
  end.

(** [n] is the number of characters waiting on stdin for the serial port. *)
Definition dev_update_irq (n : nat) (d : dev) : option (EM bool) :=
  match d with
  | xlnx_ulite_dev => Some (xlnx_ulite_update_irq n)
  | xlnx_spi_dev => Some xlnx_spi_update_irq
  | nemu_keyboard_dev => Some nemu_keyboard_update_irq
  | _ => None
  end.

Definition dev_init (file : option (list Z)) (d : dev) : EM unit :=
  match d with
  | xlnx_spi_dev => xlnx_spi_init file
  | _ => ret tt
  end.

(** The devices the build links (Makefile, cfiles-y).  Every machine of Kconfig selects
    the RAMs, the trap device and the serial port, and the VGA selects its controller. *)
Definition linked (d : dev) : bool :=
  match d with
  | nemu_clock_dev => CONFIG_NEMU_CLOCK
  | xlnx_spi_dev => CONFIG_XLNX_SPI
  | nemu_pmu_dev => CONFIG_NEMU_PMU
  | nemu_keyboard_dev => CONFIG_NEMU_KEYBOARD
  | nemu_vga_dev | screen_dev => CONFIG_NEMU_VGA
  | _ => true
  end.

Definition all_devs : list dev :=
  [blackhole_dev; bram_dev; ddr_dev; nemu_clock_dev; nemu_trap_dev; xlnx_ulite_dev;
   xlnx_spi_dev; nemu_pmu_dev; nemu_keyboard_dev; nemu_vga_dev; screen_dev].

(** ** register.c: each object pushes itself at the head of the list *)
Definition register_device (d : dev) (head : list dev) : list dev := d :: head.
Definition get_device_list_head (ctors : list dev) : list dev :=
  fold_left (fun head d => register_device d head) ctors [].

(** ** device.h and memory.h: find_device *)
Definition mr_index (addr : Z) : Z := addr / (4 * 1024).
Definition ioremap (vaddr : Z) : Z := Z.land vaddr 0x1FFFFFFF.
Definition find_device (addr : Z) (m : machine) : option dev :=
  memory_regions m !! mr_index (ioremap addr).

(** ** memory.c: realize_device, init_mmio *)
Definition _4KB : Z := 4 * 1024.

(** for (i = start; i < start + size; i += 4096), 32-bit arithmetic; the loop runs
    at most once per page of the 32-bit space. *)
Fixpoint realize_loop (fuel : nat) (d : dev) (i : Z) : EM unit :=
  if i <? u32 (dev_start d + dev_size d) then
    match fuel with
    | O => stop HUndefined
    | S fuel =>
        let! m := get in
        ensure (bool_decide (memory_regions m !! mr_index i = None)) HAssert ;;
        modify (set_memory_regions (<[mr_index i := d]> (memory_regions m))) ;;
        realize_loop fuel d (u32 (i + _4KB))
    end
  else ret tt.

Definition region_pages (d : dev) : Z := (dev_size d + _4KB - 1) / _4KB.

Definition realize_device (file : option (list Z)) (d : dev) : EM unit :=
  ensure (Z.land (dev_start d) 0xFFF =? 0) HAssert ;;
  realize_loop (Z.to_nat (region_pages d)) d (dev_start d) ;;
  dev_init file d.

Fixpoint init_mmio (file : option (list Z)) (head : list dev) : EM unit :=
  match head with
  | [] => ret tt
  | d :: next => realize_device file d ;; init_mmio file next
  end.

(** ** events.c: the timer signal polls every device (with CONFIG_INTR) *)
Fixpoint poll_devices (n : nat) (head : list dev) : EM unit :=
  match head with
  | [] => ret tt
  | d :: next =>
      match dev_update_irq n d with
      | Some f => let! _ := f in ret tt
      | None => ret tt
      end ;;
      poll_devices n next
  end.

(** [quit]: the window got an SDL_QUIT event. *)
Definition update_irq (quit : bool) (n : nat) (head : list dev) : EM unit :=
  when (CONFIG_GRAPHICS && quit) (stop HExit) ;;
  when CONFIG_INTR (poll_devices n head).
End Device.
