(* ===== verification/Mmu.v ===== *)
(** * Exceptions and address translation (src/cpu/cpu.c raise_exception,
    src/cpu/mmu.c, src/monitor/iq.c) *)
From S2P Require Import Prelude Config Reg Fifo Ram Flash Sdlkey Machine Ulite Spi Device.
Local Open Scope nemu_scope.

(** ** iq.c: the queue of the last fetched instructions *)
Definition iq_at (q : iq_t) (i : Z) : iq_element_t :=
  default (mkIqe 0 0 false) (iq_arr q !! Z.to_nat i).
Definition put_iq (i : Z) (e : iq_element_t) (q : iq_t) : iq_t :=
  mkIq (pc_ptr q) (instr_ptr q) (<[Z.to_nat i := e]> (iq_arr q)).

Definition instr_enqueue_pc (pc : Z) : EM unit :=
  modify (fun m =>
    let q := iq m in
    let p := pc_ptr q in
    let q := put_iq p (mkIqe pc (iqe_instr (iq_at q p)) false) q in
    set_iq (mkIq ((p + 1) mod NR_IQ) p (iq_arr q)) m).

Definition instr_enqueue_instr (instr : Z) : EM unit :=
  modify (fun m =>
    let q := iq m in
    let p := instr_ptr q in
    set_iq (put_iq p (mkIqe (iqe_pc (iq_at q p)) instr true) q) m).

Section Mmu.
Context {cfg : Config}.

Definition get_current_pc : EM Z :=
  ensure CONFIG_INSTR_LOG HPanic ;;
  let! m := get in ret (iqe_pc (iq_at (iq m) (instr_ptr (iq m)))).

Definition get_current_instr : EM Z :=
  ensure CONFIG_INSTR_LOG HPanic ;;
  let! m := get in
  let e := iq_at (iq m) (instr_ptr (iq m)) in
  ret (if iqe_enq e then iqe_instr e else 0).

(** ** raise_exception: the part that changes registers *)
Definition record_epc (c : CPU_state) : CPU_state :=
  if CONFIG_DELAYSLOT && is_delayslot c then
    put_cp0 cause_BD 1 (put_cpr CP0_EPC 0 (pc c - 4) (set_is_delayslot false c))
  else put_cp0 cause_BD 0 (put_cpr CP0_EPC 0 (pc c) c).

Definition enter_vector (code vecOff : Z) (c : CPU_state) : CPU_state :=
  let c := put_cp0 cause_ExcCode code c in
  let c := put_cp0 status_EXL 1 c in
  if cp0_get status_BEV (cp0 c) =? 1
  then set_br_target (0xbfc00200 + vecOff) c
  else set_br_target (0x80000000 + vecOff) c.

Definition raise_cpu (code extra : Z) (c : CPU_state) : CPU_state :=
  let c := set_has_exception true c in
  if CONFIG_MARCH_NOOP || (cp0_get status_EXL (cp0 c) =? 0) then
    let c := record_epc c in
    let vecOff :=
      if extra =? EX_TLB_REFILL then 0x000
      else if (code =? EXC_INTR) && (cp0_get cause_IV (cp0 c) =? 1) then 0x200
      else 0x180 in
    enter_vector code vecOff c
  else enter_vector code 0x180 c.

Definition raise_exception (exception : Z) : EM unit :=
  let code := Z.land exception 0xFFFF in
  let extra := Z.shiftr exception 16 in
  when (code =? EXC_TRAP) (let! _ := get_current_pc in stop HPanic) ;;
  upd_cpu (raise_cpu code extra) ;;
  clear_mmu_cache ;; clear_decode_cache.

(** ** mmu.c *)
Definition MMU_LOAD : bool := false.
Definition MMU_STORE : bool := true.

(** mmu_attr_t: rwbit and exbit are arguments, dirty and miss results. *)
Record mmu_attr_t := mkAttr { rwbit : bool; exbit : bool; dirty : Z; miss : Z }.
Definition mk_attr (rw ex : bool) : mmu_attr_t := mkAttr rw ex 0 0.
Definition set_dirty (d : Z) (a : mmu_attr_t) : mmu_attr_t :=
  mkAttr (rwbit a) (exbit a) (uw 1 d) (miss a).
Definition set_miss (v : Z) (a : mmu_attr_t) : mmu_attr_t :=
  mkAttr (rwbit a) (exbit a) (dirty a) v.

(** assert(mask == 0 || (mask | (mask + 1)) == 0) *)
Definition mask_assert (mask : Z) : bool :=
  (mask =? 0) || (u32 (Z.lor mask (mask + 1)) =? 0).

(** ~mask for a uint32_t mask *)
Definition not32 (mask : Z) : Z := u32 (Z.lnot mask).

(** The comparison of mmu.c between an entry and a virtual page pair. *)
Definition tlb_match (e : tlb_entry_t) (vpn2 cur_asid : Z) : bool :=
  let mask := pagemask e in
  (Z.land (vpn e) (not32 mask) =? Z.land vpn2 (not32 mask)) &&
  (negb (tlb_g e =? 0) || (asid e =? cur_asid)).

Fixpoint tlb_present_loop (l : list tlb_entry_t) (i : Z) : EM unit :=
  match l with
  | [] => upd_cpu (put_cp0 index_p 1)
  | e :: l =>
      ensure (mask_assert (pagemask e)) HAssert ;;
      let! m := get in
      if tlb_match e (cp0_get entry_hi_vpn (cp0 (cpu m)))
                     (cp0_get entry_hi_asid (cp0 (cpu m)))
      then upd_cpu (put_cp0 index_p 0) ;; upd_cpu (put_cp0 index_idx i)
      else tlb_present_loop l (i + 1)
  end.

Definition tlb_present : EM unit :=
  let! m := get in tlb_present_loop (tlb m) 0.

Definition tlb_at (m : machine) (i : Z) : tlb_entry_t :=
  default tlb_zero (tlb m !! Z.to_nat i).

(** The entry-lo register [r] filled from one page of an entry. *)
Definition read_entry_lo (r : Z) (e : tlb_entry_t) (p : tlb_phyn_t) (c : CPU_state)
  : CPU_state :=
  let c := put_cp0 (entry_lo_pfn r) (Z.land (pfn p) (Z.lnot (pagemask e))) c in
  let c := put_cp0 (entry_lo_c r) (phyn_c p) c in
  let c := put_cp0 (entry_lo_d r) (phyn_d p) c in
  let c := put_cp0 (entry_lo_v r) (phyn_v p) c in
  put_cp0 (entry_lo_g r) (tlb_g e) c.

Definition tlb_read (i : Z) : EM unit :=
  ensure (i <? NR_TLB_ENTRY) HUndefined ;;
  let! m := get in
  let e := tlb_at m i in
  upd_cpu (put_cp0 pagemask_mask (pagemask e)) ;;
  upd_cpu (put_cp0 entry_hi_vpn (Z.land (vpn e) (Z.lnot (pagemask e)))) ;;
  upd_cpu (put_cp0 entry_hi_asid (asid e)) ;;
  upd_cpu (read_entry_lo CP0_ENTRY_LO0 e (p0 e)) ;;
  upd_cpu (read_entry_lo CP0_ENTRY_LO1 e (p1 e)).

(** The entry tlb_write stores, from the CP0 registers. *)
Definition phyn_of (r : Z) (c : list Z) : tlb_phyn_t :=
  mkPhyn (Z.land (cp0_get (entry_lo_pfn r) c) (Z.lnot (cp0_get pagemask_mask c)))
    (cp0_get (entry_lo_c r) c) (cp0_get (entry_lo_d r) c) (cp0_get (entry_lo_v r) c).

Definition entry_of (c : list Z) : tlb_entry_t :=
  mkTlb (cp0_get pagemask_mask c)
    (Z.land (cp0_get entry_hi_vpn c) (Z.lnot (cp0_get pagemask_mask c)))
    (Z.land (cp0_get (entry_lo_g CP0_ENTRY_LO0) c) (cp0_get (entry_lo_g CP0_ENTRY_LO1) c))
    (cp0_get entry_hi_asid c)
    (phyn_of CP0_ENTRY_LO0 c) (phyn_of CP0_ENTRY_LO1 c).

Definition tlb_write (i : Z) : EM unit :=
  ensure (i <? NR_TLB_ENTRY) HUndefined ;;
  modify (fun m => set_tlb (<[Z.to_nat i := entry_of (cp0 (cpu m))]> (tlb m)) m).

Definition tlb_exception (ex code vaddr asid : Z) : EM unit :=
  upd_cpu (put_cpr CP0_BADVADDR 0 vaddr) ;;
  upd_cpu (put_cp0 context_BadVPN2 (Z.shiftr vaddr 13)) ;;
  upd_cpu (put_cp0 entry_hi_vpn (Z.shiftr vaddr 13)) ;;
  upd_cpu (put_cp0 entry_hi_asid asid) ;;
  raise_exception (MAKE_EX ex code).

(** What page_translate does with the entry that matched. *)
Definition translate_hit (e : tlb_entry_t) (vaddr : Z) (attr : mmu_attr_t)
  : EM (Z * mmu_attr_t) :=
  let exccode := if rwbit attr then EXC_TLBS else EXC_TLBL in
  let mask := pagemask e in
  let EvenOddBit := negb (Z.land vaddr (u32 (Z.shiftl (mask + 1) 12)) =? 0) in
  let phyn := if EvenOddBit then p1 e else p0 e in
  if phyn_v phyn =? 0 then
    when (exbit attr) (tlb_exception EX_TLB_INVALID exccode vaddr (asid e)) ;;
    ret (dev_start blackhole_dev, attr)
  else if (phyn_d phyn =? 0) && rwbit attr then
    when (exbit attr) (tlb_exception EX_TLB_MODIFIED EXC_TLBM vaddr (asid e)) ;;
    ret (dev_start blackhole_dev, set_dirty (phyn_d phyn) attr)
  else
    let highbits := u32 (Z.shiftl (Z.land (pfn phyn) (not32 mask)) 12) in
    let lowbits := Z.land vaddr (u32 (u32 (Z.shiftl (mask + 1) 12) - 1)) in
    ret (Z.lor highbits lowbits, set_dirty (phyn_d phyn) attr).

Fixpoint page_translate_loop (l : list tlb_entry_t) (vaddr : Z) (attr : mmu_attr_t)
  : EM (Z * mmu_attr_t) :=
  match l with
  | [] =>
      let exccode := if rwbit attr then EXC_TLBS else EXC_TLBL in
      let! m := get in
      when (exbit attr)
        (tlb_exception EX_TLB_REFILL exccode vaddr (cp0_get entry_hi_asid (cp0 (cpu m)))) ;;
      ret (dev_start blackhole_dev, set_miss 1 attr)
  | e :: l =>
      let va_31_13 := Z.shiftr (Z.land vaddr (not32 0x1FFF)) 13 in
      ensure (mask_assert (pagemask e)) HAssert ;;
      let! m := get in
      if tlb_match e va_31_13 (cp0_get entry_hi_asid (cp0 (cpu m)))
      then translate_hit e vaddr attr
      else page_translate_loop l vaddr attr
  end.

Definition page_translate (vaddr : Z) (attr : mmu_attr_t) : EM (Z * mmu_attr_t) :=
  let! m := get in page_translate_loop (tlb m) vaddr attr.
End Mmu.
