(* ===== verification/Memory.v ===== *)
(** * Virtual memory access (include/cpu/memory.h, src/cpu/memory.c,
    src/cpu/mmu-cache.h, vaddr_read and vaddr_write of src/cpu/cpu.c) *)
From S2P Require Import Prelude Config Reg Fifo Ram Flash Sdlkey Machine Ulite Spi Device Mmu.
Local Open Scope nemu_scope.

(** ** memory.h *)
Definition UNCACHED_BASE : Z := 0xA0000000.
Definition UNCACHED_END : Z := 0xC0000000.
Definition UNMAPPED_BASE : Z := 0x80000000.
Definition UNMAPPED_END : Z := 0xC0000000.
Definition is_unmapped (addr : Z) : bool := (UNMAPPED_BASE <=? addr) && (addr <? UNMAPPED_END).
Definition is_uncached (addr : Z) : bool := (UNCACHED_BASE <=? addr) && (addr <? UNCACHED_END).

Section Memory.
Context {cfg : Config}.

Definition prot_addr_with_attr (addr : Z) (attr : mmu_attr_t) : EM (Z * mmu_attr_t) :=
  let seg := Z.land (Z.shiftr addr 29) 0x7 in
  let! m := get in
  if (seg =? 4) || (seg =? 5) then ret (ioremap addr, attr)
  else if seg =? 7 then stop HPanic
  else if negb CONFIG_PAGING ||
          ((seg <? 4) && negb (cp0_get status_ERL (cp0 (cpu m)) =? 0))
  then ret (addr, attr)
  else
    let! r := page_translate addr attr in
    ret (ioremap (fst r), snd r).

Definition prot_addr (addr : Z) (rw : bool) : EM Z :=
  let! r := prot_addr_with_attr addr (mk_attr rw true) in
  ret (fst r).

(** ** mmu-cache.h *)
Definition mmu_cache_index (vaddr : Z) : Z :=
  Z.land (Z.shiftr vaddr 12) (Z.shiftl 1 MMU_BITS - 1).
Definition mmu_cache_id (vaddr : Z) : Z := Z.shiftr vaddr (12 + MMU_BITS).
Definition mmu_cache_at (m : machine) (i : Z) : mmu_cache_t :=
  default mmu_cache_zero (mmu_cache m !! Z.to_nat i).

Definition update_mmu_cache (vaddr paddr : Z) (d : dev) (can_write : bool) : EM unit :=
  let! m := get in
  if has_exception (cpu m) then ret tt
  else match dev_map d with
       | None => ret tt
       | Some map =>
           let! p := map (u32 (Z.land paddr (not32 0xFFF) - dev_start d)) 0 in
           modify (fun m => set_mmu_cache
             (<[Z.to_nat (mmu_cache_index vaddr) :=
                mkMmuCache (mmu_cache_id vaddr) (Some p) can_write]> (mmu_cache m)) m)
       end.

(** Access through a host pointer into the array of a memory device. *)
Definition host_load (p : option (dev * Z)) (off len : Z) : EM Z :=
  let! m := get in
  match p with
  | Some (bram_dev, a) => ret (ld_masked (bram m) (a + off) len)
  | Some (ddr_dev, a) => ret (ld_masked (ddr m) (a + off) len)
  | _ => stop HUndefined
  end.

Definition host_store (p : option (dev * Z)) (off len data : Z) : EM unit :=
  let! m := get in
  match p with
  | Some (bram_dev, a) =>
      modify (set_bram (st_bytes (bram m) (a + off) (Z.to_nat len) data))
  | Some (ddr_dev, a) =>
      modify (set_ddr (st_bytes (ddr m) (a + off) (Z.to_nat len) data))
  | _ => stop HUndefined
  end.

(** ** cpu.c *)
Definition vaddr_read (addr len : Z) : EM Z :=
  let! m := get in
  let e := mmu_cache_at m (mmu_cache_index addr) in
  if CONFIG_MMU_CACHE && (mc_id e =? mmu_cache_id addr)
  then host_load (mc_ptr e) (Z.land addr 0xFFF) len
  else
    let! r := prot_addr_with_attr addr (mk_attr MMU_LOAD true) in
    let paddr := fst r in
    let! m := get in
    match find_device paddr m with
    | Some d =>
        match dev_read d with
        | Some rd =>
            update_mmu_cache addr paddr d (negb (dirty (snd r) =? 0)) ;;
            rd (u32 (paddr - dev_start d)) len
        | None => stop HCPUAssert
        end
    | None => stop HCPUAssert
    end.

Definition vaddr_write (addr len data : Z) : EM unit :=
  let! m := get in
  let e := mmu_cache_at m (mmu_cache_index addr) in
  if CONFIG_MMU_CACHE && (mc_id e =? mmu_cache_id addr) && mc_can_write e
  then host_store (mc_ptr e) (Z.land addr 0xFFF) len data
  else
    let! paddr := prot_addr addr MMU_STORE in
    let! m := get in
    match find_device paddr m with
    | Some d =>
        match dev_write d with
        | Some wr =>
            update_mmu_cache addr paddr d true ;;
            wr (u32 (paddr - dev_start d)) len data
        | None => stop HCPUAssert
        end
    | None => stop HCPUAssert
    end.

(** ** memory.c *)
Definition vaddr_map (addr len : Z) : EM (dev * Z) :=
  ensure (is_unmapped addr) HPanic ;;
  let addr := ioremap addr in
  let! m := get in
  match find_device addr m with
  | Some d =>
      match dev_map d with
      | Some map => map (u32 (addr - dev_start d)) len
      | None => stop HPanic
      end
  | None => stop HPanic
  end.

Definition dbg_vaddr_read (addr len : Z) : EM Z :=
  let! r := prot_addr_with_attr addr (mk_attr MMU_LOAD false) in
  let addr := fst r in
  let! m := get in
  match find_device addr m with
  | Some d =>
      match dev_read d with
      | Some rd => rd (u32 (addr - dev_start d)) len
      | None => ret 0
      end
  | None => ret 0
  end.

Definition dbg_vaddr_write (addr len data : Z) : EM unit :=
  let! r := prot_addr_with_attr addr (mk_attr MMU_STORE false) in
  let addr := fst r in
  let! m := get in
  match find_device addr m with
  | Some d =>
      match dev_write d with
      | Some wr => wr (u32 (addr - dev_start d)) len data ;; clear_decode_cache
      | None => ret tt
      end
  | None => ret tt
  end.

Definition paddr_peek (addr len : Z) : EM Z :=
  let! m := get in
  match find_device addr m with
  | Some d =>
      match dev_peek d with
      | Some pk => pk (u32 (addr - dev_start d)) len
      | None => stop HCPUAssert
      end
  | None => stop HCPUAssert
  end.
End Memory.
