(* ===== verification/ExecAlu.v ===== *)
(** * Instruction handlers: macros and integer arithmetic

    src/cpu/exec/exec-macros.h, arith.h, arith-ex.h, setcc.h and shift.h.  A handler
    takes the operands of the fetched word.  Completing normally continues at the
    label inst_end; [Exit] is goto exit. *)
From S2P Require Import Prelude Config Reg Fifo Ram Flash Sdlkey Machine Ulite Spi Device Mmu Memory.
Local Open Scope nemu_scope.

(** ** exec-macros.h *)
Section Macros.
Context {cfg : Config}.

Definition get_cpu : EM CPU_state := gets cpu.
Definition GR_SV (o : operands) (c : CPU_state) : Z := gpr_at c (o_rs o).
Definition GR_TV (o : operands) (c : CPU_state) : Z := gpr_at c (o_rt o).
Definition GR_DV (o : operands) (c : CPU_state) : Z := gpr_at c (o_rd o).

(** GR_DV = f(cpu) and GR_TV = f(cpu) *)
Definition assign_rd (o : operands) (f : CPU_state -> Z) : EM unit :=
  upd_cpu (fun c => put_gpr (o_rd o) (f c) c).
Definition assign_rt (o : operands) (f : CPU_state -> Z) : EM unit :=
  upd_cpu (fun c => put_gpr (o_rt o) (f c) c).

Definition prepare_delayslot : EM unit :=
  (if CONFIG_DELAYSLOT then
     upd_cpu (fun c => set_pc (pc c + 4) (set_is_delayslot true c))
   else
     when CONFIG_DECODE_CACHE
       (upd_cpu (fun c => set_pc (br_target c) c) ;;
        let! c := get_cpu in refetch_ds (pc c))) ;;
  goto_exit.

Definition InstAssert (cond : bool) : EM unit :=
  if cond then ret tt
  else if CONFIG_EXCEPTION then
    upd_cpu (fun c => put_cpr CP0_BADVADDR 0 (pc c) c) ;;
    raise_exception EXC_RI ;; goto_exit
  else stop HAssert.

Definition CHECK_ALIGNED_ADDR (AdEX align addr : Z) : EM unit :=
  if Z.land addr (align - 1) =? 0 then ret tt
  else if CONFIG_EXCEPTION then
    upd_cpu (put_cpr CP0_BADVADDR 0 addr) ;; raise_exception AdEX ;; goto_exit
  else stop HCPUAssert.

(** The exception an arithmetic handler raises on overflow. *)
Definition overflow : EM unit :=
  if CONFIG_EXCEPTION then raise_exception EXC_OV else stop HCPUAssert.
End Macros.

(** L64_t: the two halves of a 64-bit value. *)
Definition L64_lo (val : Z) : Z := u32 val.
Definition L64_hi (val : Z) : Z := u32 (Z.shiftr val 32).
Definition overflowed (val : Z) : bool :=
  negb (Z.land (L64_hi val) 1 =? Z.land (Z.shiftr (L64_lo val) 31) 1).

(** ** arith.h, setcc.h *)
Module Alu.
Section Alu.
Context {cfg : Config}.

Definition R_SIMPLE (op : Z -> Z -> Z) (o : operands) : EM unit :=
  InstAssert (o_shamt o =? 0) ;;
  assign_rd o (fun c => op (GR_SV o c) (GR_TV o c)).

Definition or_ := R_SIMPLE Z.lor.
Definition xor := R_SIMPLE Z.lxor.
Definition and_ := R_SIMPLE Z.land.
Definition addu := R_SIMPLE Z.add.
Definition subu := R_SIMPLE Z.sub.
Definition mul := R_SIMPLE Z.mul.

Definition lui (o : operands) : EM unit :=
  InstAssert (o_rs o =? 0) ;; assign_rt o (fun _ => Z.shiftl (o_uimm o) 16).

Definition addi (o : operands) : EM unit :=
  let! c := get_cpu in
  let val := s32 (GR_SV o c) + o_simm o in
  if overflowed val then overflow else assign_rt o (fun _ => L64_lo val).

Definition addiu (o : operands) : EM unit := assign_rt o (fun c => GR_SV o c + o_simm o).
Definition andi (o : operands) : EM unit :=
  assign_rt o (fun c => Z.land (GR_SV o c) (o_uimm o)).
Definition ori (o : operands) : EM unit :=
  assign_rt o (fun c => Z.lor (GR_SV o c) (o_uimm o)).
Definition xori (o : operands) : EM unit :=
  assign_rt o (fun c => Z.lxor (GR_SV o c) (o_uimm o)).

Definition add (o : operands) : EM unit :=
  InstAssert (o_shamt o =? 0) ;;
  let! c := get_cpu in
  let val := s32 (GR_SV o c) + s32 (GR_TV o c) in
  if overflowed val then overflow else assign_rd o (fun _ => L64_lo val).

Definition sub (o : operands) : EM unit :=
  InstAssert (o_shamt o =? 0) ;;
  let! c := get_cpu in
  let val := s32 (GR_SV o c) - s32 (GR_TV o c) in
  if overflowed val then overflow else assign_rd o (fun _ => L64_lo val).

Definition nor (o : operands) : EM unit :=
  InstAssert (o_shamt o =? 0) ;;
  assign_rd o (fun c => Z.lnot (Z.lor (GR_SV o c) (GR_TV o c))).

(** A comparison with the immediate converts it to unsigned in sltiu. *)
Definition sltiu (o : operands) : EM unit :=
  assign_rt o (fun c => b2z (GR_SV o c <? u32 (o_simm o))).
Definition slti (o : operands) : EM unit :=
  assign_rt o (fun c => b2z (s32 (GR_SV o c) <? o_simm o)).
Definition slt (o : operands) : EM unit :=
  InstAssert (o_shamt o =? 0) ;;
  assign_rd o (fun c => b2z (s32 (GR_SV o c) <? s32 (GR_TV o c))).
Definition sltu (o : operands) : EM unit :=
  InstAssert (o_shamt o =? 0) ;; assign_rd o (fun c => b2z (GR_SV o c <? GR_TV o c)).
Definition movn (o : operands) : EM unit :=
  InstAssert (o_shamt o =? 0) ;;
  let! c := get_cpu in
  when (negb (GR_TV o c =? 0)) (assign_rd o (GR_SV o)).
Definition movz (o : operands) : EM unit :=
  InstAssert (o_shamt o =? 0) ;;
  let! c := get_cpu in
  when (GR_TV o c =? 0) (assign_rd o (GR_SV o)).
End Alu.
End Alu.

(** ** arith-ex.h *)
Module AluEx.
Section AluEx.
Context {cfg : Config}.

(** __builtin_clz of a nonzero 32-bit value *)
Definition builtin_clz (x : Z) : Z := 31 - Z.log2 x.

Definition clz (o : operands) : EM unit :=
  assign_rd o (fun c => if GR_SV o c =? 0 then 32 else builtin_clz (GR_SV o c)).

(** while ((in & b) != 0) { cnt++; b >>= 1; } *)
Fixpoint clo_loop (fuel : nat) (inp b cnt : Z) : option Z :=
  if Z.land inp b =? 0 then Some cnt
  else match fuel with
       | O => None
       | S fuel => clo_loop fuel inp (Z.shiftr b 1) (u32 (cnt + 1))
       end.

Definition clo (o : operands) : EM unit :=
  let! c := get_cpu in
  match clo_loop 32 (GR_SV o c) 0x80000000 0 with
  | Some cnt => assign_rd o (fun _ => cnt)
  | None => stop HUndefined
  end.

Definition seb (o : operands) : EM unit := assign_rd o (fun c => s8 (GR_TV o c)).
Definition seh (o : operands) : EM unit := assign_rd o (fun c => s16 (GR_TV o c)).

Definition wsbh_val (v : Z) : Z :=
  Z.lor (Z.lor (Z.lor (u32 (Z.shiftl (Z.land v 0x00FF0000) 8))
                      (Z.shiftr (Z.land v 0xFF000000) 8))
               (Z.shiftl (Z.land v 0x000000FF) 8))
        (Z.shiftr (Z.land v 0x0000FF00) 8).
Definition wsbh (o : operands) : EM unit := assign_rd o (fun c => wsbh_val (GR_TV o c)).

Definition ins_val (lsb msb rs_val rt_val : Z) : Z :=
  let mask := u32 (Z.shiftl 1 (msb - lsb + 1) - 1) in
  Z.lor (Z.land rt_val (not32 (u32 (Z.shiftl mask lsb))))
        (u32 (Z.shiftl (Z.land rs_val mask) lsb)).
Definition ins (o : operands) : EM unit :=
  let lsb := o_shamt o in
  let msb := o_rd o in
  ensure (lsb <=? msb) HAssert ;;
  assign_rt o (fun c => ins_val lsb msb (GR_SV o c) (GR_TV o c)).

Definition ext_val (lsb msbd rs_val : Z) : Z :=
  let size := msbd + 1 in
  let mask := u32 (Z.shiftl 1 size - 1) in
  Z.shiftr (Z.land rs_val (u32 (Z.shiftl mask lsb))) lsb.
Definition ext (o : operands) : EM unit :=
  assign_rt o (fun c => ext_val (o_shamt o) (o_rd o) (GR_SV o c)).
End AluEx.
End AluEx.

(** ** shift.h.  Shifting a 32-bit value by 32 is undefined. *)
Module Shift.
Section Shift.
Context {cfg : Config}.

Definition rotr_val (rt_val sa : Z) : Z :=
  Z.lor (Z.shiftr rt_val sa) (u32 (Z.shiftl rt_val (32 - sa))).

Definition sll (o : operands) : EM unit :=
  InstAssert (o_rs o =? 0) ;; assign_rd o (fun c => Z.shiftl (GR_TV o c) (o_shamt o)).
Definition sllv (o : operands) : EM unit :=
  InstAssert (o_shamt o =? 0) ;;
  assign_rd o (fun c => Z.shiftl (GR_TV o c) (Z.land (GR_SV o c) 0x1f)).
Definition sra (o : operands) : EM unit :=
  InstAssert (o_rs o =? 0) ;;
  assign_rd o (fun c => Z.shiftr (s32 (GR_TV o c)) (o_shamt o)).
Definition srav (o : operands) : EM unit :=
  InstAssert (o_shamt o =? 0) ;;
  assign_rd o (fun c => Z.shiftr (s32 (GR_TV o c)) (Z.land (GR_SV o c) 0x1f)).

Definition srl (o : operands) : EM unit :=
  if Z.land (o_rs o) 0x1 =? 0x1 then
    let sa := o_shamt o in
    ensure (negb (sa =? 0)) HUndefined ;;
    assign_rd o (fun c => rotr_val (GR_TV o c) sa)
  else
    InstAssert (o_rs o =? 0) ;;
    assign_rd o (fun c => Z.shiftr (GR_TV o c) (o_shamt o)).

Definition srlv (o : operands) : EM unit :=
  if Z.land (o_shamt o) 0x1 =? 0x1 then
    let! c := get_cpu in
    let sa := Z.land (GR_SV o c) 0x1f in
    ensure (negb (sa =? 0)) HUndefined ;;
    assign_rd o (fun c => rotr_val (GR_TV o c) sa)
  else
    InstAssert (o_shamt o =? 0) ;;
    assign_rd o (fun c => Z.shiftr (GR_TV o c) (Z.land (GR_SV o c) 0x1f)).
End Shift.
End Shift.
