(* ===== verification/ExecMdu.v ===== *)
(** * Instruction handlers: multiply/divide, branches and traps

    src/cpu/exec/mdu.h, branch.h and trap.h. *)
From S2P Require Import Prelude Config Reg Fifo Ram Flash Sdlkey Machine Ulite Spi Device Mmu Memory ExecAlu.
Local Open Scope nemu_scope.

(** ** mdu.h.  Signed 64-bit overflow, division by zero and INT_MIN / -1 are
    undefined. *)
Module Mdu.
Section Mdu.
Context {cfg : Config}.

Definition hilo (c : CPU_state) : Z := Z.lor (Z.shiftl (hi c) 32) (lo c).
Definition put_hilo (val : Z) (c : CPU_state) : CPU_state :=
  set_lo (L64_lo val) (set_hi (L64_hi val) c).
Definition is_s64 (x : Z) : bool := (- 2 ^ 63 <=? x) && (x <? 2 ^ 63).

Definition rd_sa_zero (o : operands) : EM unit :=
  InstAssert ((o_rd o =? 0) && (o_shamt o =? 0)).

Definition madd (o : operands) : EM unit :=
  rd_sa_zero o ;;
  let! c := get_cpu in
  let val := sw 64 (hilo c) + s32 (GR_SV o c) * s32 (GR_TV o c) in
  ensure (is_s64 val) HUndefined ;;
  upd_cpu (put_hilo val).

Definition maddu (o : operands) : EM unit :=
  rd_sa_zero o ;;
  upd_cpu (fun c => put_hilo (u64 (hilo c + GR_SV o c * GR_TV o c)) c).

Definition msub (o : operands) : EM unit :=
  rd_sa_zero o ;;
  let! c := get_cpu in
  let val := sw 64 (hilo c) - s32 (GR_SV o c) * s32 (GR_TV o c) in
  ensure (is_s64 val) HUndefined ;;
  upd_cpu (put_hilo val).

Definition msubu (o : operands) : EM unit :=
  rd_sa_zero o ;;
  upd_cpu (fun c => put_hilo (u64 (hilo c - GR_SV o c * GR_TV o c)) c).

Definition mult (o : operands) : EM unit :=
  rd_sa_zero o ;;
  upd_cpu (fun c =>
    let prod := s32 (GR_SV o c) * s32 (GR_TV o c) in
    set_hi (Z.shiftr prod 32) (set_lo prod c)).

Definition multu (o : operands) : EM unit :=
  rd_sa_zero o ;;
  upd_cpu (fun c =>
    let prod := u64 (GR_SV o c * GR_TV o c) in
    set_hi (Z.shiftr prod 32) (set_lo prod c)).

Definition divide (o : operands) : EM unit :=
  rd_sa_zero o ;;
  let! c := get_cpu in
  let a := s32 (GR_SV o c) in
  let b := s32 (GR_TV o c) in
  ensure (negb (b =? 0) && negb ((a =? - 2 ^ 31) && (b =? -1))) HUndefined ;;
  upd_cpu (set_lo (Z.quot a b)) ;; upd_cpu (set_hi (Z.rem a b)).

Definition divu (o : operands) : EM unit :=
  rd_sa_zero o ;;
  let! c := get_cpu in
  ensure (negb (GR_TV o c =? 0)) HUndefined ;;
  upd_cpu (set_lo (GR_SV o c / GR_TV o c)) ;; upd_cpu (set_hi (GR_SV o c mod GR_TV o c)).

Definition mfhi (o : operands) : EM unit :=
  InstAssert ((o_rs o =? 0) && (o_rt o =? 0) && (o_shamt o =? 0)) ;; assign_rd o hi.
Definition mthi (o : operands) : EM unit :=
  InstAssert ((o_rt o =? 0) && (o_rd o =? 0) && (o_shamt o =? 0)) ;;
  upd_cpu (fun c => set_hi (GR_SV o c) c).
Definition mflo (o : operands) : EM unit :=
  InstAssert ((o_rs o =? 0) && (o_rt o =? 0) && (o_shamt o =? 0)) ;; assign_rd o lo.
Definition mtlo (o : operands) : EM unit :=
  InstAssert ((o_rt o =? 0) && (o_rd o =? 0) && (o_shamt o =? 0)) ;;
  upd_cpu (fun c => set_lo (GR_SV o c) c).
End Mdu.
End Mdu.

(** ** branch.h *)
Module Branch.
Section Branch.
Context {cfg : Config}.

Definition target (o : operands) (c : CPU_state) : Z := pc c + Z.shiftl (o_simm o) 2 + 4.

(** The body of an unlikely branch: both outcomes execute the delay slot. *)
Definition branch (taken : bool) (o : operands) : EM unit :=
  upd_cpu (fun c => set_br_target (if taken then target o c else pc c + 8) c) ;;
  prepare_delayslot.

(** The body of a likely branch: not taken skips the delay slot. *)
Definition branch_likely (taken : bool) (o : operands) : EM unit :=
  if taken then
    upd_cpu (fun c => set_br_target (target o c) c) ;; prepare_delayslot
  else
    upd_cpu (fun c => set_br_target (pc c + 8) c) ;;
    upd_cpu (fun c => set_pc (pc c + 4) c).

Definition link (r : Z) : EM unit := upd_cpu (fun c => put_gpr r (pc c + 8) c).

Definition beq (o : operands) : EM unit :=
  let! c := get_cpu in branch (GR_SV o c =? GR_TV o c) o.
Definition bne (o : operands) : EM unit :=
  let! c := get_cpu in branch (negb (GR_SV o c =? GR_TV o c)) o.
Definition blez (o : operands) : EM unit :=
  InstAssert (o_rt o =? 0) ;;
  let! c := get_cpu in branch (s32 (GR_SV o c) <=? 0) o.
Definition bgtz (o : operands) : EM unit :=
  let! c := get_cpu in branch (0 <? s32 (GR_SV o c)) o.
Definition bltz (o : operands) : EM unit :=
  let! c := get_cpu in branch (s32 (GR_SV o c) <? 0) o.
Definition bgez (o : operands) : EM unit :=
  let! c := get_cpu in branch (0 <=? s32 (GR_SV o c)) o.
Definition bgezal (o : operands) : EM unit :=
  link 31 ;; let! c := get_cpu in branch (0 <=? s32 (GR_SV o c)) o.
Definition bltzal (o : operands) : EM unit :=
  link 31 ;; let! c := get_cpu in branch (s32 (GR_SV o c) <? 0) o.

Definition jump_target (o : operands) (c : CPU_state) : Z :=
  Z.lor (Z.land (pc c) 0xf0000000) (Z.shiftl (o_addr o) 2).

Definition jal (o : operands) : EM unit :=
  link 31 ;; upd_cpu (fun c => set_br_target (jump_target o c) c) ;; prepare_delayslot.
Definition jalr (o : operands) : EM unit :=
  InstAssert ((o_rt o =? 0) && (o_shamt o =? 0)) ;;
  link (o_rd o) ;;
  upd_cpu (fun c => set_br_target (GR_SV o c) c) ;; prepare_delayslot.
Definition j (o : operands) : EM unit :=
  upd_cpu (fun c => set_br_target (jump_target o c) c) ;; prepare_delayslot.
Definition jr (o : operands) : EM unit :=
  InstAssert ((o_rt o =? 0) && (o_rd o =? 0)) ;;
  upd_cpu (fun c => set_br_target (GR_SV o c) c) ;; prepare_delayslot.

Definition beql (o : operands) : EM unit :=
  let! c := get_cpu in branch_likely (GR_SV o c =? GR_TV o c) o.
Definition bnel (o : operands) : EM unit :=
  let! c := get_cpu in branch_likely (negb (GR_SV o c =? GR_TV o c)) o.
Definition blezl (o : operands) : EM unit :=
  InstAssert (o_rt o =? 0) ;;
  let! c := get_cpu in branch_likely (s32 (GR_SV o c) <=? 0) o.
Definition bgtzl (o : operands) : EM unit :=
  let! c := get_cpu in branch_likely (0 <? s32 (GR_SV o c)) o.
Definition bltzl (o : operands) : EM unit :=
  let! c := get_cpu in branch_likely (s32 (GR_SV o c) <? 0) o.
Definition bgezl (o : operands) : EM unit :=
  let! c := get_cpu in branch_likely (0 <=? s32 (GR_SV o c)) o.
Definition bgezall (o : operands) : EM unit :=
  link 31 ;; let! c := get_cpu in branch_likely (0 <=? s32 (GR_SV o c)) o.
Definition bltzall (o : operands) : EM unit :=
  link 31 ;; let! c := get_cpu in branch_likely (s32 (GR_SV o c) <? 0) o.
End Branch.
End Branch.

(** ** trap.h *)
Module Trap.
Section Trap.
Context {cfg : Config}.

Definition trap_if (cond : CPU_state -> bool) : EM unit :=
  let! c := get_cpu in when (cond c) (raise_exception EXC_TRAP).

Definition teq (o : operands) := trap_if (fun c => s32 (GR_SV o c) =? s32 (GR_TV o c)).
Definition teqi (o : operands) := trap_if (fun c => s32 (GR_SV o c) =? o_simm o).
Definition tge (o : operands) := trap_if (fun c => s32 (GR_TV o c) <=? s32 (GR_SV o c)).
Definition tgei (o : operands) := trap_if (fun c => o_simm o <=? s32 (GR_SV o c)).
Definition tgeiu (o : operands) := trap_if (fun c => u32 (o_simm o) <=? GR_SV o c).
Definition tgeu (o : operands) := trap_if (fun c => GR_TV o c <=? GR_SV o c).
Definition tlt (o : operands) := trap_if (fun c => s32 (GR_SV o c) <? s32 (GR_TV o c)).
Definition tlti (o : operands) := trap_if (fun c => s32 (GR_SV o c) <? o_simm o).
Definition tltiu (o : operands) := trap_if (fun c => GR_SV o c <? u32 (o_simm o)).
Definition tltu (o : operands) := trap_if (fun c => GR_SV o c <? GR_TV o c).
Definition tne (o : operands) :=
  trap_if (fun c => negb (s32 (GR_SV o c) =? s32 (GR_TV o c))).
Definition tnei (o : operands) := trap_if (fun c => negb (s32 (GR_SV o c) =? o_simm o)).
End Trap.
End Trap.
