(* ===== verification/ExecMem.v ===== *)
(** * Instruction handlers: loads, stores, system instructions

    src/cpu/exec/memory.h, system.h and special.h. *)
From S2P Require Import Prelude Config Reg Fifo Ram Flash Sdlkey Machine Ulite Spi Device Mmu Memory ExecAlu.
Local Open Scope nemu_scope.

(** ** memory.h *)
Module LoadStore.
Section LoadStore.
Context {cfg : Config}.

(** GR_SV + I_SI *)
Definition eff_addr (o : operands) (c : CPU_state) : Z := u32 (GR_SV o c + o_simm o).

(** A load of [len] bytes converted with [cast]; rt changes only without exception. *)
Definition load (len : Z) (cast : Z -> Z) (o : operands) : EM unit :=
  let! c := get_cpu in
  CHECK_ALIGNED_ADDR EXC_AdEL len (eff_addr o c) ;;
  let! r := vaddr_read (eff_addr o c) len in
  let! c := get_cpu in
  when (negb (has_exception c)) (assign_rt o (fun _ => cast r)).

Definition store (len : Z) (o : operands) : EM unit :=
  let! c := get_cpu in
  CHECK_ALIGNED_ADDR EXC_AdES len (eff_addr o c) ;;
  vaddr_write (eff_addr o c) len (GR_TV o c).

Definition lw := load 4 (fun r => r).
Definition lb := load 1 s8.
Definition lbu := load 1 (fun r => r).
Definition lh := load 2 s16.
Definition lhu := load 2 (fun r => r).
Definition sw := store 4.
Definition sh := store 2.
Definition sb := store 1.

(** (addr >> 2) << 2 *)
Definition word_of (addr : Z) : Z := Z.shiftl (Z.shiftr addr 2) 2.

Definition swl (o : operands) : EM unit :=
  let! c := get_cpu in
  let waddr := eff_addr o c in
  let idx := Z.land waddr 0x3 in
  let len := idx + 1 in
  let wdata := Z.shiftr (GR_TV o c) ((3 - idx) * 8) in
  vaddr_write (word_of waddr) len wdata ;;
  let! c := get_cpu in
  when (has_exception c) (upd_cpu (put_cpr CP0_BADVADDR 0 waddr)).

Definition swr (o : operands) : EM unit :=
  let! c := get_cpu in
  let waddr := eff_addr o c in
  let len := 4 - Z.land waddr 0x3 in
  vaddr_write waddr len (GR_TV o c).

(** The merges of lwl and lwr, on 32-bit values. *)
Definition lwl_val (len rdata rt : Z) : Z :=
  if len <? 4 then
    Z.lor (u32 (Z.shiftl rdata ((4 - len) * 8)))
          (Z.shiftr (u32 (Z.shiftl rt (len * 8))) (len * 8))
  else rdata.

Definition lwr_val (idx rdata rt : Z) : Z :=
  let len := 4 - idx in
  let low := Z.shiftr (u32 (Z.shiftl rdata (idx * 8))) (idx * 8) in
  if len <? 4 then
    Z.lor low (u32 (Z.shiftl (Z.shiftr rt (len * 8)) (len * 8)))
  else low.

Definition lwl (o : operands) : EM unit :=
  let! c := get_cpu in
  let raddr := eff_addr o c in
  let len := Z.land raddr 0x3 + 1 in
  let! rdata := vaddr_read (word_of raddr) len in
  let! c := get_cpu in
  if negb (has_exception c) then assign_rt o (fun c => lwl_val len rdata (GR_TV o c))
  else upd_cpu (put_cpr CP0_BADVADDR 0 raddr).

Definition lwr (o : operands) : EM unit :=
  let! c := get_cpu in
  let raddr := eff_addr o c in
  let idx := Z.land raddr 0x3 in
  let len := 4 - idx in
  let! rdata := vaddr_read raddr len in
  let! c := get_cpu in
  when (negb (has_exception c)) (assign_rt o (fun c => lwr_val idx rdata (GR_TV o c))).

Definition pref (o : operands) : EM unit := ret tt.

Definition ll (o : operands) : EM unit :=
  let! c := get_cpu in
  CHECK_ALIGNED_ADDR EXC_AdEL 4 (eff_addr o c) ;;
  let! r := vaddr_read (eff_addr o c) 4 in
  assign_rt o (fun _ => r).

Definition sc (o : operands) : EM unit :=
  let! c := get_cpu in
  CHECK_ALIGNED_ADDR EXC_AdES 4 (eff_addr o c) ;;
  vaddr_write (eff_addr o c) 4 (GR_TV o c) ;;
  let! c := get_cpu in
  when (negb (has_exception c)) (assign_rt o (fun _ => 1)).
End LoadStore.
End LoadStore.

(** ** system.h *)
Module System.
Section System.
Context {cfg : Config}.

Definition cache (o : operands) : EM unit := clear_decode_cache.
Definition sync (o : operands) : EM unit := ret tt.
Definition synci (o : operands) : EM unit := ret tt.
Definition tlbp (o : operands) : EM unit := tlb_present.

Definition tlbr (o : operands) : EM unit :=
  let! c := get_cpu in
  let i := cp0_get index_idx (cp0 c) in
  ensure (i <? NR_TLB_ENTRY) HCPUAssert ;; tlb_read i.

Definition tlbwi (o : operands) : EM unit :=
  let! c := get_cpu in
  let i := cp0_get index_idx (cp0 c) in
  ensure (i <? NR_TLB_ENTRY) HCPUAssert ;;
  tlb_write i ;; clear_mmu_cache ;; clear_decode_cache.

Definition cp0_random (c : CPU_state) : Z := cpr_get (cp0 c) CP0_RANDOM 0.

Definition tlbwr (o : operands) : EM unit :=
  (if CONFIG_MARCH_NOOP then
     let! c := get_cpu in
     tlb_write (cp0_random c) ;;
     upd_cpu (fun c => put_cpr CP0_RANDOM 0 (u32 (cp0_random c + 1) mod NR_TLB_ENTRY) c)
   else
     let! r := rand in
     upd_cpu (put_cpr CP0_RANDOM 0 (r mod NR_TLB_ENTRY)) ;;
     let! c := get_cpu in
     tlb_write (cp0_random c)) ;;
  clear_mmu_cache ;; clear_decode_cache.

Definition syscall (o : operands) : EM unit := raise_exception EXC_SYSCALL.

Definition breakpoint (o : operands) : EM unit :=
  let! m := get in
  if work_mode m =? MODE_GDB then modify (set_nemu_state NEMU_STOP)
  else raise_exception EXC_BP.

Definition wait (o : operands) : EM unit := ret tt.

Definition eret (o : operands) : EM unit :=
  upd_cpu (set_has_exception true) ;;
  let! c := get_cpu in
  (if cp0_get status_ERL (cp0 c) =? 1 then
     upd_cpu (set_br_target (cpr_get (cp0 c) CP0_ErrorEPC 0)) ;;
     upd_cpu (put_cp0 status_ERL 0)
   else
     upd_cpu (set_br_target (cpr_get (cp0 c) CP0_EPC 0)) ;;
     upd_cpu (put_cp0 status_EXL 0)) ;;
  clear_mmu_cache ;; clear_decode_cache.

Definition CPRS (reg sel : Z) : Z := Z.lor (Z.shiftl reg 3) sel.

Definition mfc0 (o : operands) : EM unit :=
  if o_rd o =? CP0_COUNT then assign_rt o (fun c => cpr_get (cp0 c) CP0_COUNT 0)
  else assign_rt o (fun c => cpr_get (cp0 c) (o_rd o) (o_sel o)).

(** cpu.cp0.f = newVal->f *)
Definition copy_field (v : Z) (f : cp0_field) : EM unit :=
  upd_cpu (put_cp0 f (bf_get (c_fld f) v)).

Definition mtc0_status (v : Z) : EM unit :=
  let! c := get_cpu in
  when (negb (cp0_get status_ERL (cp0 c) =? bf_get (c_fld status_ERL) v))
    (clear_decode_cache ;; clear_mmu_cache) ;;
  upd_cpu (put_cp0 status_CU (Z.land (bf_get (c_fld status_CU) v) 0x3)) ;;
  copy_field v status_RP ;; copy_field v status_RE ;; copy_field v status_BEV ;;
  copy_field v status_TS ;; copy_field v status_SR ;; copy_field v status_NMI ;;
  copy_field v status_IM ;; copy_field v status_UM ;; copy_field v status_ERL ;;
  copy_field v status_EXL ;; copy_field v status_IE.

Definition mtc0_entry_lo (r v : Z) : EM unit :=
  copy_field v (entry_lo_g r) ;; copy_field v (entry_lo_v r) ;;
  copy_field v (entry_lo_d r) ;; copy_field v (entry_lo_c r) ;;
  copy_field v (entry_lo_pfn r).

Definition mtc0_cause (v : Z) : EM unit :=
  copy_field v cause_IV ;; copy_field v cause_WP ;;
  let ip := bf_get (c_fld cause_IP) v in
  nemu_set_irq 0 (negb (Z.land ip (Z.shiftl 1 0) =? 0)) ;;
  nemu_set_irq 1 (negb (Z.land ip (Z.shiftl 1 1) =? 0)).

Definition mtc0 (o : operands) : EM unit :=
  let! c := get_cpu in
  let v := GR_TV o c in
  let r := CPRS (o_rd o) (o_sel o) in
  if (r =? CPRS CP0_EBASE CP0_EBASE_SEL) || (r =? CPRS CP0_COUNT 0) ||
     (r =? CPRS CP0_EPC 0) then upd_cpu (put_cpr (o_rd o) (o_sel o) v)
  else if r =? CPRS CP0_BADVADDR 0 then ret tt
  else if r =? CPRS CP0_CONTEXT 0 then copy_field v context_PTEBase
  else if r =? CPRS CP0_CONFIG 0 then copy_field v config_K0
  else if r =? CPRS CP0_STATUS 0 then mtc0_status v
  else if r =? CPRS CP0_COMPARE 0 then
    upd_cpu (put_cpr CP0_COMPARE 0 v) ;; nemu_set_irq 7 false
  else if r =? CPRS CP0_CAUSE 0 then mtc0_cause v
  else if r =? CPRS CP0_PAGEMASK 0 then copy_field v pagemask_mask
  else if r =? CPRS CP0_ENTRY_LO0 0 then mtc0_entry_lo CP0_ENTRY_LO0 v
  else if r =? CPRS CP0_ENTRY_LO1 0 then mtc0_entry_lo CP0_ENTRY_LO1 v
  else if r =? CPRS CP0_ENTRY_HI 0 then
    copy_field v entry_hi_asid ;; copy_field v entry_hi_vpn ;;
    clear_mmu_cache ;; clear_decode_cache
  else if r =? CPRS CP0_INDEX 0 then upd_cpu (put_cp0 index_idx v)
  else if r =? CPRS CP0_RESERVED CP0_RESERVED_SERIAL then
    when CONFIG_KERNEL_DEBUG_SERIAL (putchar v)
  else if r =? CPRS CP0_RESERVED CP0_RESERVED_HIT_TRAP then stop HExit
  else ret tt.
End System.
End System.

(** ** special.h *)
Module Special.
Section Special.
Context {cfg : Config}.

Definition should_not_reach_here (o : operands) : EM unit := stop HPanic.
Definition exec_special := should_not_reach_here.
Definition exec_special2 := should_not_reach_here.
Definition exec_special3 := should_not_reach_here.
Definition exec_bshfl := should_not_reach_here.
Definition exec_regimm := should_not_reach_here.
Definition exec_cop0 := should_not_reach_here.
Definition exec_cop1 := should_not_reach_here.

Definition inv (o : operands) : EM unit :=
  if CONFIG_EXCEPTION then raise_exception EXC_RI
  else
    let! c := get_cpu in
    let! _ := vaddr_read (pc c) 4 in
    modify (set_nemu_state NEMU_END).
End Special.
End Special.
