(* ===== verification/Softfloat.v ===== *)
(** * Software floating point (src/utils/softfloat.c, include/softfloat)

    The single and double precision operations that the floating-point handlers
    call.  A float32 or float64 is its bit pattern.  Exception flags are not
    modelled: every caller passes a status object on its stack and drops it.  The
    code for the two widths is the same up to constants where a definition takes a
    [fmt]; multiplication, division and square root differ.  TARGET_MIPS is not
    defined by the build, so the NaN rules are those of the default branches of
    softfloat-specialize.h. *)
From S2P Require Import Prelude.

(** ** float_status (softfloat.h) *)
Inductive round_mode : Type :=
| float_round_nearest_even | float_round_down | float_round_up
| float_round_to_zero | float_round_ties_away.
#[global] Instance round_mode_eq_dec : EqDecision round_mode.
Proof. solve_decision. Defined.

Record float_status := mkStatus {
  float_rounding_mode : round_mode;
  flush_to_zero : bool;
  flush_inputs_to_zero : bool;
  default_nan_mode : bool
}.

(** float_status status = {} *)
Definition status_zero : float_status :=
  mkStatus float_round_nearest_even false false false.

(** ** Formats: width, fraction bits, largest exponent, bits below the fraction in
    the significand given to roundAndPack, default NaN *)
Record fmt := mkFmt {
  fw : Z; ffrac : Z; fexpmax : Z; fextra : Z; fdefault_nan : Z
}.
Definition F32 : fmt := mkFmt 32 23 0xFF 7 0xFFC00000.
Definition F64 : fmt := mkFmt 64 52 0x7FF 10 0xFFF8000000000000.

(** ** softfloat-macros.h *)
Definition shiftRightJamming (w a count : Z) : Z :=
  if count =? 0 then a
  else if count <? w then
    Z.lor (Z.shiftr a count)
      (b2z (negb (uw w (Z.shiftl a (Z.land (- count) (w - 1))) =? 0)))
  else b2z (negb (a =? 0)).
Definition shift32RightJamming := shiftRightJamming 32.
Definition shift64RightJamming := shiftRightJamming 64.

Definition countLeadingZeros (w a : Z) : Z := if a =? 0 then w else w - 1 - Z.log2 a.
Definition countLeadingZeros32 := countLeadingZeros 32.
Definition countLeadingZeros64 := countLeadingZeros 64.

Definition add128 (a0 a1 b0 b1 : Z) : Z * Z :=
  let z1 := u64 (a1 + b1) in (u64 (a0 + b0 + b2z (z1 <? a1)), z1).
Definition sub128 (a0 a1 b0 b1 : Z) : Z * Z :=
  (u64 (a0 - b0 - b2z (a1 <? b1)), u64 (a1 - b1)).

Definition mul64To128 (a b : Z) : Z * Z :=
  let aLow := u32 a in
  let aHigh := u32 (Z.shiftr a 32) in
  let bLow := u32 b in
  let bHigh := u32 (Z.shiftr b 32) in
  let z1 := u64 (aLow * bLow) in
  let zMiddleA := u64 (aLow * bHigh) in
  let zMiddleB := u64 (aHigh * bLow) in
  let z0 := u64 (aHigh * bHigh) in
  let zMiddleA := u64 (zMiddleA + zMiddleB) in
  let z0 := u64 (z0 + (Z.shiftl (b2z (zMiddleA <? zMiddleB)) 32 + Z.shiftr zMiddleA 32)) in
  let zMiddleA := u64 (Z.shiftl zMiddleA 32) in
  let z1 := u64 (z1 + zMiddleA) in
  let z0 := u64 (z0 + b2z (z1 <? zMiddleA)) in
  (z0, z1).

Definition neg64 (x : Z) : bool := 2 ^ 63 <=? x.

(** while ((int64_t) rem0 < 0) { z -= 2^32; rem += b * 2^32 } *)
Fixpoint estimateDiv_loop (fuel : nat) (b b0 z rem0 rem1 : Z) : option (Z * Z * Z) :=
  if neg64 rem0 then
    match fuel with
    | O => None
    | S fuel =>
        let r := add128 rem0 rem1 b0 (u64 (Z.shiftl b 32)) in
        estimateDiv_loop fuel b b0 (u64 (z - 0x100000000)) (fst r) (snd r)
    end
  else Some (z, rem0, rem1).

Definition loop_fuel : nat := 8.

Definition estimateDiv128To64 (a0 a1 b : Z) : option Z :=
  if b <=? a0 then Some 0xFFFFFFFFFFFFFFFF
  else
    let b0 := Z.shiftr b 32 in
    let z := if u64 (Z.shiftl b0 32) <=? a0 then 0xFFFFFFFF00000000
             else u64 (Z.shiftl (a0 / b0) 32) in
    let t := mul64To128 b z in
    let r := sub128 a0 a1 (fst t) (snd t) in
    match estimateDiv_loop loop_fuel b b0 z (fst r) (snd r) with
    | None => None
    | Some (z, rem0, rem1) =>
        let rem0 := Z.lor (u64 (Z.shiftl rem0 32)) (Z.shiftr rem1 32) in
        Some (Z.lor z (if u64 (Z.shiftl b0 32) <=? rem0 then 0xFFFFFFFF else rem0 / b0))
    end.

Definition sqrtOddAdjustments : list Z :=
  [0x0004; 0x0022; 0x005D; 0x00B1; 0x011D; 0x019F; 0x0236; 0x02E0;
   0x039C; 0x0468; 0x0545; 0x0631; 0x072B; 0x0832; 0x0946; 0x0A67].
Definition sqrtEvenAdjustments : list Z :=
  [0x0A2D; 0x08AF; 0x075A; 0x0629; 0x051A; 0x0429; 0x0356; 0x029E;
   0x0200; 0x0179; 0x0109; 0x00AF; 0x0068; 0x0034; 0x0012; 0x0002].

Definition estimateSqrt32 (aExp a : Z) : Z :=
  let index := Z.land (Z.shiftr a 27) 15 in
  if negb (Z.land aExp 1 =? 0) then
    let z := u32 (0x4000 + Z.shiftr a 17 - arr_get sqrtOddAdjustments index) in
    let z := u32 (u32 (Z.shiftl (a / z) 14) + u32 (Z.shiftl z 15)) in
    let a := Z.shiftr a 1 in
    u32 (u32 (u64 (Z.shiftl a 31) / z) + Z.shiftr z 1)
  else
    let z := u32 (0x8000 + Z.shiftr a 17 - arr_get sqrtEvenAdjustments index) in
    let z := u32 (a / z + z) in
    let z := if 0x20000 <=? z then 0xFFFF8000 else u32 (Z.shiftl z 15) in
    if z <=? a then u32 (Z.shiftr (s32 a) 1)
    else u32 (u32 (u64 (Z.shiftl a 31) / z) + Z.shiftr z 1).

Section Softfloat.
Context (status : float_status).

(** ** Fields and packing *)
Section Format.
Context (f : fmt).

Definition extractFrac (a : Z) : Z := Z.land a (Z.ones (ffrac f)).
Definition extractExp (a : Z) : Z := Z.land (Z.shiftr a (ffrac f)) (fexpmax f).
Definition extractSign (a : Z) : Z := Z.shiftr a (fw f - 1).
Definition packFloat (zSign zExp zSig : Z) : Z :=
  uw (fw f) (Z.shiftl zSign (fw f - 1) + uw (fw f) (Z.shiftl zExp (ffrac f)) + uw (fw f) zSig).

Definition squash_input_denormal (a : Z) : Z :=
  if flush_inputs_to_zero status && (extractExp a =? 0) && negb (extractFrac a =? 0)
  then Z.land a (Z.shiftl 1 (fw f - 1)) else a.

Definition normalizeSubnormal (aSig : Z) : Z * Z :=
  let shiftCount := countLeadingZeros (fw f) aSig - (fw f - ffrac f - 1) in
  (1 - shiftCount, uw (fw f) (Z.shiftl aSig shiftCount)).

(** ** NaNs (softfloat-specialize.h) *)
Definition is_quiet_nan (a : Z) : bool :=
  uw (fw f) (Z.shiftl (fexpmax f) (ffrac f + 1) + Z.shiftl 1 (ffrac f)) <=?
  uw (fw f) (Z.shiftl a 1).
Definition is_signaling_nan (a : Z) : bool :=
  (Z.land (Z.shiftr a (ffrac f - 1)) (2 * fexpmax f + 1) =? 2 * fexpmax f) &&
  negb (Z.land a (Z.ones (ffrac f - 1)) =? 0).
Definition maybe_silence_nan (a : Z) : Z :=
  if is_signaling_nan a then Z.lor a (Z.shiftl 1 (ffrac f - 1)) else a.

Definition pickNaN (aIsQNaN aIsSNaN bIsQNaN bIsSNaN aIsLarger : bool) : bool :=
  if aIsSNaN then
    if bIsSNaN then negb aIsLarger else bIsQNaN
  else if aIsQNaN then
    if bIsSNaN || negb bIsQNaN then false else negb aIsLarger
  else true.

Definition propagateNaN (a b : Z) : Z :=
  if default_nan_mode status then fdefault_nan f
  else
    let a2 := uw (fw f) (Z.shiftl a 1) in
    let b2 := uw (fw f) (Z.shiftl b 1) in
    let larger := if a2 <? b2 then false else if b2 <? a2 then true else a <? b in
    if pickNaN (is_quiet_nan a) (is_signaling_nan a) (is_quiet_nan b) (is_signaling_nan b)
         larger
    then maybe_silence_nan b else maybe_silence_nan a.

(** ** Rounding *)
Definition roundIncrement (bits zSign : Z) : Z :=
  match float_rounding_mode status with
  | float_round_nearest_even | float_round_ties_away => Z.shiftl 1 (bits - 1)
  | float_round_to_zero => 0
  | float_round_up => if zSign =? 0 then Z.ones bits else 0
  | float_round_down => if zSign =? 0 then 0 else Z.ones bits
  end.

Definition is_nearest_even : bool :=
  bool_decide (float_rounding_mode status = float_round_nearest_even).

(** (sig + inc) >> bits, with the last bit cleared on a tie in nearest-even mode *)
Definition round_shift (w bits inc sig : Z) : Z :=
  let roundBits := Z.land sig (Z.ones bits) in
  let z := Z.shiftr (uw w (sig + inc)) bits in
  Z.land z (Z.lnot (b2z ((Z.lxor roundBits (Z.shiftl 1 (bits - 1)) =? 0) && is_nearest_even))).

Definition roundAndPackFloat (zSign zExp zSig : Z) : Z :=
  let inc := roundIncrement (fextra f) zSign in
  let finish zExp zSig :=
    let zSig := round_shift (fw f) (fextra f) inc zSig in
    packFloat zSign (if zSig =? 0 then 0 else zExp) zSig in
  if fexpmax f - 2 <=? u16 zExp then
    if (fexpmax f - 2 <? zExp) ||
       ((zExp =? fexpmax f - 2) && (2 ^ (fw f - 1) <=? uw (fw f) (zSig + inc)))
    then packFloat zSign (fexpmax f) (- b2z (inc =? 0))
    else if zExp <? 0 then
      if flush_to_zero status then packFloat zSign 0 0
      else finish 0 (shiftRightJamming (fw f) zSig (- zExp))
    else finish zExp zSig
  else finish zExp zSig.

Definition normalizeRoundAndPackFloat (zSign zExp zSig : Z) : Z :=
  let shiftCount := countLeadingZeros (fw f) zSig - 1 in
  roundAndPackFloat zSign (zExp - shiftCount) (uw (fw f) (Z.shiftl zSig shiftCount)).

(** ** Addition and subtraction *)
Definition addFloatSigs (a b zSign : Z) : Z :=
  let aExp := extractExp a in
  let bExp := extractExp b in
  let expDiff := aExp - bExp in
  let sh := fextra f - 1 in
  let hidden := Z.shiftl 1 (ffrac f + sh) in
  let aSig := uw (fw f) (Z.shiftl (extractFrac a) sh) in
  let bSig := uw (fw f) (Z.shiftl (extractFrac b) sh) in
  let add_up zExp aSig bSig :=
    let aSig := Z.lor aSig hidden in
    let zSig := uw (fw f) (Z.shiftl (uw (fw f) (aSig + bSig)) 1) in
    if 2 ^ (fw f - 1) <=? zSig
    then roundAndPackFloat zSign zExp (uw (fw f) (aSig + bSig))
    else roundAndPackFloat zSign (zExp - 1) zSig in
  if 0 <? expDiff then
    if aExp =? fexpmax f then
      if aSig =? 0 then a else propagateNaN a b
    else
      let '(expDiff, bSig) :=
        if bExp =? 0 then (expDiff - 1, bSig) else (expDiff, Z.lor bSig hidden) in
      add_up aExp aSig (shiftRightJamming (fw f) bSig expDiff)
  else if expDiff <? 0 then
    if bExp =? fexpmax f then
      if bSig =? 0 then packFloat zSign (fexpmax f) 0 else propagateNaN a b
    else
      let '(expDiff, aSig) :=
        if aExp =? 0 then (expDiff + 1, aSig) else (expDiff, Z.lor aSig hidden) in
      add_up bExp (shiftRightJamming (fw f) aSig (- expDiff)) bSig
  else if aExp =? fexpmax f then
    if Z.lor aSig bSig =? 0 then a else propagateNaN a b
  else if aExp =? 0 then
    if flush_to_zero status then packFloat zSign 0 0
    else packFloat zSign 0 (Z.shiftr (uw (fw f) (aSig + bSig)) sh)
  else roundAndPackFloat zSign aExp
         (uw (fw f) (Z.shiftl 1 (fw f - 2) + aSig + bSig)).

Definition subFloatSigs (a b zSign : Z) : Z :=
  let aExp := extractExp a in
  let bExp := extractExp b in
  let expDiff := aExp - bExp in
  let sh := fextra f in
  let hidden := Z.shiftl 1 (ffrac f + sh) in
  let aSig := uw (fw f) (Z.shiftl (extractFrac a) sh) in
  let bSig := uw (fw f) (Z.shiftl (extractFrac b) sh) in
  let aBigger aExp aSig bSig :=
    normalizeRoundAndPackFloat zSign (aExp - 1) (uw (fw f) (aSig - bSig)) in
  let bBigger bExp aSig bSig :=
    normalizeRoundAndPackFloat (Z.lxor zSign 1) (bExp - 1) (uw (fw f) (bSig - aSig)) in
  if 0 <? expDiff then
    if aExp =? fexpmax f then
      if aSig =? 0 then a else propagateNaN a b
    else
      let '(expDiff, bSig) :=
        if bExp =? 0 then (expDiff - 1, bSig) else (expDiff, Z.lor bSig hidden) in
      aBigger aExp (Z.lor aSig hidden) (shiftRightJamming (fw f) bSig expDiff)
  else if expDiff <? 0 then
    if bExp =? fexpmax f then
      if bSig =? 0 then packFloat (Z.lxor zSign 1) (fexpmax f) 0 else propagateNaN a b
    else
      let '(expDiff, aSig) :=
        if aExp =? 0 then (expDiff + 1, aSig) else (expDiff, Z.lor aSig hidden) in
      bBigger bExp (shiftRightJamming (fw f) aSig (- expDiff)) (Z.lor bSig hidden)
  else if aExp =? fexpmax f then
    if Z.lor aSig bSig =? 0 then fdefault_nan f else propagateNaN a b
  else
    let aExp := if aExp =? 0 then 1 else aExp in
    if bSig <? aSig then aBigger aExp aSig bSig
    else if aSig <? bSig then bBigger aExp aSig bSig
    else packFloat (b2z (bool_decide (float_rounding_mode status = float_round_down))) 0 0.

Definition float_add (a b : Z) : Z :=
  let a := squash_input_denormal a in
  let b := squash_input_denormal b in
  if extractSign a =? extractSign b then addFloatSigs a b (extractSign a)
  else subFloatSigs a b (extractSign a).

Definition float_sub (a b : Z) : Z :=
  let a := squash_input_denormal a in
  let b := squash_input_denormal b in
  if extractSign a =? extractSign b then subFloatSigs a b (extractSign a)
  else addFloatSigs a b (extractSign a).

(** The special operands of multiplication and division; [k] gets the exponents
    and normalised significands of two finite nonzero operands. *)
Definition hidden_bit : Z := Z.shiftl 1 (ffrac f).

Definition norm_operand (e sig : Z) : Z * Z :=
  if e =? 0 then normalizeSubnormal sig else (e, sig).

Definition mul_cases (a b : Z) (k : Z -> Z -> Z -> Z -> Z -> option Z) : option Z :=
  let aSig := extractFrac a in
  let aExp := extractExp a in
  let bSig := extractFrac b in
  let bExp := extractExp b in
  let zSign := Z.lxor (extractSign a) (extractSign b) in
  if aExp =? fexpmax f then
    if negb (aSig =? 0) || ((bExp =? fexpmax f) && negb (bSig =? 0)) then Some (propagateNaN a b)
    else if Z.lor bExp bSig =? 0 then Some (fdefault_nan f)
    else Some (packFloat zSign (fexpmax f) 0)
  else if bExp =? fexpmax f then
    if negb (bSig =? 0) then Some (propagateNaN a b)
    else if Z.lor aExp aSig =? 0 then Some (fdefault_nan f)
    else Some (packFloat zSign (fexpmax f) 0)
  else if (aExp =? 0) && (aSig =? 0) then Some (packFloat zSign 0 0)
  else if (bExp =? 0) && (bSig =? 0) then Some (packFloat zSign 0 0)
  else
    let '(aExp, aSig) := norm_operand aExp aSig in
    let '(bExp, bSig) := norm_operand bExp bSig in
    k zSign aExp aSig bExp bSig.

Definition div_cases (a b : Z) (k : Z -> Z -> Z -> Z -> Z -> option Z) : option Z :=
  let aSig := extractFrac a in
  let aExp := extractExp a in
  let bSig := extractFrac b in
  let bExp := extractExp b in
  let zSign := Z.lxor (extractSign a) (extractSign b) in
  if aExp =? fexpmax f then
    if negb (aSig =? 0) then Some (propagateNaN a b)
    else if bExp =? fexpmax f then
      if negb (bSig =? 0) then Some (propagateNaN a b) else Some (fdefault_nan f)
    else Some (packFloat zSign (fexpmax f) 0)
  else if bExp =? fexpmax f then
    if negb (bSig =? 0) then Some (propagateNaN a b) else Some (packFloat zSign 0 0)
  else if (bExp =? 0) && (bSig =? 0) then
    if Z.lor aExp aSig =? 0 then Some (fdefault_nan f)
    else Some (packFloat zSign (fexpmax f) 0)
  else if (aExp =? 0) && (aSig =? 0) then Some (packFloat zSign 0 0)
  else
    let '(bExp, bSig) := norm_operand bExp bSig in
    let '(aExp, aSig) := norm_operand aExp aSig in
    k zSign aExp aSig bExp bSig.

(** [nan2] is the second argument the code passes to propagateNaN. *)
Definition sqrt_cases (a nan2 : Z) (k : Z -> Z -> option Z) : option Z :=
  let aSig := extractFrac a in
  let aExp := extractExp a in
  if aExp =? fexpmax f then
    if negb (aSig =? 0) then Some (propagateNaN a nan2)
    else if extractSign a =? 0 then Some a else Some (fdefault_nan f)
  else if negb (extractSign a =? 0) then
    if Z.lor aExp aSig =? 0 then Some a else Some (fdefault_nan f)
  else if (aExp =? 0) && (aSig =? 0) then Some 0
  else let '(aExp, aSig) := norm_operand aExp aSig in k aExp aSig.
End Format.

Definition roundAndPackFloat32 := roundAndPackFloat F32.
Definition roundAndPackFloat64 := roundAndPackFloat F64.
Definition addFloat32Sigs := addFloatSigs F32.
Definition addFloat64Sigs := addFloatSigs F64.
Definition subFloat32Sigs := subFloatSigs F32.
Definition subFloat64Sigs := subFloatSigs F64.
Definition float32_add := float_add F32.
Definition float64_add := float_add F64.
Definition float32_sub := float_sub F32.
Definition float64_sub := float_sub F64.

(** ** Single precision multiplication, division and square root *)
Definition float32_mul (a b : Z) : option Z :=
  mul_cases F32 (squash_input_denormal F32 a) (squash_input_denormal F32 b)
    (fun zSign aExp aSig bExp bSig =>
      let zExp := aExp + bExp - 0x7F in
      let aSig := u32 (Z.shiftl (Z.lor aSig 0x00800000) 7) in
      let bSig := u32 (Z.shiftl (Z.lor bSig 0x00800000) 8) in
      let zSig := u32 (shift64RightJamming (u64 (aSig * bSig)) 32) in
      Some (if 2 ^ 31 <=? u32 (Z.shiftl zSig 1)
            then roundAndPackFloat32 zSign zExp zSig
            else roundAndPackFloat32 zSign (zExp - 1) (u32 (Z.shiftl zSig 1)))).

Definition float32_div (a b : Z) : option Z :=
  div_cases F32 (squash_input_denormal F32 a) (squash_input_denormal F32 b)
    (fun zSign aExp aSig bExp bSig =>
      let zExp := aExp - bExp + 0x7D in
      let aSig := u32 (Z.shiftl (Z.lor aSig 0x00800000) 7) in
      let bSig := u32 (Z.shiftl (Z.lor bSig 0x00800000) 8) in
      let '(aSig, zExp) :=
        if bSig <=? u32 (aSig + aSig) then (Z.shiftr aSig 1, zExp + 1) else (aSig, zExp) in
      let zSig := u32 (u64 (Z.shiftl aSig 32) / bSig) in
      let zSig :=
        if Z.land zSig 0x3F =? 0
        then Z.lor zSig (b2z (negb (u64 (bSig * zSig) =? u64 (Z.shiftl aSig 32))))
        else zSig in
      Some (roundAndPackFloat32 zSign zExp zSig)).

(** while ((int64_t) rem < 0) { --zSig; rem += (zSig << 1) | 1; } *)
Fixpoint sqrt32_loop (fuel : nat) (zSig rem : Z) : option (Z * Z) :=
  if neg64 rem then
    match fuel with
    | O => None
    | S fuel =>
        let zSig := u32 (zSig - 1) in
        sqrt32_loop fuel zSig (u64 (rem + Z.lor (u64 (Z.shiftl zSig 1)) 1))
    end
  else Some (zSig, rem).

Definition float32_sqrt (a : Z) : option Z :=
  sqrt_cases F32 (squash_input_denormal F32 a) 0
    (fun aExp aSig =>
      let zExp := Z.shiftr (aExp - 0x7F) 1 + 0x7E in
      let aSig := u32 (Z.shiftl (Z.lor aSig 0x00800000) 8) in
      let zSig := u32 (estimateSqrt32 aExp aSig + 2) in
      if Z.land zSig 0x7F <=? 5 then
        if zSig <? 2 then Some (roundAndPackFloat32 0 zExp 0x7FFFFFFF)
        else
          let aSig := Z.shiftr aSig (Z.land aExp 1) in
          let term := u64 (zSig * zSig) in
          match sqrt32_loop loop_fuel zSig (u64 (u64 (Z.shiftl aSig 32) - term)) with
          | None => None
          | Some (zSig, rem) =>
              let zSig := Z.lor zSig (b2z (negb (rem =? 0))) in
              Some (roundAndPackFloat32 0 zExp (shift32RightJamming zSig 1))
          end
      else Some (roundAndPackFloat32 0 zExp (shift32RightJamming zSig 1))).

(** ** Double precision *)
Definition float64_mul (a b : Z) : option Z :=
  mul_cases F64 (squash_input_denormal F64 a) (squash_input_denormal F64 b)
    (fun zSign aExp aSig bExp bSig =>
      let zExp := aExp + bExp - 0x3FF in
      let aSig := u64 (Z.shiftl (Z.lor aSig 0x0010000000000000) 10) in
      let bSig := u64 (Z.shiftl (Z.lor bSig 0x0010000000000000) 11) in
      let '(zSig0, zSig1) := mul64To128 aSig bSig in
      let zSig0 := Z.lor zSig0 (b2z (negb (zSig1 =? 0))) in
      Some (if neg64 (u64 (Z.shiftl zSig0 1))
            then roundAndPackFloat64 zSign zExp zSig0
            else roundAndPackFloat64 zSign (zExp - 1) (u64 (Z.shiftl zSig0 1)))).

(** while ((int64_t) rem0 < 0) { --zSig; add128(rem0, rem1, 0, bSig, ...); } *)
Fixpoint div64_loop (fuel : nat) (bSig zSig rem0 rem1 : Z) : option (Z * Z) :=
  if neg64 rem0 then
    match fuel with
    | O => None
    | S fuel =>
        let r := add128 rem0 rem1 0 bSig in
        div64_loop fuel bSig (u64 (zSig - 1)) (fst r) (snd r)
    end
  else Some (zSig, rem1).

Definition float64_div (a b : Z) : option Z :=
  div_cases F64 (squash_input_denormal F64 a) (squash_input_denormal F64 b)
    (fun zSign aExp aSig bExp bSig =>
      let zExp := aExp - bExp + 0x3FD in
      let aSig := u64 (Z.shiftl (Z.lor aSig 0x0010000000000000) 10) in
      let bSig := u64 (Z.shiftl (Z.lor bSig 0x0010000000000000) 11) in
      let '(aSig, zExp) :=
        if bSig <=? u64 (aSig + aSig) then (Z.shiftr aSig 1, zExp + 1) else (aSig, zExp) in
      match estimateDiv128To64 aSig 0 bSig with
      | None => None
      | Some zSig =>
          if Z.land zSig 0x1FF <=? 2 then
            let t := mul64To128 bSig zSig in
            let r := sub128 aSig 0 (fst t) (snd t) in
            match div64_loop loop_fuel bSig zSig (fst r) (snd r) with
            | None => None
            | Some (zSig, rem1) =>
                Some (roundAndPackFloat64 zSign zExp (Z.lor zSig (b2z (negb (rem1 =? 0)))))
            end
          else Some (roundAndPackFloat64 zSign zExp zSig)
      end).

(** while ((int64_t) rem0 < 0) { --zSig; doubleZSig -= 2; rem += ... } *)
Fixpoint sqrt64_loop (fuel : nat) (zSig doubleZSig rem0 rem1 : Z) : option (Z * Z * Z) :=
  if neg64 rem0 then
    match fuel with
    | O => None
    | S fuel =>
        let zSig := u64 (zSig - 1) in
        let doubleZSig := u64 (doubleZSig - 2) in
        let r := add128 rem0 rem1 (Z.shiftr zSig 63) (Z.lor doubleZSig 1) in
        sqrt64_loop fuel zSig doubleZSig (fst r) (snd r)
    end
  else Some (zSig, rem0, rem1).

Definition float64_sqrt (a : Z) : option Z :=
  let a := squash_input_denormal F64 a in
  sqrt_cases F64 a a
    (fun aExp aSig =>
      let zExp := Z.shiftr (aExp - 0x3FF) 1 + 0x3FE in
      let aSig := Z.lor aSig 0x0010000000000000 in
      let zSig := estimateSqrt32 aExp (u32 (Z.shiftr aSig 21)) in
      let aSig := u64 (Z.shiftl aSig (9 - Z.land aExp 1)) in
      match estimateDiv128To64 aSig 0 (u64 (Z.shiftl zSig 32)) with
      | None => None
      | Some q =>
          let zSig := u64 (q + u64 (Z.shiftl zSig 30)) in
          if Z.land zSig 0x1FF <=? 5 then
            let t := mul64To128 zSig zSig in
            let r := sub128 aSig 0 (fst t) (snd t) in
            match sqrt64_loop loop_fuel zSig (u64 (Z.shiftl zSig 1)) (fst r) (snd r) with
            | None => None
            | Some (zSig, rem0, rem1) =>
                Some (roundAndPackFloat64 0 zExp
                        (Z.lor zSig (b2z (negb (Z.lor rem0 rem1 =? 0)))))
            end
          else Some (roundAndPackFloat64 0 zExp zSig)
      end).

(** ** Conversion to int32 *)
Definition roundAndPackInt32 (zSign absZ : Z) : Z :=
  let absZ := round_shift 64 7 (roundIncrement 7 zSign) absZ in
  let z := s32 absZ in
  let z := if zSign =? 0 then z else s32 (- z) in
  if negb (Z.shiftr absZ 32 =? 0) ||
     (negb (z =? 0) && xorb (z <? 0) (negb (zSign =? 0)))
  then if zSign =? 0 then 0x7FFFFFFF else - 2 ^ 31
  else z.

Definition float32_to_int32 (a : Z) : Z :=
  let a := squash_input_denormal F32 a in
  let aSig := extractFrac F32 a in
  let aExp := extractExp F32 a in
  let aSign := if (aExp =? 0xFF) && negb (aSig =? 0) then 0 else extractSign F32 a in
  let aSig := if aExp =? 0 then aSig else Z.lor aSig 0x00800000 in
  let shiftCount := 0xAF - aExp in
  let aSig64 := u64 (Z.shiftl aSig 32) in
  roundAndPackInt32 aSign
    (if 0 <? shiftCount then shift64RightJamming aSig64 shiftCount else aSig64).

Definition float64_to_int32 (a : Z) : Z :=
  let a := squash_input_denormal F64 a in
  let aSig := extractFrac F64 a in
  let aExp := extractExp F64 a in
  let aSign := if (aExp =? 0x7FF) && negb (aSig =? 0) then 0 else extractSign F64 a in
  let aSig := if aExp =? 0 then aSig else Z.lor aSig 0x0010000000000000 in
  let shiftCount := 0x42C - aExp in
  roundAndPackInt32 aSign
    (if 0 <? shiftCount then shift64RightJamming aSig shiftCount else aSig).

(** softfloat.h: clear the sign *)
Definition float32_abs (a : Z) : Z := Z.land a 0x7fffffff.
Definition float64_abs (a : Z) : Z := Z.land a 0x7fffffffffffffff.
End Softfloat.
