(* ===== verification/ExecFloat.v ===== *)
(** * Instruction handlers: floating point (src/cpu/exec/float.h)

    Arithmetic goes through the softfloat model with a zero-initialised status.
    Conversions and comparisons that the code does with the C types float and
    double are those of an IEEE-754 host: round to nearest even, NaN payloads as on
    x86-64; converting a NaN or an out-of-range value to int32_t is undefined. *)
From S2P Require Import Prelude Config Reg Fifo Ram Flash Sdlkey Machine Ulite Spi Device Mmu Memory.
From S2P Require Import ExecAlu ExecMdu ExecMem Softfloat.
Local Open Scope nemu_scope.

(** ** C arithmetic on float and double bit patterns *)
Definition is_nan (f : fmt) (a : Z) : bool :=
  (extractExp f a =? fexpmax f) && negb (extractFrac f a =? 0).

(** The magnitude with its sign: the order of the finite and infinite values. *)
Definition order_key (f : fmt) (a : Z) : Z :=
  let mag := Z.land a (Z.ones (fw f - 1)) in
  if extractSign f a =? 0 then mag else - mag.

Definition c_eq (f : fmt) (a b : Z) : bool :=
  negb (is_nan f a) && negb (is_nan f b) && (order_key f a =? order_key f b).
Definition c_lt (f : fmt) (a b : Z) : bool :=
  negb (is_nan f a) && negb (is_nan f b) && (order_key f a <? order_key f b).
Definition c_le (f : fmt) (a b : Z) : bool :=
  negb (is_nan f a) && negb (is_nan f b) && (order_key f a <=? order_key f b).

(** (double) x for a float x *)
Definition host_f32_to_f64 (a : Z) : Z :=
  let e := extractExp F32 a in
  let s := extractFrac F32 a in
  let sign := extractSign F32 a in
  if e =? 0xFF then
    if s =? 0 then packFloat F64 sign 0x7FF 0
    else packFloat F64 sign 0x7FF (Z.lor (Z.shiftl 1 51) (Z.shiftl s 29))
  else if e =? 0 then
    if s =? 0 then packFloat F64 sign 0 0
    else let '(e, s) := normalizeSubnormal F32 s in
         packFloat F64 sign (e - 1 + 0x380) (Z.shiftl s 29)
  else packFloat F64 sign (e + 0x380) (Z.shiftl s 29).

(** (float) x for a double x *)
Definition host_f64_to_f32 (a : Z) : Z :=
  let e := extractExp F64 a in
  let s := extractFrac F64 a in
  let sign := extractSign F64 a in
  if e =? 0x7FF then
    if s =? 0 then packFloat F32 sign 0xFF 0
    else packFloat F32 sign 0xFF (Z.lor (Z.shiftl 1 22) (Z.shiftr s 29))
  else
    let sig := shift64RightJamming s 22 in
    if (e =? 0) && (sig =? 0) then packFloat F32 sign 0 0
    else roundAndPackFloat32 status_zero sign (e - 0x381)
           (if e =? 0 then sig else Z.lor sig 0x40000000).

(** (float) i and (double) i for an int32_t i *)
Definition host_i32_to_f32 (i : Z) : Z :=
  let sign := b2z (i <? 0) in
  let a := Z.abs i in
  if a =? 0 then 0
  else if a =? 2 ^ 31 then packFloat F32 sign 0x9E 0
  else normalizeRoundAndPackFloat status_zero F32 sign 0x9C a.
Definition host_i32_to_f64 (i : Z) : Z :=
  let sign := b2z (i <? 0) in
  let a := Z.abs i in
  if a =? 0 then 0
  else
    let shiftCount := countLeadingZeros32 a + 21 in
    packFloat F64 sign (0x432 - shiftCount) (Z.shiftl a shiftCount).

(** The integer part of a finite value; [None] for a NaN or an infinity. *)
Definition host_trunc (f : fmt) (bias a : Z) : option Z :=
  let e := extractExp f a in
  if e =? fexpmax f then None
  else
    let s := if e =? 0 then extractFrac f a else Z.lor (extractFrac f a) (hidden_bit f) in
    let e := (if e =? 0 then 1 else e) - bias - ffrac f in
    let mag := if 0 <=? e then Z.shiftl s e else Z.shiftr s (- e) in
    Some (if extractSign f a =? 0 then mag else - mag).

(** (int32_t) x *)
Definition host_to_i32 (f : fmt) (bias a : Z) : option Z :=
  match host_trunc f bias a with
  | Some i => if (- 2 ^ 31 <=? i) && (i <? 2 ^ 31) then Some i else None
  | None => None
  end.

Module Float.
Section Float.
Context {cfg : Config}.

Definition FS (o : operands) (c : CPU_state) : Z := arr_get (fpr32i c) (o_fs o).
Definition FT (o : operands) (c : CPU_state) : Z := arr_get (fpr32i c) (o_ft o).
Definition DS (o : operands) (c : CPU_state) : Z := fpr64i_at c (Z.shiftr (o_fs o) 1).
Definition DT (o : operands) (c : CPU_state) : Z := fpr64i_at c (Z.shiftr (o_ft o) 1).

Definition assign_fd (o : operands) (f : CPU_state -> Z) : EM unit :=
  upd_cpu (fun c => put_fpr32i (o_fd o) (f c) c).
Definition assign_dd (o : operands) (f : CPU_state -> Z) : EM unit :=
  upd_cpu (fun c => put_fpr64i (Z.shiftr (o_fd o) 1) (f c) c).

(** A result that undefined behaviour may leave without a value. *)
Definition defined (r : option Z) : EM Z :=
  match r with Some z => ret z | None => stop HUndefined end.

(** ** Moves *)
Definition mfc1 (o : operands) : EM unit := assign_rt o (FS o).
Definition mtc1 (o : operands) : EM unit :=
  upd_cpu (fun c => put_fpr32i (o_fs o) (GR_TV o c) c).
Definition mfhc1 (o : operands) : EM unit :=
  assign_rt o (fun c => arr_get (fpr32i c) (Z.lor (o_fs o) 1)).
Definition mthc1 (o : operands) : EM unit :=
  upd_cpu (fun c => put_fpr32i (Z.lor (o_fs o) 1) (GR_TV o c) c).

(** rt->field = v, where rt points at the register *)
Definition put_rt_field (o : operands) (f : field) (v : CPU_state -> Z) : EM unit :=
  upd_cpu (fun c => put_gpr (o_rt o) (bf_set f (v c) (GR_TV o c)) c).
Definition fcsr_get (f : field) (c : CPU_state) : Z := bf_get f (fcsr c).

Definition cfc1 (o : operands) : EM unit :=
  let fs := o_fs o in
  assign_rt o (fun _ => 0) ;;
  if fs =? 0 then InstAssert false
  else if fs =? 25 then
    put_rt_field o fcsr_fcc1_7 (fcsr_get fcsr_fcc1_7) ;;
    put_rt_field o fcsr_fcc0 (fcsr_get fcsr_fcc0)
  else if fs =? 26 then
    put_rt_field o fcsr_flags (fcsr_get fcsr_flags) ;;
    put_rt_field o fcsr_causes (fcsr_get fcsr_causes)
  else if fs =? 28 then
    put_rt_field o fcsr_RM (fcsr_get fcsr_RM) ;;
    put_rt_field o fcsr_flags
      (fun c => Z.lor (bf_get fcsr_flags (GR_TV o c)) (fcsr_get fcsr_fcc0 c)) ;;
    put_rt_field o fcsr_enables (fcsr_get fcsr_enables)
  else when (fs =? 31) (assign_rt o fcsr).

Definition put_fcsr (f : field) (v : Z) : EM unit :=
  upd_cpu (fun c => set_fcsr (bf_set f v (fcsr c)) c).

Definition ctc1 (o : operands) : EM unit :=
  let fs := o_fs o in
  let! c := get_cpu in
  let rt_val := GR_TV o c in
  if fs =? 25 then
    put_fcsr fcsr_fcc0 (Z.land rt_val 0x1) ;;
    put_fcsr fcsr_fcc1_7 (Z.land (Z.shiftr rt_val 1) 0x7F)
  else if fs =? 26 then
    put_fcsr fcsr_flags (bf_get fcsr_flags rt_val) ;;
    put_fcsr fcsr_causes (bf_get fcsr_causes rt_val)
  else if fs =? 28 then
    put_fcsr fcsr_RM (bf_get fcsr_RM rt_val) ;;
    put_fcsr fcsr_enables (bf_get fcsr_enables rt_val) ;;
    put_fcsr fcsr_fs (Z.shiftr (Z.land rt_val 0x4) 2)
  else when (fs =? 31) (upd_cpu (set_fcsr rt_val)).

(** getFPCondCode(cc), with abort() for an impossible code *)
Definition fp_cond (cc : Z) : EM Z :=
  let! c := get_cpu in
  match getFPCondCode cc (fcsr c) with Some b => ret b | None => stop HAssert end.

Definition bc1 (o : operands) : EM unit :=
  InstAssert (o_nd o =? 0) ;;
  (if o_tf o =? 0 then
     let! b := fp_cond (o_cc2 o) in
     upd_cpu (fun c => set_br_target (if b =? 0 then Branch.target o c else pc c + 8) c)
   else if o_tf o =? 1 then
     let! b := fp_cond (o_cc2 o) in
     upd_cpu (fun c => set_br_target (if b =? 1 then Branch.target o c else pc c + 8) c)
   else ret tt) ;;
  prepare_delayslot.

(** ** Arithmetic *)
Definition add_s (o : operands) : EM unit :=
  assign_fd o (fun c => float32_add status_zero (FS o c) (FT o c)).
Definition add_d (o : operands) : EM unit :=
  assign_dd o (fun c => float64_add status_zero (DS o c) (DT o c)).
Definition sub_s (o : operands) : EM unit :=
  assign_fd o (fun c => float32_sub status_zero (FS o c) (FT o c)).
Definition sub_d (o : operands) : EM unit :=
  assign_dd o (fun c => float64_sub status_zero (DS o c) (DT o c)).

Definition fop_s (r : CPU_state -> option Z) (o : operands) : EM unit :=
  let! c := get_cpu in let! v := defined (r c) in assign_fd o (fun _ => v).
Definition fop_d (r : CPU_state -> option Z) (o : operands) : EM unit :=
  let! c := get_cpu in let! v := defined (r c) in assign_dd o (fun _ => v).

Definition mul_s (o : operands) : EM unit :=
  fop_s (fun c => float32_mul status_zero (FS o c) (FT o c)) o.
Definition mul_d (o : operands) : EM unit :=
  fop_d (fun c => float64_mul status_zero (DS o c) (DT o c)) o.
Definition div_s (o : operands) : EM unit :=
  fop_s (fun c => float32_div status_zero (FS o c) (FT o c)) o.
Definition div_d (o : operands) : EM unit :=
  fop_d (fun c => float64_div status_zero (DS o c) (DT o c)) o.
Definition sqrt_s (o : operands) : EM unit :=
  fop_s (fun c => float32_sqrt status_zero (FS o c)) o.
Definition sqrt_d (o : operands) : EM unit :=
  fop_d (fun c => float64_sqrt status_zero (DS o c)) o.

Definition abs_s (o : operands) : EM unit := assign_fd o (fun c => float32_abs (FS o c)).
Definition abs_d (o : operands) : EM unit := assign_dd o (fun c => float64_abs (DS o c)).
Definition mov_s (o : operands) : EM unit := assign_fd o (FS o).
Definition mov_d (o : operands) : EM unit := assign_dd o (DS o).
Definition neg_s (o : operands) : EM unit :=
  assign_fd o (fun c => Z.lxor (FS o c) (Z.shiftl 1 31)).
Definition neg_d (o : operands) : EM unit :=
  assign_dd o (fun c => Z.lxor (DS o c) (Z.shiftl 1 63)).

Definition trunc_w_s (o : operands) : EM unit :=
  assign_fd o (fun c => float32_to_int32 status_zero (FS o c)).
Definition trunc_w_d (o : operands) : EM unit :=
  assign_fd o (fun c => float64_to_int32 status_zero (DS o c)).

(** ** Conditional moves *)
Definition movci (o : operands) : EM unit :=
  let! b := fp_cond (o_cc2 o) in
  if o_tf o =? 0 then when (b =? 0) (assign_rd o (GR_SV o))
  else if o_tf o =? 1 then when (b =? 1) (assign_rd o (GR_SV o))
  else ret tt.
Definition movcf_s (o : operands) : EM unit :=
  let! b := fp_cond (o_cc2 o) in when (b =? 0) (assign_fd o (FS o)).
Definition movcf_d (o : operands) : EM unit :=
  let! b := fp_cond (o_cc2 o) in
  when (b =? 0)
    (upd_cpu (fun c => put_fpr64i (o_fd64 o) (arr_get (fpr32i c) (o_fs64 o)) c)).
Definition movz_s (o : operands) : EM unit :=
  let! c := get_cpu in when (GR_TV o c =? 0) (assign_fd o (FS o)).
Definition movz_d (o : operands) : EM unit :=
  let! c := get_cpu in
  when (GR_TV o c =? 0)
    (upd_cpu (fun c => put_fpr64i (o_fd64 o) (fpr64i_at c (o_fs64 o)) c)).
Definition movn_s (o : operands) : EM unit :=
  let! c := get_cpu in when (negb (GR_TV o c =? 0)) (assign_fd o (FS o)).
Definition movn_d (o : operands) : EM unit :=
  let! c := get_cpu in when (negb (GR_TV o c =? 0)) (assign_dd o (DS o)).

(** ** Conversions *)
Definition cvt_d_s (o : operands) : EM unit :=
  assign_dd o (fun c => host_f32_to_f64 (FS o c)).
Definition cvt_w_s (o : operands) : EM unit :=
  fop_s (fun c => host_to_i32 F32 0x7F (FS o c)) o.
Definition cvt_s_d (o : operands) : EM unit :=
  assign_fd o (fun c => host_f64_to_f32 (DS o c)).
Definition cvt_w_d (o : operands) : EM unit :=
  fop_s (fun c => host_to_i32 F64 0x3FF (DS o c)) o.
Definition cvt_s_w (o : operands) : EM unit :=
  assign_fd o (fun c => host_i32_to_f32 (s32 (FS o c))).
Definition cvt_d_w (o : operands) : EM unit :=
  assign_dd o (fun c => host_i32_to_f64 (s32 (FS o c))).

(** ** Comparisons *)
Definition set_cond (o : operands) (b : CPU_state -> bool) : EM unit :=
  upd_cpu (fun c => set_fcsr (setFPCondCode (o_cc1 o) (b c) (fcsr c)) c).
Definition cmp_s (cmp : fmt -> Z -> Z -> bool) (o : operands) : EM unit :=
  set_cond o (fun c => cmp F32 (FS o c) (FT o c)).
Definition cmp_d (cmp : fmt -> Z -> Z -> bool) (o : operands) : EM unit :=
  set_cond o (fun c => cmp F64 (fpr64i_at c (o_fs64 o)) (fpr64i_at c (o_ft64 o))).

Definition c_un_s (o : operands) : EM unit := set_cond o (fun _ => false).
Definition c_un_d (o : operands) : EM unit := set_cond o (fun _ => false).
Definition c_eq_s := cmp_s c_eq.
Definition c_eq_d := cmp_d c_eq.
Definition c_ueq_s := cmp_s c_eq.
Definition c_ueq_d := cmp_d c_eq.
Definition c_olt_s := cmp_s c_lt.
Definition c_olt_d := cmp_d c_lt.
Definition c_ult_s := cmp_s c_lt.
Definition c_ult_d := cmp_d c_lt.
Definition c_ole_s := cmp_s c_le.
Definition c_ole_d := cmp_d c_le.
Definition c_ule_s := cmp_s c_le.
Definition c_ule_d := cmp_d c_le.
Definition c_lt_s := cmp_s c_lt.
Definition c_lt_d := cmp_d c_lt.
Definition c_le_s := cmp_s c_le.
Definition c_le_d := cmp_d c_le.

(** ** Loads and stores *)
Definition lwc1 (o : operands) : EM unit :=
  let! c := get_cpu in
  CHECK_ALIGNED_ADDR EXC_AdEL 4 (LoadStore.eff_addr o c) ;;
  let! r := vaddr_read (LoadStore.eff_addr o c) 4 in
  let! c := get_cpu in
  when (negb (has_exception c)) (upd_cpu (put_fpr32i (o_rt o) r)).

Definition swc1 (o : operands) : EM unit :=
  let! c := get_cpu in vaddr_write (LoadStore.eff_addr o c) 4 (FT o c).

Definition ldc1 (o : operands) : EM unit :=
  let! c := get_cpu in
  let raddr := LoadStore.eff_addr o c in
  CHECK_ALIGNED_ADDR EXC_AdEL 8 raddr ;;
  let! rdata_l := vaddr_read raddr 4 in
  let! rdata_h := vaddr_read (u32 (raddr + 4)) 4 in
  let! c := get_cpu in
  when (negb (has_exception c))
    (upd_cpu (fun c => put_fpr32i (Z.lor (o_rt o) 1) rdata_h
                         (put_fpr32i (Z.land (o_rt o) (Z.lnot 1)) rdata_l c))).

Definition sdc1 (o : operands) : EM unit :=
  let! c := get_cpu in
  let waddr := LoadStore.eff_addr o c in
  CHECK_ALIGNED_ADDR EXC_AdES 8 waddr ;;
  vaddr_write waddr 4 (arr_get (fpr32i c) (Z.land (o_ft o) (Z.lnot 1))) ;;
  let! c := get_cpu in
  vaddr_write (u32 (waddr + 4)) 4 (arr_get (fpr32i c) (Z.lor (o_ft o) 1)).
End Float.
End Float.
