(* ===== verification/Decode.v ===== *)
(** * Decoding (src/cpu/exec/exec-handlers.h, decoder_get_handler of src/cpu/cpu.c)

    The label addresses of the dispatch tables are the constructors of [handler] (see
    Machine.v); [exec_handler] is the code at the label.  An entry past the initialisers of a
    table is a null pointer, [None]. *)
From S2P Require Import Prelude Config Reg Fifo Ram Flash Sdlkey Machine Ulite Spi Device Mmu Memory.
From S2P Require Import ExecAlu ExecMdu ExecMem Softfloat ExecFloat.
Local Open Scope nemu_scope.

Definition special_table : list handler :=
  [H_sll; H_movci; H_srl; H_sra; H_sllv; H_inv; H_srlv; H_srav; H_jr; H_jalr; H_movz;
   H_movn; H_syscall; H_breakpoint; H_inv; H_sync; H_mfhi; H_mthi; H_mflo; H_mtlo; H_inv;
   H_inv; H_inv; H_inv; H_mult; H_multu; H_divide; H_divu; H_inv; H_inv; H_inv; H_inv;
   H_add; H_addu; H_sub; H_subu; H_and; H_or; H_xor; H_nor; H_inv; H_inv; H_slt; H_sltu;
   H_inv; H_inv; H_inv; H_inv; H_tge; H_tgeu; H_tlt; H_tltu; H_teq; H_inv; H_tne; H_inv;
   H_inv; H_inv; H_inv; H_inv; H_inv; H_inv; H_inv; H_inv].

Definition special2_table : list handler :=
  [H_madd; H_maddu; H_mul; H_inv; H_msub; H_msubu; H_inv; H_inv; H_inv; H_inv; H_inv;
   H_inv; H_inv; H_inv; H_inv; H_inv; H_inv; H_inv; H_inv; H_inv; H_inv; H_inv; H_inv;
   H_inv; H_inv; H_inv; H_inv; H_inv; H_inv; H_inv; H_inv; H_inv; H_clz; H_clo; H_inv;
   H_inv; H_inv; H_inv; H_inv; H_inv; H_inv; H_inv; H_inv; H_inv; H_inv; H_inv; H_inv;
   H_inv; H_inv; H_inv; H_inv; H_inv; H_inv; H_inv; H_inv; H_inv; H_inv; H_inv; H_inv;
   H_inv; H_inv; H_inv; H_inv; H_inv].

Definition special3_table : list handler :=
  [H_ext; H_inv; H_mul; H_inv; H_ins; H_inv; H_inv; H_inv; H_inv; H_inv; H_inv; H_inv;
   H_inv; H_inv; H_inv; H_inv; H_inv; H_inv; H_inv; H_inv; H_inv; H_inv; H_inv; H_inv;
   H_inv; H_inv; H_inv; H_inv; H_inv; H_inv; H_inv; H_inv; H_exec_bshfl; H_inv; H_inv;
   H_inv; H_inv; H_inv; H_inv; H_inv; H_inv; H_inv; H_inv; H_inv; H_inv; H_inv; H_inv;
   H_inv; H_inv; H_inv; H_inv; H_inv; H_inv; H_inv; H_inv; H_inv; H_inv; H_inv; H_inv;
   H_inv; H_inv; H_inv; H_inv; H_inv].

Definition bshfl_table : list handler :=
  [H_inv; H_inv; H_wsbh; H_inv; H_inv; H_inv; H_inv; H_inv; H_inv; H_inv; H_inv; H_inv;
   H_inv; H_inv; H_inv; H_inv; H_seb; H_inv; H_inv; H_inv; H_inv; H_inv; H_inv; H_inv;
   H_seh; H_inv; H_inv; H_inv; H_inv; H_inv; H_inv; H_inv].

Definition regimm_table : list handler :=
  [H_bltz; H_bgez; H_bltzl; H_bgezl; H_inv; H_inv; H_inv; H_inv; H_tgei; H_tgeiu; H_tlti;
   H_tltiu; H_teqi; H_inv; H_tnei; H_inv; H_bltzal; H_bgezal; H_bltzall; H_bgezall;
   H_inv; H_inv; H_inv; H_inv; H_inv; H_inv; H_inv; H_inv; H_inv; H_inv; H_inv; H_synci].

Definition cop0_table_rs : list handler :=
  [H_mfc0; H_inv; H_inv; H_inv; H_mtc0; H_inv; H_inv; H_inv; H_inv; H_inv; H_inv; H_inv;
   H_inv; H_inv; H_inv; H_inv; H_inv; H_inv; H_inv; H_inv; H_inv; H_inv; H_inv; H_inv;
   H_inv; H_inv; H_inv; H_inv; H_inv; H_inv; H_inv; H_inv].

Definition cop0_table_func : list handler :=
  [H_inv; H_tlbr; H_tlbwi; H_inv; H_inv; H_inv; H_tlbwr; H_inv; H_tlbp; H_inv; H_inv;
   H_inv; H_inv; H_inv; H_inv; H_inv; H_inv; H_inv; H_inv; H_inv; H_inv; H_inv; H_inv;
   H_inv; H_eret; H_inv; H_inv; H_inv; H_inv; H_inv; H_inv; H_inv; H_wait; H_inv; H_inv;
   H_inv; H_inv; H_inv; H_inv; H_inv; H_inv; H_inv; H_inv; H_inv; H_inv; H_inv; H_inv;
   H_inv; H_inv; H_inv; H_inv; H_inv; H_inv; H_inv; H_inv; H_inv; H_inv; H_inv; H_inv;
   H_inv; H_inv; H_inv; H_inv; H_inv].

Definition cop1_table_rs : list handler :=
  [H_mfc1; H_inv; H_cfc1; H_mfhc1; H_mtc1; H_inv; H_ctc1; H_mthc1; H_bc1; H_inv; H_inv;
   H_inv; H_inv; H_inv; H_inv; H_inv; H_inv; H_inv; H_inv; H_inv; H_inv; H_inv; H_inv;
   H_inv; H_inv; H_inv; H_inv; H_inv; H_inv; H_inv; H_inv; H_inv].

Definition cop1_table_rs_S : list handler :=
  [H_add_s; H_sub_s; H_mul_s; H_div_s; H_sqrt_s; H_abs_s; H_mov_s; H_neg_s; H_inv; H_inv;
   H_inv; H_inv; H_inv; H_trunc_w_s; H_inv; H_inv; H_inv; H_movcf_s; H_movz_s; H_movn_s;
   H_inv; H_inv; H_inv; H_inv; H_inv; H_inv; H_inv; H_inv; H_inv; H_inv; H_inv; H_inv;
   H_inv; H_cvt_d_s; H_inv; H_inv; H_inv; H_cvt_w_s; H_inv; H_inv; H_inv; H_inv; H_inv;
   H_inv; H_inv; H_inv; H_inv; H_inv; H_inv; H_c_un_s; H_c_eq_s; H_c_ueq_s; H_c_olt_s;
   H_c_ult_s; H_c_ole_s; H_c_ule_s; H_inv; H_inv; H_inv; H_inv; H_c_lt_s; H_inv;
   H_c_le_s; H_inv].

Definition cop1_table_rs_D : list handler :=
  [H_add_d; H_sub_d; H_mul_d; H_div_d; H_sqrt_d; H_abs_d; H_mov_d; H_neg_d; H_inv; H_inv;
   H_inv; H_inv; H_inv; H_trunc_w_d; H_inv; H_inv; H_inv; H_movcf_d; H_movz_d; H_movn_d;
   H_inv; H_inv; H_inv; H_inv; H_inv; H_inv; H_inv; H_inv; H_inv; H_inv; H_inv; H_inv;
   H_cvt_s_d; H_inv; H_inv; H_inv; H_inv; H_cvt_w_d; H_inv; H_inv; H_inv; H_inv; H_inv;
   H_inv; H_inv; H_inv; H_inv; H_inv; H_inv; H_c_un_d; H_c_eq_d; H_c_ueq_d; H_c_olt_d;
   H_c_ult_d; H_c_ole_d; H_c_ule_d; H_inv; H_inv; H_inv; H_inv; H_c_lt_d; H_inv;
   H_c_le_d; H_inv].

Definition cop1_table_rs_W : list handler :=
  [H_inv; H_inv; H_inv; H_inv; H_inv; H_inv; H_inv; H_inv; H_inv; H_inv; H_inv; H_inv;
   H_inv; H_inv; H_inv; H_inv; H_inv; H_inv; H_inv; H_inv; H_inv; H_inv; H_inv; H_inv;
   H_inv; H_inv; H_inv; H_inv; H_inv; H_inv; H_inv; H_inv; H_cvt_s_w; H_cvt_d_w; H_inv;
   H_inv; H_inv; H_inv; H_inv; H_inv; H_inv; H_inv; H_inv; H_inv; H_inv; H_inv; H_inv;
   H_inv; H_inv; H_inv; H_inv; H_inv; H_inv; H_inv; H_inv; H_inv; H_inv; H_inv; H_inv;
   H_inv; H_inv; H_inv; H_inv; H_inv].

Definition opcode_table : list handler :=
  [H_exec_special; H_exec_regimm; H_j; H_jal; H_beq; H_bne; H_blez; H_bgtz; H_addi;
   H_addiu; H_slti; H_sltiu; H_andi; H_ori; H_xori; H_lui; H_exec_cop0; H_exec_cop1;
   H_inv; H_inv; H_beql; H_bnel; H_blezl; H_bgtzl; H_inv; H_inv; H_inv; H_inv;
   H_exec_special2; H_inv; H_inv; H_exec_special3; H_lb; H_lh; H_lwl; H_lw; H_lbu; H_lhu;
   H_lwr; H_inv; H_sb; H_sh; H_swl; H_sw; H_inv; H_inv; H_swr; H_cache; H_ll; H_lwc1;
   H_inv; H_pref; H_inv; H_ldc1; H_inv; H_inv; H_sc; H_swc1; H_inv; H_inv; H_inv; H_sdc1;
   H_inv; H_inv].

Definition entry (table : list handler) (i : Z) : option handler := table !! Z.to_nat i.

Definition decoder_get_handler (inst : Z) : option handler :=
  let op := inst_op inst in
  let func := inst_func inst in
  let rs := inst_rs inst in
  if op =? 0x00 then entry special_table func
  else if op =? 0x01 then entry regimm_table (inst_rt inst)
  else if op =? 0x10 then
    if Z.land rs 0x10 =? 0 then entry cop0_table_rs rs else entry cop0_table_func func
  else if op =? 0x11 then
    if rs =? FPU_FMT_S then entry cop1_table_rs_S func
    else if rs =? FPU_FMT_D then entry cop1_table_rs_D func
    else if rs =? FPU_FMT_W then entry cop1_table_rs_W func
    else entry cop1_table_rs rs
  else if op =? 0x1c then entry special2_table func
  else if op =? 0x1f then
    if func =? 0x20 then entry bshfl_table (inst_shamt inst) else entry special3_table func
  else entry opcode_table op.

(** ** Filling a decode state (decoder_set_state of src/cpu/cpu.c) *)
(** ds->uimm = v writes the low half of the word it shares with rd. *)
Definition put_uimm (v old : Z) : Z := Z.lor (Z.land old 0xFFFF0000) v.

Definition decoder_set_state (d : decode_state_t) (inst : Z) : decode_state_t :=
  let '(mkDs h n p rs rt rd sa fn sel ext i) := d in
  let op := inst_op inst in
  let Itype := mkDs h n p (inst_rs inst) (inst_rt inst) (put_uimm (inst_uimm inst) rd) sa fn sel ext i in
  if op =? 0x00 then (* Rtype *)
    mkDs h n p (inst_rs inst) (inst_rt inst) (inst_rd inst) (inst_shamt inst) (inst_func inst) sel ext i
  else if op =? 0x01 then Itype
  else if (op =? 0x02) || (op =? 0x03) then (* Jtype *)
    mkDs h n p (inst_addr inst) rt rd sa fn sel ext i
  else if op =? 0x10 then
    if negb (Z.land (inst_rs inst) 0x10 =? 0) then d
    else (* Cop0Type *) mkDs h n p rs (inst_rt inst) (inst_rd inst) sa fn (inst_sel inst) ext i
  else if op =? 0x1c then (* S2type *)
    mkDs h n p (inst_rs inst) (inst_rt inst) (inst_rd inst) (inst_shamt inst) fn sel ext i
  else if op =? 0x1f then
    if inst_func inst =? 0x20 then (* bshflType *) mkDs h n p rs (inst_rt inst) (inst_rd inst) sa fn sel ext i
    else (* S3type *)
      mkDs h n p (inst_rs inst) (inst_rt inst) (inst_rd inst) (inst_shamt inst) fn sel ext i
  else Itype.

(** With DECODE_CACHE=1 the macro [ops] is [ds]: the operands are the members of the
    decode state. *)
Definition ds_ops (d : decode_state_t) : operands := {|
  o_rs := s32 (ds_rs d); o_rt := s32 (ds_rt d); o_rd := s32 (ds_rd d);
  o_shamt := s32 (ds_shamt d); o_func := s32 (ds_func d);
  o_uimm := u16 (ds_rd d); o_simm := s16 (ds_rd d); o_addr := u32 (ds_rs d);
  o_sel := s32 (ds_sel d);
  o_fs := s32 (ds_rd d); o_ft := s32 (ds_rt d); o_fd := s32 (ds_shamt d);
  o_fs64 := s32 (ds_ext d); o_ft64 := s32 (ds_ext d); o_fd64 := s32 (ds_ext d);
  o_cc1 := s32 (ds_ext d); o_cc2 := s32 (ds_ext d); o_tf := s32 (ds_ext d);
  o_nd := s32 (ds_ext d) |}.

Definition exec_handler {cfg : Config} (h : handler) : operands -> EM unit :=
  match h with
  | H_sll => Shift.sll
  | H_movci => Float.movci
  | H_srl => Shift.srl
  | H_sra => Shift.sra
  | H_sllv => Shift.sllv
  | H_inv => Special.inv
  | H_srlv => Shift.srlv
  | H_srav => Shift.srav
  | H_jr => Branch.jr
  | H_jalr => Branch.jalr
  | H_movz => Alu.movz
  | H_movn => Alu.movn
  | H_syscall => System.syscall
  | H_breakpoint => System.breakpoint
  | H_sync => System.sync
  | H_mfhi => Mdu.mfhi
  | H_mthi => Mdu.mthi
  | H_mflo => Mdu.mflo
  | H_mtlo => Mdu.mtlo
  | H_mult => Mdu.mult
  | H_multu => Mdu.multu
  | H_divide => Mdu.divide
  | H_divu => Mdu.divu
  | H_add => Alu.add
  | H_addu => Alu.addu
  | H_sub => Alu.sub
  | H_subu => Alu.subu
  | H_and => Alu.and_
  | H_or => Alu.or_
  | H_xor => Alu.xor
  | H_nor => Alu.nor
  | H_slt => Alu.slt
  | H_sltu => Alu.sltu
  | H_tge => Trap.tge
  | H_tgeu => Trap.tgeu
  | H_tlt => Trap.tlt
  | H_tltu => Trap.tltu
  | H_teq => Trap.teq
  | H_tne => Trap.tne
  | H_madd => Mdu.madd
  | H_maddu => Mdu.maddu
  | H_mul => Alu.mul
  | H_msub => Mdu.msub
  | H_msubu => Mdu.msubu
  | H_clz => AluEx.clz
  | H_clo => AluEx.clo
  | H_ext => AluEx.ext
  | H_ins => AluEx.ins
  | H_exec_bshfl => Special.exec_bshfl
  | H_wsbh => AluEx.wsbh
  | H_seb => AluEx.seb
  | H_seh => AluEx.seh
  | H_bltz => Branch.bltz
  | H_bgez => Branch.bgez
  | H_bltzl => Branch.bltzl
  | H_bgezl => Branch.bgezl
  | H_tgei => Trap.tgei
  | H_tgeiu => Trap.tgeiu
  | H_tlti => Trap.tlti
  | H_tltiu => Trap.tltiu
  | H_teqi => Trap.teqi
  | H_tnei => Trap.tnei
  | H_bltzal => Branch.bltzal
  | H_bgezal => Branch.bgezal
  | H_bltzall => Branch.bltzall
  | H_bgezall => Branch.bgezall
  | H_synci => System.synci
  | H_mfc0 => System.mfc0
  | H_mtc0 => System.mtc0
  | H_tlbr => System.tlbr
  | H_tlbwi => System.tlbwi
  | H_tlbwr => System.tlbwr
  | H_tlbp => System.tlbp
  | H_eret => System.eret
  | H_wait => System.wait
  | H_mfc1 => Float.mfc1
  | H_cfc1 => Float.cfc1
  | H_mfhc1 => Float.mfhc1
  | H_mtc1 => Float.mtc1
  | H_ctc1 => Float.ctc1
  | H_mthc1 => Float.mthc1
  | H_bc1 => Float.bc1
  | H_add_s => Float.add_s
  | H_sub_s => Float.sub_s
  | H_mul_s => Float.mul_s
  | H_div_s => Float.div_s
  | H_sqrt_s => Float.sqrt_s
  | H_abs_s => Float.abs_s
  | H_mov_s => Float.mov_s
  | H_neg_s => Float.neg_s
  | H_trunc_w_s => Float.trunc_w_s
  | H_movcf_s => Float.movcf_s
  | H_movz_s => Float.movz_s
  | H_movn_s => Float.movn_s
  | H_cvt_d_s => Float.cvt_d_s
  | H_cvt_w_s => Float.cvt_w_s
  | H_c_un_s => Float.c_un_s
  | H_c_eq_s => Float.c_eq_s
  | H_c_ueq_s => Float.c_ueq_s
  | H_c_olt_s => Float.c_olt_s
  | H_c_ult_s => Float.c_ult_s
  | H_c_ole_s => Float.c_ole_s
  | H_c_ule_s => Float.c_ule_s
  | H_c_lt_s => Float.c_lt_s
  | H_c_le_s => Float.c_le_s
  | H_add_d => Float.add_d
  | H_sub_d => Float.sub_d
  | H_mul_d => Float.mul_d
  | H_div_d => Float.div_d
  | H_sqrt_d => Float.sqrt_d
  | H_abs_d => Float.abs_d
  | H_mov_d => Float.mov_d
  | H_neg_d => Float.neg_d
  | H_trunc_w_d => Float.trunc_w_d
  | H_movcf_d => Float.movcf_d
  | H_movz_d => Float.movz_d
  | H_movn_d => Float.movn_d
  | H_cvt_s_d => Float.cvt_s_d
  | H_cvt_w_d => Float.cvt_w_d
  | H_c_un_d => Float.c_un_d
  | H_c_eq_d => Float.c_eq_d
  | H_c_ueq_d => Float.c_ueq_d
  | H_c_olt_d => Float.c_olt_d
  | H_c_ult_d => Float.c_ult_d
  | H_c_ole_d => Float.c_ole_d
  | H_c_ule_d => Float.c_ule_d
  | H_c_lt_d => Float.c_lt_d
  | H_c_le_d => Float.c_le_d
  | H_cvt_s_w => Float.cvt_s_w
  | H_cvt_d_w => Float.cvt_d_w
  | H_exec_special => Special.exec_special
  | H_exec_regimm => Special.exec_regimm
  | H_j => Branch.j
  | H_jal => Branch.jal
  | H_beq => Branch.beq
  | H_bne => Branch.bne
  | H_blez => Branch.blez
  | H_bgtz => Branch.bgtz
  | H_addi => Alu.addi
  | H_addiu => Alu.addiu
  | H_slti => Alu.slti
  | H_sltiu => Alu.sltiu
  | H_andi => Alu.andi
  | H_ori => Alu.ori
  | H_xori => Alu.xori
  | H_lui => Alu.lui
  | H_exec_cop0 => Special.exec_cop0
  | H_exec_cop1 => Special.exec_cop1
  | H_beql => Branch.beql
  | H_bnel => Branch.bnel
  | H_blezl => Branch.blezl
  | H_bgtzl => Branch.bgtzl
  | H_exec_special2 => Special.exec_special2
  | H_exec_special3 => Special.exec_special3
  | H_lb => LoadStore.lb
  | H_lh => LoadStore.lh
  | H_lwl => LoadStore.lwl
  | H_lw => LoadStore.lw
  | H_lbu => LoadStore.lbu
  | H_lhu => LoadStore.lhu
  | H_lwr => LoadStore.lwr
  | H_sb => LoadStore.sb
  | H_sh => LoadStore.sh
  | H_swl => LoadStore.swl
  | H_sw => LoadStore.sw
  | H_swr => LoadStore.swr
  | H_cache => System.cache
  | H_ll => LoadStore.ll
  | H_lwc1 => Float.lwc1
  | H_pref => LoadStore.pref
  | H_ldc1 => Float.ldc1
  | H_sc => LoadStore.sc
  | H_swc1 => Float.swc1
  | H_sdc1 => Float.sdc1
  end.
