(* ===== verification/Cpu.v ===== *)
(** * The CPU loop (src/cpu/cpu.c, src/cpu/exec/exec.h)

    Reset, interrupt sampling, one turn of the loop of cpu_exec and cpu_exec itself,
    and the static initial state of the program. *)
From S2P Require Import Prelude Config Reg Fifo Ram Flash Sdlkey Machine Ulite Spi Device Mmu Memory.
From S2P Require Import ExecAlu ExecMdu ExecMem Softfloat ExecFloat Decode.
Local Open Scope nemu_scope.

(** Static storage: every object starts as zero bytes. *)
Definition cpu_zero : CPU_state :=
  mkCPU (replicate 32 0) 0 0 (replicate 256 0) 0 0 false false (replicate 32 0) 0.

Definition machine_zero (mode : Z) (h : host_t) (scr : option (gmap Z Z)) : machine :=
  mkMachine cpu_zero (replicate (Z.to_nat NR_TLB_ENTRY) tlb_zero)
    (replicate (Z.to_nat (2 ^ MMU_BITS)) mmu_cache_zero)
    (mkDc (replicate (Z.to_nat (2 ^ DECODE_CACHE_BITS)) ds_zero) ∅ 0 (fun _ => ds_zero) (DsHead 0))
    NEMU_STOP mode ∅ ∅ ∅ ulite_zero spi_zero (fifo_zero 0 1024) scr iq_zero 0 h.

Section Cpu.
Context {cfg : Config}.

(** ** init_cpu *)
Definition reset_cp0 (c : CPU_state) : CPU_state :=
  let c := put_cpr CP0_COUNT 0 0 c in
  let c := put_cpr CP0_COMPARE 0 0xFFFFFFFF c in
  let c := if CONFIG_DIFF_WITH_QEMU then c else put_cp0 status_CU CU0_ENABLE c in
  let c := put_cp0 status_ERL 0 c in
  let c := put_cp0 status_BEV 1 c in
  let c := put_cp0 status_IM 0x00 c in
  put_cp0 cause_IV 0 c.

Definition init_config (c : CPU_state) : CPU_state :=
  let c := put_cpr CP0_PRID 0 0x00018000 c in
  let c := put_cp0 config_MT 1 c in
  let c := put_cp0 config_BE 0 c in
  let c := put_cp0 config_M 1 c in
  let c := put_cp0 config1_DA 3 c in
  let c := put_cp0 config1_DL 3 c in
  let c := put_cp0 config1_DS 2 c in
  let c := put_cp0 config1_IA 3 c in
  let c := put_cp0 config1_IL 3 c in
  let c := put_cp0 config1_IS 2 c in
  put_cp0 config1_MMU_size (NR_TLB_ENTRY - 1) c.

Fixpoint write_cmdline (addr : Z) (s : list Z) : EM unit :=
  match s with
  | [] => vaddr_write (u32 addr) 1 0
  | ch :: s => vaddr_write (u32 addr) 1 (u32 ch) ;; write_cmdline (addr + 1) s
  end.

(** [boot_cmdline] is the string of the --cmdline option, without its NUL. *)
Definition init_cpu (entry : Z) (boot_cmdline : option (list Z)) : EM unit :=
  let! t := get_current_time in
  modify (set_nemu_start_time t) ;;
  upd_cpu reset_cp0 ;;
  upd_cpu (set_pc entry) ;;
  upd_cpu init_config ;;
  clear_mmu_cache ;; clear_decode_cache ;;
  match boot_cmdline with
  | Some (ch :: s) =>
      let cmdline_st := u32 (CONFIG_CMDLINE_ADDR + 8) in
      vaddr_write CONFIG_CMDLINE_ADDR 4 cmdline_st ;;
      vaddr_write (CONFIG_CMDLINE_ADDR + 4) 4 0 ;;
      write_cmdline cmdline_st (ch :: s) ;;
      upd_cpu (put_gpr R_a0 1) ;; upd_cpu (put_gpr R_a1 CONFIG_CMDLINE_ADDR)
  | _ => ret tt
  end.

(** ** check_intrs *)
Definition tick : EM unit :=
  upd_cpu (fun c => put_cpr CP0_COUNT 0 (cpr_get (cp0 c) CP0_COUNT 0 + 1) c) ;;
  let! m := get in
  when (cpr_get (cp0 (cpu m)) CP0_COUNT 0 =? cpr_get (cp0 (cpu m)) CP0_COMPARE 0)
    (nemu_set_irq 7 true).

Definition intr_pending (c : CPU_state) : bool :=
  (cp0_get status_ERL (cp0 c) =? 0) && (cp0_get status_EXL (cp0 c) =? 0) &&
  negb (cp0_get status_IE (cp0 c) =? 0) &&
  negb (Z.land (cp0_get status_IM (cp0 c)) (cp0_get cause_IP (cp0 c)) =? 0).

Definition check_intrs : EM unit :=
  when CONFIG_INTR tick ;;
  let! c := get_cpu in
  when (intr_pending c) (raise_exception EXC_INTR).

(** ** exec.h *)

(** The label inst_end, compiled only with CONFIG_DELAYSLOT. *)
Definition inst_end : EM unit :=
  let! c := get_cpu in
  if is_delayslot c then
    upd_cpu (fun c => set_pc (br_target c) c) ;;
    let! c := get_cpu in
    when CONFIG_DECODE_CACHE (refetch_ds (pc c)) ;;
    upd_cpu (set_is_delayslot false)
  else upd_cpu (fun c => set_pc (pc c + 4) c).

(** What follows the body of a handler is the head of the next make_exec_handler: goto
    inst_end with CONFIG_DELAYSLOT (behind the last body, inst_end itself), cpu.pc += 4
    and goto exit without.  In the order of the includes tnei is the last handler: without
    CONFIG_DELAYSLOT its body is followed by the label exit. *)
Definition last_handler (h : handler) : bool :=
  match h with H_tnei => true | _ => false end.
Definition handler_end (h : handler) : EM unit :=
  if CONFIG_DELAYSLOT then inst_end
  else when (negb (last_handler h)) (upd_cpu (fun c => set_pc (pc c + 4) c)).

(** Run the body of handler [h] up to the label exit. *)
Definition to_exit (h : handler) (body : EM unit) : EM unit := fun s =>
  match body s with
  | Ok _ s' => handler_end h s'
  | Exit s' => Ok tt s'
  | Stop h s' => Stop h s'
  end.

Definition fetch : EM Z :=
  upd_cpu (put_gpr 0 0) ;;
  let! c := get_cpu in
  let! inst := vaddr_read (pc c) 4 in
  when CONFIG_INSTR_LOG (instr_enqueue_instr inst) ;;
  ret inst.

(** goto *handler *)
Definition dispatch (handler : option handler) (ops : operands) : EM unit :=
  match handler with
  | Some h => to_exit h (exec_handler h ops)
  | None => stop HUndefined
  end.

Definition exec_inst (inst : Z) : EM unit := dispatch (decoder_get_handler inst) (inst_ops inst).

(** *** make_entry with DECODE_CACHE=1 *)
Definition get_dc : EM decode_cache_t := gets decode_cache.

(** *p, where p points to a freed block only if the program has a use after free. *)
Definition ds_load (p : ds_ptr) : EM decode_state_t :=
  let! d := get_dc in
  match p with
  | DsHead i => ret (tab_at d i)
  | DsNode b =>
      match dc_heap d !! b with Some e => ret e | None => stop HUndefined end
  end.
Definition put_heap (b : Z) (e : decode_state_t) (d : decode_cache_t) : decode_cache_t :=
  set_dc_heap (<[b := e]> (dc_heap d)) d.
Definition ds_store (p : ds_ptr) (e : decode_state_t) : EM unit :=
  match p with
  | DsHead i => upd_dc (put_tab i e)
  | DsNode b => upd_dc (put_heap b e)
  end.
Definition ds_upd (p : ds_ptr) (f : decode_state_t -> decode_state_t) : EM unit :=
  let! e := ds_load p in ds_store p (f e).

(** malloc(sizeof(decode_state_t)) *)
Definition malloc_ds : EM Z :=
  let! d := get_dc in
  upd_dc (fun d => set_dc_brk (dc_brk d + 1) (put_heap (dc_brk d) (dc_junk d (dc_brk d)) d)) ;;
  ret (dc_brk d).

(** Returns the label to go to; the operands are those of ds. *)
Definition cached_entry : EM (option handler) :=
  upd_cpu (put_gpr 0 0) ;;
  let! d := get_dc in
  let! e := ds_load (dc_ds d) in
  match ds_next e with
  | Some b =>
      upd_dc (set_dc_ds (DsNode b)) ;;
      let! e := ds_load (DsNode b) in
      when CONFIG_INSTR_LOG (instr_enqueue_instr (ds_inst e)) ;;
      ret (ds_handler e)
  | None =>
      let! b := malloc_ds in
      ds_upd (dc_ds d) (set_ds_next (Some b)) ;;
      upd_dc (set_dc_ds (DsNode b)) ;;
      ds_upd (DsNode b) (set_ds_next None) ;;
      let! c := get_cpu in
      let! inst := vaddr_read (pc c) 4 in
      when CONFIG_INSTR_LOG
        (instr_enqueue_instr inst ;; ds_upd (DsNode b) (set_ds_inst inst)) ;;
      let handler := decoder_get_handler inst in
      ds_upd (DsNode b) (fun e => decoder_set_state e inst) ;;
      ds_upd (DsNode b) (set_ds_handler handler) ;;
      ret handler
  end.

Definition exec_cached : EM unit :=
  let! handler := cached_entry in
  let! d := get_dc in
  let! e := ds_load (dc_ds d) in
  dispatch handler (ds_ops e).

(** The label check_exception to the end of the loop body. *)
Definition check_exception : EM unit :=
  when (CONFIG_EXCEPTION || CONFIG_INTR)
    (let! c := get_cpu in
     when (negb (has_exception c)) check_intrs ;;
     let! c := get_cpu in
     when (has_exception c)
       (upd_cpu (fun c => set_pc (br_target c) (set_has_exception false c)))).

(** One turn of the loop of cpu_exec. *)
Definition step : EM unit :=
  let! c := get_cpu in
  when CONFIG_INSTR_LOG (instr_enqueue_pc (pc c)) ;;
  (if CONFIG_EXCEPTION && negb (Z.land (pc c) 0x3 =? 0) then
     upd_cpu (fun c => put_cpr CP0_BADVADDR 0 (pc c) c) ;; raise_exception EXC_AdEL
   else if CONFIG_DECODE_CACHE then exec_cached
   else let! inst := fetch in exec_inst inst) ;;
  check_exception.

Fixpoint cpu_loop (n : nat) : EM unit :=
  match n with
  | O => ret tt
  | S n =>
      step ;;
      let! m := get in
      if decide (nemu_state m = NEMU_RUNNING) then cpu_loop n else ret tt
  end.

Definition run_loop (n : nat) : EM unit :=
  modify (set_nemu_state NEMU_RUNNING) ;;
  let! c := get_cpu in
  when CONFIG_DECODE_CACHE (refetch_ds (pc c)) ;;
  cpu_loop n ;;
  let! m := get in
  when (bool_decide (nemu_state m = NEMU_RUNNING)) (modify (set_nemu_state NEMU_STOP)).

(** cpu_exec: in gdb mode a failed CPUAssert jumps back here and ends the program. *)
Definition cpu_exec (n : nat) : EM unit := fun m =>
  if decide (nemu_state m = NEMU_END) then Ok tt m
  else match run_loop n m with
       | Stop HCPUAssert m' =>
           if work_mode m =? MODE_GDB then Ok tt (set_nemu_state NEMU_END m')
           else Stop HCPUAssert m'
       | r => r
       end.
End Cpu.
