(* ===== verification/Elfsym.v ===== *)
(** * Host buffers and ELF symbols (src/utils/elfsym.c, include/utils/elfsym.h)

    Reading integers from the bytes of a file, the layout of the structures of elf.h, and
    the symbol table that the monitor looks addresses up in, with its direct-mapped cache.
    A file is the list of its bytes; reading past the end of a buffer is undefined. *)
From S2P Require Import Prelude Config Reg Fifo Ram.
Local Open Scope nemu_scope.

(** ** Host buffers *)
(** An integer read through a pointer into a buffer. *)
Fixpoint le_bytes (l : list Z) : Z :=
  match l with [] => 0 | b :: l => b + 256 * le_bytes l end.
Definition slice (buf : list Z) (off len : Z) : list Z := take (Z.to_nat len) (drop (Z.to_nat off) buf).
Definition in_buf (buf : list Z) (off len : Z) : bool :=
  (0 <=? off) && (0 <=? len) && (off + len <=? Z.of_nat (length buf)).
Definition buf_at {S} (buf : list Z) (off len : Z) : M S Z :=
  ensure (in_buf buf off len) HUndefined ;; ret (le_bytes (slice buf off len)).
(** A member of a structure, given by its offset and its size. *)
Definition field_at {S} (buf : list Z) (base : Z) (f : Z * Z) : M S Z := buf_at buf (base + fst f) (snd f).

(** fread(p, size, 1, fp) at offset [off], whose result is asserted to be 1. *)
Definition fread1 {S} (file : list Z) (off size : Z) : M S (list Z) :=
  ensure ((0 <? size) && (off + size <=? Z.of_nat (length file))) HAssert ;; ret (slice file off size).

(** strcmp(buf + off, s) == 0 for a string [s], given without its NUL. *)
Fixpoint streq {S} (buf : list Z) (off : Z) (s : list Z) : M S bool :=
  let! b := buf_at buf off 1 in
  match s with
  | [] => ret (b =? 0)
  | c :: s => if b =? c then streq buf (off + 1) s else ret false
  end.

(** ** elf.h: offset and size of the members used *)
Definition EI_CLASS : Z * Z := (4, 1).
Definition EI_DATA : Z * Z := (5, 1).
Definition e_machine : Z * Z := (18, 2).
Definition e_entry : Z * Z := (24, 4).
Definition e_phoff : Z * Z := (28, 4).
Definition e_shoff : Z * Z := (32, 4).
Definition e_phentsize : Z * Z := (42, 2).
Definition e_phnum : Z * Z := (44, 2).
Definition e_shentsize : Z * Z := (46, 2).
Definition e_shnum : Z * Z := (48, 2).
Definition e_shstrndx : Z * Z := (50, 2).
Definition p_type : Z * Z := (0, 4).
Definition p_offset : Z * Z := (4, 4).
Definition p_vaddr : Z * Z := (8, 4).
Definition p_filesz : Z * Z := (16, 4).
Definition p_memsz : Z * Z := (20, 4).
Definition sh_name : Z * Z := (0, 4).
Definition sh_type : Z * Z := (4, 4).
Definition sh_offset : Z * Z := (16, 4).
Definition sh_size : Z * Z := (20, 4).
Definition st_name : Z * Z := (0, 4).
Definition st_value : Z * Z := (4, 4).
Definition st_size : Z * Z := (8, 4).
Definition st_info : Z * Z := (12, 1).
Definition SIZEOF_EHDR : Z := 52.
Definition SIZEOF_SHDR : Z := 40.
Definition SIZEOF_SYM : Z := 16.
Definition ELFCLASS32 : Z := 1.
Definition ELFDATA2LSB : Z := 1.
Definition EM_MIPS : Z := 8.
Definition PT_LOAD : Z := 1.
Definition SHT_SYMTAB : Z := 2.
Definition SHT_STRTAB : Z := 3.
Definition STT_FUNC : Z := 2.
Definition elf_magic : Z := 0x464c457f.
Definition ELF32_ST_TYPE (info : Z) : Z := Z.land info 0xf.

(** ** elfsym_t *)
(** A symbol: a null pointer, an offset into the string table, or the literal for unknown. *)
Inductive sym : Type := SymNull | SymName (off : Z) | SymUnknown.
#[export] Instance sym_eq_dec : EqDecision sym.
Proof. solve_decision. Defined.

Definition ADDR2SYM_CACHE_BITS : Z := 12.

(** An absent entry of the cache is a zeroed one. *)
Record elfsym_t := mkElfsym {
  strtab : option (list Z);
  symtab : option (list Z);
  nr_symtab_entry : Z;
  strtab_size : Z;
  addr2sym_cache : option (gmap Z (sym * Z))
}.
Definition elfsym_zero : elfsym_t := mkElfsym None None 0 0 None.
Definition set_strtab (t : list Z) (n : Z) (e : elfsym_t) : elfsym_t :=
  mkElfsym (Some t) (symtab e) (nr_symtab_entry e) n (addr2sym_cache e).
Definition set_symtab (t : list Z) (n : Z) (e : elfsym_t) : elfsym_t :=
  mkElfsym (strtab e) (Some t) n (strtab_size e) (addr2sym_cache e).
Definition set_addr2sym_cache (c : gmap Z (sym * Z)) (e : elfsym_t) : elfsym_t :=
  mkElfsym (strtab e) (symtab e) (nr_symtab_entry e) (strtab_size e) (Some c).

Definition elfsym_release (e : elfsym_t) : elfsym_t :=
  mkElfsym None None 0 0 (addr2sym_cache e).

(** ** elfsym_load *)
Definition dot_symtab : list Z := [0x2e; 0x73; 0x79; 0x6d; 0x74; 0x61; 0x62].
Definition dot_strtab : list Z := [0x2e; 0x73; 0x74; 0x72; 0x74; 0x61; 0x62].

(** sh[i].sh_type == type && strcmp(shstrtab + sh[i].sh_name, name) == 0 *)
Definition section_is (sh shstrtab : list Z) (base type : Z) (name : list Z) : M elfsym_t bool :=
  let! t := field_at sh base sh_type in
  if t =? type then let! n := field_at sh base sh_name in streq shstrtab n name else ret false.

Definition load_section (file sh shstrtab : list Z) (i : Z) : M elfsym_t unit :=
  let base := i * SIZEOF_SHDR in
  let! is_symtab := section_is sh shstrtab base SHT_SYMTAB dot_symtab in
  if is_symtab then
    let! offset := field_at sh base sh_offset in
    let! size := field_at sh base sh_size in
    let! data := fread1 file offset size in
    modify (set_symtab data (size / SIZEOF_SYM))
  else
    let! is_strtab := section_is sh shstrtab base SHT_STRTAB dot_strtab in
    when is_strtab
      (let! offset := field_at sh base sh_offset in
       let! size := field_at sh base sh_size in
       let! data := fread1 file offset size in
       modify (set_strtab data (s32 size))).

Fixpoint load_sections (file sh shstrtab : list Z) (n : nat) (i : Z) : M elfsym_t unit :=
  match n with
  | O => ret tt
  | S n => load_section file sh shstrtab i ;; load_sections file sh shstrtab n (i + 1)
  end.

Definition elfsym_load (elf_file : option (list Z)) : M elfsym_t unit :=
  modify elfsym_release ;;
  match elf_file with
  | None => stop HPanic
  | Some file =>
      let! elf := fread1 file 0 SIZEOF_EHDR in
      let! magic := buf_at elf 0 4 in
      ensure (magic =? elf_magic) HAssert ;;
      let! shentsize := field_at elf 0 e_shentsize in
      let! shnum := field_at elf 0 e_shnum in
      ensure (shentsize * shnum <? 2 ^ 31) HUndefined ;;
      let! shoff := field_at elf 0 e_shoff in
      let! sh := fread1 file shoff (shentsize * shnum) in
      let! shstrndx := field_at elf 0 e_shstrndx in
      let! size := field_at sh (shstrndx * SIZEOF_SHDR) sh_size in
      let! offset := field_at sh (shstrndx * SIZEOF_SHDR) sh_offset in
      let! shstrtab := fread1 file offset size in
      load_sections file sh shstrtab (Z.to_nat shnum) 0 ;;
      let! e := get in
      ensure (bool_decide (is_Some (strtab e)) && bool_decide (is_Some (symtab e))) HAssert
  end.

(** ** Looking symbols up *)
(** A member of entry [i] of the symbol table. *)
Definition sym_field (i : Z) (f : Z * Z) : M elfsym_t Z :=
  let! e := get in
  match symtab e with
  | Some t => field_at t (i * SIZEOF_SYM) f
  | None => stop HUndefined
  end.

(** The offset of the name of entry [i]. *)
Definition sym_name (i : Z) : M elfsym_t Z :=
  let! name := sym_field i st_name in
  let! e := get in
  ensure (s32 name <? strtab_size e) HAssert ;; ret (s32 name).

Fixpoint get_addr_loop (symbol : list Z) (n : nat) (i : Z) : M elfsym_t Z :=
  match n with
  | O => ret 0
  | S n =>
      let! info := sym_field i st_info in
      if negb (ELF32_ST_TYPE info =? STT_FUNC) then get_addr_loop symbol n (i + 1)
      else
        let! name := sym_name i in
        let! e := get in
        let! same := streq (default [] (strtab e)) name symbol in
        if same then sym_field i st_value else get_addr_loop symbol n (i + 1)
  end.

Definition elfsym_get_addr (symbol : list Z) : M elfsym_t Z :=
  let! e := get in get_addr_loop symbol (Z.to_nat (nr_symtab_entry e)) 0.

Fixpoint find_symbol_loop (addr : Z) (n : nat) (i : Z) : M elfsym_t sym :=
  match n with
  | O => ret SymUnknown
  | S n =>
      let! value := sym_field i st_value in
      let! size := sym_field i st_size in
      if negb ((value <=? addr) && (addr <? u32 (value + size))) then find_symbol_loop addr n (i + 1)
      else
        let! info := sym_field i st_info in
        if negb (ELF32_ST_TYPE info =? STT_FUNC) then find_symbol_loop addr n (i + 1)
        else let! name := sym_name i in ret (SymName name)
  end.

Definition cache_entry (c : gmap Z (sym * Z)) (idx : Z) : sym * Z := default (SymNull, 0) (c !! idx).
Definition sym_cache_index (addr : Z) : Z := Z.land addr (Z.shiftl 1 ADDR2SYM_CACHE_BITS - 1).
(** if (elfsym->addr2sym_cache) addr2sym_cache[idx] = {sym, addr} *)
Definition cache_symbol (addr : Z) (s : sym) : M elfsym_t unit :=
  let! e := get in
  match addr2sym_cache e with
  | Some c => modify (set_addr2sym_cache (<[sym_cache_index addr := (s, addr)]> c))
  | None => ret tt
  end.

Definition elfsym_find_symbol (addr : Z) : M elfsym_t sym :=
  let! e := get in
  let search :=
    let! s := find_symbol_loop addr (Z.to_nat (nr_symtab_entry e)) 0 in
    cache_symbol addr s ;; ret s in
  match addr2sym_cache e with
  | Some c =>
      let hit := cache_entry c (sym_cache_index addr) in
      if snd hit =? addr then ret (fst hit) else search
  | None => search
  end.

Definition elfsym_optimize_find_symbol (e : elfsym_t) : elfsym_t := set_addr2sym_cache ∅ e.
