(* ===== verification/Monitor.v ===== *)
(** * Loading a program (src/monitor/monitor.c)

    The loaders that put an ELF file or a raw image into the memory of the emulated
    machine, the boot stub, and init_monitor.  A file is the list of its bytes, as
    read_file returns it; reading past the end of that buffer, or writing past the array
    of a memory device, is undefined. *)
From S2P Require Import Prelude Config Reg Fifo Ram Flash Sdlkey Machine Ulite Spi Device Mmu Memory.
From S2P Require Import ExecAlu ExecMdu ExecMem Softfloat ExecFloat Decode Cpu Elfsym.
Local Open Scope nemu_scope.

Definition CPU_INIT_PC : Z := 0xbfc00000.

(** ** Memory devices as host arrays *)
(** The bytes of the array behind a pointer that vaddr_map returned. *)
Definition array_size (d : dev) : Z :=
  match d with bram_dev => Bram.BRAM_SIZE | ddr_dev => Ddr.DDR_SIZE | _ => 0 end.
Definition in_array (p : dev * Z) (len : Z) : bool :=
  (0 <=? snd p) && (0 <=? len) && (snd p + len <=? array_size (fst p)).
Definition put_array (p : dev * Z) (data : list Z) : EM unit :=
  let! m := get in
  match fst p with
  | bram_dev => modify (set_bram (st_buf (bram m) (snd p) data))
  | ddr_dev => modify (set_ddr (st_buf (ddr m) (snd p) data))
  | _ => stop HUndefined
  end.
Definition host_memcpy (p : dev * Z) (buf : list Z) (off len : Z) : EM unit :=
  ensure (in_buf buf off len && in_array p len) HUndefined ;;
  put_array p (slice buf off len).
Definition host_memset (p : dev * Z) (c len : Z) : EM unit :=
  ensure (in_array p len) HUndefined ;; put_array p (replicate (Z.to_nat len) c).
Definition ptr_add (p : dev * Z) (n : Z) : dev * Z := (fst p, snd p + n).

Section Monitor.
Context {cfg : Config}.

(** lui t0, %hi(entry); ori t0, t0, %lo(entry); jr t0; nop *)
Definition load_rom (entry : Z) : EM unit :=
  let! p := vaddr_map CPU_INIT_PC 16 in
  host_store (Some p) 0 4 (Z.lor 0x3c080000 (Z.shiftr entry 16)) ;;
  host_store (Some p) 4 4 (Z.lor 0x35080000 (Z.land entry 0xFFFF)) ;;
  host_store (Some p) 8 4 0x01000008 ;;
  host_store (Some p) 12 4 0x00000000.

(** One turn of the loop over the program headers. *)
Definition load_segment (buf : list Z) (i : Z) : EM unit :=
  let size := s32 (Z.of_nat (length buf)) in
  let! phentsize := field_at buf 0 e_phentsize in
  let! phoff := field_at buf 0 e_phoff in
  ensure (i * phentsize <? 2 ^ 31) HUndefined ;;
  let phdr_off := s32 (i * phentsize + phoff) in
  ensure (phdr_off <? size) HPanic ;;
  let! offset := field_at buf phdr_off p_offset in
  ensure (offset <? u32 size) HPanic ;;
  let! type := field_at buf phdr_off p_type in
  when (type =? PT_LOAD)
    (let! vaddr := field_at buf phdr_off p_vaddr in
     let! memsz := field_at buf phdr_off p_memsz in
     let! filesz := field_at buf phdr_off p_filesz in
     let! ptr := vaddr_map vaddr memsz in
     host_memcpy ptr buf offset filesz ;;
     host_memset (ptr_add ptr filesz) 0 (u32 (memsz - filesz))).

Fixpoint load_segments (buf : list Z) (n : nat) (i : Z) : EM unit :=
  match n with
  | O => ret tt
  | S n => load_segment buf i ;; load_segments buf n (i + 1)
  end.

(** Returns elf_entry.  [elf_file] is what read_file returned. *)
Definition load_elf (elf_file : option (list Z)) : EM Z :=
  match elf_file with
  | None => stop HPanic
  | Some buf =>
      let! entry := field_at buf 0 e_entry in
      let! magic := buf_at buf 0 4 in
      ensure (magic =? elf_magic) HPanic ;;
      let! class := field_at buf 0 EI_CLASS in
      ensure (class =? ELFCLASS32) HPanic ;;
      let! data := field_at buf 0 EI_DATA in
      ensure (data =? ELFDATA2LSB) HPanic ;;
      let! machine := field_at buf 0 e_machine in
      ensure (machine =? EM_MIPS) HPanic ;;
      let! phnum := field_at buf 0 e_phnum in
      load_segments buf (Z.to_nat phnum) 0 ;;
      when (negb (entry =? CPU_INIT_PC)) (load_rom entry) ;;
      ret entry
  end.

(** A raw image; a file that cannot be opened gives a null buffer. *)
Definition load_image (img : option (list Z)) (vaddr : Z) : EM unit :=
  match img with
  | None => stop HUndefined
  | Some buf =>
      let size := Z.of_nat (length buf) in
      let! ptr := vaddr_map vaddr (u32 size) in
      host_memcpy ptr buf 0 size
  end.

(** The file given with -e or with -i, the file of the symbols (-s, by default that of -e),
    and the boot command line.  A build without CONFIG_ELF_PERF; the handler of SIGINT is
    the host's. *)
Inductive program : Type := ElfFile (f : option (list Z)) | ImgFile (f : option (list Z)) | NoFile.
Definition lift_elfsym {A} (k : M elfsym_t A) (e : elfsym_t) : EM (A * elfsym_t) := fun m =>
  match k e with
  | Ok a e' => Ok (a, e') m
  | Exit _ => Exit m
  | Stop h _ => Stop h m
  end.
Definition init_monitor (prog : program) (symbol_file : option (option (list Z)))
    (boot_cmdline : option (list Z)) (elfsym : elfsym_t) : EM (Z * elfsym_t) :=
  let! entry :=
    match prog with
    | ElfFile f => load_elf f
    | ImgFile f => load_image f CPU_INIT_PC ;; ret CPU_INIT_PC
    | NoFile => stop HPanic
    end in
  let! e :=
    match symbol_file with
    | Some f => lift_elfsym (elfsym_load f) elfsym
    | None => ret (tt, elfsym)
    end in
  init_cpu CPU_INIT_PC boot_cmdline ;;
  ret (entry, snd e).
End Monitor.
