(* ===== verification/GdbProto.v ===== *)
(** * GDB remote protocol (src/utils/gdbstub/gdb-proto.c)

    Packets between the emulator and a debugger: hexadecimal digits, framing with a
    checksum, escapes and run lengths, acknowledgements.  A connection is the list of bytes
    that fgetc will still read, EOF after them, and the bytes written so far; opening
    sockets is left out.  A write past the end of the malloc'ed buffer is undefined. *)
From S2P Require Import Prelude.
Local Open Scope nemu_scope.

Record gdb_conn := mkConn { gin : list Z; gout : list Z; gack : bool }.
Definition set_gin (v : list Z) (c : gdb_conn) : gdb_conn := mkConn v (gout c) (gack c).
Definition set_gack (v : bool) (c : gdb_conn) : gdb_conn := mkConn (gin c) (gout c) v.

(** ** Characters *)
Definition EOF : Z := -1.
Definition ch_dollar : Z := 36.
Definition ch_hash : Z := 35.
Definition ch_brace : Z := 125.
Definition ch_star : Z := 42.
Definition ch_plus : Z := 43.
Definition ch_minus : Z := 45.

(** ctype.h in the C locale *)
Definition isdigit (c : Z) : bool := (48 <=? c) && (c <=? 57).
Definition isxdigit (c : Z) : bool :=
  isdigit c || ((97 <=? c) && (c <=? 102)) || ((65 <=? c) && (c <=? 70)).
Definition tolower (c : Z) : Z := if (65 <=? c) && (c <=? 90) then c + 32 else c.

Definition hex_nibble (hex : Z) : Z := u8 (if isdigit hex then hex - 48 else tolower hex - 97 + 10).
Definition hex_encode (digit : Z) : Z := u8 (if 9 <? digit then 97 + digit - 10 else 48 + digit).

Definition UINT16_MAX : Z := 0xFFFF.
Definition gdb_decode_hex (msb lsb : Z) : Z :=
  if negb (isxdigit msb) || negb (isxdigit lsb) then UINT16_MAX
  else u16 (16 * hex_nibble msb + hex_nibble lsb).

(** [bytes] is a string, given without its NUL. *)
Fixpoint decode_hex_loop (bytes : list Z) (value weight : Z) : Z :=
  match bytes with
  | a :: b :: bytes =>
      if isxdigit a && isxdigit b
      then decode_hex_loop bytes (u64 (value + weight * gdb_decode_hex a b)) (u64 (weight * (16 * 16)))
      else value
  | _ => value
  end.
Definition gdb_decode_hex_str (bytes : list Z) : Z := decode_hex_loop bytes 0 1.

(** ** Streams *)
Definition fgetc : M gdb_conn Z :=
  let! c := get in
  match gin c with
  | [] => ret EOF
  | x :: l => modify (set_gin l) ;; ret x
  end.
Definition fwrite (l : list Z) : M gdb_conn unit :=
  modify (fun c => mkConn (gin c) (gout c ++ l) (gack c)).

(** A client starts by acknowledging earlier input, a server does not. *)
Definition gdb_begin (input : list Z) : gdb_conn := mkConn input [ch_plus] true.
Definition gdb_begin_server (input : list Z) : gdb_conn := mkConn input [] true.

(** ** Sending *)
Definition byte_sum (l : list Z) : Z := foldl (fun sum c => u8 (sum + c)) 0 l.
(** A digit of printf's %X *)
Definition hex_upper (d : Z) : Z := if 9 <? d then 65 + d - 10 else 48 + d.
Definition print_02X (x : Z) : list Z := [hex_upper (Z.shiftr x 4); hex_upper (Z.land x 0xf)].

Definition send_packet (command : list Z) : M gdb_conn unit :=
  let sum := byte_sum command in
  fwrite [ch_dollar] ;; fwrite command ;; fwrite (ch_hash :: print_02X sum).

(** Every turn that fails reads one byte; once the peer has closed the connection the code
    goes on sending until a write fails, which ends the process. *)
Fixpoint gdb_send_loop (n : nat) (command : list Z) : M gdb_conn unit :=
  match n with
  | O => stop HPanic
  | S n =>
      send_packet command ;;
      let! c := get in
      if negb (gack c) then ret tt
      else
        let! ch := fgetc in
        if ch =? ch_plus then ret tt else gdb_send_loop n command
  end.
Definition gdb_send (command : list Z) : M gdb_conn unit :=
  let! c := get in gdb_send_loop (S (length (gin c))) command.

(** ** Receiving *)
(** while ((c = fgetc(in)) != EOF && c != '$'); *)
Fixpoint skip_to_start (input : list Z) : list Z :=
  match input with
  | [] => []
  | c :: input => if c =? ch_dollar then input else skip_to_start input
  end.

(** The byte fgetc gives, narrowed to uint8_t. *)
Definition next_u8 (input : list Z) : Z * list Z :=
  match input with [] => (u8 EOF, []) | c :: input => (c, input) end.

(** The main loop: the input left, the first [i] bytes of reply, its size. *)
Fixpoint recv_loop (input reply : list Z) (size sum : Z) (escape : bool) : res (list Z) (list Z * bool) :=
  match input with
  | [] => Stop HExit []
  | c :: input =>
      let i := Z.of_nat (length reply) in
      let sum := u8 (sum + c) in
      (* the statements after the switch *)
      let add :=
        let c := if escape then Z.lxor c 0x20 else c in
        let size := if i =? size then u64 (size * 2) else size in
        if i <? size then recv_loop input (reply ++ [c]) size sum false else Stop HUndefined input in
      if c =? ch_dollar then recv_loop input [] size 0 false
      else if c =? ch_hash then
        let sum := u8 (sum - c) in
        let (msb, input) := next_u8 input in
        let (lsb, input) := next_u8 input in
        let size := if i =? size then u64 (size + 1) else size in
        if i <? size then Ok (reply, sum =? gdb_decode_hex msb lsb) input else Stop HUndefined input
      else if c =? ch_brace then recv_loop input reply size sum true
      else if (c =? ch_star) && (0 <? i) then
        match input with
        | [] => add
        | c2 :: input' =>
            if (c2 <? 29) || (126 <? c2) || (c2 =? ch_dollar) || (c2 =? ch_hash) then add
            else
              let count := c2 - 29 in
              let size := if size <? i + count then u64 (size * 2) else size in
              if i + count <=? size
              then recv_loop input' (reply ++ replicate (Z.to_nat count) (List.last reply 0)) size (u8 (sum + c2)) escape
              else Stop HUndefined input
        end
      else add
  end.

(** The packet and whether its checksum is right. *)
Definition recv_packet : M gdb_conn (list Z * bool) := fun c =>
  match recv_loop (skip_to_start (gin c)) [] 4096 0 false with
  | Ok r input => Ok r (set_gin input c)
  | Exit input => Exit (set_gin input c)
  | Stop h input => Stop h (set_gin input c)
  end.

(** A turn reads at least one byte or ends the process. *)
Fixpoint gdb_recv_loop (n : nat) : M gdb_conn (list Z) :=
  match n with
  | O => stop HUndefined
  | S n =>
      let! r := recv_packet in
      let! c := get in
      if negb (gack c) then ret (fst r)
      else
        fwrite [if snd r then ch_plus else ch_minus] ;;
        if snd r then ret (fst r) else gdb_recv_loop n
  end.
Definition gdb_recv : M gdb_conn (list Z) :=
  let! c := get in gdb_recv_loop (S (length (gin c))).

(** "QStartNoAckMode" and "OK" *)
Definition start_noack_cmd : list Z :=
  [0x51; 0x53; 0x74; 0x61; 0x72; 0x74; 0x4e; 0x6f; 0x41; 0x63; 0x6b; 0x4d; 0x6f; 0x64; 0x65].
Definition reply_OK : list Z := [0x4f; 0x4b].
Definition gdb_start_noack : M gdb_conn (list Z) :=
  gdb_send start_noack_cmd ;;
  let! reply := gdb_recv in
  let ok := bool_decide (reply = reply_OK) in
  when ok (modify (set_gack false)) ;;
  ret (if ok then reply_OK else []).
