(* ===== verification/GdbServer.v ===== *)
(** * GDB server (src/utils/gdbstub/gdb-server.c)

    The commands of the remote protocol that read and write registers and memory, set
    breakpoints, step and continue, over the packets of GdbProto.v.  Strings are lists of
    bytes without their NUL; [None] is a null pointer.  Using a null string, reading past
    the end of the request and indexing outside an array are undefined. *)
From Stdlib Require Import Ascii String.
From S2P Require Import Prelude Config Reg Fifo Ram Flash Sdlkey Machine Ulite Spi Device Mmu Memory.
From S2P Require Import ExecAlu ExecMdu ExecMem Softfloat ExecFloat Decode Cpu GdbProto.
Local Open Scope nemu_scope.

(** ** Literals *)
Definition bytes (s : string) : list Z := map (fun c => Z.of_nat (nat_of_ascii c)) (list_ascii_of_string s).
(** A text with ` for the double quote and ~ for the newline. *)
Definition xml (l : list string) : list Z :=
  map (fun c => if c =? 96 then 34 else if c =? 126 then 10 else c) (concat (map bytes l)).

Definition target_xml : list Z := xml [
  "l<?xml version=`1.0`?>";
  "<!DOCTYPE target SYSTEM `gdb-target.dtd`>";
  "<target>";
  "<architecture>mips</architecture>";
  "<xi:include href=`mips-32bit.xml`/>";
  "</target>"]%string.
Definition mips_32bit_xml : list Z := xml [
  "l<?xml version=`1.0`?>~";
  "<!-- Copyright (C) 2010-2017 Free Software ";
  "Foundation, Inc.~";
  "~";
  "     Copying and distribution of this file, with or ";
  "without modification,~";
  "     are permitted in any medium without royalty ";
  "provided the copyright~";
  "     notice and this notice are preserved.  -->~";
  "~";
  "<!-- MIPS32 with CP0 -->~";
  "~";
  "<!DOCTYPE target SYSTEM `gdb-target.dtd`>~";
  "<feature name=`org.gnu.gdb.mips.32bit`>~";
  "  <xi:include href=`mips-32bit-cpu.xml`/>~";
  "  <xi:include href=`mips-32bit-cp0.xml`/>~";
  "</feature>"]%string.
Definition mips_32bit_cpu_xml : list Z := xml [
  "l<?xml version=`1.0`?>~";
  "<!-- Copyright (C) 2010-2015 Free Software ";
  "Foundation, Inc.~";
  "~";
  "     Copying and distribution of this file, with or ";
  "without modification,~";
  "     are permitted in any medium without royalty ";
  "provided the copyright~";
  "     notice and this notice are preserved.  -->~";
  "~";
  "<!DOCTYPE feature SYSTEM `gdb-target.dtd`>~";
  "<feature name=`org.gnu.gdb.mips.cpu`>~";
  "  <reg name=`zero` bitsize=`32` type=`int32`/>~";
  "  <reg name=`at` bitsize=`32` type=`int32`/>~";
  "  <reg name=`v0` bitsize=`32` type=`int32`/>~";
  "  <reg name=`v1` bitsize=`32` type=`int32`/>~";
  "  <reg name=`a0` bitsize=`32` type=`int32`/>~";
  "  <reg name=`a1` bitsize=`32` type=`int32`/>~";
  "  <reg name=`a2` bitsize=`32` type=`int32`/>~";
  "  <reg name=`a3` bitsize=`32` type=`int32`/>~";
  "  <reg name=`t0` bitsize=`32` type=`int32`/>~";
  "  <reg name=`t1` bitsize=`32` type=`int32`/>~";
  "  <reg name=`t2` bitsize=`32` type=`int32`/>~";
  "  <reg name=`t3` bitsize=`32` type=`int32`/>~";
  "  <reg name=`t4` bitsize=`32` type=`int32`/>~";
  "  <reg name=`t5` bitsize=`32` type=`int32`/>~";
  "  <reg name=`t6` bitsize=`32` type=`int32`/>~";
  "  <reg name=`t7` bitsize=`32` type=`int32`/>~";
  "  <reg name=`s0` bitsize=`32` type=`int32`/>~";
  "  <reg name=`s1` bitsize=`32` type=`int32`/>~";
  "  <reg name=`s2` bitsize=`32` type=`int32`/>~";
  "  <reg name=`s3` bitsize=`32` type=`int32`/>~";
  "  <reg name=`s4` bitsize=`32` type=`int32`/>~";
  "  <reg name=`s5` bitsize=`32` type=`int32`/>~";
  "  <reg name=`s6` bitsize=`32` type=`int32`/>~";
  "  <reg name=`s7` bitsize=`32` type=`int32`/>~";
  "  <reg name=`t8` bitsize=`32` type=`int32`/>~";
  "  <reg name=`t9` bitsize=`32` type=`int32`/>~";
  "  <reg name=`k0` bitsize=`32` type=`int32`/>~";
  "  <reg name=`k1` bitsize=`32` type=`int32`/>~";
  "  <reg name=`gp` bitsize=`32` ";
  "type=`data_ptr`/>~";
  "  <reg name=`sp` bitsize=`32` ";
  "type=`data_ptr`/>~";
  "  <reg name=`fp` bitsize=`32` ";
  "type=`data_ptr`/>~";
  "  <reg name=`ra` bitsize=`32` type=`int32`/>~";
  "</feature>~"]%string.
Definition mips_32bit_cp0_xml : list Z := xml [
  "l<?xml version=`1.0`?>~";
  "<!-- Copyright (C) 2010-2015 Free Software ";
  "Foundation, Inc.~";
  "~";
  "     Copying and distribution of this file, with or ";
  "without modification,~";
  "     are permitted in any medium without royalty ";
  "provided the copyright~";
  "     notice and this notice are preserved.  -->~";
  "~";
  "<!DOCTYPE feature SYSTEM `gdb-target.dtd`>~";
  "<feature name=`org.gnu.gdb.mips.cp0`>~";
  "  <reg name=`sr` bitsize=`32` type=`int32`/>~";
  "  <reg name=`lo` bitsize=`32` type=`int32`/>~";
  "  <reg name=`hi` bitsize=`32` type=`int32`/>~";
  "  <reg name=`bad` bitsize=`32` type=`int32`/>~";
  "  <reg name=`cause` bitsize=`32` ";
  "type=`int32`/>~";
  "  <reg name=`pc` bitsize=`32` ";
  "type=`code_ptr`/>~";
  "  <reg name=`epc` bitsize=`32` ";
  "type=`code_ptr`/>~";
  "</feature>~"]%string.

(** ** string.h and stdio.h *)
Fixpoint drop_while (p : Z -> bool) (l : list Z) : list Z :=
  match l with [] => [] | c :: r => if p c then drop_while p r else l end.
Fixpoint take_while (p : Z -> bool) (l : list Z) : list Z :=
  match l with [] => [] | c :: r => if p c then c :: take_while p r else [] end.

(** The string that starts a buffer. *)
Definition c_str (buf : list Z) : list Z := take_while (fun c => negb (c =? 0)) buf.
Definition strchr (s : list Z) (c : Z) : option (list Z) :=
  match drop_while (fun x => negb (x =? c)) s with [] => None | r => Some r end.
Definition strncmp_eq (s t : list Z) (n : nat) : bool := bool_decide (take n s = take n t).
(** A token and what the next call continues with. *)
Definition strtok (s : list Z) (delim : Z) : option (list Z) * list Z :=
  let s := drop_while (fun x => x =? delim) s in
  match s with
  | [] => (None, [])
  | _ => (Some (take_while (fun x => negb (x =? delim)) s),
          tail (drop_while (fun x => negb (x =? delim)) s))
  end.

Definition isspace (c : Z) : bool := (c =? 32) || ((9 <=? c) && (c <=? 13)).
(** strtoul(digits, NULL, 16) of digits after a sign. *)
Definition hex_value (neg : bool) (digits : list Z) : Z :=
  let v := foldl (fun v c => v * 16 + hex_nibble c) 0 digits in
  if 2 ^ 64 <=? v then 2 ^ 64 - 1 else if neg then u64 (- v) else v.
(** A conversion %x of sscanf, with an optional width: blanks are skipped, then a sign, a
    prefix 0x and digits; the value stored and what is left of the input. *)
Definition scan_x (width : option nat) (s : list Z) : option (Z * list Z) :=
  let s := drop_while isspace s in
  let win := match width with Some n => take n s | None => s end in
  let '(neg, d) :=
    match win with
    | c :: r => if c =? 45 then (true, r) else if c =? 43 then (false, r) else (false, win)
    | [] => (false, [])
    end in
  let '(prefix, d) :=
    match d with
    | z :: x :: r => if (z =? 48) && (tolower x =? 120) then (true, r) else (false, d)
    | _ => (false, d)
    end in
  let digits := take_while isxdigit d in
  if prefix || negb (bool_decide (digits = [])) then
    Some (u32 (hex_value neg digits), drop (length win - length (drop_while isxdigit d)) s)
  else None.
(** The literal that follows a conversion. *)
Definition scan_lit (c : Z) (s : list Z) : option (list Z) :=
  match s with x :: r => if x =? c then Some r else None | [] => None end.
(** sscanf(s, "%x,%x", &a, &b) and sscanf(s, "%x,%x,%x", ...) with the variables zeroed. *)
Definition scan2 (s : list Z) : Z * Z :=
  match scan_x None s with
  | None => (0, 0)
  | Some (a, r) =>
      match scan_lit 44 r with
      | None => (a, 0)
      | Some r => match scan_x None r with None => (a, 0) | Some (b, _) => (a, b) end
      end
  end.
Definition scan1 (s : list Z) : Z := match scan_x None s with None => 0 | Some (a, _) => a end.
(** The second value of "%x,%x,%x". *)
Definition scan_addr (s : list Z) : Z := snd (scan2 s).

(** printf("%0nx", v) of a value that fits n digits. *)
Fixpoint print_x (n : nat) (v : Z) : list Z :=
  match n with O => [] | S n => hex_encode (Z.land (Z.shiftr v (4 * Z.of_nat n)) 0xF) :: print_x n v end.
Definition htonl (v : Z) : Z :=
  Z.lor (Z.lor (Z.shiftl (Z.land v 0xFF) 24) (Z.shiftl (Z.land (Z.shiftr v 8) 0xFF) 16))
        (Z.lor (Z.shiftl (Z.land (Z.shiftr v 16) 0xFF) 8) (Z.land (Z.shiftr v 24) 0xFF)).

(** ** State *)
Definition NR_BREAK_POINTS : nat := 32.
Record break_point_t := mkBp { bp_used : bool; bp_addr : Z; bp_value : Z }.
(** The connection, the emulated machine, the breakpoints and the static buffer of
    gdb_read_memory. *)
Record gdb_server := mkGs {
  gs_conn : gdb_conn;
  gs_m : machine;
  break_points : list break_point_t;
  gs_mem : list Z
}.
Definition set_gs_conn (v : gdb_conn) (s : gdb_server) : gdb_server := mkGs v (gs_m s) (break_points s) (gs_mem s).
Definition set_gs_m (v : machine) (s : gdb_server) : gdb_server := mkGs (gs_conn s) v (break_points s) (gs_mem s).
Definition set_gs_mem (v : list Z) (s : gdb_server) : gdb_server := mkGs (gs_conn s) (gs_m s) (break_points s) v.
Definition set_bp (i : nat) (b : break_point_t) (s : gdb_server) : gdb_server :=
  mkGs (gs_conn s) (gs_m s) (<[i := b]> (break_points s)) (gs_mem s).
Abbreviation GM := (M gdb_server).
Abbreviation on_conn := (zoom gs_conn set_gs_conn).
Abbreviation on_machine := (zoom gs_m set_gs_m).

Section Handlers.
Context {cfg : Config}.
(** cpu_exec(-1) makes up to 2^64 - 1 turns; [forever] is the number it is cut to. *)
Context (forever : nat).

(** ** Queries *)
Definition gdb_question (args : list Z) : GM (option (list Z)) := ret (Some (bytes "T05thread:01;")).

(** &file[offset], with an int as the offset. *)
Definition xml_from (file : list Z) (offset : Z) : GM (option (list Z)) :=
  ensure ((0 <=? offset) && (offset <=? Z.of_nat (length file))) HUndefined ;;
  ret (Some (drop (Z.to_nat offset) file)).

(** [rest] is what strtok continues with. *)
Definition gdb_xfer_handler (category : option (list Z)) (rest : list Z) : GM (option (list Z)) :=
  if match category with None => true | Some c => bool_decide (c = bytes "features") end then
    let (op, rest) := strtok rest 58 in
    if negb (bool_decide (op = Some (bytes "read"))) then ret None
    else
      let (file, rest) := strtok rest 58 in
      let (offset_s, _) := strtok rest 58 in
      match offset_s with
      | None => stop HUndefined
      | Some offset_s =>
          let offset := s32 (scan1 offset_s) in
          match file with
          | None => ret (Some [])
          | Some file =>
              if bool_decide (file = bytes "target.xml") then xml_from target_xml offset
              else if bool_decide (file = bytes "mips-32bit.xml") then xml_from mips_32bit_xml offset
              else if bool_decide (file = bytes "mips-32bit-cpu.xml") then xml_from mips_32bit_cpu_xml offset
              else if bool_decide (file = bytes "mips-32bit-cp0.xml") then xml_from mips_32bit_cp0_xml offset
              else ret (Some [])
          end
      end
  else ret None.

Definition gdb_general_query (args : list Z) : GM (option (list Z)) :=
  match strtok (c_str args) 58 with
  | (None, _) => stop HUndefined
  | (Some kind, rest) =>
      if bool_decide (kind = bytes "Supported") then ret (Some (bytes "PacketSize=1000;qXfer:features:read+"))
      else if bool_decide (kind = bytes "MustReplyEmpty") then ret (Some [])
      else if bool_decide (kind = bytes "Xfer") then
        let (category, rest) := strtok rest 58 in gdb_xfer_handler category rest
      else if bool_decide (kind = bytes "Attached") then ret (Some (bytes "1"))
      else if bool_decide (kind = bytes "fThreadInfo") then ret (Some (bytes "m1"))
      else if bool_decide (kind = bytes "sThreadInfo") then ret (Some (bytes "l"))
      else if bool_decide (kind = bytes "Symbol") then ret (Some (bytes "OK"))
      else if bool_decide (kind = bytes "TStatus") then ret (Some [])
      else ret None
  end.

(** ** Execution *)
Definition vcont_action (action : Z) : EM unit :=
  if action =? 99 then
    let! m := get in
    let! instr := dbg_vaddr_read (pc (cpu m)) 4 in
    let! ninstr := dbg_vaddr_read (u32 (pc (cpu m) + 4)) 4 in
    if (instr =? 0x42000018) && (ninstr =? 0x0005000d) then cpu_exec 1
    else cpu_exec forever ;; upd_cpu (fun c => set_pc (u32 (pc c - 4)) c)
  else if action =? 115 then cpu_exec 1
  else ret tt.

(** [args] starts at the semicolon; a turn goes past it. *)
Fixpoint vcont_loop (n : nat) (args : list Z) (action : Z) : EM unit :=
  match n with
  | O => ret tt
  | S n =>
      let args := tail args in
      let action := match args with c :: _ => c | [] => action end in
      vcont_action action ;;
      match strchr args 59 with Some args => vcont_loop n args action | None => ret tt end
  end.
Definition gdb_vCont_handler (args : list Z) : GM (option (list Z)) :=
  if bool_decide (args = bytes "?") then ret (Some (bytes "vCont;c;C;s;S"))
  else
    match args with
    | c :: _ =>
        if c =? 59 then on_machine (vcont_loop (length args) args 0) ;; ret (Some (bytes "T05thread:01;"))
        else ret None
    | [] => ret None
    end.

Definition gdb_extend_commands (args : list Z) : GM (option (list Z)) :=
  let args := c_str args in
  if bool_decide (args = bytes "MustReplyEmpty") then ret (Some [])
  else if strncmp_eq args (bytes "Cont") 4 then gdb_vCont_handler (drop 4 args)
  else if strncmp_eq args (bytes "File") 4 then ret (Some [])
  else ret None.

Definition gdb_continue (args : list Z) : GM (option (list Z)) := ret None.

(** ** Registers *)
(** snprintf(..., "%08x", htonl(v)) *)
Definition print_reg (v : Z) : list Z := print_x 8 (htonl v).

Definition gdb_read_registers (args : list Z) : GM (option (list Z)) :=
  let! s := get in
  let c := cpu (gs_m s) in
  let cpr r := cpr_get (cp0 c) r 0 in
  ret (Some (concat (map print_reg
    (map (gpr_at c) (map Z.of_nat (seq 0 32)) ++
     [cpr CP0_STATUS; lo c; hi c; cpr CP0_BADVADDR; cpr CP0_CAUSE; pc c])))).

Definition gdb_write_registers (args : list Z) : GM (option (list Z)) := ret None.
Definition gdb_set_thread (args : list Z) : GM (option (list Z)) := ret (Some (bytes "OK")).
Definition gdb_step (args : list Z) : GM (option (list Z)) := ret None.

Definition gdb_read_register (args : list Z) : GM (option (list Z)) :=
  let reg_no := s32 (scan1 (c_str args)) in
  let! s := get in
  let c := cpu (gs_m s) in
  let cpr r := cpr_get (cp0 c) r 0 in
  if reg_no <? 32 then
    ensure (0 <=? reg_no) HUndefined ;; ret (Some (print_reg (gpr_at c reg_no)))
  else
    let value :=
      if reg_no =? 0x20 then 0
      else if reg_no =? 0x21 then lo c
      else if reg_no =? 0x22 then hi c
      else if reg_no =? 0x23 then cpr CP0_BADVADDR
      else if reg_no =? 0x24 then cpr CP0_CAUSE
      else if reg_no =? 0x25 then pc c
      else if reg_no =? 0x26 then cpr CP0_EPC
      else 0 in
    ret (Some (print_reg value)).

Definition gdb_write_register (args : list Z) : GM (option (list Z)) := ret None.
Definition gdb_reset (args : list Z) : GM (option (list Z)) := ret None.
Definition gdb_single_step (args : list Z) : GM (option (list Z)) := ret None.
Definition gdb_detach (args : list Z) : GM (option (list Z)) := ret (Some (bytes "OK")).

(** ** Memory *)
Definition MEM_SIZE : Z := 4096.
(** [text] is what the buffer holds; a negative size left wraps around, and snprintf
    then writes past the buffer. *)
Fixpoint read_memory_loop (n : nat) (addr len : Z) (text : list Z) : GM (Z * list Z) :=
  match n with
  | O => ret (len, text)
  | S n =>
      let! data := on_machine (dbg_vaddr_read addr 1) in
      ensure (len <=? MEM_SIZE) HUndefined ;;
      read_memory_loop n (u32 (addr + 1)) (len + 2) (text ++ print_x 2 (Z.land data 0xFF))
  end.
Definition gdb_read_memory (args : list Z) : GM (option (list Z)) :=
  let '(addr, size) := scan2 (c_str args) in
  let! r := read_memory_loop (Z.to_nat size) addr 0 [] in
  ensure (fst r <? MEM_SIZE) HAssert ;;
  when (negb (size =? 0)) (modify (set_gs_mem (snd r))) ;;
  let! s := get in ret (Some (gs_mem s)).

(** [hex] points at the character before the digits. *)
Fixpoint write_memory_loop (n : nat) (addr : Z) (hex : option (list Z)) : GM unit :=
  match n with
  | O => ret tt
  | S n =>
      match hex with
      | None => stop HUndefined
      | Some hex =>
          let data := match scan_x (Some 2%nat) (tail hex) with Some (v, _) => v | None => 0 end in
          on_machine (dbg_vaddr_write addr 1 data) ;;
          write_memory_loop n (u32 (addr + 1))
            (match hex with _ :: _ :: _ :: _ => Some (drop 2 hex) | _ => None end)
      end
  end.
Definition gdb_write_memory (args : list Z) : GM (option (list Z)) :=
  let args := c_str args in
  let '(addr, size) := scan2 args in
  write_memory_loop (Z.to_nat size) addr (strchr args 58) ;; ret (Some (bytes "OK")).

(** The byte at an index of the request; its NUL follows it. *)
Definition arg_at (args : list Z) (i : nat) : GM Z :=
  match args !! i with
  | Some c => ret c
  | None => ensure (i =? length args)%nat HUndefined ;; ret 0
  end.
(** [i] is the index of the character before the byte. *)
Fixpoint write_hex_loop (n : nat) (args : list Z) (addr : Z) (i : nat) : GM unit :=
  match n with
  | O => ret tt
  | S n =>
      let! c := arg_at args (i + 1)%nat in
      on_machine (dbg_vaddr_write addr 1 (u32 (s8 c))) ;;
      if (S (length args) <? i)%nat then ret tt else write_hex_loop n args (u32 (addr + 1)) (i + 1)%nat
  end.
Definition gdb_write_memory_hex (args : list Z) : GM (option (list Z)) :=
  let '(addr, size) := scan2 (c_str args) in
  match strchr (c_str args) 58 with
  | None => stop HUndefined
  | Some r =>
      write_hex_loop (Z.to_nat size) args addr (length (c_str args) - length r)%nat ;; ret (Some (bytes "OK"))
  end.

(** ** Breakpoints *)
Definition BREAK_INSTR : Z := 0x0005000d.

Definition gdb_remove_break_point (args : list Z) : GM (option (list Z)) :=
  let addr := scan_addr (c_str args) in
  let! s := get in
  match list_find (fun b => bp_used b = true /\ bp_addr b = addr) (break_points s) with
  | Some (i, b) =>
      modify (set_bp i (mkBp false (bp_addr b) (bp_value b))) ;;
      on_machine (dbg_vaddr_write addr 4 (bp_value b)) ;; ret (Some (bytes "OK"))
  | None => ret (Some [])
  end.

Definition gdb_insert_break_point (args : list Z) : GM (option (list Z)) :=
  let addr := scan_addr (c_str args) in
  let! s := get in
  match list_find (fun b => bp_used b = false) (break_points s) with
  | Some (i, b) =>
      modify (set_bp i (mkBp false addr (bp_value b))) ;;
      let! value := on_machine (dbg_vaddr_read addr 4) in
      modify (set_bp i (mkBp false addr value)) ;;
      on_machine (dbg_vaddr_write addr 4 BREAK_INSTR) ;;
      modify (set_bp i (mkBp true addr value)) ;; ret (Some (bytes "OK"))
  | None => ret (Some [])
  end.

(** ** The server *)
Definition handlers (c : Z) : option (list Z -> GM (option (list Z))) :=
  if c =? 63 then Some gdb_question             (* ? *)
  else if c =? 99 then Some gdb_continue        (* c *)
  else if c =? 103 then Some gdb_read_registers (* g *)
  else if c =? 71 then Some gdb_write_registers (* G *)
  else if c =? 72 then Some gdb_set_thread      (* H *)
  else if c =? 105 then Some gdb_step           (* i *)
  else if c =? 109 then Some gdb_read_memory    (* m *)
  else if c =? 77 then Some gdb_write_memory    (* M *)
  else if c =? 68 then Some gdb_detach          (* D *)
  else if c =? 112 then Some gdb_read_register  (* p *)
  else if c =? 80 then Some gdb_write_register  (* P *)
  else if c =? 113 then Some gdb_general_query  (* q *)
  else if c =? 114 then Some gdb_reset          (* r *)
  else if c =? 82 then Some gdb_reset           (* R *)
  else if c =? 115 then Some gdb_single_step    (* s *)
  else if c =? 118 then Some gdb_extend_commands (* v *)
  else if c =? 88 then Some gdb_write_memory_hex (* X *)
  else if c =? 122 then Some gdb_remove_break_point (* z *)
  else if c =? 90 then Some gdb_insert_break_point  (* Z *)
  else None.

(** The response to a request: the first byte selects the handler, as a signed char. *)
Definition gdb_respond (data : list Z) : GM (list Z) :=
  match data with
  | [] => ret []
  | c :: args =>
      ensure (c <? 128) HUndefined ;;
      match handlers c with
      | Some handler => let! resp := handler args in ret (default [] resp)
      | None => ret []
      end
  end.

(** One turn of the loop. *)
Definition gdb_server_step : GM unit :=
  let! data := on_conn gdb_recv in
  let! resp := gdb_respond data in
  on_conn (gdb_send resp).
(** Cut after [n] turns; the loop ends with the connection. *)
Fixpoint gdb_server_mainloop (n : nat) : GM unit :=
  match n with O => ret tt | S n => gdb_server_step ;; gdb_server_mainloop n end.
End Handlers.
