(* ===== verification/Hash.v ===== *)
(** * Hash tables (src/utils/hash.c, include/utils/hash.h)

    A table of chained buckets whose keys and values are copies of byte buffers.  The
    elements are malloc'ed blocks, named by a counter that [ht_brk] holds; a block that is
    not in [ht_heap] was freed, and following a pointer to it is undefined.  An absent
    entry of [pool] is a null pointer. *)
From S2P Require Import Prelude.
Local Open Scope nemu_scope.

Definition HASH_SIZE : Z := 4 * 1024.

Record hash_element_t := mkHe {
  he_key : list Z;
  he_value : list Z;
  he_next : option Z
}.
Record hash_table_t := mkHt {
  pool : gmap Z Z;
  ht_heap : gmap Z hash_element_t;
  ht_brk : Z
}.
Definition ht_zero : hash_table_t := mkHt ∅ ∅ 0.

Definition set_he_value (v : list Z) (e : hash_element_t) : hash_element_t := mkHe (he_key e) v (he_next e).
Definition set_he_next (p : option Z) (e : hash_element_t) : hash_element_t := mkHe (he_key e) (he_value e) p.
(** ht->pool[index] = p *)
Definition set_slot (index : Z) (p : option Z) (t : hash_table_t) : hash_table_t :=
  mkHt (partial_alter (fun _ => p) index (pool t)) (ht_heap t) (ht_brk t).
Definition set_heap (h : gmap Z hash_element_t) (t : hash_table_t) : hash_table_t := mkHt (pool t) h (ht_brk t).
Definition put_he (b : Z) (e : hash_element_t) (t : hash_table_t) : hash_table_t :=
  set_heap (<[b := e]> (ht_heap t)) t.

Abbreviation HM := (M hash_table_t).

(** The element a pointer points to. *)
Definition he_at (b : Z) : HM hash_element_t :=
  let! t := get in
  match ht_heap t !! b with Some e => ret e | None => stop HUndefined end.

(** ** Keys *)
Definition bkdr_step (h b : Z) : Z := u32 (h * 131 + b).
Definition bkdr_hash (key : list Z) : Z := Z.land (fold_left bkdr_step key 0) 0x7FFFFFFF mod HASH_SIZE.
(** Same size and memcmp() == 0. *)
Definition hash_kv_equals (a b : list Z) : bool := bool_decide (a = b).

(** ** Operations *)
Definition hash_init : HM unit := modify (fun t => mkHt ∅ (ht_heap t) (ht_brk t)).

(** A fresh element in front of its bucket. *)
Definition hash_push (key value : list Z) : HM unit :=
  let index := bkdr_hash key in
  modify (fun t => set_slot index (Some (ht_brk t))
    (mkHt (pool t) (<[ht_brk t := mkHe key value (pool t !! index)]> (ht_heap t)) (ht_brk t + 1))).

(** A walk follows at most as many elements as are allocated: a longer one goes round a
    cycle. *)
Definition walk_fuel (t : hash_table_t) : nat := size (ht_heap t).

Fixpoint hash_get_loop (fuel : nat) (key : list Z) (he : option Z) : HM (option Z) :=
  match he, fuel with
  | None, _ => ret None
  | Some _, O => stop HUndefined
  | Some b, S fuel =>
      let! e := he_at b in
      if hash_kv_equals (he_key e) key then ret (Some b) else hash_get_loop fuel key (he_next e)
  end.
Definition hash_get (key : list Z) : HM (option Z) :=
  let! t := get in hash_get_loop (walk_fuel t) key (pool t !! bkdr_hash key).

(** [phe] is the element before [he], if there is one. *)
Fixpoint hash_delete_loop (fuel : nat) (index : Z) (key : list Z) (phe he : option Z) : HM unit :=
  match he, fuel with
  | None, _ => ret tt
  | Some _, O => stop HUndefined
  | Some b, S fuel =>
      let! e := he_at b in
      if hash_kv_equals (he_key e) key then
        match phe with
        | Some p => let! pe := he_at p in modify (put_he p (set_he_next (he_next e) pe))
        | None => modify (set_slot index (he_next e))
        end
      else hash_delete_loop fuel index key (Some b) (he_next e)
  end.
Definition hash_delete (key : list Z) : HM unit :=
  let! t := get in
  let index := bkdr_hash key in
  hash_delete_loop (walk_fuel t) index key None (pool t !! index).

Fixpoint free_hash_slot (fuel : nat) (he : option Z) : HM unit :=
  match he, fuel with
  | None, _ => ret tt
  | Some _, O => stop HUndefined
  | Some b, S fuel =>
      let! e := he_at b in
      modify (fun t => set_heap (delete b (ht_heap t)) t) ;;
      free_hash_slot fuel (he_next e)
  end.
Fixpoint free_slots (n : nat) (i : Z) : HM unit :=
  match n with
  | O => ret tt
  | S n =>
      let! t := get in
      free_hash_slot (walk_fuel t) (pool t !! i) ;; free_slots n (i + 1)
  end.
Definition hash_free : HM unit :=
  free_slots (Z.to_nat HASH_SIZE) 0 ;;
  modify (fun t => mkHt ∅ (ht_heap t) (ht_brk t)).

(** hash_foreach: the elements in the order of the loop. *)
Fixpoint foreach_slot (fuel : nat) (he : option Z) : HM (list hash_element_t) :=
  match he, fuel with
  | None, _ => ret []
  | Some _, O => stop HUndefined
  | Some b, S fuel =>
      let! e := he_at b in
      let! l := foreach_slot fuel (he_next e) in ret (e :: l)
  end.
Fixpoint foreach_slots (n : nat) (i : Z) : HM (list hash_element_t) :=
  match n with
  | O => ret []
  | S n =>
      let! t := get in
      let! l := foreach_slot (walk_fuel t) (pool t !! i) in
      let! ls := foreach_slots n (i + 1) in ret (l ++ ls)
  end.
Definition hash_foreach : HM (list hash_element_t) := foreach_slots (Z.to_nat HASH_SIZE) 0.
