(* ===== verification/Perf.v ===== *)
(** * Profiling (src/monitor/instr-perf.c, src/monitor/elfperf.c)

    Counters of executed instructions, by handler name or by the function the pc is in,
    kept in hash tables.  What the reports print is their result. *)
From S2P Require Import Prelude Config Reg Fifo Ram Elfsym Hash.
Local Open Scope nemu_scope.

(** The bytes of an integer in memory. *)
Fixpoint le_word (n : nat) (v : Z) : list Z :=
  match n with O => [] | S n => v mod 256 :: le_word n (v / 256) end.

(** ** instr-perf.c *)
Definition instrperf_start : HM unit := hash_init.
Definition instrperf_end : HM unit := hash_free.

(** *(int * )(he->value.buf); an int that does not fit the buffer is read past its end. *)
Definition int_value (e : hash_element_t) : HM Z :=
  let! v := buf_at (he_value e) 0 4 in ret (s32 v).

(** [instr] is the name with its NUL, which [size] counts. *)
Definition instrperf_record (instr : list Z) : HM unit :=
  let! he := hash_get instr in
  match he with
  | Some b =>
      let! e := he_at b in
      let! c := int_value e in
      ensure (c <? 2 ^ 31 - 1) HUndefined ;;
      modify (put_he b (set_he_value (le_word 4 (c + 1)) e))
  | None => hash_push instr (le_word 4 0)
  end.

Fixpoint report_lines (l : list hash_element_t) : HM (list (Z * list Z)) :=
  match l with
  | [] => ret []
  | e :: l =>
      let! c := int_value e in
      let! ls := report_lines l in ret ((c, he_key e) :: ls)
  end.
(** The total and the lines printed, counter and name. *)
Definition instrperf_report : HM (Z * list (Z * list Z)) :=
  let! l := hash_foreach in
  let! lines := report_lines l in
  hash_free ;;
  ret (fold_left (fun total c => total + fst c) lines 0, lines).

(** ** elfperf.c *)
(** The static variables, and the symbol table of the program. *)
Record elfperf_t := mkElfperf {
  ep_elfsym : elfsym_t;
  perf_ht : hash_table_t;
  last_sym : sym;
  last_sym_st : Z;
  ninstr : Z
}.
Definition set_ep_elfsym (v : elfsym_t) (p : elfperf_t) : elfperf_t :=
  mkElfperf v (perf_ht p) (last_sym p) (last_sym_st p) (ninstr p).
Definition set_perf_ht (v : hash_table_t) (p : elfperf_t) : elfperf_t :=
  mkElfperf (ep_elfsym p) v (last_sym p) (last_sym_st p) (ninstr p).
Definition set_last_sym (v : sym) (p : elfperf_t) : elfperf_t :=
  mkElfperf (ep_elfsym p) (perf_ht p) v (last_sym_st p) (ninstr p).
Definition set_last_sym_st (v : Z) (p : elfperf_t) : elfperf_t :=
  mkElfperf (ep_elfsym p) (perf_ht p) (last_sym p) v (ninstr p).
Definition set_ninstr (v : Z) (p : elfperf_t) : elfperf_t :=
  mkElfperf (ep_elfsym p) (perf_ht p) (last_sym p) (last_sym_st p) v.

Abbreviation on_elfsym := (zoom ep_elfsym set_ep_elfsym).
Abbreviation on_ht := (zoom perf_ht set_perf_ht).

(** The bytes of a string up to its NUL. *)
Fixpoint cstring (buf : list Z) : option (list Z) :=
  match buf with
  | [] => None
  | b :: buf => if b =? 0 then Some [0] else option_map (cons b) (cstring buf)
  end.
(** The bytes of the name a pointer points to, strlen(sym) + 1 of them. *)
Definition sym_bytes (e : elfsym_t) (s : sym) : option (list Z) :=
  match s with
  | SymNull => None
  | SymName off =>
      if 0 <=? off then cstring (drop (Z.to_nat off) (default [] (strtab e))) else None
  | SymUnknown => Some [0x3f; 0]
  end.

Definition elfperf_start : M elfperf_t unit := on_elfsym (modify elfsym_optimize_find_symbol).

(** CONFIG_ELF_PERF_TIME or CONFIG_ELF_PERF_INSTR. *)
Inductive perf_kind : Type := PerfTime | PerfInstr.

(** *(uint64_t * )he->value.buf, whose size is asserted. *)
Definition u64_value (e : hash_element_t) : M elfperf_t Z :=
  ensure (Z.of_nat (length (he_value e)) =? 8) HAssert ;; buf_at (he_value e) 0 8.

(** The part of elfperf_record after the choice of the symbol. *)
Definition perf_update (kind : perf_kind) (ms : Z) (updsym : sym) : M elfperf_t unit :=
  let! p := get in
  match sym_bytes (ep_elfsym p) updsym with
  | None => stop HUndefined
  | Some key =>
      let! he := on_ht (hash_get key) in
      match he with
      | None =>
          on_ht (hash_push key (le_word 8 (match kind with PerfInstr => 1 | PerfTime => 0 end)))
      | Some b =>
          let! e := on_ht (he_at b) in
          let! c := u64_value e in
          match kind with
          | PerfTime =>
              on_ht (modify (put_he b (set_he_value (le_word 8 (u64 (c + (ms - last_sym_st p)))) e))) ;;
              modify (set_last_sym_st ms)
          | PerfInstr => on_ht (modify (put_he b (set_he_value (le_word 8 (u64 (c + 1))) e)))
          end
      end
  end.

(** [ms] is what get_current_time returns. *)
Definition elfperf_record (kind : perf_kind) (pc ms : Z) : M elfperf_t unit :=
  let! sym := on_elfsym (elfsym_find_symbol pc) in
  match kind with
  | PerfInstr => modify (fun p => set_ninstr (u64 (ninstr p + 1)) p) ;; perf_update kind ms sym
  | PerfTime =>
      let! p := get in
      if bool_decide (sym = last_sym p) then ret tt
      else
        let updsym := last_sym p in
        modify (set_last_sym sym) ;;
        match updsym with
        | SymNull => modify (set_last_sym_st ms)
        | _ => perf_update kind ms updsym
        end
  end.

(** The lines printed, name and counter. *)
Fixpoint elfperf_lines (l : list hash_element_t) : M elfperf_t (list (list Z * Z)) :=
  match l with
  | [] => ret []
  | e :: l =>
      let! c := buf_at (he_value e) 0 8 in
      let! ls := elfperf_lines l in ret ((he_key e, c) :: ls)
  end.
Definition elfperf_report : M elfperf_t (list (list Z * Z)) :=
  let! l := on_ht hash_foreach in
  let! lines := elfperf_lines l in
  on_ht hash_free ;; ret lines.
