(* ===== verification/Frame.v ===== *)
(** * What memory accesses and devices may change

    A memory access or a device operation changes the CPU only through the CP0
    registers, the pending exception, the branch target and the delay-slot flag, and
    keeps the data of every device well-formed.  [BusFrame R] states that a relation
    between states allows exactly such changes; every operation of the bus is proved
    to keep any such relation, so that each client gets its frame conditions from one
    proof. *)
From S2P Require Import Prelude Config Reg Fifo Ram Flash Sdlkey Machine Ulite Spi Device Mmu Memory.
Local Open Scope nemu_scope.

(** ** Well-formed device state *)
Definition wf_fifo (q : fifo Z) : Prop := fifo_wf q.

Record wf_spi (s : spi_t) : Prop := mkWfSpi {
  wf_sp_tx : fifo_wf (sp_tx s);
  wf_sp_rx : fifo_wf (sp_rx s);
  wf_sp_len : length (sp_regs s) = Z.to_nat R_MAX;
  wf_sp_regs : Forall is_u32 (sp_regs s)
}.

Record wf_iq (q : iq_t) : Prop := mkWfIq {
  wf_iq_len : length (iq_arr q) = Z.to_nat NR_IQ;
  wf_iq_pc : 0 <= pc_ptr q < NR_IQ;
  wf_iq_instr : 0 <= instr_ptr q < NR_IQ
}.

Definition wf_screen (s : option (gmap Z Z)) : Prop :=
  match s with Some px => mem_wf px | None => True end.

(** ** CPU changes a bus access can make *)
Inductive bus_upd : relation CPU_state :=
| bu_refl c : bus_upd c c
| bu_trans c1 c2 c3 : bus_upd c1 c2 -> bus_upd c2 c3 -> bus_upd c1 c3
| bu_cp0 f v c : bus_upd c (put_cp0 f v c)
| bu_cpr r n v c : bus_upd c (put_cpr r n v c)
| bu_exn b c : bus_upd c (set_has_exception b c)
| bu_delay b c : bus_upd c (set_is_delayslot b c)
| bu_target v c : bus_upd c (set_br_target v c).
#[export] Hint Constructors bus_upd : keeps.

#[global] Instance bus_upd_preorder : PreOrder bus_upd.
Proof. split; [exact bu_refl|exact bu_trans]. Qed.

(** The registers of the instruction set itself stay as they are. *)
Record same_regs (c c' : CPU_state) : Prop := mkSameRegs {
  sr_gpr : gpr c' = gpr c;
  sr_hi : hi c' = hi c;
  sr_lo : lo c' = lo c;
  sr_pc : pc c' = pc c;
  sr_fpr : fpr32i c' = fpr32i c;
  sr_fcsr : fcsr c' = fcsr c
}.

Lemma bus_upd_same c c' : bus_upd c c' -> same_regs c c'.
Proof.
  induction 1 as [c|c1 c2 c3 _ [] _ []| | | | |]; try done.
  constructor; congruence.
Qed.

Lemma bus_upd_wf c c' : bus_upd c c' -> wf_cpu c -> wf_cpu c'.
Proof. induction 1; auto with words. Qed.

(** ** The interfaces *)
(** What a device may do: change its own data, the host, the run state, and the
    interrupt lines of the CPU. *)
Class DevFrame (R : relation machine) : Prop := {
  #[global] bf_preorder :: PreOrder R;
  bf_irq : forall m v, R m (set_cpu (put_cp0 cause_IP v (cpu m)) m);
  bf_nemu_state : forall m s, R m (set_nemu_state s m);
  bf_host : forall m h, R m (set_host h m);
  bf_bram : forall m b, (mem_wf (bram m) -> mem_wf b) -> R m (set_bram b m);
  bf_ddr : forall m b, (mem_wf (ddr m) -> mem_wf b) -> R m (set_ddr b m);
  bf_ulite : forall m u,
    (wf_fifo (ulite_q (ulite m)) -> wf_fifo (ulite_q u)) -> R m (set_ulite u m);
  bf_spi : forall m s, (wf_spi (spi m) -> wf_spi s) -> R m (set_spi s m);
  bf_kbd : forall m q, (wf_fifo (kbd_queue m) -> wf_fifo q) -> R m (set_kbd_queue q m);
  bf_screen : forall m s, (wf_screen (screen m) -> wf_screen s) -> R m (set_screen s m)
}.

(** What a memory access may do: what a device may, raise an exception, and update or
    clear the caches. *)
Class BusFrame (R : relation machine) : Prop := {
  #[global] bf_dev :: DevFrame R;
  bf_cpu : forall m c, bus_upd (cpu m) c -> R m (set_cpu c m);
  bf_mmu_cache : forall m l, length l = length (mmu_cache m) -> R m (set_mmu_cache l m);
  bf_decode_cache : forall m, R m (set_decode_cache (dc_clear (decode_cache m)) m)
}.

(** [keeps] opens a computation down to its primitive steps. *)
Ltac keeps_step :=
  first
    [ match goal with |- forall _, _ => intros ? end
    | match goal with |- PreOrder _ => exact _ end
    | solve [auto with keeps]
    | apply keeps_bind
    | apply keeps_when
    | apply keeps_if
    | match goal with |- keeps _ (match ?x with _ => _ end) => destruct x eqn:? end ].
Ltac keeps_solve := repeat keeps_step.

Section DevKeeps.
Context {cfg : Config} (R : relation machine) `{!DevFrame R}.

Lemma keeps_upd_host f : keeps R (upd_host f).
Proof using DevFrame0. apply keeps_modify. intros. apply bf_host. Qed.
Lemma keeps_set_nemu_state s : keeps R (modify (set_nemu_state s)).
Proof using DevFrame0. apply keeps_modify. intros. apply bf_nemu_state. Qed.
Lemma keeps_upd_ulite f :
  (forall u, fifo_wf (ulite_q u) -> fifo_wf (ulite_q (f u))) -> keeps R (upd_ulite f).
Proof using DevFrame0. intros H. apply keeps_modify. intros. apply bf_ulite. apply H. Qed.
Lemma keeps_upd_spi f : (forall s, wf_spi s -> wf_spi (f s)) -> keeps R (upd_spi f).
Proof using DevFrame0. intros H. apply keeps_modify. intros. apply bf_spi. apply H. Qed.

#[local] Hint Resolve keeps_upd_host keeps_set_nemu_state : keeps.

Lemma keeps_on_flash {A} (f : FM A) : keeps R (on_flash f).
Proof using DevFrame0.
  intros m. unfold on_flash.
  destruct (f (sp_flash (spi m))); apply bf_spi; intros []; by constructor.
Qed.
Lemma keeps_nemu_set_irq n b : keeps R (nemu_set_irq n b).
Proof using DevFrame0.
  unfold nemu_set_irq. keeps_solve. apply keeps_modify. intros. apply bf_irq.
Qed.
#[local] Hint Resolve keeps_on_flash keeps_nemu_set_irq : keeps.

Lemma keeps_putchar c : keeps R (putchar c).
Proof using DevFrame0. unfold putchar. auto with keeps. Qed.
Lemma keeps_get_current_time : keeps R get_current_time.
Proof using DevFrame0. unfold get_current_time. keeps_solve. Qed.
Lemma keeps_getchar : keeps R getchar.
Proof using DevFrame0. unfold getchar. keeps_solve. Qed.
#[local] Hint Resolve keeps_putchar keeps_get_current_time keeps_getchar : keeps.

(** *** Serial port and keyboard *)
Lemma keeps_ulite_enqueue ch : keeps R (xlnx_ulite_enqueue ch).
Proof using DevFrame0. apply keeps_upd_ulite. intros u. apply fifo_push_wf. Qed.
Lemma keeps_ulite_set_irq : keeps R xlnx_ulite_set_irq.
Proof using DevFrame0. unfold xlnx_ulite_set_irq. keeps_solve. Qed.
Lemma keeps_stop_cpu_check ch : keeps R (stop_cpu_check ch).
Proof using DevFrame0.
  unfold stop_cpu_check. keeps_solve; apply keeps_upd_ulite; done.
Qed.
#[local] Hint Resolve keeps_ulite_enqueue keeps_ulite_set_irq keeps_stop_cpu_check : keeps.

Lemma keeps_ulite_peek a l : keeps R (xlnx_ulite_peek a l).
Proof using DevFrame0. unfold xlnx_ulite_peek. keeps_solve. Qed.
#[local] Hint Resolve keeps_ulite_peek : keeps.

Lemma keeps_ulite_read a l : keeps R (xlnx_ulite_read a l).
Proof using DevFrame0.
  unfold xlnx_ulite_read. apply keeps_bind; [exact _|auto with keeps|intros _].
  apply keeps_if; [|auto with keeps]. apply keeps_bind; [exact _|auto with keeps|intros _].
  intros m. cbn. destruct (fifo_pop 0 (ulite_q (ulite m))) as [ch q] eqn:E. cbn.
  apply bf_ulite. intros H. cbn. replace q with (snd (fifo_pop 0 (ulite_q (ulite m))))
    by (by rewrite E). by apply (fifo_pop_wf 0).
Qed.
Lemma keeps_ulite_write a l d : keeps R (xlnx_ulite_write a l d).
Proof using DevFrame0.
  unfold xlnx_ulite_write. keeps_solve; apply keeps_upd_ulite; done.
Qed.
Lemma keeps_ulite_receive data : keeps R (ulite_receive data).
Proof using DevFrame0.
  induction data; cbn; unfold check_ctrl_x_commands; keeps_solve.
Qed.
#[local] Hint Resolve keeps_ulite_read keeps_ulite_write keeps_ulite_receive : keeps.
Lemma keeps_ulite_update_irq n : keeps R (xlnx_ulite_update_irq n).
Proof using DevFrame0. unfold xlnx_ulite_update_irq. keeps_solve. Qed.

Lemma keeps_kbd_update_irq : keeps R nemu_keyboard_update_irq.
Proof using DevFrame0.
  unfold nemu_keyboard_update_irq. keeps_solve.
  apply keeps_modify. intros m. apply bf_kbd. apply fifo_push_wf.
Qed.
#[local] Hint Resolve keeps_kbd_update_irq : keeps.
Lemma keeps_kbd_rp a l b : keeps R (nemu_keyboard_rp a l b).
Proof using DevFrame0.
  unfold nemu_keyboard_rp. do 2 (apply keeps_bind; [exact _|auto with keeps|intros _]).
  intros m. cbn. repeat case_match; cbn; try reflexivity.
  simplify_eq. apply bf_kbd. intros Hq.
  match goal with E : fifo_pop _ _ = (_, ?q) |- _ =>
    replace q with (snd (fifo_pop 0 (kbd_queue m))) by (by rewrite E) end.
  by apply (fifo_pop_wf 0).
Qed.

(** *** SPI controller *)
Lemma wf_put_sreg r v s : wf_spi s -> wf_spi (put_sreg r v s).
Proof.
  intros []. constructor; cbn; rewrite ?length_arr_set; try done.
  apply Forall_arr_set; auto with words.
Qed.
Lemma wf_or_sreg r v s : wf_spi s -> wf_spi (or_sreg r v s).
Proof. apply wf_put_sreg. Qed.
Lemma wf_clr_sreg r v s : wf_spi s -> wf_spi (clr_sreg r v s).
Proof. apply wf_put_sreg. Qed.
Lemma wf_set_tx q s : fifo_wf q -> wf_spi s -> wf_spi (set_sp_tx q s).
Proof. intros ? []. by constructor. Qed.
Lemma wf_set_rx q s : fifo_wf q -> wf_spi s -> wf_spi (set_sp_rx q s).
Proof. intros ? []. by constructor. Qed.
Lemma wf_zero_regs s : wf_spi s -> wf_spi (set_sp_regs (replicate (Z.to_nat R_MAX) 0) s).
Proof.
  intros []. constructor; cbn; try done. apply Forall_replicate. auto with words.
Qed.
#[local] Hint Resolve wf_put_sreg wf_or_sreg wf_clr_sreg wf_set_tx wf_set_rx
  wf_zero_regs wf_sp_tx wf_sp_rx fifo_push_wf fifo_pop_wf fifo_reset_wf : keeps.
#[local] Hint Resolve keeps_upd_spi : keeps.

Lemma wf_spi_receive rx s : wf_spi s -> wf_spi (spi_receive rx s).
Proof. intros H. unfold spi_receive. repeat case_match; auto 15 with keeps. Qed.
#[local] Hint Resolve wf_spi_receive : keeps.

Lemma keeps_txfifo_reset : keeps R txfifo_reset.
Proof using DevFrame0. unfold txfifo_reset. keeps_solve. Qed.
Lemma keeps_rxfifo_reset : keeps R rxfifo_reset.
Proof using DevFrame0. unfold rxfifo_reset. keeps_solve. Qed.
Lemma keeps_spi_update_irq : keeps R xlnx_spi_update_irq.
Proof using DevFrame0. unfold xlnx_spi_update_irq. keeps_solve. Qed.
Lemma keeps_spi_update_cs : keeps R xlnx_spi_update_cs.
Proof using DevFrame0. apply keeps_on_flash. Qed.
#[local] Hint Resolve keeps_txfifo_reset keeps_rxfifo_reset keeps_spi_update_irq
  keeps_spi_update_cs : keeps.
Lemma keeps_spi_do_reset : keeps R xlnx_spi_do_reset.
Proof using DevFrame0. unfold xlnx_spi_do_reset. keeps_solve. Qed.

Lemma keeps_pop_tx : keeps R pop_tx.
Proof using DevFrame0.
  intros m. unfold pop_tx. cbn. destruct (fifo_pop 0 (sp_tx (spi m))) as [b q] eqn:E.
  cbn. apply bf_spi. intros H. apply wf_set_tx; [|done].
  replace q with (snd (fifo_pop 0 (sp_tx (spi m)))) by (by rewrite E).
  apply (fifo_pop_wf 0), H.
Qed.
Lemma keeps_pop_rx : keeps R pop_rx.
Proof using DevFrame0.
  intros m. unfold pop_rx. cbn. destruct (fifo_pop 0 (sp_rx (spi m))) as [b q] eqn:E.
  cbn. apply bf_spi. intros H. apply wf_set_rx; [|done].
  replace q with (snd (fifo_pop 0 (sp_rx (spi m)))) by (by rewrite E).
  apply (fifo_pop_wf 0), H.
Qed.
#[local] Hint Resolve keeps_pop_tx keeps_pop_rx : keeps.
Lemma keeps_spi_flush_one : keeps R spi_flush_one.
Proof using DevFrame0. unfold spi_flush_one. keeps_solve. Qed.
#[local] Hint Resolve keeps_spi_do_reset keeps_spi_flush_one : keeps.
Lemma keeps_spi_flush_loop n : keeps R (spi_flush_loop n).
Proof using DevFrame0. induction n; cbn; keeps_solve. Qed.
#[local] Hint Resolve keeps_spi_flush_loop : keeps.
Lemma keeps_spi_flush : keeps R spi_flush_txfifo.
Proof using DevFrame0. unfold spi_flush_txfifo. keeps_solve. Qed.
#[local] Hint Resolve keeps_spi_flush : keeps.
Lemma keeps_spi_read a l : keeps R (xlnx_spi_read a l).
Proof using DevFrame0. unfold xlnx_spi_read. keeps_solve. Qed.
Lemma keeps_spi_write a l d : keeps R (xlnx_spi_write a l d).
Proof using DevFrame0. unfold xlnx_spi_write. keeps_solve. Qed.
#[local] Hint Resolve keeps_spi_read keeps_spi_write keeps_kbd_rp
  keeps_ulite_update_irq : keeps.

(** *** Other devices *)
Lemma keeps_checked {A} (o : option A) : keeps R (checked o).
Proof using DevFrame0. unfold checked. keeps_solve. Qed.
#[local] Hint Resolve keeps_checked : keeps.

Lemma keeps_bram_wr a l d : keeps R (bram_wr a l d).
Proof using DevFrame0.
  intros m. unfold bram_wr, checked, Bram.bram_write. cbn.
  case_match; cbn; [|reflexivity]. apply bf_bram. case_match; simplify_eq.
  auto with words.
Qed.
Lemma keeps_ddr_wr a l d : keeps R (ddr_wr a l d).
Proof using DevFrame0.
  intros m. unfold ddr_wr, checked, Ddr.ddr_write. cbn.
  case_match; cbn; [|reflexivity]. apply bf_ddr. case_match; simplify_eq.
  auto with words.
Qed.
Lemma keeps_vga_read a l : keeps R (nemu_vga_read a l).
Proof using DevFrame0. unfold nemu_vga_read, screen_pixels. keeps_solve. Qed.
Lemma keeps_vga_write a l d : keeps R (nemu_vga_write a l d).
Proof using DevFrame0.
  intros m. unfold nemu_vga_write, screen_pixels, ensure, bind.
  destruct (check_ioaddr a l VMEM_SIZE); cbn; [|reflexivity].
  destruct (screen m) as [px|] eqn:E; cbn; [|reflexivity].
  destruct ((_ <? SCR_W) && _); cbn; [|reflexivity]. apply bf_screen. rewrite E. cbn. auto with words.
Qed.

Lemma keeps_dev_read d rd a l : dev_read d = Some rd -> keeps R (rd a l).
Proof using DevFrame0.
  intros E. destruct d; try discriminate E; injection E as <-;
    [unfold blackhole_read|unfold bram_rd|unfold ddr_rd|unfold nemu_clock_read| |
     |apply keeps_kbd_rp|apply keeps_vga_read|unfold screen_read]; keeps_solve.
Qed.

Lemma keeps_dev_write d wr a l v : dev_write d = Some wr -> keeps R (wr a l v).
Proof using DevFrame0.
  intros E. destruct d; try discriminate E; injection E as <-;
    [unfold blackhole_write|apply keeps_bram_wr|apply keeps_ddr_wr|unfold nemu_trap_write|
     apply keeps_ulite_write|apply keeps_spi_write|apply keeps_vga_write
     |unfold screen_write]; keeps_solve.
Qed.

Lemma keeps_dev_map d f a l : dev_map d = Some f -> keeps R (f a l).
Proof using DevFrame0.
  intros E. destruct d; try discriminate E; injection E as <-; keeps_solve.
Qed.

Lemma keeps_poll_devices n head : keeps R (poll_devices n head).
Proof using DevFrame0.
  induction head as [|d head IH]; cbn; [auto with keeps|].
  destruct d; cbn; unfold screen_read; keeps_solve.
Qed.

Lemma keeps_update_irq quit n head : keeps R (update_irq quit n head).
Proof using DevFrame0.
  unfold update_irq. pose proof (keeps_poll_devices n head). keeps_solve.
Qed.

End DevKeeps.

#[export] Hint Resolve keeps_upd_host keeps_set_nemu_state keeps_nemu_set_irq keeps_putchar
  : keeps.
#[export] Hint Extern 0 (DevFrame _) => exact _ : keeps.

Section BusKeeps.
Context {cfg : Config} (R : relation machine) `{!BusFrame R}.

Lemma keeps_upd_cpu_bus f :
  (forall c, bus_upd c (f c)) -> keeps R (upd_cpu f).
Proof using BusFrame0. intros H. apply keeps_modify. intros m. apply bf_cpu, H. Qed.

Lemma keeps_put_cp0 f v : keeps R (upd_cpu (put_cp0 f v)).
Proof using BusFrame0. apply keeps_upd_cpu_bus. auto with keeps. Qed.
Lemma keeps_put_cpr r n v : keeps R (upd_cpu (put_cpr r n v)).
Proof using BusFrame0. apply keeps_upd_cpu_bus. auto with keeps. Qed.
Lemma keeps_clear_mmu_cache : keeps R clear_mmu_cache.
Proof using BusFrame0.
  apply keeps_modify. intros. apply bf_mmu_cache. by rewrite length_map.
Qed.
Lemma keeps_clear_decode_cache : keeps R clear_decode_cache.
Proof using BusFrame0. apply keeps_modify. intros. apply bf_decode_cache. Qed.
#[local] Hint Resolve keeps_put_cp0 keeps_put_cpr keeps_clear_mmu_cache
  keeps_clear_decode_cache : keeps.

(** *** Exceptions and translation *)
Lemma bus_upd_record_epc c : bus_upd c (record_epc c).
Proof. unfold record_epc. case_match; repeat (eapply bu_trans; [|constructor]); constructor. Qed.
Lemma bus_upd_enter_vector code off c : bus_upd c (enter_vector code off c).
Proof.
  unfold enter_vector. case_match; repeat (eapply bu_trans; [|constructor]); constructor.
Qed.
Lemma bus_upd_raise code extra c : bus_upd c (raise_cpu code extra c).
Proof.
  unfold raise_cpu. case_match.
  - transitivity (set_has_exception true c); [constructor|].
    etransitivity; [apply bus_upd_record_epc|apply bus_upd_enter_vector].
  - transitivity (set_has_exception true c); [constructor|apply bus_upd_enter_vector].
Qed.

Lemma keeps_raise_exception e : keeps R (raise_exception e).
Proof using BusFrame0.
  unfold raise_exception, get_current_pc. keeps_solve.
  apply keeps_upd_cpu_bus. intros. apply bus_upd_raise.
Qed.
#[local] Hint Resolve keeps_raise_exception : keeps.
Lemma keeps_tlb_exception x c v i : keeps R (tlb_exception x c v i).
Proof using BusFrame0. unfold tlb_exception. keeps_solve. Qed.
#[local] Hint Resolve keeps_tlb_exception : keeps.
Lemma keeps_translate_hit e v at_ : keeps R (translate_hit e v at_).
Proof using BusFrame0. unfold translate_hit. keeps_solve. Qed.
#[local] Hint Resolve keeps_translate_hit : keeps.
Lemma keeps_page_translate v at_ : keeps R (page_translate v at_).
Proof using BusFrame0.
  unfold page_translate. apply keeps_bind; [exact _|auto with keeps|].
  intros m. induction (tlb m); cbn; keeps_solve.
Qed.
#[local] Hint Resolve keeps_page_translate : keeps.
Lemma keeps_prot_addr_with_attr v at_ : keeps R (prot_addr_with_attr v at_).
Proof using BusFrame0. unfold prot_addr_with_attr. keeps_solve. Qed.
#[local] Hint Resolve keeps_prot_addr_with_attr : keeps.
Lemma keeps_prot_addr v rw : keeps R (prot_addr v rw).
Proof using BusFrame0. unfold prot_addr. keeps_solve. Qed.
#[local] Hint Resolve keeps_prot_addr : keeps.

(** *** Memory accesses *)
Lemma keeps_update_mmu_cache v p d w : keeps R (update_mmu_cache v p d w).
Proof using BusFrame0.
  unfold update_mmu_cache. apply keeps_bind; [exact _|auto with keeps|]. intros m.
  apply keeps_if; [auto with keeps|]. destruct (dev_map d) as [f|] eqn:E; [|auto with keeps].
  apply keeps_bind; [exact _|by eapply (keeps_dev_map R)|]. intros q.
  apply keeps_modify. intros m'. apply bf_mmu_cache. apply length_insert.
Qed.
Lemma keeps_host_load p o l : keeps R (host_load p o l).
Proof using BusFrame0. unfold host_load. keeps_solve. Qed.
Lemma keeps_host_store p o l v : keeps R (host_store p o l v).
Proof using BusFrame0.
  intros m. unfold host_store, bind. cbn. repeat case_match; cbn; try reflexivity.
  - apply bf_bram. auto with words.
  - apply bf_ddr. auto with words.
Qed.
#[local] Hint Resolve keeps_update_mmu_cache keeps_host_load keeps_host_store : keeps.

Lemma keeps_vaddr_read a l : keeps R (vaddr_read a l).
Proof using BusFrame0.
  unfold vaddr_read. keeps_solve. by eapply (keeps_dev_read R).
Qed.
Lemma keeps_vaddr_write a l v : keeps R (vaddr_write a l v).
Proof using BusFrame0.
  unfold vaddr_write. keeps_solve. by eapply (keeps_dev_write R).
Qed.
Lemma keeps_dbg_vaddr_read a l : keeps R (dbg_vaddr_read a l).
Proof using BusFrame0.
  unfold dbg_vaddr_read. keeps_solve. by eapply (keeps_dev_read R).
Qed.
Lemma keeps_dbg_vaddr_write a l v : keeps R (dbg_vaddr_write a l v).
Proof using BusFrame0.
  unfold dbg_vaddr_write. keeps_solve. by eapply (keeps_dev_write R).
Qed.
End BusKeeps.

#[export] Hint Resolve keeps_put_cp0 keeps_put_cpr
  keeps_clear_mmu_cache keeps_clear_decode_cache
  keeps_raise_exception keeps_tlb_exception keeps_vaddr_read keeps_vaddr_write
  keeps_prot_addr_with_attr keeps_prot_addr keeps_page_translate : keeps.
#[export] Hint Extern 0 (BusFrame _) => exact _ : keeps.
