(* ===== verification/Invariant.v ===== *)
(** * The machine invariant

    Every register, TLB field and memory byte holds a value of its C type, arrays
    keep their length and queues stay inside their buffers.  Every instruction
    handler, one turn of the CPU loop, cpu_exec and the timer signal keep it, for
    every build configuration. *)
From S2P Require Import Prelude Config Reg Fifo Ram Flash Sdlkey Machine Ulite Spi Device Mmu Memory.
From S2P Require Import ExecAlu ExecMdu ExecMem Softfloat ExecFloat Decode Cpu Frame.
Local Open Scope nemu_scope.

Record wf_phyn (p : tlb_phyn_t) : Prop := mkWfPhyn {
  wf_pfn : in_u 24 (pfn p); wf_c : in_u 3 (phyn_c p);
  wf_d : in_u 1 (phyn_d p); wf_v : in_u 1 (phyn_v p)
}.

Record wf_tlb_entry (e : tlb_entry_t) : Prop := mkWfTlb {
  wf_pagemask : in_u 16 (pagemask e); wf_vpn : in_u 19 (vpn e);
  wf_g : in_u 1 (tlb_g e); wf_asid : in_u 8 (asid e);
  wf_p0 : wf_phyn (p0 e); wf_p1 : wf_phyn (p1 e)
}.

Definition wf_tlb (l : list tlb_entry_t) : Prop :=
  length l = Z.to_nat NR_TLB_ENTRY /\ Forall wf_tlb_entry l.

Record wf (m : machine) : Prop := mkWf {
  wf_m_cpu : wf_cpu (cpu m);
  wf_m_tlb : wf_tlb (tlb m);
  wf_m_mmu_cache : length (mmu_cache m) = Z.to_nat (2 ^ MMU_BITS);
  wf_m_bram : mem_wf (bram m);
  wf_m_ddr : mem_wf (ddr m);
  wf_m_ulite : wf_fifo (ulite_q (ulite m));
  wf_m_spi : wf_spi (spi m);
  wf_m_kbd : wf_fifo (kbd_queue m);
  wf_m_screen : wf_screen (screen m);
  wf_m_iq : wf_iq (iq m)
}.

(** ** The TLB entry the CP0 registers describe *)
Lemma land_lnot_in_u w x y : 0 <= w -> in_u w x -> in_u w (Z.land x (Z.lnot y)).
Proof.
  intros Hw Hx. assert (Z.land x (Z.lnot y) = uw w (Z.land x (Z.lnot y))) as ->;
    [|by apply uw_range].
  apply Z.bits_inj'. intros i Hi. rewrite testbit_uw, !Z.land_spec by done.
  destruct (Z.ltb_spec i w); [done|]. by rewrite (testbit_in_u w x i).
Qed.

Lemma land_in_u_1 a b : in_u 1 a -> in_u 1 b -> in_u 1 (Z.land a b).
Proof.
  unfold in_u. change (2 ^ 1) with 2. intros Ha Hb.
  assert (a = 0 \/ a = 1) as [-> | ->] by lia; assert (b = 0 \/ b = 1) as [-> | ->] by lia;
    by cbn.
Qed.

Lemma cp0_get_range f c : 0 <= f_len (c_fld f) -> in_u (f_len (c_fld f)) (cp0_get f c).
Proof. intros. by apply bf_get_range. Qed.

Lemma in_u_mono v w x : 0 <= v <= w -> in_u v x -> in_u w x.
Proof.
  intros Hw [H0 H1]. split; [done|]. apply Z.lt_le_trans with (2 ^ v); [done|].
  apply Z.pow_le_mono_r; lia.
Qed.

Lemma wf_entry_of c : wf_tlb_entry (entry_of c).
Proof.
  assert (forall r, wf_phyn (phyn_of r c)) as Hp.
  { intros r. constructor; cbn.
    - apply land_lnot_in_u; [lia|]. apply (in_u_mono 20); [lia|].
      by apply (cp0_get_range (entry_lo_pfn r)).
    - by apply (cp0_get_range (entry_lo_c r)).
    - by apply (cp0_get_range (entry_lo_d r)).
    - by apply (cp0_get_range (entry_lo_v r)). }
  constructor; cbn; auto.
  - by apply (cp0_get_range pagemask_mask).
  - apply land_lnot_in_u; [lia|]. by apply (cp0_get_range entry_hi_vpn).
  - apply land_in_u_1; by apply (cp0_get_range (entry_lo_g _)).
  - by apply (cp0_get_range entry_hi_asid).
Qed.

(** ** Frame of the instruction handlers *)
Class ExecFrame (R : relation machine) : Prop := {
  #[global] ef_bus :: BusFrame R;
  ef_cpu : forall m c, (wf_cpu (cpu m) -> wf_cpu c) -> R m (set_cpu c m);
  ef_tlb : forall m l, (wf_tlb (tlb m) -> wf_tlb l) -> R m (set_tlb l m);
  ef_iq : forall m q, (wf_iq (iq m) -> wf_iq q) -> R m (set_iq q m);
  ef_dc : forall m d, R m (set_decode_cache d m)
}.

#[export] Instance wf_dev_frame : DevFrame (inv wf).
Proof. split; try exact _; intros; intros []; constructor; cbn; auto with words. Qed.

#[export] Instance wf_bus_frame : BusFrame (inv wf).
Proof.
  split; try exact _; intros; intros []; constructor; cbn; auto.
  - by eapply bus_upd_wf.
  - congruence.
Qed.

#[export] Instance wf_exec_frame : ExecFrame (inv wf).
Proof. split; try exact _; intros; intros []; constructor; cbn; auto. Qed.

(** The device map and the work mode never change while the CPU runs. *)
Definition same_map (m m' : machine) : Prop :=
  memory_regions m' = memory_regions m /\ work_mode m' = work_mode m.
#[export] Instance same_map_preorder : PreOrder same_map.
Proof. split; [done|]. intros ??? [] []. split; congruence. Qed.
#[export] Instance same_map_dev_frame : DevFrame same_map.
Proof. split; try exact _; intros; done. Qed.
#[export] Instance same_map_bus_frame : BusFrame same_map.
Proof. split; try exact _; intros; done. Qed.
#[export] Instance same_map_exec_frame : ExecFrame same_map.
Proof. split; try exact _; intros; done. Qed.

Create HintDb exec discriminated.
#[export] Hint Unfold
  Shift.sll Float.movci Shift.srl Shift.sra Shift.sllv Special.inv Shift.srlv Shift.srav
  Branch.jr Branch.jalr Alu.movz Alu.movn System.syscall System.breakpoint System.sync
  Mdu.mfhi Mdu.mthi Mdu.mflo Mdu.mtlo Mdu.mult Mdu.multu Mdu.divide Mdu.divu Alu.add
  Alu.addu Alu.sub Alu.subu Alu.and_ Alu.or_ Alu.xor Alu.nor Alu.slt Alu.sltu Trap.tge
  Trap.tgeu Trap.tlt Trap.tltu Trap.teq Trap.tne Mdu.madd Mdu.maddu Alu.mul Mdu.msub
  Mdu.msubu AluEx.clz AluEx.clo AluEx.ext AluEx.ins Special.exec_bshfl AluEx.wsbh
  AluEx.seb AluEx.seh Branch.bltz Branch.bgez Branch.bltzl Branch.bgezl Trap.tgei
  Trap.tgeiu Trap.tlti Trap.tltiu Trap.teqi Trap.tnei Branch.bltzal Branch.bgezal
  Branch.bltzall Branch.bgezall System.synci System.mfc0 System.mtc0 System.tlbr
  System.tlbwi System.tlbwr System.tlbp System.eret System.wait Float.mfc1 Float.cfc1
  Float.mfhc1 Float.mtc1 Float.ctc1 Float.mthc1 Float.bc1 Float.add_s Float.sub_s
  Float.mul_s Float.div_s Float.sqrt_s Float.abs_s Float.mov_s Float.neg_s
  Float.trunc_w_s Float.movcf_s Float.movz_s Float.movn_s Float.cvt_d_s Float.cvt_w_s
  Float.c_un_s Float.c_eq_s Float.c_ueq_s Float.c_olt_s Float.c_ult_s Float.c_ole_s
  Float.c_ule_s Float.c_lt_s Float.c_le_s Float.add_d Float.sub_d Float.mul_d Float.div_d
  Float.sqrt_d Float.abs_d Float.mov_d Float.neg_d Float.trunc_w_d Float.movcf_d
  Float.movz_d Float.movn_d Float.cvt_s_d Float.cvt_w_d Float.c_un_d Float.c_eq_d
  Float.c_ueq_d Float.c_olt_d Float.c_ult_d Float.c_ole_d Float.c_ule_d Float.c_lt_d
  Float.c_le_d Float.cvt_s_w Float.cvt_d_w Special.exec_special Special.exec_regimm
  Branch.j Branch.jal Branch.beq Branch.bne Branch.blez Branch.bgtz Alu.addi Alu.addiu
  Alu.slti Alu.sltiu Alu.andi Alu.ori Alu.xori Alu.lui Special.exec_cop0
  Special.exec_cop1 Branch.beql Branch.bnel Branch.blezl Branch.bgtzl
  Special.exec_special2 Special.exec_special3 LoadStore.lb LoadStore.lh LoadStore.lwl
  LoadStore.lw LoadStore.lbu LoadStore.lhu LoadStore.lwr LoadStore.sb LoadStore.sh
  LoadStore.swl LoadStore.sw LoadStore.swr System.cache LoadStore.ll Float.lwc1
  LoadStore.pref Float.ldc1 LoadStore.sc Float.swc1 Float.sdc1 : exec.

Section ExecKeeps.
Context {cfg : Config} (R : relation machine) `{!ExecFrame R}.

Lemma keeps_upd_cpu f : (forall c, wf_cpu c -> wf_cpu (f c)) -> keeps R (upd_cpu f).
Proof using ExecFrame0. intros H. apply keeps_modify. intros m. apply ef_cpu, H. Qed.

#[local] Hint Extern 1 (keeps _ (upd_cpu _)) =>
  apply keeps_upd_cpu; intros; repeat case_match; auto with words : keeps.

Lemma keeps_instr_enqueue_pc p : keeps R (instr_enqueue_pc p).
Proof using ExecFrame0.
  apply keeps_modify. intros m. apply ef_iq. intros [H1 H2 H3].
  constructor; cbn; [by rewrite length_insert| |done]. apply Z.mod_pos_bound. done.
Qed.
Lemma keeps_instr_enqueue_instr i : keeps R (instr_enqueue_instr i).
Proof using ExecFrame0.
  apply keeps_modify. intros m. apply ef_iq. intros [H1 H2 H3].
  constructor; cbn; by rewrite ?length_insert.
Qed.

Lemma keeps_assign_rd o f : keeps R (assign_rd o f).
Proof using ExecFrame0. unfold assign_rd. auto with keeps. Qed.
Lemma keeps_assign_rt o f : keeps R (assign_rt o f).
Proof using ExecFrame0. unfold assign_rt. auto with keeps. Qed.
Lemma keeps_get_cpu : keeps R get_cpu.
Proof using ExecFrame0. unfold get_cpu. auto with keeps. Qed.
Lemma keeps_upd_dc f : keeps R (upd_dc f).
Proof using ExecFrame0. apply keeps_modify. intros. apply ef_dc. Qed.
#[local] Hint Resolve keeps_get_cpu keeps_upd_dc : keeps.
Lemma keeps_refetch_ds p : keeps R (refetch_ds p).
Proof using ExecFrame0. unfold refetch_ds, decode_cache_fetch, free_decode_state_chain. keeps_solve. Qed.
#[local] Hint Resolve keeps_refetch_ds : keeps.
Lemma keeps_prepare_delayslot : keeps R prepare_delayslot.
Proof using ExecFrame0. unfold prepare_delayslot. keeps_solve. Qed.
Lemma keeps_InstAssert b : keeps R (InstAssert b).
Proof using ExecFrame0. unfold InstAssert. keeps_solve. Qed.
Lemma keeps_CHECK_ALIGNED e n a : keeps R (CHECK_ALIGNED_ADDR e n a).
Proof using ExecFrame0. unfold CHECK_ALIGNED_ADDR. keeps_solve. Qed.
Lemma keeps_overflow : keeps R overflow.
Proof using ExecFrame0. unfold overflow. keeps_solve. Qed.
#[local] Hint Resolve keeps_instr_enqueue_pc keeps_instr_enqueue_instr keeps_assign_rd
  keeps_assign_rt keeps_prepare_delayslot keeps_InstAssert keeps_CHECK_ALIGNED
  keeps_overflow : keeps.

Lemma keeps_copy_field v f : keeps R (System.copy_field v f).
Proof using ExecFrame0. unfold System.copy_field. auto with keeps. Qed.
Lemma keeps_tlb_write i : keeps R (tlb_write i).
Proof using ExecFrame0.
  unfold tlb_write. keeps_solve. apply keeps_modify. intros m. apply ef_tlb.
  intros [Hl He]. split; [by rewrite length_insert|]. apply Forall_insert; [done|].
  apply wf_entry_of.
Qed.
Lemma keeps_tlb_read i : keeps R (tlb_read i).
Proof using ExecFrame0.
  unfold tlb_read. keeps_solve; apply keeps_upd_cpu; intros; unfold read_entry_lo;
    auto 10 with words.
Qed.
Lemma keeps_tlb_present : keeps R tlb_present.
Proof using ExecFrame0.
  unfold tlb_present. apply keeps_bind; [exact _|auto with keeps|]. intros m.
  generalize 0 as i. induction (tlb m) as [|e l IH]; intros i; cbn; keeps_solve.
Qed.
Lemma keeps_rand : keeps R rand.
Proof using ExecFrame0. unfold rand. keeps_solve. Qed.
#[local] Hint Resolve keeps_copy_field keeps_tlb_write keeps_tlb_read keeps_tlb_present
  keeps_rand : keeps.

Lemma keeps_handler h o : keeps R (exec_handler h o).
Proof using ExecFrame0.
  destruct h; cbn [exec_handler]; autounfold with exec;
    unfold Alu.R_SIMPLE, Mdu.rd_sa_zero, Mdu.put_hilo, Branch.branch, Branch.branch_likely,
      Branch.link, Trap.trap_if, LoadStore.load, LoadStore.store, System.mtc0_status,
      System.mtc0_entry_lo, System.mtc0_cause, Special.should_not_reach_here,
      Float.put_rt_field, Float.put_fcsr, Float.fp_cond, Float.fop_s, Float.fop_d,
      Float.assign_fd, Float.assign_dd, Float.defined, Float.cmp_s, Float.cmp_d,
      Float.set_cond;
    keeps_solve.
Qed.

Lemma keeps_inst_end : keeps R inst_end.
Proof using ExecFrame0. unfold inst_end. keeps_solve. Qed.
#[local] Hint Resolve keeps_inst_end : keeps.
Lemma keeps_handler_end h : keeps R (handler_end h).
Proof using ExecFrame0. unfold handler_end. keeps_solve. Qed.
Lemma keeps_to_exit h k : keeps R k -> keeps R (to_exit h k).
Proof using ExecFrame0.
  intros H s. specialize (H s). unfold to_exit. destruct (k s) as [a s'|s'|x s']; cbn in *;
    [|done|done]. etransitivity; [exact H|]. apply keeps_handler_end.
Qed.
#[local] Hint Resolve keeps_handler keeps_to_exit : keeps.

Lemma keeps_fetch : keeps R fetch.
Proof using ExecFrame0. unfold fetch. keeps_solve. Qed.
Lemma keeps_dispatch h o : keeps R (dispatch h o).
Proof using ExecFrame0. unfold dispatch. keeps_solve. Qed.
#[local] Hint Resolve keeps_dispatch : keeps.
Lemma keeps_exec_inst i : keeps R (exec_inst i).
Proof using ExecFrame0. apply keeps_dispatch. Qed.
Lemma keeps_ds_load p : keeps R (ds_load p).
Proof using ExecFrame0. unfold ds_load, get_dc. keeps_solve. Qed.
#[local] Hint Resolve keeps_ds_load : keeps.
Lemma keeps_ds_upd p f : keeps R (ds_upd p f).
Proof using ExecFrame0. unfold ds_upd, ds_store. keeps_solve. Qed.
#[local] Hint Resolve keeps_ds_upd : keeps.
Lemma keeps_exec_cached : keeps R exec_cached.
Proof using ExecFrame0. unfold exec_cached, cached_entry, malloc_ds, get_dc. keeps_solve. Qed.
#[local] Hint Resolve keeps_exec_cached : keeps.
Lemma keeps_check_intrs : keeps R check_intrs.
Proof using ExecFrame0. unfold check_intrs, tick. keeps_solve. Qed.
#[local] Hint Resolve keeps_fetch keeps_exec_inst keeps_check_intrs : keeps.
Lemma keeps_check_exception : keeps R check_exception.
Proof using ExecFrame0. unfold check_exception. keeps_solve. Qed.
#[local] Hint Resolve keeps_check_exception : keeps.
Lemma keeps_step : keeps R step.
Proof using ExecFrame0. unfold step. keeps_solve. Qed.
#[local] Hint Resolve keeps_step : keeps.
Lemma keeps_cpu_loop n : keeps R (cpu_loop n).
Proof using ExecFrame0. induction n; cbn; keeps_solve. Qed.
#[local] Hint Resolve keeps_cpu_loop : keeps.
Lemma keeps_run_loop n : keeps R (run_loop n).
Proof using ExecFrame0. unfold run_loop. keeps_solve. Qed.
Lemma keeps_cpu_exec n : keeps R (cpu_exec n).
Proof using ExecFrame0.
  intros m. unfold cpu_exec. case_decide; [reflexivity|].
  pose proof (keeps_run_loop n m) as K. repeat case_match; cbn in *; try done.
  etransitivity; [exact K|]. apply bf_nemu_state.
Qed.
End ExecKeeps.

(** ** The static initial state is well-formed *)
Lemma wf_cpu_zero : wf_cpu cpu_zero.
Proof.
  constructor; cbn -[replicate]; rewrite ?length_replicate; try done;
    apply Forall_replicate; auto with words.
Qed.

Lemma wf_machine_zero mode h scr : wf_screen scr -> wf (machine_zero mode h scr).
Proof.
  intros Hs. constructor; cbn -[replicate Z.pow]; rewrite ?length_replicate; auto with words.
  - apply wf_cpu_zero.
  - split; [by rewrite length_replicate|]. apply Forall_replicate. repeat constructor; cbn; lia.
  - unfold wf_fifo. apply fifo_zero_wf. lia.
  - constructor; cbn -[replicate]; rewrite ?length_replicate;
      try (apply fifo_zero_wf; lia); [done|]. apply Forall_replicate. auto with words.
  - unfold wf_fifo. apply fifo_zero_wf. lia.
  - constructor; cbn -[replicate]; rewrite ?length_replicate; unfold NR_IQ; lia.
Qed.
