(* ===== verification/Exits.v ===== *)
(** * goto exit stays inside an instruction

    [no_exit k]: the computation [k] never leaves through goto exit.  Only instruction
    handlers do; the bus, the devices, exceptions and the CPU loop never do. *)
From S2P Require Import Prelude Config Reg Fifo Ram Flash Sdlkey Machine Ulite Spi Device Mmu Memory.
From S2P Require Import ExecAlu ExecMdu ExecMem Softfloat ExecFloat Decode Cpu.
Local Open Scope nemu_scope.

Definition no_exit {S A} (k : M S A) : Prop := forall s s', k s <> Exit s'.

Create HintDb exits discriminated.

Lemma no_exit_ret {S A} (a : A) : no_exit (S := S) (ret a).
Proof. done. Qed.
Lemma no_exit_get {S} : no_exit (S := S) get.
Proof. done. Qed.
Lemma no_exit_gets {S A} (f : S -> A) : no_exit (gets f).
Proof. done. Qed.
Lemma no_exit_modify {S} (f : S -> S) : no_exit (modify f).
Proof. done. Qed.
Lemma no_exit_stop {S A} h : no_exit (S := S) (A := A) (stop h).
Proof. done. Qed.
Lemma no_exit_bind {S A B} (k : M S A) (f : A -> M S B) :
  no_exit k -> (forall a, no_exit (f a)) -> no_exit (bind k f).
Proof.
  intros Hk Hf s s'. unfold bind. destruct (k s) eqn:E; [apply Hf| |done].
  by apply Hk in E.
Qed.
Lemma no_exit_if {S A} (b : bool) (k1 k2 : M S A) :
  no_exit k1 -> no_exit k2 -> no_exit (if b then k1 else k2).
Proof. by destruct b. Qed.
Lemma no_exit_when {S} b (k : M S unit) : no_exit k -> no_exit (when b k).
Proof. intros. by apply no_exit_if. Qed.
Lemma no_exit_ensure {S} b h : no_exit (S := S) (ensure b h).
Proof. by apply no_exit_if. Qed.
#[export] Hint Resolve no_exit_ret no_exit_get no_exit_gets no_exit_modify no_exit_stop
  no_exit_ensure : exits.

Ltac exits_step :=
  first
    [ match goal with |- forall _, _ => intros ? end
    | solve [auto with exits]
    | apply no_exit_bind
    | apply no_exit_when
    | apply no_exit_if
    | match goal with |- no_exit (match ?x with _ => _ end) => destruct x eqn:? end ].
Ltac exits := repeat exits_step.

(** ** Flash *)
Lemma no_exit_on_flash {A} (f : FM A) : no_exit f -> no_exit (on_flash f).
Proof.
  intros H m m'. unfold on_flash. destruct (f (sp_flash (spi m))) eqn:E; try done.
  by apply H in E.
Qed.

Lemma no_exit_flash_erase o c : no_exit (flash_erase o c).
Proof. unfold flash_erase, flash_sync_area. exits. Qed.
Lemma no_exit_sync_dirty p : no_exit (flash_sync_dirty p).
Proof. unfold flash_sync_dirty, flash_sync_page, flash_sync_area. exits. Qed.
#[export] Hint Resolve no_exit_flash_erase no_exit_sync_dirty : exits.
Lemma no_exit_complete : no_exit complete_collecting_data.
Proof. unfold complete_collecting_data, complete_wrsr, complete_rdid. exits. Qed.
Lemma no_exit_decode_new_cmd v : no_exit (decode_new_cmd v).
Proof.
  unfold decode_new_cmd, decode_fast_read_cmd, decode_dio_read_cmd, decode_qio_read_cmd,
    decode_wrsr, start_collecting, start_reading, reset_memory, or_volatile, or_enh.
  exits.
Qed.
#[export] Hint Resolve no_exit_complete no_exit_decode_new_cmd : exits.
Lemma no_exit_transfer8 t : no_exit (m25p80_transfer8 t).
Proof. unfold m25p80_transfer8, flash_write8, advance. exits. Qed.
Lemma no_exit_cs b : no_exit (m25p80_cs b).
Proof. unfold m25p80_cs. exits. Qed.
#[export] Hint Resolve no_exit_transfer8 no_exit_cs no_exit_on_flash : exits.

(** ** Devices *)
Lemma no_exit_upd_cpu f : no_exit (upd_cpu f).
Proof. done. Qed.
Lemma no_exit_upd_spi f : no_exit (upd_spi f).
Proof. done. Qed.
Lemma no_exit_upd_ulite f : no_exit (upd_ulite f).
Proof. done. Qed.
Lemma no_exit_upd_host f : no_exit (upd_host f).
Proof. done. Qed.
#[export] Hint Resolve no_exit_upd_cpu no_exit_upd_spi no_exit_upd_ulite no_exit_upd_host
  : exits.
Lemma no_exit_set_irq n b : no_exit (nemu_set_irq n b).
Proof. unfold nemu_set_irq. exits. Qed.
Lemma no_exit_clear_mmu_cache : no_exit clear_mmu_cache.
Proof. done. Qed.
Lemma no_exit_clear_decode_cache : no_exit clear_decode_cache.
Proof. done. Qed.
#[export] Hint Resolve no_exit_set_irq no_exit_clear_mmu_cache no_exit_clear_decode_cache
  : exits.

Lemma no_exit_ulite_read a l : no_exit (xlnx_ulite_read a l).
Proof. unfold xlnx_ulite_read, xlnx_ulite_peek. exits. Qed.
Lemma no_exit_ulite_write a l d : no_exit (xlnx_ulite_write a l d).
Proof. unfold xlnx_ulite_write, putchar, stop_cpu_check. exits. Qed.
Lemma no_exit_spi_update_irq : no_exit xlnx_spi_update_irq.
Proof. unfold xlnx_spi_update_irq. exits. Qed.
Lemma no_exit_spi_flush_loop n : no_exit (spi_flush_loop n).
Proof.
  assert (no_exit spi_flush_one) as H by (unfold spi_flush_one, pop_tx; exits).
  induction n; cbn; exits.
Qed.
#[export] Hint Resolve no_exit_spi_update_irq no_exit_spi_flush_loop : exits.
Lemma no_exit_spi_read a l : no_exit (xlnx_spi_read a l).
Proof. unfold xlnx_spi_read, pop_rx. exits. Qed.
Lemma no_exit_spi_write a l d : no_exit (xlnx_spi_write a l d).
Proof.
  unfold xlnx_spi_write, xlnx_spi_do_reset, rxfifo_reset, txfifo_reset,
    xlnx_spi_update_cs, spi_flush_txfifo. exits.
Qed.
Lemma no_exit_checked {A} (o : option A) : no_exit (checked o).
Proof. unfold checked. exits. Qed.
#[export] Hint Resolve no_exit_checked : exits.

Section Exits.
Context {cfg : Config}.

Lemma no_exit_dev_read d rd a l : dev_read d = Some rd -> no_exit (rd a l).
Proof.
  intros E. destruct d; try discriminate E; injection E as <-;
    [unfold blackhole_read|unfold bram_rd|unfold ddr_rd
     |unfold nemu_clock_read, get_current_time|apply no_exit_ulite_read
     |apply no_exit_spi_read
     |unfold nemu_keyboard_read, nemu_keyboard_rp, nemu_keyboard_update_irq
     |unfold nemu_vga_read, screen_pixels|unfold screen_read]; exits.
Qed.

Lemma no_exit_dev_write d wr a l v : dev_write d = Some wr -> no_exit (wr a l v).
Proof.
  intros E. destruct d; try discriminate E; injection E as <-;
    [unfold blackhole_write|unfold bram_wr|unfold ddr_wr|unfold nemu_trap_write|
     apply no_exit_ulite_write|apply no_exit_spi_write
     |unfold nemu_vga_write, screen_pixels|unfold screen_write]; exits.
Qed.

Lemma no_exit_dev_map d f a l : dev_map d = Some f -> no_exit (f a l).
Proof. intros E. destruct d; try discriminate E; injection E as <-; exits. Qed.

(** ** Exceptions, translation and memory *)
Lemma no_exit_raise e : no_exit (raise_exception e).
Proof. unfold raise_exception, get_current_pc. exits. Qed.
#[local] Hint Resolve no_exit_raise : exits.
Lemma no_exit_tlb_exception x c v i : no_exit (tlb_exception x c v i).
Proof. unfold tlb_exception. exits. Qed.
#[local] Hint Resolve no_exit_tlb_exception : exits.
Lemma no_exit_page_translate v a : no_exit (page_translate v a).
Proof.
  unfold page_translate. apply no_exit_bind; [auto with exits|]. intros m.
  induction (tlb m); cbn; unfold translate_hit; exits.
Qed.
#[local] Hint Resolve no_exit_page_translate : exits.
Lemma no_exit_prot_addr_with_attr v a : no_exit (prot_addr_with_attr v a).
Proof. unfold prot_addr_with_attr. exits. Qed.
#[local] Hint Resolve no_exit_prot_addr_with_attr : exits.
Lemma no_exit_update_mmu_cache v p d w : no_exit (update_mmu_cache v p d w).
Proof. unfold update_mmu_cache. exits. by eapply no_exit_dev_map. Qed.
#[local] Hint Resolve no_exit_update_mmu_cache : exits.
Lemma no_exit_vaddr_read a l : no_exit (vaddr_read a l).
Proof. unfold vaddr_read, host_load. exits. by eapply no_exit_dev_read. Qed.
Lemma no_exit_vaddr_write a l v : no_exit (vaddr_write a l v).
Proof. unfold vaddr_write, host_store, prot_addr. exits. by eapply no_exit_dev_write. Qed.
#[local] Hint Resolve no_exit_vaddr_read no_exit_vaddr_write : exits.

(** ** The loop *)
Lemma no_exit_refetch_ds p : no_exit (refetch_ds p).
Proof. unfold refetch_ds, decode_cache_fetch, free_decode_state_chain, upd_dc. exits. Qed.
#[local] Hint Resolve no_exit_refetch_ds : exits.
Lemma no_exit_inst_end : no_exit inst_end.
Proof. unfold inst_end, get_cpu. exits. Qed.
#[local] Hint Resolve no_exit_inst_end : exits.
Lemma no_exit_handler_end h : no_exit (handler_end h).
Proof. unfold handler_end. exits. Qed.
Lemma no_exit_to_exit h k : no_exit (to_exit h k).
Proof. intros s s'. unfold to_exit. destruct (k s); [apply no_exit_handler_end|done|done]. Qed.
#[local] Hint Resolve no_exit_to_exit : exits.
Lemma no_exit_fetch : no_exit fetch.
Proof. unfold fetch, get_cpu, instr_enqueue_instr. exits. Qed.
Lemma no_exit_dispatch h o : no_exit (dispatch h o).
Proof. unfold dispatch. exits. Qed.
#[local] Hint Resolve no_exit_dispatch : exits.
Lemma no_exit_exec_inst i : no_exit (exec_inst i).
Proof. apply no_exit_dispatch. Qed.
Lemma no_exit_cached_entry : no_exit cached_entry.
Proof.
  unfold cached_entry, malloc_ds, ds_upd, ds_store, ds_load, get_dc, get_cpu, upd_dc,
    instr_enqueue_instr. exits.
Qed.
#[local] Hint Resolve no_exit_cached_entry : exits.
Lemma no_exit_exec_cached : no_exit exec_cached.
Proof. unfold exec_cached, ds_load, get_dc. exits. Qed.
#[local] Hint Resolve no_exit_exec_cached : exits.
Lemma no_exit_check_exception : no_exit check_exception.
Proof. unfold check_exception, check_intrs, tick, get_cpu. exits. Qed.
#[local] Hint Resolve no_exit_fetch no_exit_exec_inst no_exit_check_exception : exits.
Lemma no_exit_step : no_exit step.
Proof. unfold step, get_cpu, instr_enqueue_pc. exits. Qed.
#[local] Hint Resolve no_exit_step : exits.
Lemma no_exit_cpu_loop n : no_exit (cpu_loop n).
Proof. induction n; cbn; exits. Qed.
#[local] Hint Resolve no_exit_cpu_loop : exits.
Lemma no_exit_run_loop n : no_exit (run_loop n).
Proof. unfold run_loop, get_cpu. exits. Qed.
Lemma no_exit_cpu_exec n : no_exit (cpu_exec n).
Proof.
  intros m m'. unfold cpu_exec. case_decide; [done|].
  destruct (run_loop n m) as [| |h ?] eqn:E; [done|by apply no_exit_run_loop in E|].
  destruct h; try done. by case_match.
Qed.
End Exits.
#[export] Hint Resolve no_exit_raise no_exit_vaddr_read no_exit_vaddr_write : exits.
