(* ===== verification/Samples.v ===== *)
(** * Concrete states

    The states on which the properties are exercised: the static initial state, and
    the same with registers, memory or a device map set up. *)
From S2P Require Import Prelude Config Reg Fifo Ram Flash Sdlkey Machine Ulite Spi Device Mmu Memory.
From S2P Require Import ExecAlu ExecMdu ExecMem Softfloat ExecFloat Decode Cpu Frame Invariant.

Definition host0 : host_t := mkHost [] [] [] [] [].
Definition m_zero : machine := machine_zero MODE_BATCH host0 None.
Definition m_gdb : machine := machine_zero MODE_GDB host0 None.

Lemma wf_m_zero : wf m_zero.
Proof. by apply wf_machine_zero. Qed.
Lemma wf_m_gdb : wf m_gdb.
Proof. by apply wf_machine_zero. Qed.

(** A well-formed state stays so with another well-formed CPU. *)
Lemma wf_set_cpu c m : wf_cpu c -> wf m -> wf (set_cpu c m).
Proof. intros Hc []. by constructor. Qed.
Lemma wf_set_regions r m : wf m -> wf (set_memory_regions r m).
Proof. intros []. by constructor. Qed.
Lemma wf_set_tlb l m : wf_tlb l -> wf m -> wf (set_tlb l m).
Proof. intros ? []. by constructor. Qed.
#[export] Hint Resolve wf_m_cpu wf_m_zero wf_m_gdb wf_set_cpu wf_set_regions wf_cpu_zero : words.
