(* ===== verification/Exceptions.v ===== *)
(** * Exceptions and interrupts

    What raise_exception does to the CPU on every path, its inverse eret, when
    check_intrs delivers an interrupt, and the timer. *)
From S2P Require Import Prelude Config Reg Fifo Ram Flash Sdlkey Machine Ulite Spi Device Mmu Memory.
From S2P Require Import ExecAlu ExecMdu ExecMem Softfloat ExecFloat Decode Cpu Frame Invariant Exits Samples.
Local Open Scope nemu_scope.

(** ** Specification *)
Section Spec.
Context {cfg : Config}.

(** The exception is taken at the outermost level: EPC and BD are recorded. *)
Definition outermost (c : CPU_state) : bool :=
  CONFIG_MARCH_NOOP || (cp0_get status_EXL (cp0 c) =? 0).

Definition in_slot (c : CPU_state) : bool := CONFIG_DELAYSLOT && is_delayslot c.

Definition exc_offset (c : CPU_state) (code extra : Z) : Z :=
  if outermost c then
    if extra =? EX_TLB_REFILL then 0
    else if (code =? EXC_INTR) && (cp0_get cause_IV (cp0 c) =? 1) then 0x200 else 0x180
  else 0x180.

Definition exc_vector (c : CPU_state) (code extra : Z) : Z :=
  (if cp0_get status_BEV (cp0 c) =? 1 then 0xbfc00200 else 0x80000000) +
  exc_offset c code extra.

(** The state [c'] an exception leaves from [c]. *)
Record raised (code extra : Z) (c c' : CPU_state) : Prop := mkRaised {
  ra_exception : has_exception c' = true;
  ra_code : cp0_get cause_ExcCode (cp0 c') = uw 5 code;
  ra_EXL : cp0_get status_EXL (cp0 c') = 1;
  ra_epc : cpr_get (cp0 c') CP0_EPC 0 =
    if outermost c then u32 (if in_slot c then pc c - 4 else pc c)
    else cpr_get (cp0 c) CP0_EPC 0;
  ra_BD : cp0_get cause_BD (cp0 c') =
    if outermost c then b2z (in_slot c) else cp0_get cause_BD (cp0 c);
  ra_slot : is_delayslot c' = is_delayslot c && negb (outermost c && in_slot c);
  ra_vector : br_target c' = exc_vector c code extra;
  ra_IP : cp0_get cause_IP (cp0 c') = cp0_get cause_IP (cp0 c);
  ra_IM : cp0_get status_IM (cp0 c') = cp0_get status_IM (cp0 c);
  ra_ERL : cp0_get status_ERL (cp0 c') = cp0_get status_ERL (cp0 c);
  ra_regs : same_regs c c'
}.
End Spec.

Section RaiseLemmas.
Context {cfg : Config}.

Lemma exc_vector_u32 c code extra : is_u32 (exc_vector c code extra).
Proof. unfold exc_vector, exc_offset, in_u. repeat case_match; lia. Qed.

Lemma record_epc_facts c :
  wf_cpu c ->
  let c' := record_epc c in
  wf_cpu c' /\ cpr_get (cp0 c') CP0_EPC 0 = u32 (if in_slot c then pc c - 4 else pc c) /\
  cp0_get cause_BD (cp0 c') = b2z (in_slot c) /\
  is_delayslot c' = is_delayslot c && negb (in_slot c) /\
  (forall f, c_reg f <> CP0_EPC -> cp0_ok f -> cp0_apart f cause_BD ->
     cp0_get f (cp0 c') = cp0_get f (cp0 c)).
Proof.
  intros Hc. cbv zeta. unfold record_epc, in_slot.
  destruct (CONFIG_DELAYSLOT && is_delayslot c) eqn:E.
  all: split_and!; [auto 20 with words|by regs|by regs| |].
  - cbn. by rewrite andb_false_r.
  - intros f Hf Hok Hap. rewrite get_put_cp0_ne, get_put_cpr_ne by (cp0_side || congruence).
    done.
  - cbn. by rewrite andb_true_r.
  - intros f Hf Hok Hap. rewrite get_put_cp0_ne, get_put_cpr_ne by (cp0_side || congruence).
    done.
Qed.

Lemma enter_vector_facts code off c :
  wf_cpu c -> 0 <= off <= 0x200 ->
  let c' := enter_vector code off c in
  cp0_get cause_ExcCode (cp0 c') = uw 5 code /\ cp0_get status_EXL (cp0 c') = 1 /\
  cpr_get (cp0 c') CP0_EPC 0 = cpr_get (cp0 c) CP0_EPC 0 /\
  br_target c' = (if cp0_get status_BEV (cp0 c) =? 1 then 0xbfc00200 else 0x80000000) + off /\
  is_delayslot c' = is_delayslot c /\ has_exception c' = has_exception c /\
  (forall f, cp0_ok f -> cp0_apart f cause_ExcCode -> cp0_apart f status_EXL ->
     cp0_get f (cp0 c') = cp0_get f (cp0 c)).
Proof.
  intros Hc Ho. cbv zeta. unfold enter_vector. regs.
  destruct (cp0_get status_BEV (cp0 c) =? 1).
  all: split_and!; [by regs|by regs|by regs| |done|done|].
  all: try (intros f Hok H1 H2; by regs).
  all: cbn; apply uw_small; unfold in_u; lia.
Qed.

Lemma raise_cpu_raised code extra c :
  wf_cpu c -> raised code extra c (raise_cpu code extra c).
Proof.
  intros Hc. pose proof (bus_upd_same _ _ (bus_upd_raise code extra c)) as Hs.
  revert Hs. unfold raise_cpu. set (c1 := set_has_exception true c).
  assert (wf_cpu c1) as Hc1 by (unfold c1; auto with words).
  change (cp0_get status_EXL (cp0 c1)) with (cp0_get status_EXL (cp0 c)).
  destruct (record_epc_facts c1 Hc1) as (Hw & He & Hb & Hd & Hf).
  change (CONFIG_MARCH_NOOP || (cp0_get status_EXL (cp0 c) =? 0)) with (outermost c).
  destruct (outermost c) eqn:Eo; intros Hs.
  - rewrite !Hf in Hs |- * by cp0_side. change (cp0 c1) with (cp0 c) in *.
    set (off := if extra =? EX_TLB_REFILL then 0 else _) in *.
    assert (0 <= off <= 0x200) as Ho by (unfold off; repeat case_match; lia).
    destruct (enter_vector_facts code off (record_epc c1) Hw Ho)
      as (E1 & E2 & E3 & E4 & E5 & E6 & E7).
    constructor; rewrite ?Eo; [..|exact Hs];
      rewrite ?E1, ?E2, ?E3, ?E4, ?E5, ?E6, ?He, ?Hd; try done.
    + unfold record_epc. by destruct (CONFIG_DELAYSLOT && _).
    + rewrite E7, Hb by cp0_side. done.
    + unfold exc_vector, exc_offset. rewrite Eo. by rewrite Hf by cp0_side.
    + rewrite E7, Hf by cp0_side. done.
    + rewrite E7, Hf by cp0_side. done.
    + rewrite E7, Hf by cp0_side. done.
  - destruct (enter_vector_facts code 0x180 c1 Hc1 ltac:(lia))
      as (E1 & E2 & E3 & E4 & E5 & E6 & E7).
    constructor; rewrite ?Eo; [..|exact Hs]; rewrite ?E1, ?E2, ?E3, ?E4, ?E5, ?E6; try done.
    + by rewrite E7 by cp0_side.
    + cbn. by rewrite andb_true_r.
    + unfold exc_vector, exc_offset. by rewrite Eo.
    + by rewrite E7 by cp0_side.
    + by rewrite E7 by cp0_side.
    + by rewrite E7 by cp0_side.
Qed.
End RaiseLemmas.

(** ** Running the operations *)
Definition caches_cleared (m : machine) : machine :=
  set_decode_cache (dc_clear (decode_cache m))
    (set_mmu_cache (map (fun e => mkMmuCache 0xFFFFFFFF None (mc_can_write e)) (mmu_cache m)) m).

Section Run.
Context {cfg : Config}.

Lemma raise_exception_run e m :
  Z.land e 0xFFFF <> EXC_TRAP ->
  raise_exception e m =
  Ok tt (caches_cleared (set_cpu (raise_cpu (Z.land e 0xFFFF) (Z.shiftr e 16) (cpu m)) m)).
Proof.
  intros H. unfold raise_exception. destruct (Z.eqb_spec (Z.land e 0xFFFF) EXC_TRAP); done.
Qed.

Lemma MAKE_EX_fields extra code :
  0 <= code < 32 -> 0 <= extra < 2 ^ 16 ->
  Z.land (MAKE_EX extra code) 0xFFFF = code /\ Z.shiftr (MAKE_EX extra code) 16 = extra.
Proof.
  intros Hc He. unfold MAKE_EX. change 0xFFFF with (Z.ones 16). split.
  - apply Z.bits_inj'. intros i Hi. bb_rewrite. destruct (Z.ltb_spec i 16).
    + rewrite (Z.testbit_neg_r extra) by lia. bb_split; bb_finish.
    + rewrite (testbit_in_u 5 code i) by (unfold in_u; lia). bb_split; bb_finish.
  - apply Z.bits_inj'. intros i Hi. bb_rewrite.
    rewrite (testbit_in_u 5 code (i + 16)) by (unfold in_u; lia). bb_split; bb_finish.
Qed.

Lemma raise_run code extra m :
  0 <= code < 32 -> code <> EXC_TRAP -> 0 <= extra < 2 ^ 16 ->
  raise_exception (MAKE_EX extra code) m =
  Ok tt (caches_cleared (set_cpu (raise_cpu code extra (cpu m)) m)).
Proof.
  intros Hc Ht He. destruct (MAKE_EX_fields extra code Hc He) as [E1 E2].
  rewrite raise_exception_run by congruence. by rewrite E1, E2.
Qed.

Lemma raise_trap code extra m :
  0 <= code < 32 -> 0 <= extra < 2 ^ 16 -> code = EXC_TRAP ->
  raise_exception (MAKE_EX extra code) m = Stop HPanic m.
Proof.
  intros Hc He Ht. destruct (MAKE_EX_fields extra code Hc He) as [E1 _].
  unfold raise_exception. rewrite E1, Ht. cbn. unfold bind, get_current_pc, ensure.
  by destruct CONFIG_INSTR_LOG.
Qed.

(** An exception without an extra code: raise_exception(code). *)
Lemma raise_run0 code m :
  0 <= code < 32 -> code <> EXC_TRAP ->
  raise_exception code m =
  Ok tt (caches_cleared (set_cpu (raise_cpu code 0 (cpu m)) m)).
Proof.
  intros Hc Ht. rewrite <- (raise_run code 0) by lia. done.
Qed.
End Run.

(** The entries of a cleared translation cache never hit. *)
Definition mmu_cache_empty (m : machine) : Prop :=
  Forall (fun e => mc_id e = 0xFFFFFFFF /\ mc_ptr e = None) (mmu_cache m).

Lemma caches_cleared_empty m : mmu_cache_empty (caches_cleared m).
Proof. apply Forall_fmap, Forall_true. done. Qed.

Lemma intr_code : 0 <= EXC_INTR < 32 /\ EXC_INTR <> EXC_TRAP.
Proof. done. Qed.

(** ** Taking an exception *)
(** C1: what raise_exception does for every exception code.  The code EXC_TRAP, which
    the trap instructions raise, ends the emulator in a panic and records nothing: the
    machine is as it was.  Every other exception is recorded: it becomes pending with its
    code and EXL set; at the outermost level EPC is the address of the instruction (of
    the branch, with BD set, in a delay slot) and the delay slot is abandoned, while a
    nested exception leaves EPC and BD alone; the vector is the base selected by BEV plus
    the refill, interrupt or general offset; no general, floating or multiply register
    changes and the translation cache is emptied. *)
Theorem raise_exception_spec {cfg : Config} code extra m :
  wf m -> 0 <= code < 32 -> 0 <= extra < 2 ^ 16 ->
  (code = EXC_TRAP -> raise_exception (MAKE_EX extra code) m = Stop HPanic m) /\
  (code <> EXC_TRAP ->
   exists m', raise_exception (MAKE_EX extra code) m = Ok tt m' /\
     raised code extra (cpu m) (cpu m') /\ mmu_cache_empty m').
Proof.
  intros Hwf Hc He. split; intros Ht; [by apply raise_trap|].
  rewrite raise_run by done. eexists. split; [done|].
  split; [|apply caches_cleared_empty]. apply raise_cpu_raised, Hwf.
Qed.

(** ** Returning from an exception *)
Section Eret.
Context {cfg : Config} (Hexc : CONFIG_EXCEPTION || CONFIG_INTR = true).

Lemma check_exception_pending m :
  has_exception (cpu m) = true ->
  check_exception m =
  Ok tt (set_cpu (set_pc (br_target (cpu m)) (set_has_exception false (cpu m))) m).
Proof using Hexc.
  intros He. unfold check_exception, when. rewrite Hexc. cbn. unfold bind.
  rewrite He. cbn. rewrite He. done.
Qed.

Definition eret_cpu (c : CPU_state) : CPU_state :=
  let c := set_has_exception true c in
  if cp0_get status_ERL (cp0 c) =? 1
  then put_cp0 status_ERL 0 (set_br_target (cpr_get (cp0 c) CP0_ErrorEPC 0) c)
  else put_cp0 status_EXL 0 (set_br_target (cpr_get (cp0 c) CP0_EPC 0) c).

Lemma eret_run o m : System.eret o m = Ok tt (caches_cleared (set_cpu (eret_cpu (cpu m)) m)).
Proof using Type.
  unfold System.eret, eret_cpu, bind. cbn.
  destruct (cp0_get status_ERL (cp0 (cpu m)) =? 1); done.
Qed.
End Eret.

(** The CPU part of what follows a handler. *)
Section InstEnd.
Context {cfg : Config}.

Definition end_cpu (c : CPU_state) : CPU_state :=
  if CONFIG_DELAYSLOT && is_delayslot c
  then set_is_delayslot false (set_pc (br_target c) c)
  else set_pc (pc c + 4) c.

Lemma end_cpu_frame c :
  br_target (end_cpu c) = br_target c /\ has_exception (end_cpu c) = has_exception c /\
  cp0 (end_cpu c) = cp0 c /\ gpr (end_cpu c) = gpr c.
Proof. unfold end_cpu. by case_match. Qed.

Lemma handler_end_run h m :
  CONFIG_DELAYSLOT || negb (last_handler h) = true ->
  CONFIG_DECODE_CACHE && (CONFIG_DELAYSLOT && is_delayslot (cpu m)) = false ->
  handler_end h m = Ok tt (set_cpu (end_cpu (cpu m)) m).
Proof.
  intros Hl H. unfold handler_end, inst_end, end_cpu, bind, get_cpu, when. cbn.
  destruct CONFIG_DELAYSLOT; cbn in *; [|by rewrite Hl].
  destruct (is_delayslot _); [|done]. rewrite andb_true_r in H. by rewrite H.
Qed.
End InstEnd.

(** C2: in a build with exceptions or interrupts, an exception other than EXC_TRAP taken
    with ERL clear and at the outermost level (EXL clear, or a MARCH_NOOP build), handled
    by a handler that only does ERET, returns to the interrupted instruction (to the
    branch when it was in a delay slot) with EXL cleared, no exception pending and every
    general register unchanged. *)
Theorem exception_eret_roundtrip {cfg : Config} code extra o m :
  wf m -> CONFIG_EXCEPTION || CONFIG_INTR = true ->
  0 <= code < 32 -> code <> EXC_TRAP -> 0 <= extra < 2 ^ 16 ->
  outermost (cpu m) = true -> cp0_get status_ERL (cp0 (cpu m)) = 0 ->
  exists m',
    (raise_exception (MAKE_EX extra code) ;; check_exception ;;
     to_exit H_eret (System.eret o) ;; check_exception) m = Ok tt m' /\
    pc (cpu m') = u32 (if in_slot (cpu m) then pc (cpu m) - 4 else pc (cpu m)) /\
    has_exception (cpu m') = false /\ cp0_get status_EXL (cp0 (cpu m')) = 0 /\
    gpr (cpu m') = gpr (cpu m).
Proof.
  intros Hwf Hexc Hc Ht He Ho Herl. pose proof (wf_m_cpu m Hwf) as Hcpu.
  pose proof (raise_cpu_raised code extra (cpu m) Hcpu) as [R1 R2 R3 R4 R5 R6 R7 R8 R9 R10 R11].
  set (c1 := raise_cpu code extra (cpu m)) in *.
  rewrite (bind_ok _ _ _ _ _ (raise_run code extra m Hc Ht He)). fold c1.
  erewrite bind_ok by (apply check_exception_pending; done).
  cbn [cpu set_cpu caches_cleared set_decode_cache set_mmu_cache].
  set (c2 := set_pc (br_target c1) (set_has_exception false c1)).
  assert (wf_cpu c2) as Hc2.
  { unfold c2. pose proof (bus_upd_wf _ _ (bus_upd_raise code extra (cpu m)) Hcpu).
    fold c1 in H. auto with words. }
  unfold bind at 1, to_exit. rewrite eret_run. cbn [cpu set_cpu].
  assert (eret_cpu c2 = put_cp0 status_EXL 0
            (set_br_target (cpr_get (cp0 c1) CP0_EPC 0) (set_has_exception true c2))) as Ee.
  { unfold eret_cpu. change (cp0 (set_has_exception true c2)) with (cp0 c1).
    by rewrite R10, Herl. }
  rewrite (handler_end_run H_eret); [|apply orb_true_r|].
  2: { cbn [cpu set_cpu caches_cleared set_decode_cache set_mmu_cache]. rewrite Ee. cbn.
    rewrite R6, Ho. unfold in_slot. cbn. by destruct CONFIG_DELAYSLOT, (is_delayslot (cpu m)), CONFIG_DECODE_CACHE. }
  cbn [cpu set_cpu caches_cleared set_decode_cache set_mmu_cache]. rewrite Ee.
  set (c3 := put_cp0 status_EXL 0 _). destruct (end_cpu_frame c3) as (F1 & F2 & F3 & F4).
  erewrite check_exception_pending; [|done|done].
  eexists. split; [done|]. cbn [cpu set_cpu set_pc set_has_exception pc has_exception cp0 gpr].
  rewrite F1, F3, F4. split_and!; [|done| |exact (sr_gpr _ _ R11)].
  - unfold c3. cbn. rewrite R4, Ho, !uw_uw by lia. done.
  - unfold c3. by regs.
Qed.

(** ** Interrupts *)
Section Interrupts.
Context {cfg : Config}.

(** cause.IP with a line raised *)
Definition raise_ip (n : Z) (c : CPU_state) : CPU_state :=
  put_cp0 cause_IP (Z.lor (cp0_get cause_IP (cp0 c)) (Z.shiftl 1 n)) c.

(** The CPU after the counter part of check_intrs. *)
Definition tick_cpu (c : CPU_state) : CPU_state :=
  let c := put_cpr CP0_COUNT 0 (cpr_get (cp0 c) CP0_COUNT 0 + 1) c in
  if cpr_get (cp0 c) CP0_COUNT 0 =? cpr_get (cp0 c) CP0_COMPARE 0 then raise_ip 7 c else c.

Lemma tick_run m : tick m = Ok tt (set_cpu (tick_cpu (cpu m)) m).
Proof. unfold tick, tick_cpu, bind, when. cbn. by case_match. Qed.

Lemma tick_cpu_wf c : wf_cpu c -> wf_cpu (tick_cpu c).
Proof. intros. unfold tick_cpu, raise_ip. case_match; auto with words. Qed.

(** The count after a tick, and the value of IP. *)
Lemma tick_cpu_facts c :
  wf_cpu c ->
  let n := u32 (cpr_get (cp0 c) CP0_COUNT 0 + 1) in
  cpr_get (cp0 (tick_cpu c)) CP0_COUNT 0 = n /\
  cpr_get (cp0 (tick_cpu c)) CP0_COMPARE 0 = cpr_get (cp0 c) CP0_COMPARE 0 /\
  Z.testbit (cp0_get cause_IP (cp0 (tick_cpu c))) 7 =
    (n =? cpr_get (cp0 c) CP0_COMPARE 0) || Z.testbit (cp0_get cause_IP (cp0 c)) 7.
Proof.
  intros Hc. cbv zeta. unfold tick_cpu, raise_ip. regs.
  destruct (_ =? cpr_get (cp0 c) CP0_COMPARE 0); regs; split_and!; try done.
  rewrite testbit_uw, Z.lor_spec by (cbn; lia). cbn.
  rewrite orb_true_r. done.
Qed.

(** The CPU that check_intrs looks at. *)
Definition sampled (c : CPU_state) : CPU_state := if CONFIG_INTR then tick_cpu c else c.

Lemma check_intrs_run m :
  check_intrs m =
  if intr_pending (sampled (cpu m))
  then Ok tt (caches_cleared (set_cpu (raise_cpu EXC_INTR 0 (sampled (cpu m))) m))
  else Ok tt (set_cpu (sampled (cpu m)) m).
Proof.
  assert (when CONFIG_INTR tick m = Ok tt (set_cpu (sampled (cpu m)) m)) as E.
  { unfold when, sampled. destruct CONFIG_INTR; [apply tick_run|by destruct m]. }
  unfold check_intrs. rewrite (bind_ok _ _ _ _ _ E). unfold bind. cbn.
  unfold when. destruct (intr_pending (sampled (cpu m))); [|done].
  by rewrite (raise_run0 EXC_INTR) by apply intr_code.
Qed.
End Interrupts.

(** Interrupts are enabled: bit 0 (IE) of Status is set, bits 1 (EXL) and 2 (ERL) are
    clear; and for some line, bits 8 to 15 of Status (mask) and Cause (pending) are set. *)
Definition deliverable (c : CPU_state) : Prop :=
  let status := cpr_get (cp0 c) CP0_STATUS 0 in
  let cause := cpr_get (cp0 c) CP0_CAUSE 0 in
  Z.testbit status 0 = true /\ Z.testbit status 1 = false /\ Z.testbit status 2 = false /\
  exists line, 8 <= line < 16 /\ Z.testbit status line = true /\ Z.testbit cause line = true.

Lemma bf_get_bit lo w : 0 <= lo -> bf_get (mkField lo 1) w = b2z (Z.testbit w lo).
Proof.
  intros Hlo. unfold bf_get. cbn [f_lo f_len].
  rewrite Z.land_ones, Z.pow_1_r, <- Z.bit0_mod, Z.shiftr_spec, Z.add_0_l by lia.
  by destruct (Z.testbit w lo).
Qed.

Lemma land_fields_nonzero lo len v w :
  0 <= lo -> 0 <= len ->
  negb (Z.land (bf_get (mkField lo len) v) (bf_get (mkField lo len) w) =? 0) = true <->
  exists i, lo <= i < lo + len /\ Z.testbit v i = true /\ Z.testbit w i = true.
Proof.
  intros Hlo Hlen. unfold bf_get. cbn [f_lo f_len]. rewrite negb_true_iff, Z.eqb_neq. split.
  - set (x := Z.land (Z.land _ _) _). intros Hne.
    assert (0 <= x) as Hx.
    { apply Z.land_nonneg. left. apply Z.land_nonneg. right. rewrite Z.ones_equiv.
      pose proof (Z.pow_pos_nonneg 2 len). lia. }
    pose proof (Z.bit_log2 x ltac:(lia)) as Hi. pose proof (Z.log2_nonneg x) as Hi0.
    revert Hi Hi0. generalize (Z.log2 x) as i. intros i Hi Hi0. revert Hi. unfold x.
    rewrite !Z.land_spec, !Z.shiftr_spec, !testbit_ones by lia.
    destruct (Z.ltb_spec i len); [|by rewrite !andb_false_r].
    destruct (Z.testbit v (i + lo)) eqn:Ev, (Z.testbit w (i + lo)) eqn:Ew;
      rewrite ?andb_false_r; try done.
    intros _. exists (i + lo). split_and!; [lia|lia|done|done].
  - intros (i & Hi & Ev & Ew) E. apply (f_equal (fun x => Z.testbit x (i - lo))) in E.
    rewrite Z.bits_0, !Z.land_spec, !Z.shiftr_spec, !testbit_ones in E by lia.
    rewrite Z.sub_add, Ev, Ew in E. destruct (Z.leb_spec 0 (i - lo)), (Z.ltb_spec (i - lo) len); try lia; done.
Qed.

Lemma intr_pending_spec c : intr_pending c = true <-> deliverable c.
Proof.
  unfold intr_pending, deliverable, cp0_get.
  cbn [c_reg c_sel c_fld status_IE status_EXL status_ERL status_IM cause_IP].
  rewrite !andb_true_iff, land_fields_nonzero by lia. rewrite !bf_get_bit by lia.
  change (8 + 8) with 16. cbv zeta.
  destruct (Z.testbit _ 0), (Z.testbit _ 1), (Z.testbit _ 2); cbn; intuition discriminate.
Qed.

(** C3: check_intrs delivers an interrupt exactly when, after the counter has advanced
    (with CONFIG_INTR), interrupts are enabled (IE set, EXL and ERL clear) and some
    unmasked line of cause.IP is raised; it then records an exception with code Int.
    Otherwise only the counter and the timer line may have changed. *)
Theorem check_intrs_spec {cfg : Config} m :
  wf m ->
  let c := sampled (cpu m) in
  exists m', check_intrs m = Ok tt m' /\
    (deliverable c -> raised EXC_INTR 0 c (cpu m') /\ has_exception (cpu m') = true) /\
    (~ deliverable c -> cpu m' = c /\ has_exception (cpu m') = has_exception (cpu m)).
Proof.
  intros Hwf. cbv zeta. rewrite check_intrs_run.
  assert (wf_cpu (sampled (cpu m))) as Hs.
  { unfold sampled. destruct Hwf. case_match; [by apply tick_cpu_wf|done]. }
  pose proof (intr_pending_spec (sampled (cpu m))) as [Hd1 Hd2].
  destruct (intr_pending (sampled (cpu m))); eexists; (split; [done|]).
  - pose proof (raise_cpu_raised EXC_INTR 0 _ Hs) as Hr. split; [intros _|naive_solver].
    split; [done|]. apply Hr.
  - split; [naive_solver|]. intros _. split; [done|]. cbn. unfold sampled, tick_cpu, raise_ip.
    by repeat case_match.
Qed.

(** ** The timer *)
Section Timer.
Fixpoint ticks (n : nat) : EM unit :=
  match n with O => ret tt | S n => tick ;; ticks n end.

Lemma ticks_run n m : ticks n m = Ok tt (set_cpu (Nat.iter n tick_cpu (cpu m)) m).
Proof.
  revert m. induction n as [|n IH]; intros m; cbn [ticks Nat.iter nat_rect]; [by destruct m|].
  rewrite (bind_ok _ _ _ _ _ (tick_run m)), IH. cbn [cpu set_cpu].
  by rewrite Nat.iter_swap.
Qed.

Lemma iter_tick_facts n c :
  wf_cpu c ->
  let c' := Nat.iter n tick_cpu c in
  wf_cpu c' /\
  cpr_get (cp0 c') CP0_COUNT 0 = u32 (cpr_get (cp0 c) CP0_COUNT 0 + Z.of_nat n) /\
  cpr_get (cp0 c') CP0_COMPARE 0 = cpr_get (cp0 c) CP0_COMPARE 0 /\
  Z.testbit (cp0_get cause_IP (cp0 c')) 7 =
    existsb (fun j => u32 (cpr_get (cp0 c) CP0_COUNT 0 + Z.of_nat j) =?
                      cpr_get (cp0 c) CP0_COMPARE 0) (seq 1 n)
    || Z.testbit (cp0_get cause_IP (cp0 c)) 7.
Proof.
  intros Hc. cbv zeta. induction n as [|n (IH1 & IH2 & IH3 & IH4)].
  { cbn. split_and!; try done. rewrite Z.add_0_r. symmetry. apply uw_small. auto with words. }
  change (Nat.iter (S n) tick_cpu c) with (tick_cpu (Nat.iter n tick_cpu c)).
  set (c' := Nat.iter n tick_cpu c) in *.
  destruct (tick_cpu_facts c' IH1) as (T1 & T2 & T3).
  assert (u32 (cpr_get (cp0 c') CP0_COUNT 0 + 1) =
          u32 (cpr_get (cp0 c) CP0_COUNT 0 + Z.of_nat (S n))) as E.
  { rewrite IH2. unfold uw. rewrite Zplus_mod_idemp_l. f_equal. lia. }
  split_and!; [by apply tick_cpu_wf|by rewrite T1|congruence|].
  rewrite T3, E, IH3, IH4, seq_S, existsb_app. cbn. rewrite orb_false_r, orb_assoc.
  f_equal. apply orb_comm.
Qed.
End Timer.

(** C4: after [n] ticks the counter has advanced by [n] modulo 2^32, and the timer line
    IP7 is raised exactly when it was before or the counter went through compare. *)
Theorem timer_fires n m :
  wf m ->
  exists m', ticks n m = Ok tt m' /\
    cpr_get (cp0 (cpu m')) CP0_COUNT 0 =
      u32 (cpr_get (cp0 (cpu m)) CP0_COUNT 0 + Z.of_nat n) /\
    (Z.testbit (cp0_get cause_IP (cp0 (cpu m'))) 7 = true <->
     Z.testbit (cp0_get cause_IP (cp0 (cpu m))) 7 = true \/
     exists j, (1 <= j <= n)%nat /\
       u32 (cpr_get (cp0 (cpu m)) CP0_COUNT 0 + Z.of_nat j) =
       cpr_get (cp0 (cpu m)) CP0_COMPARE 0).
Proof.
  intros Hwf. rewrite ticks_run. eexists. split; [done|]. cbn [cpu set_cpu].
  destruct (iter_tick_facts n (cpu m) (wf_m_cpu m Hwf)) as (_ & E1 & _ & E2).
  split; [done|]. rewrite E2, orb_true_iff, existsb_exists. split.
  - intros [(j & Hj%in_seq & Ej%Z.eqb_eq)|?]; [right; exists j; split; [lia|done]|by left].
  - intros [?|(j & Hj & Ej)]; [by right|left]. exists j.
    split; [apply in_seq; lia|by apply Z.eqb_eq].
Qed.

(** ** Witnesses *)
Lemma raise_exception_spec_witness :
  raise_exception (cfg := mips32r1_defconfig) (MAKE_EX 0 EXC_TRAP) m_zero = Stop HPanic m_zero /\
  exists m', raise_exception (cfg := mips32r1_defconfig) (MAKE_EX 7 EXC_TLBL) m_zero = Ok tt m' /\
    raised (cfg := mips32r1_defconfig) EXC_TLBL 7 (cpu m_zero) (cpu m') /\ mmu_cache_empty m'.
Proof.
  split.
  - by apply (raise_exception_spec (cfg := mips32r1_defconfig) EXC_TRAP 0 m_zero wf_m_zero).
  - by apply (raise_exception_spec (cfg := mips32r1_defconfig) EXC_TLBL 7 m_zero wf_m_zero).
Defined.

Lemma exception_eret_roundtrip_witness :
  exists m',
    (raise_exception (cfg := mips32r1_defconfig) (MAKE_EX 0 EXC_SYSCALL) ;;
     check_exception (cfg := mips32r1_defconfig) ;;
     to_exit (cfg := mips32r1_defconfig) H_eret (System.eret (inst_ops 0)) ;;
     check_exception (cfg := mips32r1_defconfig)) m_zero = Ok tt m' /\
    pc (cpu m') = 0 /\ has_exception (cpu m') = false /\
    cp0_get status_EXL (cp0 (cpu m')) = 0 /\ gpr (cpu m') = gpr (cpu m_zero).
Proof.
  apply (exception_eret_roundtrip (cfg := mips32r1_defconfig) EXC_SYSCALL 0 (inst_ops 0) m_zero);
    [exact wf_m_zero|done..].
Defined.

(** IE and IM2 set and line 2 raised. *)
Definition m_intr : machine :=
  set_cpu (put_cpr CP0_CAUSE 0 0x400 (put_cpr CP0_STATUS 0 0x401 (cpu m_zero))) m_zero.

Lemma check_intrs_spec_witness :
  (exists m', check_intrs (cfg := mips32r1_defconfig) m_intr = Ok tt m' /\
    has_exception (cpu m') = true) /\
  exists m', check_intrs (cfg := mips32r1_defconfig) m_zero = Ok tt m' /\
    has_exception (cpu m') = false.
Proof.
  split.
  - destruct (check_intrs_spec (cfg := mips32r1_defconfig) m_intr)
      as (m' & E & H & _); [unfold m_intr; auto 10 with words|]. exists m'. split; [exact E|].
    apply H. split_and!; [reflexivity..|]. exists 10. split; [lia|split; reflexivity].
  - destruct (check_intrs_spec (cfg := mips32r1_defconfig) m_zero wf_m_zero)
      as (m' & E & _ & H). exists m'. split; [exact E|]. apply H.
    intros (D & _). vm_compute in D. discriminate.
Defined.

Lemma timer_fires_witness :
  exists m', ticks 3 m_zero = Ok tt m' /\ cpr_get (cp0 (cpu m')) CP0_COUNT 0 = 3.
Proof.
  destruct (timer_fires 3 m_zero wf_m_zero)
    as (m' & E & H & _). exists m'. split; [exact E|exact H].
Defined.
