(* ===== verification/ArithProps.v ===== *)
(** * Integer instructions compute what the architecture asks for

    Overflow detection of add, addi and sub, 64-bit products and quotients, leading
    zero and one counts, byte swaps, bit-field insertion and extraction, rotation. *)
From S2P Require Import Prelude Config Reg Fifo Ram Flash Sdlkey Machine Ulite Spi Device Mmu Memory.
From S2P Require Import ExecAlu ExecMdu ExecMem Softfloat ExecFloat Decode Cpu Frame Invariant Exits Samples Exceptions.
Local Open Scope nemu_scope.

(** ** Operand fields are inside their tables *)
Lemma field5_range lo w : 0 <= bf_get (mkField lo 5) w < 32.
Proof. apply (bf_get_range (mkField lo 5) w). cbn. lia. Qed.

Lemma ops_ranges w :
  let o := inst_ops w in
  0 <= o_rs o < 32 /\ 0 <= o_rt o < 32 /\ 0 <= o_rd o < 32 /\ 0 <= o_shamt o < 32.
Proof. cbv zeta. split_and!; apply field5_range. Qed.

Lemma simm_range w : - 2 ^ 15 <= o_simm (inst_ops w) < 2 ^ 15.
Proof. apply (sw_range 16). lia. Qed.

(** ** Overflow *)
Lemma overflowed_spec val :
  - 2 ^ 32 <= val < 2 ^ 32 -> overflowed val = negb ((- 2 ^ 31 <=? val) && (val <? 2 ^ 31)).
Proof.
  intros Hv. unfold overflowed, L64_hi, L64_lo. f_equal.
  change 1 with (Z.ones 1). rewrite !Z.land_ones, !Z.shiftr_div_pow2 by lia.
  unfold uw. change (2 ^ 1) with 2.
  assert (val / 2 ^ 32 = if val <? 0 then -1 else 0) as ->.
  { destruct (Z.ltb_spec val 0); symmetry;
      [apply (Z.div_unique _ _ _ (val + 2 ^ 32))|apply (Z.div_unique _ _ _ val)]; lia. }
  assert (val mod 2 ^ 32 = if val <? 0 then val + 2 ^ 32 else val) as ->.
  { destruct (Z.ltb_spec val 0); symmetry;
      [apply (Z.mod_unique _ _ (-1))|apply (Z.mod_unique _ _ 0)]; lia. }
  destruct (Z.ltb_spec val 0), (Z.leb_spec (- 2 ^ 31) val), (Z.ltb_spec val (2 ^ 31));
    cbn [andb]; try lia.
  - assert ((val + 2 ^ 32) / 2 ^ 31 = 1) as ->; [|done].
    symmetry. apply (Z.div_unique _ _ _ (val + 2 ^ 31)); lia.
  - assert ((val + 2 ^ 32) / 2 ^ 31 = 0) as ->; [|done].
    symmetry. apply (Z.div_unique _ _ _ (val + 2 ^ 32)); lia.
  - assert (val / 2 ^ 31 = 0) as ->; [|done].
    symmetry. apply (Z.div_unique _ _ _ val); lia.
  - assert (val / 2 ^ 31 = 1) as ->; [|done].
    symmetry. apply (Z.div_unique _ _ _ (val - 2 ^ 31)); lia.
Qed.

Lemma s32_range x : - 2 ^ 31 <= s32 x < 2 ^ 31.
Proof. apply (sw_range 32). lia. Qed.

(** A signed result that fits is stored, one that does not raises Ov. *)
Definition signed_result {cfg : Config} (dest val : Z) (m : machine) (r : res machine unit)
  : Prop :=
  if (- 2 ^ 31 <=? val) && (val <? 2 ^ 31)
  then r = Ok tt (set_cpu (put_gpr dest val (cpu m)) m)
  else exists m', r = Ok tt m' /\ raised EXC_OV 0 (cpu m) (cpu m').

Section Overflow.
Context {cfg : Config} (Hexc : CONFIG_EXCEPTION = true).

Lemma put_gpr_u32 i v c : put_gpr i (u32 v) c = put_gpr i v c.
Proof. unfold put_gpr. by rewrite uw_uw. Qed.

Lemma overflow_result dest val m (store : Z -> EM unit) :
  wf m -> - 2 ^ 32 <= val < 2 ^ 32 ->
  (forall v m, store v m = Ok tt (set_cpu (put_gpr dest v (cpu m)) m)) ->
  signed_result dest val m
    ((if overflowed val then overflow else store (L64_lo val)) m).
Proof using Hexc.
  intros Hwf Hv Hst. unfold signed_result. rewrite overflowed_spec by done.
  destruct ((- 2 ^ 31 <=? val) && (val <? 2 ^ 31)); cbn [negb].
  - rewrite Hst. unfold L64_lo. by rewrite put_gpr_u32.
  - unfold overflow. rewrite Hexc, raise_run0 by done. eexists. split; [done|].
    apply raise_cpu_raised, Hwf.
Qed.
End Overflow.

(** C5: in a build with exceptions, add and sub with a zero shamt field, and addi, store
    the signed sum or difference when it fits in 32 bits, and otherwise raise the overflow
    exception, leaving every general register unchanged. *)
Theorem signed_overflow_spec {cfg : Config} w m :
  wf m -> CONFIG_EXCEPTION = true ->
  let o := inst_ops w in
  let rs := s32 (gpr_at (cpu m) (o_rs o)) in
  let rt := s32 (gpr_at (cpu m) (o_rt o)) in
  (o_shamt o = 0 -> signed_result (o_rd o) (rs + rt) m (Alu.add o m)) /\
  (o_shamt o = 0 -> signed_result (o_rd o) (rs - rt) m (Alu.sub o m)) /\
  signed_result (o_rt o) (rs + o_simm o) m (Alu.addi o m).
Proof.
  intros Hwf Hexc o rs rt.
  pose proof (s32_range (gpr_at (cpu m) (o_rs o))) as Hs.
  pose proof (s32_range (gpr_at (cpu m) (o_rt o))) as Ht. fold rs in Hs. fold rt in Ht.
  pose proof (simm_range w) as Hi. fold o in Hi. split_and!.
  - intros Hsa. unfold Alu.add, InstAssert. rewrite Hsa. cbn.
    apply (overflow_result Hexc (o_rd o) (rs + rt) m (fun v => assign_rd o (fun _ => v)));
      [done|lia|done].
  - intros Hsa. unfold Alu.sub, InstAssert. rewrite Hsa. cbn.
    apply (overflow_result Hexc (o_rd o) (rs - rt) m (fun v => assign_rd o (fun _ => v)));
      [done|lia|done].
  - unfold Alu.addi. cbn.
    apply (overflow_result Hexc (o_rt o) (rs + o_simm o) m (fun v => assign_rt o (fun _ => v)));
      [done|lia|done].
Qed.

Lemma signed_overflow_spec_witness :
  signed_result (cfg := mips32r1_defconfig) 8 5 m_zero
    (Alu.addi (cfg := mips32r1_defconfig) (inst_ops 0x20080005) m_zero).
Proof.
  apply (signed_overflow_spec (cfg := mips32r1_defconfig) 0x20080005 m_zero);
    [exact wf_m_zero|reflexivity].
Defined.

(** ** Multiplication *)
Lemma hilo_put val c : wf_cpu c -> Mdu.hilo (Mdu.put_hilo val c) = u64 val.
Proof.
  intros _. unfold Mdu.hilo, Mdu.put_hilo, L64_lo, L64_hi. cbn. rewrite !uw_uw by lia.
  bitblast.
Qed.

Lemma hilo_halves p c : Mdu.hilo (set_hi (Z.shiftr p 32) (set_lo p c)) = u64 p.
Proof. unfold Mdu.hilo. cbn. bitblast. Qed.

Lemma hilo_range c : wf_cpu c -> in_u 64 (Mdu.hilo c).
Proof.
  intros []. unfold Mdu.hilo. assert (Z.lor (Z.shiftl (hi c) 32) (lo c) =
    u64 (Z.lor (Z.shiftl (hi c) 32) (lo c))) as ->; [|by apply uw_range].
  apply Z.bits_inj'. intros i Hi. bb_rewrite. destruct (Z.ltb_spec i 64); [done|].
  rewrite (testbit_in_u 32 (hi c) (i - 32)), (testbit_in_u 32 (lo c) i) by (done || lia). done.
Qed.

Lemma mul_bound a b n : - n <= a < n -> - n <= b < n -> - (n * n) <= a * b <= n * n.
Proof. nia. Qed.

Lemma s32_prod_range a b : - 2 ^ 63 <= s32 a * s32 b < 2 ^ 63.
Proof.
  pose proof (mul_bound (s32 a) (s32 b) (2 ^ 31) (s32_range a) (s32_range b)). lia.
Qed.

Lemma u32_prod_range a b : is_u32 a -> is_u32 b -> in_u 64 (a * b).
Proof. unfold in_u. nia. Qed.

Section Mult.
Context {cfg : Config}.

Lemma rd_sa_zero_run o m :
  o_rd o = 0 -> o_shamt o = 0 -> Mdu.rd_sa_zero o m = Ok tt m.
Proof. intros E1 E2. unfold Mdu.rd_sa_zero, InstAssert. by rewrite E1, E2. Qed.

(** A multiply instruction that updates hi and lo from the product of rs and rt. *)
Definition hilo_result (val : Z) (m : machine) (r : res machine unit) : Prop :=
  exists m', r = Ok tt m' /\ Mdu.hilo (cpu m') = u64 val /\
    gpr (cpu m') = gpr (cpu m) /\ cp0 (cpu m') = cp0 (cpu m).
End Mult.

(** C6: with the reserved fields (rd, shamt) zero, mult and multu leave the exact 64-bit signed and unsigned product in hi:lo;
    maddu and msubu add it to or subtract it from hi:lo modulo 2^64; madd and msub do
    so when the signed result fits in 64 bits. *)
Theorem multiply_spec {cfg : Config} w m :
  wf m ->
  let o := inst_ops w in
  let c := cpu m in
  let a := gpr_at c (o_rs o) in
  let b := gpr_at c (o_rt o) in
  o_rd o = 0 -> o_shamt o = 0 ->
  (exists m', Mdu.mult o m = Ok tt m' /\ sw 64 (Mdu.hilo (cpu m')) = s32 a * s32 b) /\
  (exists m', Mdu.multu o m = Ok tt m' /\ Mdu.hilo (cpu m') = a * b) /\
  hilo_result (Mdu.hilo c + a * b) m (Mdu.maddu o m) /\
  hilo_result (Mdu.hilo c - a * b) m (Mdu.msubu o m) /\
  (- 2 ^ 63 <= sw 64 (Mdu.hilo c) + s32 a * s32 b < 2 ^ 63 ->
   hilo_result (sw 64 (Mdu.hilo c) + s32 a * s32 b) m (Mdu.madd o m)) /\
  (- 2 ^ 63 <= sw 64 (Mdu.hilo c) - s32 a * s32 b < 2 ^ 63 ->
   hilo_result (sw 64 (Mdu.hilo c) - s32 a * s32 b) m (Mdu.msub o m)).
Proof.
  intros Hwf o c a b Hrd Hsa. pose proof (wf_m_cpu m Hwf) as Hc.
  unfold Mdu.mult, Mdu.multu, Mdu.maddu, Mdu.msubu, Mdu.madd, Mdu.msub, bind.
  rewrite rd_sa_zero_run by done. cbn -[Mdu.put_hilo Mdu.hilo].
  unfold GR_SV, GR_TV. fold c a b. split_and!.
  - eexists. split; [done|]. cbn [cpu set_cpu]. rewrite hilo_halves, sw_uw by lia.
    apply sw_small; [lia|]. apply s32_prod_range.
  - eexists. split; [done|]. cbn [cpu set_cpu]. rewrite hilo_halves, uw_uw by lia.
    apply uw_small. apply u32_prod_range; unfold a, b; auto with words.
  - eexists. split; [done|]. cbn [cpu set_cpu]. rewrite hilo_put, uw_uw by done. done.
  - eexists. split; [done|]. cbn [cpu set_cpu]. rewrite hilo_put, uw_uw by done. done.
  - intros Hb. unfold ensure, Mdu.is_s64.
    rewrite (proj2 (Z.leb_le _ _)), (proj2 (Z.ltb_lt _ _)) by lia. cbn -[Mdu.put_hilo Mdu.hilo].
    eexists. split; [done|]. cbn [cpu set_cpu]. by rewrite hilo_put.
  - intros Hb. unfold ensure, Mdu.is_s64.
    rewrite (proj2 (Z.leb_le _ _)), (proj2 (Z.ltb_lt _ _)) by lia. cbn -[Mdu.put_hilo Mdu.hilo].
    eexists. split; [done|]. cbn [cpu set_cpu]. by rewrite hilo_put.
Qed.

(** $8 holds -7 and $9 holds 2. *)
Definition m_div : machine :=
  set_cpu (put_gpr 9 2 (put_gpr 8 (u32 (-7)) (cpu m_zero))) m_zero.

Lemma wf_m_div : wf m_div.
Proof. apply wf_set_cpu; auto 20 with words. Qed.

Lemma multiply_spec_witness :
  exists m', Mdu.mult (cfg := mips32r1_defconfig) (inst_ops 0x01090018) m_div = Ok tt m' /\
    sw 64 (Mdu.hilo (cpu m')) = -14.
Proof.
  apply (multiply_spec (cfg := mips32r1_defconfig) 0x01090018 m_div);
    [exact wf_m_div|reflexivity|reflexivity].
Defined.

(** ** Division *)
Lemma quot_s32_range a b :
  - 2 ^ 31 <= a < 2 ^ 31 -> b <> 0 -> (a <> - 2 ^ 31 \/ b <> -1) ->
  - 2 ^ 31 <= Z.quot a b < 2 ^ 31.
Proof.
  intros Ha Hb Hmin.
  pose proof (Z.quot_abs a b Hb) as Eq. rewrite Z.quot_div_nonneg in Eq by lia.
  destruct (decide (Z.abs b = 1)) as [E1|].
  - rewrite E1, Z.div_1_r in Eq. destruct (Z.abs_eq_cases b 1 E1) as [->| ->].
    + rewrite Z.quot_1_r. lia.
    + change (-(1)) with (-1) in *. lia.
  - assert (Z.abs a / Z.abs b <= 2 ^ 30) by (apply Z.div_le_upper_bound; lia). lia.
Qed.

(** C7: divide and divu with their reserved fields (rd, shamt) zero put the quotient in
    lo and the remainder in hi, and change no general register.  The signed quotient is
    rounded toward zero: the remainder is smaller than the divisor in absolute value and
    has the sign of the dividend (or is zero); the unsigned one is rounded down.  A zero
    divisor, or -2^31 divided by -1, is outside what the C code defines. *)
Theorem divide_spec {cfg : Config} w m :
  wf m ->
  let o := inst_ops w in
  let a := gpr_at (cpu m) (o_rs o) in
  let b := gpr_at (cpu m) (o_rt o) in
  o_rd o = 0 -> o_shamt o = 0 ->
  (if (s32 b =? 0) || ((s32 a =? - 2 ^ 31) && (s32 b =? -1))
   then Mdu.divide o m = Stop HUndefined m
   else exists m', Mdu.divide o m = Ok tt m' /\
     let q := s32 (lo (cpu m')) in let r := s32 (hi (cpu m')) in
     s32 a = s32 b * q + r /\ Z.abs r < Z.abs (s32 b) /\ 0 <= r * s32 a /\
     q = Z.quot (s32 a) (s32 b) /\ r = Z.rem (s32 a) (s32 b) /\ gpr (cpu m') = gpr (cpu m)) /\
  (if b =? 0 then Mdu.divu o m = Stop HUndefined m
   else exists m', Mdu.divu o m = Ok tt m' /\
     a = b * lo (cpu m') + hi (cpu m') /\ 0 <= hi (cpu m') < b /\
     lo (cpu m') = a / b /\ hi (cpu m') = a mod b /\ gpr (cpu m') = gpr (cpu m)).
Proof.
  intros Hwf o a b Hrd Hsa. pose proof (wf_m_cpu m Hwf) as Hc.
  assert (is_u32 a) as Ha by (unfold a; auto with words).
  assert (is_u32 b) as Hb by (unfold b; auto with words).
  unfold Mdu.divide, Mdu.divu, bind. rewrite rd_sa_zero_run by done.
  cbn. unfold GR_SV, GR_TV. fold a b. split.
  - pose proof (s32_range a) as Ra. pose proof (s32_range b) as Rb.
    rewrite <- negb_orb. set (A := s32 a) in *. set (B := s32 b) in *.
    destruct ((B =? 0) || _) eqn:E; [done|]. cbn. eexists. split; [done|]. cbn.
    rewrite !sw_uw by lia.
    apply orb_false_iff in E as [E1%Z.eqb_neq E2%andb_false_iff].
    rewrite !Z.eqb_neq in E2.
    pose proof (Z.quot_rem A B E1) as Q. pose proof (Z.rem_bound_abs A B E1) as L.
    pose proof (quot_s32_range A B Ra E1 E2) as QR.
    rewrite !sw_small by lia. split_and!; [lia|done|by apply Z.rem_sign_mul|done..].
  - unfold in_u in *. destruct (Z.eqb_spec b 0) as [|E]; [done|]. cbn.
    eexists. split; [done|]. cbn.
    pose proof (Z_div_mod_eq_full a b). pose proof (Z.mod_pos_bound a b ltac:(lia)).
    assert (0 <= a / b <= a) by (split; [apply Z.div_pos; lia|apply Z.div_le_upper_bound; nia]).
    rewrite !uw_small by (unfold in_u; lia). split_and!; (lia || done).
Qed.

Lemma divide_spec_witness :
  exists m', Mdu.divide (cfg := mips32r1_defconfig) (inst_ops 0x0109001a) m_div = Ok tt m' /\
    s32 (lo (cpu m')) = -3 /\ s32 (hi (cpu m')) = -1.
Proof.
  destruct (proj1 (divide_spec (cfg := mips32r1_defconfig) 0x0109001a m_div wf_m_div eq_refl eq_refl))
    as (m' & E & _ & _ & _ & Hq & Hr & _).
  exists m'. split; [exact E|]. split; [exact Hq|exact Hr].
Defined.

(** ** Counts, byte swaps, bit-fields and rotation *)
(** The number of leading bits of a 32-bit word that equal [b]. *)
Fixpoint leading (b : bool) (n : nat) (x : Z) : Z :=
  match n with
  | O => 0
  | S k => if Bool.eqb (Z.testbit x (Z.of_nat k)) b then 1 + leading b k x else 0
  end.

Lemma leading_range b n x : 0 <= leading b n x <= Z.of_nat n.
Proof. induction n as [|n IH]; cbn [leading]; [lia|]. destruct (Bool.eqb _ _); lia. Qed.

Lemma leading_zero n : leading false n 0 = Z.of_nat n.
Proof. induction n as [|n IH]; cbn [leading]; [done|]. rewrite Z.testbit_0_l. cbn. lia. Qed.

Lemma leading_log2 n x :
  0 < x < 2 ^ Z.of_nat n -> leading false n x = Z.of_nat n - 1 - Z.log2 x.
Proof.
  induction n as [|n IH]; cbn [leading]; [lia|]. intros Hx.
  destruct (decide (x < 2 ^ Z.of_nat n)) as [Hl|Hl].
  - rewrite (testbit_in_u (Z.of_nat n) x) by (unfold in_u; lia). cbn. rewrite IH by lia. lia.
  - replace (Z.log2 x) with (Z.of_nat n).
    2: { symmetry. apply Z.log2_unique; [lia|]. rewrite <- Nat2Z.inj_succ. lia. }
    replace (Z.testbit x (Z.of_nat n)) with true; [cbn; lia|].
    replace (Z.of_nat n) with (Z.log2 x); [symmetry; apply Z.bit_log2; lia|].
    apply Z.log2_unique; [lia|]. rewrite <- Nat2Z.inj_succ. lia.
Qed.

Lemma land_pow2_test x k : 0 <= k -> (Z.land x (2 ^ k) =? 0) = negb (Z.testbit x k).
Proof.
  intros Hk. destruct (Z.testbit x k) eqn:E; cbn.
  - apply Z.eqb_neq. intros H. assert (Z.testbit (Z.land x (2 ^ k)) k = true) as C.
    { by rewrite Z.land_spec, E, Z.pow2_bits_true. }
    by rewrite H, Z.testbit_0_l in C.
  - apply Z.eqb_eq. apply Z.bits_inj'. intros i Hi. bb_rewrite.
    destruct (Z.eqb_spec k i) as [->|]; [by rewrite E|by rewrite andb_false_r].
Qed.

Lemma clo_loop_spec k f x cnt :
  (k <= f)%nat -> 0 <= cnt -> cnt + Z.of_nat k < 2 ^ 32 ->
  AluEx.clo_loop f x (Z.shiftr (2 ^ Z.of_nat k) 1) cnt = Some (cnt + leading true k x).
Proof.
  revert f cnt. induction k as [|k IH]; intros f cnt Hf Hc Hb.
  - change (Z.shiftr (2 ^ Z.of_nat 0) 1) with 0.
    destruct f; cbn [AluEx.clo_loop leading]; rewrite Z.land_0_r; cbn; f_equal; lia.
  - replace (Z.shiftr (2 ^ Z.of_nat (S k)) 1) with (2 ^ Z.of_nat k).
    2: { rewrite Z.shiftr_div_pow2, <- Z.pow_sub_r by lia. f_equal. lia. }
    destruct f as [|f]; [lia|]. cbn [AluEx.clo_loop leading].
    rewrite land_pow2_test by lia. destruct (Z.testbit x (Z.of_nat k)); cbn [negb Bool.eqb].
    + rewrite uw_small by (unfold in_u; lia). rewrite IH by lia. f_equal. lia.
    + f_equal. lia.
Qed.

(** The instruction stores [v] in general register [r] and changes nothing else. *)
Definition stores (r v : Z) (m : machine) (res : res machine unit) : Prop :=
  res = Ok tt (set_cpu (put_gpr r v (cpu m)) m).

(** Clz and clo terminate and store the number of leading zeros and of leading ones
    of rs; in particular clz of 0 and clo of 0xffffffff give 32. *)
Theorem count_leading_spec w m :
  wf m ->
  let o := inst_ops w in
  let x := gpr_at (cpu m) (o_rs o) in
  stores (o_rd o) (leading false 32 x) m (AluEx.clz o m) /\
  stores (o_rd o) (leading true 32 x) m (AluEx.clo o m).
Proof.
  intros Hwf o x. assert (is_u32 x) as Hx by (unfold x; auto 20 with words).
  split.
  - unfold stores, AluEx.clz, assign_rd, upd_cpu, modify, GR_SV. fold x. do 2 f_equal.
    destruct (Z.eqb_spec x 0) as [->|]; [by rewrite leading_zero|].
    rewrite leading_log2; [done|]. unfold in_u in Hx. change (Z.of_nat 32) with 32. lia.
  - unfold stores, AluEx.clo, get_cpu, gets, bind, GR_SV. fold x.
    change 0x80000000 with (Z.shiftr (2 ^ Z.of_nat 32) 1).
    by rewrite clo_loop_spec by lia.
Qed.

Lemma count_leading_spec_witness :
  stores 8 32 m_zero (AluEx.clz (inst_ops 0x71204020) m_zero).
Proof.
  apply (count_leading_spec 0x71204020 m_zero). exact wf_m_zero.
Defined.

(** ** Bit positions *)
Lemma testbit_mask n i : 0 <= n -> Z.testbit (Z.shiftl 1 n - 1) i = (0 <=? i) && (i <? n).
Proof.
  intros. rewrite Z.shiftl_1_l, Z.sub_1_r, <- Z.ones_equiv. by apply testbit_ones.
Qed.

Lemma testbit_not32 x i : 0 <= i -> Z.testbit (not32 x) i = (i <? 32) && negb (Z.testbit x i).
Proof. intros. unfold not32. rewrite testbit_uw by lia. by rewrite Z.lnot_spec by lia. Qed.

Lemma bits_ext w x y :
  in_u w x -> in_u w y -> 0 <= w ->
  (forall i, 0 <= i < w -> Z.testbit x i = Z.testbit y i) -> x = y.
Proof.
  intros Hx Hy Hw H. apply Z.bits_inj'. intros i Hi. destruct (decide (i < w)).
  - apply H. lia.
  - by rewrite (testbit_in_u w x i), (testbit_in_u w y i) by (done || lia).
Qed.

(** The bit of [x] that position [i] of the result of [ins], [ext], a rotation by [sa]
    or a byte swap within halfwords comes from. *)
Lemma testbit_ins lsb msb x y i :
  0 <= lsb <= msb -> msb < 32 -> 0 <= i < 32 ->
  Z.testbit (AluEx.ins_val lsb msb x y) i =
    if (lsb <=? i) && (i <=? msb) then Z.testbit x (i - lsb) else Z.testbit y i.
Proof.
  intros. unfold AluEx.ins_val. bb_rewrite. rewrite testbit_not32 by lia. bb_rewrite.
  rewrite !testbit_mask by lia. bb_split; bb_finish.
Qed.

Lemma testbit_ext lsb size x i :
  0 <= lsb -> 0 <= size < 32 -> lsb + size < 32 -> 0 <= i < 32 ->
  Z.testbit (AluEx.ext_val lsb size x) i = (i <=? size) && Z.testbit x (i + lsb).
Proof.
  intros. unfold AluEx.ext_val. bb_rewrite.
  rewrite !testbit_mask by lia. bb_split; bb_finish.
Qed.

Lemma testbit_rotr x sa i :
  is_u32 x -> 0 < sa < 32 -> 0 <= i < 32 ->
  Z.testbit (Shift.rotr_val x sa) i = Z.testbit x ((i + sa) mod 32).
Proof.
  intros Hx Hs Hi. unfold Shift.rotr_val. bb_rewrite.
  destruct (Z.ltb_spec (i + sa) 32).
  - rewrite (Z.mod_small (i + sa)) by lia.
    rewrite (Z.testbit_neg_r x (i - (32 - sa))) by lia. by rewrite andb_false_r, orb_false_r.
  - rewrite (testbit_in_u 32 x (i + sa)) by (done || lia).
    replace ((i + sa) mod 32) with (i + sa - 32)
      by (apply (Z.mod_unique _ _ 1); lia).
    rewrite (proj2 (Z.ltb_lt i 32)) by lia. cbn. f_equal. lia.
Qed.

(** wsbh exchanges bytes 0 and 1 and bytes 2 and 3: bit i goes to bit i xor 8. *)
Lemma testbit_wsbh v i :
  is_u32 v -> 0 <= i < 32 -> Z.testbit (AluEx.wsbh_val v) i = Z.testbit v (Z.lxor i 8).
Proof.
  intros Hv Hi. unfold AluEx.wsbh_val.
  change 0x00FF0000 with (Z.shiftl (Z.ones 8) 16). change 0xFF000000 with (Z.shiftl (Z.ones 8) 24).
  change 0x000000FF with (Z.ones 8). change 0x0000FF00 with (Z.shiftl (Z.ones 8) 8).
  bb_rewrite.
  assert (Z.lxor i 8 = if (i / 8) mod 2 =? 0 then i + 8 else i - 8) as ->.
  { assert (forallb (fun k => Z.lxor k 8 =? if (k / 8) mod 2 =? 0 then k + 8 else k - 8)
      (map Z.of_nat (seq 0 32)) = true) as H by reflexivity.
    rewrite forallb_forall in H. apply Z.eqb_eq, H. apply in_map_iff.
    exists (Z.to_nat i). split; [lia|]. apply in_seq. lia. }
  destruct (decide (i < 8)); [|destruct (decide (i < 16)); [|destruct (decide (i < 24))]].
  - replace (i / 8) with 0 by (apply (Z.div_unique _ _ _ i); lia).
    change (0 mod 2 =? 0) with true.
    bb_split; bb_rewrite; bb_split; bb_finish.
  - replace (i / 8) with 1 by (apply (Z.div_unique _ _ _ (i - 8)); lia).
    change (1 mod 2 =? 0) with false.
    bb_split; bb_rewrite; bb_split; bb_finish.
  - replace (i / 8) with 2 by (apply (Z.div_unique _ _ _ (i - 16)); lia).
    change (2 mod 2 =? 0) with true.
    bb_split; bb_rewrite; bb_split; bb_finish.
  - replace (i / 8) with 3 by (apply (Z.div_unique _ _ _ (i - 24)); lia).
    change (3 mod 2 =? 0) with false.
    bb_split; bb_rewrite; bb_split; bb_finish.
Qed.

(** The instruction stores in register [r] a word whose bits [f] gives. *)
Definition stores_bits (r : Z) (f : Z -> bool) (m : machine) (res : res machine unit) : Prop :=
  exists v, stores r v m res /\ forall i, 0 <= i < 32 -> Z.testbit v i = f i.

(** C9: ins and ext move exactly the selected bits, the rotation of srl rotates and wsbh
    swaps the bytes of each halfword: each result is described bit by bit.  ins with
    lsb above msb fails its assertion, and a rotation by 0 is an oversized shift. *)
Theorem bit_field_spec {cfg : Config} w m :
  wf m ->
  let o := inst_ops w in
  let x := gpr_at (cpu m) (o_rs o) in
  let y := gpr_at (cpu m) (o_rt o) in
  let lsb := o_shamt o in
  (if lsb <=? o_rd o then
     stores_bits (o_rt o) (fun i => if (lsb <=? i) && (i <=? o_rd o)
                                    then Z.testbit x (i - lsb) else Z.testbit y i)
       m (AluEx.ins o m)
   else AluEx.ins o m = Stop HAssert m) /\
  (lsb + o_rd o < 32 ->
   stores_bits (o_rt o) (fun i => (i <=? o_rd o) && Z.testbit x (i + lsb)) m (AluEx.ext o m)) /\
  (o_rs o = 1 ->
   if lsb =? 0 then Shift.srl o m = Stop HUndefined m
   else stores_bits (o_rd o) (fun i => Z.testbit y ((i + lsb) mod 32)) m (Shift.srl o m)) /\
  stores_bits (o_rd o) (fun i => Z.testbit y (Z.lxor i 8)) m (AluEx.wsbh o m).
Proof.
  intros Hwf o x y lsb. pose proof (ops_ranges w) as (Hrs & Hrt & Hrd & Hsa).
  fold o in Hrs, Hrt, Hrd, Hsa. fold lsb in Hsa.
  assert (is_u32 y) as Hy by (unfold y; auto with words). split_and!.
  - unfold AluEx.ins. fold lsb. destruct (Z.leb_spec lsb (o_rd o)); [|done].
    eexists. split; [reflexivity|]. intros i Hi. apply testbit_ins; lia.
  - intros Hs. eexists. split; [reflexivity|]. intros i Hi. apply testbit_ext; lia.
  - intros E. unfold Shift.srl. rewrite E. fold lsb. change (Z.land 1 1 =? 1) with true.
    destruct (Z.eqb_spec lsb 0); [done|].
    eexists. split; [reflexivity|]. intros i Hi. apply testbit_rotr; [done|lia|lia].
  - eexists. split; [reflexivity|]. intros i Hi. by apply testbit_wsbh.
Qed.

Lemma bit_field_spec_witness :
  let o := inst_ops 0x7d093900 in
  (o_shamt o, o_rd o, gpr_at (cpu m_div) (o_rs o)) = (4, 7, 0xfffffff9) /\
  stores_bits (o_rt o)
    (fun i => (i <=? o_rd o) && Z.testbit (gpr_at (cpu m_div) (o_rs o)) (i + o_shamt o)) m_div
    (AluEx.ext o m_div).
Proof.
  cbv zeta. split; [reflexivity|].
  refine (proj1 (proj2 (bit_field_spec (cfg := mips32r1_defconfig) 0x7d093900 m_div wf_m_div)) _).
  reflexivity.
Defined.
