(* ===== verification/MmuProps.v ===== *)
(** * Address translation

    The TLB walk of mmu.c against an abstract lookup, the faults it raises, the TLB
    instructions, and the fixed segments. *)
From S2P Require Import Prelude Config Reg Fifo Ram Flash Sdlkey Machine Ulite Spi Device Mmu Memory.
From S2P Require Import ExecAlu ExecMdu ExecMem Softfloat ExecFloat Decode Cpu Frame Invariant Exits Samples Exceptions ArithProps.
Local Open Scope nemu_scope.

(** ** Abstract translation: 4 KB pages, pairs of pages per entry *)
Definition maps (vaddr cur_asid : Z) (e : tlb_entry_t) : bool :=
  (vpn e =? vaddr / 2 ^ 13) && ((tlb_g e =? 1) || (asid e =? cur_asid)).

Definition page_of (e : tlb_entry_t) (vaddr : Z) : tlb_phyn_t :=
  if Z.testbit vaddr 12 then p1 e else p0 e.

(** A translation gives a physical address and the dirty bit; or a fault: its kind, its
    code and the address space it is reported for; or the end of the emulator, when the
    walk meets an entry for larger pages. *)
Inductive xlat : Type :=
| XHit (paddr d : Z)
| XFault (ex code asid : Z)
| XAbort.

Definition xlate_hit (e : tlb_entry_t) (vaddr : Z) (store : bool) : xlat :=
  let p := page_of e vaddr in
  if phyn_v p =? 0
  then XFault EX_TLB_INVALID (if store then EXC_TLBS else EXC_TLBL) (asid e)
  else if (phyn_d p =? 0) && store then XFault EX_TLB_MODIFIED EXC_TLBM (asid e)
  else XHit (pfn p mod 2 ^ 20 * 2 ^ 12 + vaddr mod 2 ^ 12) (phyn_d p).

Fixpoint xlate (l : list tlb_entry_t) (cur_asid vaddr : Z) (store : bool) : xlat :=
  match l with
  | [] => XFault EX_TLB_REFILL (if store then EXC_TLBS else EXC_TLBL) cur_asid
  | e :: l =>
      if negb (pagemask e =? 0) then XAbort
      else if maps vaddr cur_asid e then xlate_hit e vaddr store
      else xlate l cur_asid vaddr store
  end.

Definition small_pages (m : machine) : Prop := Forall (fun e => pagemask e = 0) (tlb m).

(** ** Bit-level lemmas *)
Lemma land_not32_0 x : is_u32 x -> Z.land x (not32 0) = x.
Proof.
  intros Hx. change (not32 0) with (Z.ones 32). rewrite Z.land_ones by lia.
  by apply Z.mod_small.
Qed.

Lemma va_31_13 vaddr : is_u32 vaddr -> Z.shiftr (Z.land vaddr (not32 0x1FFF)) 13 = vaddr / 2 ^ 13.
Proof.
  intros Hv. rewrite <- Z.shiftr_div_pow2 by lia. change (not32 0x1FFF) with (Z.shiftl (Z.ones 19) 13).
  apply Z.bits_inj'. intros i Hi. bb_rewrite. destruct (Z.ltb_spec i 19).
  - bb_split; bb_finish.
  - rewrite (testbit_in_u 32 vaddr (i + 13)) by (done || lia). done.
Qed.

Lemma EvenOddBit_0 vaddr :
  negb (Z.land vaddr (u32 (Z.shiftl (0 + 1) 12)) =? 0) = Z.testbit vaddr 12.
Proof.
  change (u32 (Z.shiftl (0 + 1) 12)) with (2 ^ 12). rewrite land_pow2_test by lia.
  apply negb_involutive.
Qed.

Lemma paddr_0 f vaddr :
  in_u 24 f ->
  Z.lor (u32 (Z.shiftl (Z.land f (not32 0)) 12))
        (Z.land vaddr (u32 (u32 (Z.shiftl (0 + 1) 12) - 1))) =
  f mod 2 ^ 20 * 2 ^ 12 + vaddr mod 2 ^ 12.
Proof.
  intros Hf. rewrite land_not32_0 by (apply (in_u_mono 24); [lia|done]).
  change (u32 (u32 (Z.shiftl (0 + 1) 12) - 1)) with (Z.ones 12).
  rewrite Z.land_ones, Z.shiftl_mul_pow2 by lia. unfold uw.
  change (2 ^ 32) with (2 ^ 20 * 2 ^ 12). rewrite Z.mul_mod_distr_r by lia.
  rewrite <- Z.shiftl_mul_pow2 by lia.
  rewrite lor_shift_add; [by rewrite Z.shiftl_mul_pow2|lia|]. by apply Z.mod_pos_bound.
Qed.

Lemma tlb_match_maps e vaddr a :
  wf_tlb_entry e -> pagemask e = 0 -> is_u32 vaddr ->
  tlb_match e (vaddr / 2 ^ 13) a = maps vaddr a e.
Proof.
  intros [] Hm Hv. unfold tlb_match, maps. rewrite Hm.
  rewrite !land_not32_0.
  - do 2 f_equal. unfold in_u in wf_g. change (2 ^ 1) with 2 in wf_g.
    assert (tlb_g e = 0 \/ tlb_g e = 1) as [-> | ->] by lia; done.
  - apply (in_u_mono 19); [lia|]. unfold in_u in *.
    split; [apply Z.div_pos; lia|apply Z.div_lt_upper_bound; lia].
  - apply (in_u_mono 19); [lia|done].
Qed.

Lemma mask_assert_spec mask : in_u 16 mask -> mask_assert mask = (mask =? 0).
Proof.
  intros Hm. unfold mask_assert. destruct (Z.eqb_spec mask 0) as [|H]; [done|]. cbn [orb].
  apply Z.eqb_neq. intros E.
  assert (Z.testbit (Z.lor mask (mask + 1)) 0 = true) as T.
  { rewrite Z.lor_spec, !Z.bit0_odd, Z.odd_add. by destruct (Z.odd mask). }
  assert (Z.testbit (u32 (Z.lor mask (mask + 1))) 0 = true) as T'.
  { rewrite testbit_uw by lia. exact T. }
  by rewrite E in T'.
Qed.

(** ** The walk *)
(** The CP0 registers a fault fills in before the exception itself. *)
Definition fault_cpu (vaddr a : Z) (c : CPU_state) : CPU_state :=
  put_cp0 entry_hi_asid a
    (put_cp0 entry_hi_vpn (Z.shiftr vaddr 13)
      (put_cp0 context_BadVPN2 (Z.shiftr vaddr 13) (put_cpr CP0_BADVADDR 0 vaddr c))).

Section Walk.
Context {cfg : Config}.

Lemma fault_cpu_wf vaddr a c : wf_cpu c -> wf_cpu (fault_cpu vaddr a c).
Proof. intros. unfold fault_cpu. auto 10 with words. Qed.

Lemma tlb_exception_run ex code vaddr a m :
  0 <= code < 32 -> code <> EXC_TRAP -> 0 <= ex < 2 ^ 16 ->
  tlb_exception ex code vaddr a m =
  Ok tt (caches_cleared (set_cpu (raise_cpu code ex (fault_cpu vaddr a (cpu m))) m)).
Proof.
  intros. unfold tlb_exception, upd_cpu, modify, bind. rewrite raise_run by done. done.
Qed.

(** The state and attributes the walk leaves for an abstract outcome. *)
Definition walk_result (x : xlat) (vaddr : Z) (attr : mmu_attr_t) (m : machine)
    (r : res machine (Z * mmu_attr_t)) : Prop :=
  match x with
  | XHit paddr d => r = Ok (paddr, set_dirty d attr) m
  | XFault ex code a =>
      exists attr', r = Ok (BLACKHOLE_ADDR, attr')
        (if exbit attr
         then caches_cleared (set_cpu (raise_cpu code ex (fault_cpu vaddr a (cpu m))) m)
         else m)
  | XAbort => r = Stop HAssert m
  end.

Lemma walk_fault ex code a vaddr attr attr' m :
  0 <= code < 32 -> code <> EXC_TRAP -> 0 <= ex < 2 ^ 16 ->
  walk_result (XFault ex code a) vaddr attr m
    ((when (exbit attr) (tlb_exception ex code vaddr a) ;; ret (BLACKHOLE_ADDR, attr')) m).
Proof.
  intros. exists attr'. unfold when, bind. destruct (exbit attr); [|done].
  by rewrite tlb_exception_run.
Qed.

Lemma translate_hit_spec e vaddr attr m :
  wf_tlb_entry e -> pagemask e = 0 ->
  walk_result (xlate_hit e vaddr (rwbit attr)) vaddr attr m (translate_hit e vaddr attr m).
Proof.
  intros He Hm. unfold translate_hit, xlate_hit. rewrite Hm, EvenOddBit_0.
  fold (page_of e vaddr).
  assert (wf_phyn (page_of e vaddr)) as [Hp _ _ _].
  { destruct He. unfold page_of. by case_match. }
  set (p := page_of e vaddr) in *. cbv zeta.
  destruct (phyn_v p =? 0); [by apply walk_fault; destruct (rwbit attr)|].
  destruct ((phyn_d p =? 0) && rwbit attr); [by apply walk_fault|].
  cbn [walk_result]. rewrite paddr_0 by done. done.
Qed.

Lemma page_translate_loop_spec l vaddr attr m :
  Forall wf_tlb_entry l -> is_u32 vaddr ->
  walk_result (xlate l (cp0_get entry_hi_asid (cp0 (cpu m))) vaddr (rwbit attr)) vaddr attr m
    (page_translate_loop l vaddr attr m).
Proof.
  intros Hl Hv. induction l as [|e l IH]; cbn [xlate page_translate_loop].
  - change (dev_start blackhole_dev) with BLACKHOLE_ADDR.
    unfold bind at 1. cbn [get]. by apply walk_fault; destruct (rwbit attr).
  - apply Forall_cons in Hl as [He Hl].
    rewrite va_31_13, mask_assert_spec by (done || apply He).
    destruct (Z.eqb_spec (pagemask e) 0) as [Hm|Hm]; [|done]. cbn [negb ensure].
    unfold bind at 1, ret at 1. unfold bind at 1. cbn [get].
    rewrite tlb_match_maps by done. destruct (maps vaddr _ e); [|by apply IH].
    by apply translate_hit_spec.
Qed.
End Walk.

(** ** Faults *)
Section Faults.
Context {cfg : Config}.

(** Registers other than EPC, status and cause are not touched by an exception. *)
Lemma raise_cpu_cpr code extra c r n :
  wf_cpu c -> 0 <= r < 32 -> 0 <= n < 8 ->
  r <> CP0_EPC -> r <> CP0_CAUSE -> r <> CP0_STATUS ->
  cpr_get (cp0 (raise_cpu code extra c)) r n = cpr_get (cp0 c) r n.
Proof.
  intros Hc Hr Hn H1 H2 H3. assert (forall f v c', wf_cpu c' ->
    c_reg f = CP0_CAUSE \/ c_reg f = CP0_STATUS -> cp0_ok f ->
    cpr_get (cp0 (put_cp0 f v c')) r n = cpr_get (cp0 c') r n) as Hp.
  { intros f v c' Hc' Hf Hok. apply cpr_put_cp0_ne; try done. intros E. destruct Hf; congruence. }
  assert (forall v c', wf_cpu c' ->
    cpr_get (cp0 (put_cpr CP0_EPC 0 v c')) r n = cpr_get (cp0 c') r n) as He.
  { intros v c' Hc'. apply cpr_put_cpr_ne; try done. congruence. }
  unfold raise_cpu, enter_vector, record_epc. repeat case_match;
    repeat first [ rewrite cp0_set_br_target | rewrite cp0_set_is_delayslot
                 | rewrite cp0_set_has_exception
                 | rewrite Hp by (auto || cp0_side) | rewrite He by cp0_side ]; done.
Qed.

Lemma raise_cpu_field code extra c f :
  wf_cpu c -> cp0_ok f ->
  c_reg f <> CP0_EPC -> c_reg f <> CP0_CAUSE -> c_reg f <> CP0_STATUS ->
  cp0_get f (cp0 (raise_cpu code extra c)) = cp0_get f (cp0 c).
Proof.
  intros Hc (? & ? & ?) ???. unfold cp0_get. by rewrite raise_cpu_cpr.
Qed.

(** A fault at [vaddr]: the exception is raised, and BadVAddr, Context and EntryHi
    describe the address; memory and the general registers are as before. *)
Record faulted (ex code vaddr a : Z) (m m' : machine) : Prop := mkFaulted {
  fa_raised : raised code ex (fault_cpu vaddr a (cpu m)) (cpu m');
  fa_badvaddr : cpr_get (cp0 (cpu m')) CP0_BADVADDR 0 = vaddr;
  fa_badvpn2 : cp0_get context_BadVPN2 (cp0 (cpu m')) = vaddr / 2 ^ 13;
  fa_vpn : cp0_get entry_hi_vpn (cp0 (cpu m')) = vaddr / 2 ^ 13;
  fa_asid : cp0_get entry_hi_asid (cp0 (cpu m')) = a;
  fa_gpr : gpr (cpu m') = gpr (cpu m);
  fa_mem : (bram m', ddr m', tlb m', memory_regions m') =
           (bram m, ddr m, tlb m, memory_regions m)
}.

Lemma faulted_intro ex code vaddr a m :
  wf m -> is_u32 vaddr -> in_u 8 a ->
  faulted ex code vaddr a m
    (caches_cleared (set_cpu (raise_cpu code ex (fault_cpu vaddr a (cpu m))) m)).
Proof.
  intros Hwf Hv Ha. pose proof (wf_m_cpu m Hwf) as Hc.
  pose proof (fault_cpu_wf vaddr a _ Hc) as Hf.
  pose proof (raise_cpu_raised code ex _ Hf) as Hr.
  assert (uw 19 (Z.shiftr vaddr 13) = vaddr / 2 ^ 13) as Ev.
  { rewrite Z.shiftr_div_pow2 by lia. apply uw_small. unfold in_u in *.
    split; [apply Z.div_pos; lia|apply Z.div_lt_upper_bound; lia]. }
  constructor; cbn [cpu set_cpu caches_cleared set_decode_cache set_mmu_cache]; try done.
  - rewrite raise_cpu_cpr by done. unfold fault_cpu. regs. by apply uw_small.
  - rewrite raise_cpu_field by cp0_side. unfold fault_cpu. by regs.
  - rewrite raise_cpu_field by cp0_side. unfold fault_cpu. by regs.
  - rewrite raise_cpu_field by cp0_side. unfold fault_cpu. regs. by apply uw_small.
  - rewrite (sr_gpr _ _ (ra_regs _ _ _ _ Hr)). done.
Qed.

Lemma xlate_asid l a vaddr b ex code a' :
  Forall wf_tlb_entry l -> in_u 8 a -> xlate l a vaddr b = XFault ex code a' -> in_u 8 a'.
Proof.
  intros Hl Ha. induction Hl as [|e l [] Hl IH]; cbn; [congruence|].
  unfold xlate_hit. repeat case_match; try congruence. done.
Qed.
End Faults.

(** C10: page_translate is the abstract translation: on a hit it returns the physical
    address and the dirty bit and changes nothing; on a miss, an invalid page or a store
    to a clean page it returns the black hole and, when exceptions are asked for, raises
    the refill, invalid or modified exception for the address, leaving memory and the
    general registers alone; with exceptions off nothing changes.  Meeting an entry with
    a nonzero page mask ends the emulator. *)
Theorem page_translate_refines {cfg : Config} vaddr attr m :
  wf m -> is_u32 vaddr ->
  match xlate (tlb m) (cp0_get entry_hi_asid (cp0 (cpu m))) vaddr (rwbit attr) with
  | XHit paddr d => page_translate vaddr attr m = Ok (paddr, set_dirty d attr) m
  | XFault ex code a =>
      exists attr' m', page_translate vaddr attr m = Ok (BLACKHOLE_ADDR, attr') m' /\
        (if exbit attr then faulted ex code vaddr a m m' else m' = m)
  | XAbort => page_translate vaddr attr m = Stop HAssert m
  end.
Proof.
  intros Hwf Hv. destruct (wf_m_tlb m Hwf) as [_ Hl].
  pose proof (page_translate_loop_spec (tlb m) vaddr attr m Hl Hv) as W.
  change (page_translate vaddr attr m) with (page_translate_loop (tlb m) vaddr attr m).
  destruct (xlate _ _ _ _) as [|ex code a|] eqn:E; [exact W| |exact W]. destruct W as [attr' W].
  exists attr'. rewrite W. destruct (exbit attr); eexists; (split; [done|]); [|done].
  apply faulted_intro; [done..|].
  eapply xlate_asid; [exact Hl| |exact E]. by apply (cp0_get_range entry_hi_asid).
Qed.

(** A TLB entry for the page pair at 0 in address space 0, frame 5, clean. *)
Definition tlb_5 : list tlb_entry_t :=
  mkTlb 0 0 0 0 (mkPhyn 5 0 0 1) phyn_zero :: replicate 31 tlb_zero.
Definition m_tlb : machine := set_tlb tlb_5 m_zero.

Lemma wf_m_tlb_5 : wf m_tlb.
Proof.
  apply wf_set_tlb; [|exact wf_m_zero]. split; [done|].
  constructor; [|apply Forall_replicate]; repeat constructor; cbn; lia.
Qed.

Lemma small_pages_m_tlb : small_pages m_tlb.
Proof. constructor; [done|]. by apply Forall_replicate. Qed.

Lemma page_translate_refines_witness :
  (page_translate (cfg := mips32r1_defconfig) 0x123 (mk_attr MMU_LOAD true) m_tlb =
     Ok (0x5123, mk_attr MMU_LOAD true) m_tlb) /\
  (exists attr' m',
     page_translate (cfg := mips32r1_defconfig) 0x123 (mk_attr MMU_STORE true) m_tlb =
       Ok (BLACKHOLE_ADDR, attr') m' /\
     faulted (cfg := mips32r1_defconfig) EX_TLB_MODIFIED EXC_TLBM 0x123 0 m_tlb m').
Proof.
  split.
  - exact (page_translate_refines (cfg := mips32r1_defconfig) 0x123 (mk_attr MMU_LOAD true)
             m_tlb wf_m_tlb_5 ltac:(unfold in_u; lia)).
  - exact (page_translate_refines (cfg := mips32r1_defconfig) 0x123 (mk_attr MMU_STORE true)
             m_tlb wf_m_tlb_5 ltac:(unfold in_u; lia)).
Defined.

(** ** The TLB instructions *)
Section TlbInsts.
Context {cfg : Config}.

Lemma index_range c : 0 <= cp0_get index_idx c < NR_TLB_ENTRY.
Proof. by apply (cp0_get_range index_idx). Qed.

Lemma index_to_nat c : (Z.to_nat (cp0_get index_idx c) < 32)%nat.
Proof. pose proof (index_range c) as H. unfold NR_TLB_ENTRY, TLB_BITS in H. lia. Qed.

Lemma tlb_read_run i m :
  i < NR_TLB_ENTRY ->
  tlb_read i m =
  Ok tt (set_cpu
    (let e := tlb_at m i in
     read_entry_lo CP0_ENTRY_LO1 e (p1 e) (read_entry_lo CP0_ENTRY_LO0 e (p0 e)
       (put_cp0 entry_hi_asid (asid e)
         (put_cp0 entry_hi_vpn (Z.land (vpn e) (Z.lnot (pagemask e)))
           (put_cp0 pagemask_mask (pagemask e) (cpu m)))))) m).
Proof.
  intros H. unfold tlb_read. apply Z.ltb_lt in H. by rewrite H.
Qed.

Lemma tlbwi_run o m :
  System.tlbwi o m =
  Ok tt (caches_cleared (set_tlb
    (<[Z.to_nat (cp0_get index_idx (cp0 (cpu m))) := entry_of (cp0 (cpu m))]> (tlb m)) m)).
Proof.
  pose proof (index_range (cp0 (cpu m))) as [_ H]. apply Z.ltb_lt in H.
  unfold System.tlbwi, tlb_write, ensure, bind, get_cpu, gets. rewrite H. done.
Qed.

Lemma tlbr_run o m : System.tlbr o m = tlb_read (cp0_get index_idx (cp0 (cpu m))) m.
Proof.
  pose proof (index_range (cp0 (cpu m))) as [_ H]. apply Z.ltb_lt in H.
  unfold System.tlbr, ensure, bind, get_cpu, gets. by rewrite H.
Qed.
End TlbInsts.

(** The fields of a TLB entry as the CP0 registers hold them: those kept as they are and
    those masked with the page mask (the global bits apart). *)
Definition plain_fields : list cp0_field :=
  [pagemask_mask; entry_hi_asid;
   entry_lo_c CP0_ENTRY_LO0; entry_lo_d CP0_ENTRY_LO0; entry_lo_v CP0_ENTRY_LO0;
   entry_lo_c CP0_ENTRY_LO1; entry_lo_d CP0_ENTRY_LO1; entry_lo_v CP0_ENTRY_LO1].
Definition masked_fields : list cp0_field :=
  [entry_hi_vpn; entry_lo_pfn CP0_ENTRY_LO0; entry_lo_pfn CP0_ENTRY_LO1].

Lemma uw_cp0_get f c : 0 <= f_len (c_fld f) -> uw (f_len (c_fld f)) (cp0_get f c) = cp0_get f c.
Proof. intros. apply uw_small. by apply cp0_get_range. Qed.

Lemma masked_twice x k : Z.land (Z.land x k) k = Z.land x k.
Proof. by rewrite <- Z.land_assoc, Z.land_diag. Qed.

Lemma uw_masked_get f c k :
  0 <= f_len (c_fld f) -> uw (f_len (c_fld f)) (Z.land (cp0_get f c) k) = Z.land (cp0_get f c) k.
Proof.
  intros H. unfold uw. rewrite <- Z.land_ones by done.
  rewrite <- Z.land_assoc, (Z.land_comm k), Z.land_assoc, Z.land_ones by done.
  f_equal. by apply uw_cp0_get.
Qed.

(** What tlb_read leaves in the CP0 registers, whatever they held. *)
Lemma tlb_read_entry c i m :
  wf m -> 0 <= i < NR_TLB_ENTRY -> tlb_at m i = entry_of c ->
  exists m', tlb_read i m = Ok tt m' /\ tlb m' = tlb m /\ gpr (cpu m') = gpr (cpu m) /\
    Forall (fun f => cp0_get f (cp0 (cpu m')) = cp0_get f c) plain_fields /\
    Forall (fun f => cp0_get f (cp0 (cpu m')) = Z.land (cp0_get f c) (Z.lnot (cp0_get pagemask_mask c)))
      masked_fields /\
    (forall r, r = CP0_ENTRY_LO0 \/ r = CP0_ENTRY_LO1 ->
       cp0_get (entry_lo_g r) (cp0 (cpu m')) =
       Z.land (cp0_get (entry_lo_g CP0_ENTRY_LO0) c) (cp0_get (entry_lo_g CP0_ENTRY_LO1) c)).
Proof.
  intros Hwf Hi He. pose proof (wf_m_cpu m Hwf) as Hc. rewrite tlb_read_run by lia.
  eexists. split; [done|]. split; [done|]. split; [done|]. rewrite He. cbn [cpu set_cpu].
  unfold read_entry_lo. cbn [entry_of phyn_of pagemask vpn asid tlb_g p0 p1 pfn phyn_c phyn_d phyn_v].
  rewrite !masked_twice. split_and!.
  - repeat (apply Forall_cons; split); [..|by constructor]; regs; by apply (uw_cp0_get _ c).
  - repeat (apply Forall_cons; split); [..|by constructor]; regs; by apply (uw_masked_get _ c).
  - intros r [-> | ->]; regs; apply uw_small, land_in_u_1;
      by apply (cp0_get_range (entry_lo_g _)).
Qed.

(** C11: tlbwi writes the TLB entry at Index and no other, changes no register and empties
    the translation cache.  From then on, as long as the TLB holds that entry, a tlbr of
    the same Index brings it back whatever EntryHi, EntryLo0, EntryLo1 and PageMask hold
    by then: the page mask, the address space and the cache, dirty and valid bits of both
    pages as they were written, the page number and both frame numbers with the bits of
    the page mask cleared, and both global bits set to the conjunction of the two
    written. *)
Theorem tlbwi_tlbr_roundtrip o o' m :
  wf m ->
  let c := cp0 (cpu m) in
  let i := cp0_get index_idx c in
  exists m1, System.tlbwi o m = Ok tt m1 /\ cpu m1 = cpu m /\ mmu_cache_empty m1 /\
    (forall j, j <> Z.to_nat i -> tlb m1 !! j = tlb m !! j) /\
    forall mx, wf mx -> cp0_get index_idx (cp0 (cpu mx)) = i ->
      tlb mx !! Z.to_nat i = tlb m1 !! Z.to_nat i ->
      exists m2, System.tlbr o' mx = Ok tt m2 /\ tlb m2 = tlb mx /\ gpr (cpu m2) = gpr (cpu mx) /\
        Forall (fun f => cp0_get f (cp0 (cpu m2)) = cp0_get f c) plain_fields /\
        Forall (fun f => cp0_get f (cp0 (cpu m2)) = Z.land (cp0_get f c) (Z.lnot (cp0_get pagemask_mask c)))
          masked_fields /\
        (forall r, r = CP0_ENTRY_LO0 \/ r = CP0_ENTRY_LO1 ->
           cp0_get (entry_lo_g r) (cp0 (cpu m2)) =
           Z.land (cp0_get (entry_lo_g CP0_ENTRY_LO0) c) (cp0_get (entry_lo_g CP0_ENTRY_LO1) c)).
Proof.
  intros Hwf c i. destruct (wf_m_tlb m Hwf) as [Hl _]. rewrite tlbwi_run. fold c i.
  eexists. split; [done|]. split; [done|]. split; [apply caches_cleared_empty|].
  cbn [tlb caches_cleared set_decode_cache set_mmu_cache set_tlb]. split.
  { intros j Hj. by apply list_lookup_insert_ne. }
  intros mx Hwx Hix. pose proof (index_to_nat c).
  rewrite list_lookup_insert_eq by (rewrite Hl; unfold NR_TLB_ENTRY, TLB_BITS; fold i; lia).
  intros Ht. rewrite tlbr_run, Hix. apply tlb_read_entry; [done|apply index_range|].
  unfold tlb_at. by rewrite Ht.
Qed.

(** EntryHi 0x00abc007, EntryLo0 0x1057 (global, dirty), EntryLo1 0x2016 (not global). *)
Definition m_entry : machine :=
  set_cpu (put_cpr CP0_INDEX 0 3 (put_cpr CP0_ENTRY_HI 0 0x00abc007
    (put_cpr CP0_ENTRY_LO0 0 0x1057 (put_cpr CP0_ENTRY_LO1 0 0x2016 (cpu m_zero))))) m_zero.

Lemma wf_m_entry : wf m_entry.
Proof. apply wf_set_cpu; auto 20 with words. Qed.

(** tlbr after the four registers were overwritten. *)
Definition clobbered (m : machine) : machine :=
  set_cpu (put_cpr CP0_ENTRY_HI 0 0xffffffff (put_cpr CP0_ENTRY_LO0 0 0xffffffff
    (put_cpr CP0_ENTRY_LO1 0 0xffffffff (put_cpr CP0_PAGEMASK 0 0xffffffff (cpu m))))) m.

Lemma tlbwi_tlbr_roundtrip_witness :
  exists m1 m2, System.tlbwi (inst_ops 0) m_entry = Ok tt m1 /\
    System.tlbr (inst_ops 0) (clobbered m1) = Ok tt m2 /\
    cp0_get pagemask_mask (cp0 (cpu m2)) = 0 /\ cp0_get entry_hi_vpn (cp0 (cpu m2)) = 0x55e.
Proof.
  destruct (tlbwi_tlbr_roundtrip (inst_ops 0) (inst_ops 0) m_entry wf_m_entry)
    as (m1 & E1 & Ec & _ & _ & H).
  destruct (H (clobbered m1)) as (m2 & E2 & _ & _ & F & G & _).
  - apply wf_set_cpu; [rewrite Ec; pose proof (wf_m_cpu _ wf_m_entry); auto 20 with words|].
    pose proof (keeps_handler (cfg := mips32r1_defconfig) (inv wf) H_tlbwi (inst_ops 0) m_entry wf_m_entry) as K.
    cbn [exec_handler] in K. by rewrite E1 in K.
  - unfold clobbered. rewrite Ec. reflexivity.
  - reflexivity.
  - exists m1, m2. split; [exact E1|]. split; [exact E2|].
    inversion F as [|? ? F1 _]; subst. inversion G as [|? ? G1 _]; subst. split; [exact F1|exact G1].
Defined.

(** ** tlbp *)
Section Tlbp.
Context {cfg : Config}.

Lemma tlb_present_loop_spec l i m :
  Forall wf_tlb_entry l -> Forall (fun e => pagemask e = 0) l ->
  tlb_present_loop l i m =
  match list_find (fun e => maps (cp0_get entry_hi_vpn (cp0 (cpu m)) * 2 ^ 13)
                              (cp0_get entry_hi_asid (cp0 (cpu m))) e = true) l with
  | Some (k, _) =>
      Ok tt (set_cpu (put_cp0 index_idx (i + Z.of_nat k) (put_cp0 index_p 0 (cpu m))) m)
  | None => Ok tt (set_cpu (put_cp0 index_p 1 (cpu m)) m)
  end.
Proof.
  intros Hl Hs. set (vpn2 := cp0_get entry_hi_vpn (cp0 (cpu m))).
  assert (in_u 19 vpn2) as Hv by by apply (cp0_get_range entry_hi_vpn).
  assert (is_u32 (vpn2 * 2 ^ 13)) as Hv32 by (unfold in_u in *; lia).
  assert (vpn2 = vpn2 * 2 ^ 13 / 2 ^ 13) as Ev by (rewrite Z.div_mul; lia).
  revert i. induction l as [|e l IH]; intros i; [done|].
  apply Forall_cons in Hl as [He Hl]. apply Forall_cons in Hs as [Hm Hs].
  cbn [tlb_present_loop list_find]. unfold mask_assert. rewrite Hm. cbn [Z.eqb orb ensure].
  unfold bind at 1, ret. unfold bind at 1. cbn [get]. fold vpn2.
  pose proof (tlb_match_maps e _ (cp0_get entry_hi_asid (cp0 (cpu m))) He Hm Hv32) as T.
  rewrite <- Ev in T. rewrite T. destruct (maps (vpn2 * 2 ^ 13) _ e) eqn:E.
  - rewrite decide_True by done. cbn. by rewrite Z.add_0_r.
  - rewrite decide_False by congruence. rewrite IH by done.
    destruct (list_find _ l) as [[k e']|]; cbn; [|done].
    replace (i + Z.of_nat (S k)) with (i + 1 + Z.of_nat k) by lia. done.
Qed.
End Tlbp.

(** C13: with 4 KB pages, tlbp looks for the first entry that maps the page of EntryHi in
    its address space: if there is one, Index is its position with P clear, otherwise P is
    set; neither the TLB nor a general register changes. *)
Theorem tlbp_spec o m :
  wf m -> small_pages m ->
  let c := cp0 (cpu m) in
  exists m', System.tlbp o m = Ok tt m' /\ tlb m' = tlb m /\
    match list_find (fun e => maps (cp0_get entry_hi_vpn c * 2 ^ 13)
                                (cp0_get entry_hi_asid c) e = true) (tlb m) with
    | Some (i, _) => cp0_get index_p (cp0 (cpu m')) = 0 /\
                     cp0_get index_idx (cp0 (cpu m')) = Z.of_nat i
    | None => cp0_get index_p (cp0 (cpu m')) = 1
    end /\ gpr (cpu m') = gpr (cpu m).
Proof.
  intros Hwf Hs c. destruct (wf_m_tlb m Hwf) as [Hn Hl]. pose proof (wf_m_cpu m Hwf) as Hc.
  unfold System.tlbp, tlb_present, bind. cbn [get].
  rewrite tlb_present_loop_spec by done. fold c.
  destruct (list_find _ (tlb m)) as [[i e]|] eqn:E; eexists; (split; [done|]); (split; [done|]);
    (split; [|done]); cbn [cpu set_cpu].
  - apply list_find_Some in E as (Hi%lookup_lt_Some & _). rewrite Hn in Hi.
    unfold NR_TLB_ENTRY, TLB_BITS in Hi. regs. split; [done|]. rewrite Z.add_0_l.
    apply uw_small. unfold in_u. change (2 ^ f_len (c_fld index_idx)) with 32. lia.
  - by regs.
Qed.

Lemma tlbp_spec_witness :
  exists m', System.tlbp (inst_ops 0) m_tlb = Ok tt m' /\
    cp0_get index_p (cp0 (cpu m')) = 0 /\ cp0_get index_idx (cp0 (cpu m')) = 0.
Proof.
  destruct (tlbp_spec (inst_ops 0) m_tlb wf_m_tlb_5
              small_pages_m_tlb) as (m' & E & _ & H & _).
  exists m'. split; [exact E|]. exact H.
Defined.
