(* ===== verification/Layout.v ===== *)
(** * The memory map

    init_mmio fills the page table of devices: for a layout without overlap it
    succeeds whatever the order of the devices, and find_device then gives the device
    whose range contains the physical page. *)
From S2P Require Import Prelude Config Reg Fifo Ram Flash Sdlkey Machine Ulite Spi Device Mmu Memory.
From S2P Require Import ExecAlu ExecMdu ExecMem Softfloat ExecFloat Decode Cpu Frame Invariant Exits Samples.
Local Open Scope nemu_scope.

Section Layout.
Context {cfg : Config}.

Definition first_page (d : dev) : Z := mr_index (dev_start d).
Definition covers (p : Z) (d : dev) : bool :=
  (first_page d <=? p) && (p <? first_page d + region_pages d).

(** The device that owns page [p]. *)
Definition owner (ds : list dev) (p : Z) : option dev := find (covers p) ds.

(** Page-aligned ranges below 512 MB, the space ioremap leaves. *)
Definition placed (d : dev) : bool :=
  (0 <=? dev_start d) && (dev_start d mod 4096 =? 0) && (0 <? dev_size d) &&
  (dev_start d + dev_size d <=? 2 ^ 29).

Definition apart (d1 d2 : dev) : bool :=
  (first_page d1 + region_pages d1 <=? first_page d2) ||
  (first_page d2 + region_pages d2 <=? first_page d1).

Fixpoint layout_ok (ds : list dev) : bool :=
  match ds with
  | [] => true
  | d :: ds => placed d && forallb (apart d) ds && layout_ok ds
  end.

Lemma first_page_start d : placed d = true -> dev_start d = 4096 * first_page d.
Proof.
  unfold placed. rewrite !andb_true_iff, Z.eqb_eq. intros [[[_ H] _] _].
  unfold first_page, mr_index. change (4 * 1024) with 4096.
  pose proof (Z_div_mod_eq_full (dev_start d) 4096). lia.
Qed.

Lemma placed_range d :
  placed d = true -> 0 <= first_page d /\ 0 < dev_size d /\ dev_start d + dev_size d <= 2 ^ 29.
Proof.
  intros H. pose proof (first_page_start d H). revert H.
  unfold placed. rewrite !andb_true_iff, !Z.leb_le, Z.ltb_lt. lia.
Qed.

(** A byte of a device is in one of its pages, and every page starts inside it. *)
Lemma covers_page d p :
  placed d = true ->
  covers p d = true <-> dev_start d <= 4096 * p < dev_start d + dev_size d.
Proof.
  intros H. rewrite (first_page_start d H). unfold covers, region_pages, _4KB.
  change (4 * 1024) with 4096. rewrite andb_true_iff, Z.leb_le, Z.ltb_lt.
  pose proof (Z_div_mod_eq_full (dev_size d + 4096 - 1) 4096).
  pose proof (Z.mod_pos_bound (dev_size d + 4096 - 1) 4096). lia.
Qed.

Lemma realize_loop_spec n d k m :
  placed d = true -> 0 <= k -> k + Z.of_nat n = region_pages d ->
  (forall p, first_page d + k <= p < first_page d + region_pages d ->
     memory_regions m !! p = None) ->
  exists R, realize_loop n d (4096 * (first_page d + k)) m = Ok tt (set_memory_regions R m) /\
    forall p, R !! p = if (first_page d + k <=? p) && (p <? first_page d + region_pages d)
                       then Some d else memory_regions m !! p.
Proof.
  intros Hp. pose proof (first_page_start d Hp) as Es.
  destruct (placed_range d Hp) as (H0 & H1 & H2). revert k m.
  assert (u32 (dev_start d + dev_size d) = dev_start d + dev_size d) as Eu
    by (apply uw_small; unfold in_u; lia).
  induction n as [|n IH]; intros k m Hk Hn Hfree.
  - exists (memory_regions m). cbn [realize_loop]. rewrite Eu.
    assert (dev_start d + dev_size d <= 4096 * (first_page d + k)) as Hle.
    { unfold region_pages, _4KB in Hn. change (4 * 1024) with 4096 in Hn.
      pose proof (Z_div_mod_eq_full (dev_size d + 4096 - 1) 4096).
      pose proof (Z.mod_pos_bound (dev_size d + 4096 - 1) 4096). lia. }
    rewrite (proj2 (Z.ltb_ge _ _) Hle). split; [by destruct m|]. intros p.
    destruct (Z.leb_spec (first_page d + k) p), (Z.ltb_spec p (first_page d + region_pages d));
      cbn; done || lia.
  - cbn [realize_loop]. rewrite Eu.
    assert (4096 * (first_page d + k) < dev_start d + dev_size d) as Hlt.
    { apply (covers_page d (first_page d + k) Hp). unfold covers.
      rewrite andb_true_iff, Z.leb_le, Z.ltb_lt. lia. }
    rewrite (proj2 (Z.ltb_lt _ _) Hlt).
    assert (mr_index (4096 * (first_page d + k)) = first_page d + k) as Ei.
    { unfold mr_index. change (4 * 1024) with 4096. rewrite Z.mul_comm. apply Z.div_mul. lia. }
    rewrite Ei. unfold bind at 1. cbn [get].
    rewrite bool_decide_eq_true_2 by (apply Hfree; lia). cbn [ensure]. unfold bind, ret, modify.
    replace (u32 (4096 * (first_page d + k) + _4KB)) with (4096 * (first_page d + (k + 1))).
    2: { symmetry. unfold _4KB. change (4 * 1024) with 4096.
         replace (4096 * (first_page d + k) + 4096) with (4096 * (first_page d + (k + 1))) by lia.
         apply uw_small. unfold in_u. lia. }
    set (m1 := set_memory_regions _ m).
    destruct (IH (k + 1) m1) as (R & E & HR); [lia|lia| |].
    { intros p Hpr. unfold m1. cbn. rewrite lookup_insert_ne by lia. apply Hfree. lia. }
    exists R. split; [exact E|]. intros p. rewrite HR. unfold m1. cbn [memory_regions set_memory_regions].
    destruct (decide (p = first_page d + k)) as [->|Hne].
    + rewrite lookup_insert_eq.
      destruct (Z.leb_spec (first_page d + (k + 1)) (first_page d + k)); [lia|].
      rewrite (proj2 (Z.leb_le _ _)), (proj2 (Z.ltb_lt _ _)) by lia. done.
    + rewrite lookup_insert_ne by lia.
      destruct (Z.leb_spec (first_page d + (k + 1)) p), (Z.leb_spec (first_page d + k) p);
        cbn; done || lia.
Qed.

(** ** Initialisation of the devices *)
Lemma spi_update_irq_flash m :
  exists b m', xlnx_spi_update_irq m = Ok b m' /\ sp_flash (spi m') = sp_flash (spi m).
Proof.
  unfold xlnx_spi_update_irq, nemu_set_irq, upd_spi, upd_cpu, bind, when. cbn.
  destruct (_ && _); do 2 eexists; (split; [reflexivity|done]).
Qed.

(** A computation on the controller that leaves the chip alone. *)
Definition regs_only (k : EM unit) : Prop :=
  forall m, exists m', k m = Ok tt m' /\ sp_flash (spi m') = sp_flash (spi m).

Lemma regs_only_upd f : (forall s, sp_flash (f s) = sp_flash s) -> regs_only (upd_spi f).
Proof. intros H m. eexists. split; [reflexivity|apply H]. Qed.

Lemma regs_only_bind k1 k2 : regs_only k1 -> regs_only k2 -> regs_only (k1 ;; k2).
Proof.
  intros H1 H2 m. destruct (H1 m) as (m1 & E1 & F1), (H2 m1) as (m2 & E2 & F2).
  exists m2. split; [|congruence]. by rewrite (bind_ok _ _ _ _ _ E1).
Qed.

Lemma regs_only_resets : regs_only rxfifo_reset /\ regs_only txfifo_reset.
Proof. split; repeat apply regs_only_bind; apply regs_only_upd; done. Qed.

(** Running [k2] after a computation that leaves the chip alone. *)
Lemma run_after k1 k2 fl (P : res machine unit -> Prop) m :
  regs_only k1 -> sp_flash (spi m) = fl ->
  (forall m', sp_flash (spi m') = fl -> P (k2 m')) -> P ((k1 ;; k2) m).
Proof.
  intros H1 Hm H. destruct (H1 m) as (m1 & E1 & F1). rewrite (bind_ok _ _ _ _ _ E1).
  apply H. congruence.
Qed.

Lemma spi_reset_ok m :
  fstate (sp_flash (spi m)) = STATE_IDLE -> dirty_page (sp_flash (spi m)) = -1 ->
  exists m', xlnx_spi_do_reset m = Ok tt m'.
Proof.
  intros Hi Hd. destruct regs_only_resets as [Hrx Htx]. unfold xlnx_spi_do_reset.
  set (P := fun r : res machine unit => exists m', r = Ok tt m').
  change (P ((upd_spi (set_sp_regs (replicate (Z.to_nat R_MAX) 0)) ;;
              rxfifo_reset ;; txfifo_reset ;; upd_spi (or_sreg R_SPICR 0x180) ;;
              upd_spi (or_sreg R_SPISR SR_SLAVE_MODE_SELECT) ;;
              upd_spi (put_sreg R_SPISSR (Z.lnot 0)) ;;
              let! _ := xlnx_spi_update_irq in xlnx_spi_update_cs) m)).
  do 6 (eapply (run_after _ _ (sp_flash (spi m)));
        [first [done|by apply regs_only_upd]|first [done|eassumption]|];
        let H := fresh "H" in intros ? H).
  match goal with H : sp_flash (spi ?m1) = _ |- P (_ ?m1) =>
    destruct (spi_update_irq_flash m1) as (b & m2 & E2 & E3); rewrite H in E3 end.
  rewrite (bind_ok _ _ _ _ _ E2). unfold xlnx_spi_update_cs, on_flash. rewrite E3.
  unfold m25p80_cs, flash_sync_dirty, when, bind, get, modify, ret.
  rewrite Hi, bool_decide_eq_false_2 by done. cbn [dirty_page set_fstate set_fpos set_flen].
  rewrite Hd. eexists. reflexivity.
Qed.

Lemma flash_init_run file p fl :
  pick_part (Z.of_nat (length (default [] file))) = Some p ->
  exists fl', flash_init file fl = Ok tt fl' /\ fstate fl' = fstate fl /\ dirty_page fl' = -1.
Proof.
  intros Hp. unfold flash_init. rewrite Hp. eexists. split; [reflexivity|done].
Qed.

Lemma spi_init_ok file m :
  is_Some (pick_part (Z.of_nat (length (default [] file)))) ->
  fstate (sp_flash (spi m)) = STATE_IDLE ->
  exists m', xlnx_spi_init file m = Ok tt m' /\ memory_regions m' = memory_regions m.
Proof.
  intros [p Hp] Hi.
  destruct (flash_init_run file p (sp_flash (spi m)) Hp) as (fl & Ef & F1 & F2).
  assert (exists m', xlnx_spi_init file m = Ok tt m') as [m' E].
  { unfold xlnx_spi_init, bind at 1, on_flash. rewrite Ef.
    apply spi_reset_ok; cbn [spi set_spi sp_flash set_sp_flash]; congruence. }
  exists m'. split; [exact E|].
  assert (keeps same_map (xlnx_spi_init file)) as K.
  { apply keeps_bind; [exact _|apply (keeps_on_flash same_map)|intros _].
    apply (keeps_spi_do_reset same_map). }
  specialize (K m). rewrite E in K. apply K.
Qed.

(** What initialising the devices [ds] leaves: the pages of each belong to it. *)
Definition mapped (ds : list dev) (m m' : machine) : Prop :=
  forall p, memory_regions m' !! p =
    match owner ds p with Some d => Some d | None => memory_regions m !! p end.

Lemma realize_device_spec file d m :
  placed d = true -> (forall p, covers p d = true -> memory_regions m !! p = None) ->
  is_Some (pick_part (Z.of_nat (length (default [] file)))) ->
  (d = xlnx_spi_dev -> fstate (sp_flash (spi m)) = STATE_IDLE) ->
  exists m', realize_device file d m = Ok tt m' /\ mapped [d] m m' /\
    (d <> xlnx_spi_dev -> sp_flash (spi m') = sp_flash (spi m)).
Proof.
  intros Hp Hfree Hpart Hidle. pose proof (first_page_start d Hp) as Es.
  destruct (placed_range d Hp) as (H0 & H1 & H2).
  assert (0 <= region_pages d) as Hr.
  { unfold region_pages, _4KB. apply Z.div_pos; lia. }
  destruct (realize_loop_spec (Z.to_nat (region_pages d)) d 0 m) as (R & E & HR);
    [done|lia|lia| |].
  { intros p Hpr. apply Hfree. unfold covers. rewrite andb_true_iff, Z.leb_le, Z.ltb_lt. lia. }
  rewrite Z.add_0_r, <- Es in E. unfold realize_device.
  assert ((Z.land (dev_start d) 0xFFF =? 0) = true) as ->.
  { change 0xFFF with (Z.ones 12). rewrite Z.land_ones by lia. apply Z.eqb_eq.
    change (2 ^ 12) with 4096. rewrite Es, Z.mul_comm. by apply Z.mod_mul. }
  cbn [ensure]. unfold bind at 1, ret. rewrite (bind_ok _ _ _ _ _ E).
  assert (forall m', memory_regions m' = R -> mapped [d] m m') as Hmap.
  { intros m' <- p. rewrite HR. unfold owner, covers. cbn [find].
    rewrite Z.add_0_r. by destruct (_ && _). }
  destruct (decide (d = xlnx_spi_dev)) as [->|Hd].
  - destruct (spi_init_ok file (set_memory_regions R m) Hpart (Hidle eq_refl)) as (m' & E' & Em').
    exists m'. split; [exact E'|]. split; [by apply Hmap|done].
  - exists (set_memory_regions R m). split; [by destruct d|]. split; [by apply Hmap|done].
Qed.

Lemma apart_covers d1 d2 p : apart d1 d2 = true -> covers p d1 = true -> covers p d2 = false.
Proof.
  unfold apart, covers.
  rewrite orb_true_iff, andb_true_iff, andb_false_iff, !Z.leb_le, !Z.ltb_lt, Z.leb_gt, Z.ltb_ge.
  lia.
Qed.

Lemma apart_sym d1 d2 : apart d1 d2 = apart d2 d1.
Proof. apply orb_comm. Qed.

Lemma layout_ok_perm ds ds' : ds ≡ₚ ds' -> layout_ok ds = true -> layout_ok ds' = true.
Proof.
  assert (forall d l l', l ≡ₚ l' -> forallb (apart d) l = forallb (apart d) l') as Hp.
  { intros d l l' H. induction H; cbn; try congruence.
    rewrite !andb_assoc. f_equal. apply andb_comm. }
  induction 1 as [|d l l' H IH|d1 d2 l|]; cbn; auto.
  - rewrite !andb_true_iff, (Hp d l l' H). tauto.
  - rewrite !andb_true_iff, (apart_sym d1 d2). tauto.
Qed.

Lemma owner_covers ds p d : owner ds p = Some d -> In d ds /\ covers p d = true.
Proof. apply find_some. Qed.

Lemma owner_In ds p d :
  layout_ok ds = true -> In d ds -> covers p d = true -> owner ds p = Some d.
Proof.
  unfold owner. induction ds as [|d1 ds IH]; cbn; [done|].
  rewrite !andb_true_iff, forallb_forall. intros [[_ Ha] Hl] [<-|Hin] Hc; [by rewrite Hc|].
  rewrite (apart_covers d d1 p); [by apply IH| |done]. rewrite apart_sym. by apply Ha.
Qed.

Lemma layout_placed ds d : layout_ok ds = true -> In d ds -> placed d = true.
Proof.
  induction ds as [|d1 ds IH]; cbn; [done|]. rewrite !andb_true_iff.
  intros [[Hp _] Hl] [<-|Hin]; [done|by apply IH].
Qed.

Lemma apart_irrefl d : placed d = true -> apart d d = false.
Proof.
  intros Hp. destruct (placed_range d Hp) as (_ & H & _). unfold apart.
  assert (0 < region_pages d).
  { unfold region_pages, _4KB. apply Z.div_str_pos. lia. }
  rewrite orb_false_iff, !Z.leb_gt. lia.
Qed.

Lemma init_mmio_mapped file ds m :
  layout_ok ds = true ->
  (forall d p, In d ds -> covers p d = true -> memory_regions m !! p = None) ->
  is_Some (pick_part (Z.of_nat (length (default [] file)))) ->
  (In xlnx_spi_dev ds -> fstate (sp_flash (spi m)) = STATE_IDLE) ->
  exists m', init_mmio file ds m = Ok tt m' /\ mapped ds m m'.
Proof.
  revert m. induction ds as [|d ds IH]; intros m Hl Hfree Hpart Hidle.
  { exists m. split; [done|]. by intros p. }
  cbn [layout_ok] in Hl. rewrite !andb_true_iff, forallb_forall in Hl.
  destruct Hl as [[Hp Ha] Hl]. cbn [init_mmio].
  assert (exists m1, realize_device file d m = Ok tt m1 /\ mapped [d] m m1 /\
    (d <> xlnx_spi_dev -> sp_flash (spi m1) = sp_flash (spi m))) as (m1 & E1 & M1 & F1).
  { apply realize_device_spec; [done| |done|].
    - intros p Hc. by apply (Hfree d p (or_introl eq_refl)).
    - intros ->. apply Hidle. by left. }
  rewrite (bind_ok _ _ _ _ _ E1). destruct (IH m1) as (m' & E & M); [done| |done| |].
  - intros d' p Hin Hc. rewrite (M1 p). unfold owner. cbn [find].
    rewrite (apart_covers d' d p); [|rewrite apart_sym; by apply Ha|done].
    by apply (Hfree d' p (or_intror Hin)).
  - intros Hin. rewrite F1; [apply Hidle; by right|]. intros ->.
    specialize (Ha _ Hin). by rewrite apart_irrefl in Ha.
  - exists m'. split; [exact E|]. intros p. rewrite (M p), (M1 p). unfold owner. cbn [find].
    destruct (covers p d) eqn:Hc; [|done].
    destruct (find (covers p) ds) as [d'|] eqn:Ef; [|done].
    apply find_some in Ef as [Hin Hc']. rewrite (apart_covers d d' p) in Hc'; [done| |done].
    by apply Ha.
Qed.
End Layout.

(** Every mapped page belongs to a well-placed device that covers it. *)
Definition regions_ok {cfg : Config} (m : machine) : Prop :=
  forall p d, memory_regions m !! p = Some d -> placed d = true /\ covers p d = true.

Lemma mapped_regions_ok {cfg : Config} ds m m' :
  layout_ok ds = true -> memory_regions m = ∅ -> mapped ds m m' -> regions_ok m'.
Proof.
  intros Hl Hm M p d. rewrite (M p), Hm, lookup_empty.
  destruct (owner ds p) as [d'|] eqn:E; [|done]. intros [= ->].
  apply owner_covers in E as [Hin Hc]. split; [by apply (layout_placed ds)|done].
Qed.

(** C14: for a layout of page-aligned ranges that do not overlap, an image of the flash
    that fits one of its parts (or none), an idle flash chip and nothing mapped yet,
    init_mmio succeeds in whatever order the constructors registered the devices, and afterwards find_device
    maps an address to exactly the linked device whose range contains the page of its
    physical address. *)
Theorem init_mmio_spec {cfg : Config} file ds m :
  ds ≡ₚ filter (fun d => linked d = true) all_devs ->
  layout_ok (filter (fun d => linked d = true) all_devs) = true ->
  is_Some (pick_part (Z.of_nat (length (default [] file)))) ->
  memory_regions m = ∅ -> fstate (sp_flash (spi m)) = STATE_IDLE ->
  exists m', init_mmio file ds m = Ok tt m' /\
    forall addr d, is_u32 addr ->
      find_device addr m' = Some d <->
      linked d = true /\
      dev_start d <= 4096 * (addr mod 2 ^ 29 / 4096) < dev_start d + dev_size d.
Proof.
  intros Hds Hl Hpart Hm Hidle.
  apply (layout_ok_perm _ ds) in Hl; [|by symmetry].
  destruct (init_mmio_mapped file ds m) as (m' & E & M); [done| |done|done|].
  { intros. by rewrite Hm. }
  exists m'. split; [exact E|]. intros addr d Ha. unfold find_device, ioremap.
  change 0x1FFFFFFF with (Z.ones 29). rewrite Z.land_ones by lia.
  unfold mr_index. change (4 * 1024) with 4096. set (p := addr mod 2 ^ 29 / 4096).
  rewrite (M p), Hm, lookup_empty.
  assert (In d ds <-> linked d = true) as Hin.
  { rewrite <- list_elem_of_In, Hds, list_elem_of_filter. split; [by intros []|].
    intros H. split; [done|]. destruct d; repeat constructor. }
  split.
  - destruct (owner ds p) as [d'|] eqn:Eo; [|done]. intros [= ->].
    apply owner_covers in Eo as [Hi Hc]. split; [by apply Hin|].
    apply covers_page; [|done]. by apply (layout_placed ds).
  - intros [Hlk Hr]. apply Hin in Hlk. rewrite (owner_In ds p d); [done|done|done|].
    apply covers_page; [|done]. by apply (layout_placed ds).
Qed.

Lemma init_mmio_spec_witness :
  exists m', init_mmio (cfg := mips32r1_defconfig) None
      (filter (fun d => linked (cfg := mips32r1_defconfig) d = true) all_devs) m_zero = Ok tt m' /\
    find_device 0xbfe50004 m' = Some xlnx_ulite_dev.
Proof.
  destruct (init_mmio_spec (cfg := mips32r1_defconfig) None
    (filter (fun d => linked (cfg := mips32r1_defconfig) d = true) all_devs) m_zero)
    as (m' & E & H); [reflexivity|vm_compute; reflexivity| |reflexivity|reflexivity|].
  { eexists. vm_compute. reflexivity. }
  exists m'. split; [exact E|]. apply H; [unfold in_u; lia|]. vm_compute. repeat split; discriminate.
Defined.
