(* ===== verification/MemProps.v ===== *)
(** * Loads and stores

    A pure description of how an address is resolved, the RAM accesses behind it, and
    the translation cache: an entry always agrees with the walk it short-cuts. *)
From S2P Require Import Prelude Config Reg Fifo Ram Flash Sdlkey Machine Ulite Spi Device Mmu Memory.
From S2P Require Import ExecAlu ExecMdu ExecMem Softfloat ExecFloat Decode Cpu Frame Invariant Exits Samples Exceptions ArithProps MmuProps Layout.
Local Open Scope nemu_scope.

(** ** Resolving a virtual address *)
Section Resolve.
Context {cfg : Config}.

(** kseg0 and kseg1 are the first 512 MB; without paging, or below 2 GB at error level,
    an address is physical; everything else goes through the TLB. *)
Definition resolve (m : machine) (a : Z) (store : bool) : xlat :=
  let seg := a / 2 ^ 29 in
  if (seg =? 4) || (seg =? 5) then XHit (a mod 2 ^ 29) 0
  else if negb CONFIG_PAGING || ((seg <? 4) && negb (cp0_get status_ERL (cp0 (cpu m)) =? 0))
  then XHit a 0
  else match xlate (tlb m) (cp0_get entry_hi_asid (cp0 (cpu m))) a store with
       | XHit pa d => XHit (pa mod 2 ^ 29) d
       | x => x
       end.

Lemma seg_div a : is_u32 a -> Z.land (Z.shiftr a 29) 0x7 = a / 2 ^ 29.
Proof.
  intros Ha. change 0x7 with (Z.ones 3). rewrite Z.land_ones, Z.shiftr_div_pow2 by lia.
  apply Z.mod_small. unfold in_u in Ha.
  split; [apply Z.div_pos; lia|apply Z.div_lt_upper_bound; lia].
Qed.

Lemma ioremap_mod a : ioremap a = a mod 2 ^ 29.
Proof. unfold ioremap. change 0x1FFFFFFF with (Z.ones 29). by rewrite Z.land_ones. Qed.

Lemma prot_addr_resolve a rw m :
  wf m -> is_u32 a -> a / 2 ^ 29 <> 7 ->
  walk_result (resolve m a rw) a (mk_attr rw true) m
    (prot_addr_with_attr a (mk_attr rw true) m).
Proof.
  intros Hwf Ha H7. destruct (wf_m_tlb m Hwf) as [_ Hl].
  unfold prot_addr_with_attr, resolve. rewrite seg_div by done. cbv zeta.
  unfold bind at 1. cbn [get]. rewrite ioremap_mod.
  destruct ((a / 2 ^ 29 =? 4) || (a / 2 ^ 29 =? 5)); [done|].
  apply Z.eqb_neq in H7. rewrite H7.
  destruct (negb CONFIG_PAGING || _); [done|].
  pose proof (page_translate_loop_spec (tlb m) a (mk_attr rw true) m Hl Ha) as W.
  cbn [rwbit mk_attr] in W. unfold bind.
  change (page_translate a (mk_attr rw true) m)
    with (page_translate_loop (tlb m) a (mk_attr rw true) m).
  destruct (xlate _ _ _ _) as [pa d|ex code a'|]; cbn [walk_result exbit mk_attr] in W |- *.
  - rewrite W. cbn. by rewrite ioremap_mod.
  - destruct W as [attr' W]. rewrite W. exists attr'. done.
  - by rewrite W.
Qed.

(** The page determines everything but the page offset. *)
Lemma div_page a b k : 12 <= k -> a / 2 ^ 12 = b / 2 ^ 12 -> a / 2 ^ k = b / 2 ^ k.
Proof.
  intros Hk H. replace (2 ^ k) with (2 ^ 12 * 2 ^ (k - 12)).
  - rewrite <- !Z.div_div by lia. by rewrite H.
  - rewrite <- Z.pow_add_r by lia. f_equal. lia.
Qed.

Lemma page_split a : a = a / 2 ^ 12 * 2 ^ 12 + a mod 2 ^ 12.
Proof. pose proof (Z_div_mod_eq_full a (2 ^ 12)). lia. Qed.

Lemma testbit12_page a b : a / 2 ^ 12 = b / 2 ^ 12 -> Z.testbit a 12 = Z.testbit b 12.
Proof.
  intros H. rewrite <- (Z.add_0_l 12), <- !Z.div_pow2_bits by lia. by rewrite H.
Qed.

Lemma mod_page a k : 12 <= k ->
  (a mod 2 ^ k) mod 2 ^ 12 = a mod 2 ^ 12 /\ (a mod 2 ^ k) / 2 ^ 12 = (a / 2 ^ 12) mod 2 ^ (k - 12).
Proof.
  intros Hk. assert (2 ^ k = 2 ^ 12 * 2 ^ (k - 12)) as E.
  { rewrite <- Z.pow_add_r by lia. f_equal. lia. }
  rewrite E, Z.rem_mul_r by lia. split.
  - rewrite Z.mul_comm, Z.mod_add, Z.mod_mod by lia. done.
  - rewrite Z.mul_comm, Z.div_add, Z.div_small by (lia || apply Z.mod_pos_bound; lia). lia.
Qed.

Definition page_eq (a b : Z) : Prop := a / 2 ^ 12 = b / 2 ^ 12.

(** Two addresses of one page resolve alike, with their own offsets. *)
Definition same_page_result (a b : Z) (x y : xlat) : Prop :=
  match x, y with
  | XHit pa d, XHit pb d' =>
      d = d' /\ page_eq pa pb /\ pa mod 2 ^ 12 = a mod 2 ^ 12 /\ pb mod 2 ^ 12 = b mod 2 ^ 12
  | XFault e c i, XFault e' c' i' => e = e' /\ c = c' /\ i = i'
  | XAbort, XAbort => True
  | _, _ => False
  end.

Lemma xlate_page l i a b st :
  page_eq a b -> same_page_result a b (xlate l i a st) (xlate l i b st).
Proof.
  intros H. induction l as [|e l IH]; cbn [xlate]; [done|].
  destruct (negb (pagemask e =? 0)); [done|].
  assert (maps a i e = maps b i e) as -> by (unfold maps; by rewrite (div_page a b 13)).
  destruct (maps b i e); [|exact IH]. unfold xlate_hit, page_of.
  rewrite (testbit12_page a b H). set (p := if Z.testbit b 12 then p1 e else p0 e).
  destruct (phyn_v p =? 0); [done|]. destruct (_ && _); [done|].
  cbn [same_page_result]. split; [done|]. unfold page_eq.
  rewrite !(Z.add_comm (_ * _)), !Z.div_add, !Z.mod_add, !Z.mod_mod by lia.
  rewrite !(Z.div_small (_ mod _)) by (apply Z.mod_pos_bound; lia). done.
Qed.

Lemma resolve_page m a b st :
  page_eq a b -> same_page_result a b (resolve m a st) (resolve m b st).
Proof.
  intros H. unfold resolve. rewrite (div_page a b 29) by done.
  destruct (_ || _).
  { cbn. split; [done|]. unfold page_eq.
    destruct (mod_page a 29), (mod_page b 29); [lia..|]. rewrite H in *. split; [congruence|done]. }
  destruct (negb CONFIG_PAGING || _); [done|].
  pose proof (xlate_page (tlb m) (cp0_get entry_hi_asid (cp0 (cpu m))) a b st H) as X.
  destruct (xlate _ _ a _) as [pa d| |], (xlate _ _ b _) as [pb d'| |]; try done.
  cbn in X |- *. destruct X as (-> & Hp & Ha & Hb). split; [done|]. unfold page_eq in *.
  destruct (mod_page pa 29) as [A1 A2], (mod_page pb 29) as [B1 B2]; [lia..|].
  rewrite A1, A2, B1, B2, Hp. done.
Qed.
End Resolve.

(** ** RAM behind the bus *)
Definition is_ram (d : dev) : bool := match d with bram_dev | ddr_dev => true | _ => false end.
Definition ram_of (d : dev) (m : machine) : gmap Z Z :=
  match d with bram_dev => bram m | _ => ddr m end.
Definition set_ram (d : dev) (v : gmap Z Z) (m : machine) : machine :=
  match d with bram_dev => set_bram v m | _ => set_ddr v m end.

Section RamBus.
Context {cfg : Config}.

Lemma ram_size d : is_ram d = true -> 4096 <= dev_size d < 2 ^ 29 /\ dev_size d mod 4096 = 0.
Proof. by destruct d. Qed.

(** A RAM device satisfies the contract of [RamDevice] on the bus. *)
Lemma dev_read_ram d :
  is_ram d = true -> exists rd, dev_read d = Some rd /\
    forall off len m, 0 <= off -> 1 <= len <= 4 -> off + len <= dev_size d ->
      rd off len m = Ok (ld_masked (ram_of d m) off len) m.
Proof.
  intros Hd. pose proof (ram_size d Hd) as [Hs _].
  assert (forall off len, 0 <= off -> 1 <= len <= 4 -> off + len <= dev_size d ->
    check_ioaddr off len (dev_size d) = true) as Hc.
  { intros. rewrite check_ioaddr_spec by lia. by apply Z.leb_le. }
  destruct d; try done; eexists; (split; [reflexivity|]); intros; cbn in Hc.
  - unfold bram_rd, Bram.bram_read, bind, checked. cbn [get]. by rewrite Hc.
  - unfold ddr_rd, Ddr.ddr_read, bind, checked. cbn [get]. by rewrite Hc.
Qed.

Lemma dev_write_ram d :
  is_ram d = true -> exists wr, dev_write d = Some wr /\
    forall off len v m, 0 <= off -> 1 <= len <= 4 -> off + len <= dev_size d ->
      wr off len v m = Ok tt (set_ram d (st_bytes (ram_of d m) off (Z.to_nat len) v) m).
Proof.
  intros Hd. pose proof (ram_size d Hd) as [Hs _].
  assert (forall off len, 0 <= off -> 1 <= len <= 4 -> off + len <= dev_size d ->
    check_ioaddr off len (dev_size d) = true) as Hc.
  { intros. rewrite check_ioaddr_spec by lia. by apply Z.leb_le. }
  destruct d; try done; eexists; (split; [reflexivity|]); intros; cbn in Hc.
  - unfold bram_wr, Bram.bram_write, bind, checked. cbn [get]. by rewrite Hc.
  - unfold ddr_wr, Ddr.ddr_write, bind, checked. cbn [get]. by rewrite Hc.
Qed.

Lemma dev_map_ram d :
  is_ram d = true -> exists f, dev_map d = Some f /\
    forall off m, 0 <= off < dev_size d -> f off 0 m = Ok (d, off) m.
Proof.
  intros Hd. pose proof (ram_size d Hd) as [Hs _].
  assert (forall off, 0 <= off < dev_size d -> check_ioaddr off 0 (dev_size d) = true) as Hc.
  { intros off Ho. unfold check_ioaddr. rewrite (uw_small 32 0), Z.add_0_r by (unfold in_u; lia).
    rewrite uw_small by (unfold in_u; lia).
    rewrite (proj2 (Z.leb_le off _)), (proj2 (Z.leb_le 0 _)) by lia. done. }
  destruct d; try done; eexists; (split; [reflexivity|]); intros; cbn in Hc.
  - unfold Bram.bram_map, bind, checked. by rewrite Hc.
  - unfold Ddr.ddr_map, bind, checked. by rewrite Hc.
Qed.

Lemma dev_map_not_ram d : is_ram d = false -> dev_map d = None.
Proof. by destruct d. Qed.

(** The page of a physical address lies inside the device that owns it. *)
Lemma find_device_page m pa d :
  regions_ok m -> 0 <= pa < 2 ^ 29 -> find_device pa m = Some d ->
  dev_start d mod 4096 = 0 /\ 0 <= dev_start d /\
  dev_start d <= pa - pa mod 4096 < dev_start d + dev_size d.
Proof.
  intros Hr Hpa Hf. unfold find_device in Hf. rewrite ioremap_mod, Z.mod_small in Hf by lia.
  apply Hr in Hf as [Hp Hc]. apply covers_page in Hc; [|done].
  unfold mr_index in Hc. change (4 * 1024) with 4096 in Hc.
  pose proof (first_page_start d Hp). destruct (placed_range d Hp) as [H0 _].
  pose proof (Z_div_mod_eq_full pa 4096).
  split; [|split]; [|lia|lia]. rewrite H, Z.mul_comm. by apply Z.mod_mul.
Qed.

Lemma find_device_page_eq m pa pb :
  page_eq pa pb -> find_device pa m = find_device pb m.
Proof.
  intros H. unfold find_device, mr_index. rewrite !ioremap_mod. change (4 * 1024) with (2 ^ 12).
  destruct (mod_page pa 29) as [_ A], (mod_page pb 29) as [_ B]; [lia..|]. rewrite H in A.
  congruence.
Qed.

(** The address [a] resolves to byte [pa] of the RAM [d], [len] bytes inside a page. *)
Record ram_at (m : machine) (a : Z) (store : bool) (pa : Z) (d : dev) : Prop := mkRamAt {
  ra_resolve : exists dirty, resolve m a store = XHit pa dirty;
  ra_range : 0 <= pa < 2 ^ 29;
  ra_find : find_device pa m = Some d;
  ra_ram : is_ram d = true
}.

Lemma ram_bounds m pa d len :
  regions_ok m -> 0 <= pa < 2 ^ 29 -> find_device pa m = Some d -> is_ram d = true ->
  pa mod 2 ^ 12 + len <= 2 ^ 12 ->
  0 <= pa - dev_start d /\ pa - dev_start d + len <= dev_size d /\
  u32 (pa - dev_start d) = pa - dev_start d.
Proof.
  intros Hr Hpa Hf Hd Hl. destruct (find_device_page m pa d Hr Hpa Hf) as (Ha & H0 & H1 & H2).
  destruct (ram_size d Hd) as [Hs Hm]. change (2 ^ 12) with 4096 in Hl.
  pose proof (Z.mod_pos_bound pa 4096 ltac:(lia)).
  assert (pa - pa mod 4096 + 4096 <= dev_start d + dev_size d).
  { pose proof (Z_div_mod_eq_full pa 4096). pose proof (Z_div_mod_eq_full (dev_start d) 4096).
    pose proof (Z_div_mod_eq_full (dev_size d) 4096).
    rewrite Ha, Hm in *.
    assert (pa / 4096 < dev_start d / 4096 + dev_size d / 4096) by lia. lia. }
  split_and!; [lia|lia|]. apply uw_small. unfold in_u. lia.
Qed.
End RamBus.

(** ** The translation cache *)
Lemma mmu_cache_index_mod a : mmu_cache_index a = (a / 2 ^ 12) mod 2 ^ 12.
Proof.
  unfold mmu_cache_index. change (Z.shiftl 1 MMU_BITS - 1) with (Z.ones 12).
  by rewrite Z.land_ones, Z.shiftr_div_pow2.
Qed.

Lemma mmu_cache_id_div a : mmu_cache_id a = a / 2 ^ 12 / 2 ^ 12.
Proof.
  unfold mmu_cache_id, MMU_BITS. rewrite Z.shiftr_div_pow2, Z.div_div by lia. done.
Qed.

(** A cache slot and its tag identify the page. *)
Lemma cache_slot_page a b :
  mmu_cache_index a = mmu_cache_index b -> mmu_cache_id a = mmu_cache_id b -> page_eq a b.
Proof.
  rewrite !mmu_cache_index_mod, !mmu_cache_id_div. intros Hi Ht. unfold page_eq.
  rewrite (Z_div_mod_eq_full (a / 2 ^ 12) (2 ^ 12)), (Z_div_mod_eq_full (b / 2 ^ 12) (2 ^ 12)).
  congruence.
Qed.

Lemma page_eq_slot a b :
  page_eq a b -> mmu_cache_index a = mmu_cache_index b /\ mmu_cache_id a = mmu_cache_id b.
Proof. rewrite !mmu_cache_index_mod, !mmu_cache_id_div. unfold page_eq. by intros ->. Qed.

Section Cache.
Context {cfg : Config}.

(** What a hit on address [a] relies on: the pointer is the host address of the page
    that the walk resolves [a] to, and a writable entry is one the walk lets a store
    through. *)
Record cache_agrees (m : machine) (a : Z) (e : mmu_cache_t) : Prop := mkAgrees {
  ca_page : exists pa d, ram_at m a false pa d /\
    mc_ptr e = Some (d, pa - pa mod 2 ^ 12 - dev_start d) /\
    (mc_can_write e = true -> ram_at m a true pa d);
  ca_seg : a / 2 ^ 29 <> 7
}.

Definition cache_ok (m : machine) : Prop :=
  forall a, is_u32 a ->
    let e := mmu_cache_at m (mmu_cache_index a) in
    mc_id e = mmu_cache_id a -> cache_agrees m a e.

Lemma ram_at_page m a b st pa d :
  page_eq a b -> ram_at m a st pa d ->
  exists pb, ram_at m b st pb d /\ pb - pb mod 2 ^ 12 = pa - pa mod 2 ^ 12 /\
    pa mod 2 ^ 12 = a mod 2 ^ 12 /\ pb mod 2 ^ 12 = b mod 2 ^ 12.
Proof.
  intros H [[dirty Hr] Hp Hf Hd]. pose proof (resolve_page m a b st H) as X. rewrite Hr in X.
  destruct (resolve m b st) as [pb d'| |] eqn:E; try done.
  destruct X as (_ & Hpq & Ha & Hb). unfold page_eq in Hpq.
  pose proof (page_split pa). pose proof (page_split pb).
  exists pb. split_and!; [|lia|done|done]. constructor; [by eexists| | |done].
  - pose proof (Z.mod_pos_bound pb (2 ^ 12) ltac:(lia)).
    assert (0 <= pa / 2 ^ 12 < 2 ^ 17); [|lia].
    split; [apply Z.div_pos; lia|apply Z.div_lt_upper_bound; lia].
  - by rewrite <- (find_device_page_eq m pa pb).
Qed.

Lemma ram_at_unique m a s1 s2 pa pb d1 d2 :
  ram_at m a s1 pa d1 -> ram_at m a s2 pb d2 -> s1 = s2 -> pa = pb /\ d1 = d2.
Proof.
  intros [[? R1] _ F1 _] [[? R2] _ F2 _] <-. rewrite R1 in R2. injection R2 as -> ->.
  split; congruence.
Qed.

(** A load that resolves for a store as well resolves to the same place. *)
Lemma resolve_store_load m a pa d :
  resolve m a true = XHit pa d -> resolve m a false = XHit pa d.
Proof.
  unfold resolve. destruct (_ || _); [done|]. destruct (negb CONFIG_PAGING || _); [done|].
  assert (forall l i, (exists q d, xlate l i a true = XHit q d) ->
    xlate l i a false = xlate l i a true) as Hx.
  { intros l i. induction l as [|e l IH]; cbn [xlate]; [by intros (?&?&?)|].
    destruct (negb _); [done|]. destruct (maps a i e); [|exact IH]. unfold xlate_hit.
    rewrite andb_true_r, andb_false_r. intros (q & d' & E). repeat case_match; done. }
  intros E. rewrite Hx; [exact E|]. destruct (xlate _ _ a true); try done. by do 2 eexists.
Qed.

Lemma resolve_load_store m a pa d :
  resolve m a false = XHit pa d -> d <> 0 -> resolve m a true = XHit pa d.
Proof.
  unfold resolve. destruct (_ || _); [congruence|]. destruct (negb CONFIG_PAGING || _); [congruence|].
  assert (forall l i q d, d <> 0 -> xlate l i a false = XHit q d -> xlate l i a true = XHit q d)
    as Hx.
  { intros l i q d'. induction l as [|e l IH]; cbn [xlate]; [done|].
    intros Hd. destruct (negb _); [done|]. destruct (maps a i e); [|by apply IH].
    unfold xlate_hit. rewrite andb_true_r, andb_false_r. case_match; [done|].
    intros [= <- <-]. by apply Z.eqb_neq in Hd as ->. }
  intros E Hd. destruct (xlate _ _ a false) eqn:Ex; try done. injection E as <- <-.
  by rewrite (Hx _ _ _ _ Hd Ex).
Qed.
End Cache.

(** ** Accesses that reach RAM *)
Section Access.
Context {cfg : Config}.

Lemma land_not_fff pa : is_u32 pa -> Z.land pa (not32 0xFFF) = pa - pa mod 2 ^ 12.
Proof.
  intros Hp. change (not32 0xFFF) with (Z.shiftl (Z.ones 20) 12).
  assert (Z.land pa (Z.shiftl (Z.ones 20) 12) = Z.shiftl (Z.shiftr pa 12) 12) as ->.
  { apply Z.bits_inj'. intros i Hi. rewrite Z.land_spec, !Z.shiftl_spec by lia.
    destruct (Z.ltb_spec i 12).
    - rewrite !(Z.testbit_neg_r _ (i - 12)) by lia. apply andb_false_r.
    - rewrite testbit_ones, Z.shiftr_spec by lia. replace (i - 12 + 12) with i by lia.
      destruct (Z.ltb_spec (i - 12) 20).
      + rewrite (proj2 (Z.leb_le 0 _)) by lia. apply andb_true_r.
      + by rewrite (testbit_in_u 32 pa i) by (done || lia). }
  rewrite Z.shiftl_mul_pow2, Z.shiftr_div_pow2 by lia. pose proof (page_split pa). lia.
Qed.

(** The cache slot filled for [a]. *)
Definition fill (m : machine) (a pa : Z) (d : dev) (w : bool) : machine :=
  if has_exception (cpu m) then m
  else set_mmu_cache (<[Z.to_nat (mmu_cache_index a) :=
         mkMmuCache (mmu_cache_id a) (Some (d, pa - pa mod 2 ^ 12 - dev_start d)) w]>
         (mmu_cache m)) m.

Lemma update_mmu_cache_ram m a pa d w :
  regions_ok m -> 0 <= pa < 2 ^ 29 -> find_device pa m = Some d -> is_ram d = true ->
  update_mmu_cache a pa d w m = Ok tt (fill m a pa d w).
Proof.
  intros Hr Hp Hf Hd. unfold update_mmu_cache, fill, bind. cbn [get].
  destruct (has_exception (cpu m)); [done|].
  destruct (dev_map_ram d Hd) as (f & -> & Hmap).
  destruct (find_device_page m pa d Hr Hp Hf) as (_ & H0 & H1 & H2).
  rewrite land_not_fff by (unfold in_u; lia). change (2 ^ 12) with 4096 in *.
  destruct (ram_size d Hd) as [Hs _].
  rewrite uw_small by (unfold in_u; lia). rewrite Hmap by lia. done.
Qed.

Lemma fill_frame m a pa d w :
  cpu (fill m a pa d w) = cpu m /\ bram (fill m a pa d w) = bram m /\
  ddr (fill m a pa d w) = ddr m /\ tlb (fill m a pa d w) = tlb m /\
  memory_regions (fill m a pa d w) = memory_regions m.
Proof. unfold fill. by case_match. Qed.

Lemma ram_of_fill d' m a pa d w : ram_of d' (fill m a pa d w) = ram_of d' m.
Proof. destruct (fill_frame m a pa d w) as (_ & E1 & E2 & _). by destruct d'. Qed.

Lemma find_device_fill pa' m a pa d w : find_device pa' (fill m a pa d w) = find_device pa' m.
Proof. unfold find_device. by destruct (fill_frame m a pa d w) as (_ & _ & _ & _ & ->). Qed.

(** The cache is not used for this address. *)
Definition misses (m : machine) (a : Z) : Prop :=
  CONFIG_MMU_CACHE &&
  (mc_id (mmu_cache_at m (mmu_cache_index a)) =? mmu_cache_id a) = false.

Context (m : machine) (Hwf : wf m) (Hreg : regions_ok m).
Context (a len : Z) (Ha : is_u32 a) (Hseg : a / 2 ^ 29 <> 7).
Context (Hlen : 1 <= len <= 4) (Hpage : a mod 2 ^ 12 + len <= 2 ^ 12).

Lemma ram_at_offset st pa d : ram_at m a st pa d -> pa mod 2 ^ 12 = a mod 2 ^ 12.
Proof using Type.
  intros H. by destruct (ram_at_page m a a st pa d eq_refl H) as (_ & _ & _ & E & _).
Qed.

Lemma prot_addr_ram st pa d :
  ram_at m a st pa d ->
  exists dirty, resolve m a st = XHit pa dirty /\
    prot_addr_with_attr a (mk_attr st true) m = Ok (pa, set_dirty dirty (mk_attr st true)) m.
Proof using Hwf Ha Hseg.
  intros [[dirty Hr] _ _ _]. pose proof (prot_addr_resolve a st m Hwf Ha Hseg) as W.
  rewrite Hr in W. by exists dirty.
Qed.

Lemma vaddr_read_walk pa d :
  misses m a -> ram_at m a false pa d ->
  exists dirty, resolve m a false = XHit pa dirty /\
    vaddr_read a len m =
    Ok (ld_masked (ram_of d m) (pa - dev_start d) len)
       (fill m a pa d (negb (uw 1 dirty =? 0))).
Proof using Hwf Hreg Ha Hseg Hlen Hpage.
  intros Hm H. destruct (prot_addr_ram false pa d H) as (dirty & Hr & E).
  pose proof (ram_at_offset _ _ _ H) as Ho. destruct H as [_ Hp Hf Hd].
  exists dirty. split; [done|]. unfold vaddr_read, bind at 1. cbn [get].
  unfold misses in Hm. rewrite Hm. rewrite (bind_ok _ _ _ _ _ E). cbn [fst snd].
  unfold bind at 1. cbn [get]. rewrite Hf. destruct (dev_read_ram d Hd) as (rd & -> & Hrd).
  rewrite (bind_ok _ _ _ _ _ (update_mmu_cache_ram m a pa d _ Hreg Hp Hf Hd)).
  destruct (ram_bounds m pa d len Hreg Hp Hf Hd) as (B1 & B2 & ->); [lia|].
  rewrite Hrd by done. by rewrite ram_of_fill.
Qed.

Lemma vaddr_write_walk pa d v :
  misses m a \/ mc_can_write (mmu_cache_at m (mmu_cache_index a)) = false ->
  ram_at m a true pa d ->
  vaddr_write a len v m =
  Ok tt (set_ram d (st_bytes (ram_of d m) (pa - dev_start d) (Z.to_nat len) v)
           (fill m a pa d true)).
Proof using Hwf Hreg Ha Hseg Hlen Hpage.
  intros Hm H. destruct (prot_addr_ram true pa d H) as (dirty & Hr & E).
  pose proof (ram_at_offset _ _ _ H) as Ho. destruct H as [_ Hp Hf Hd].
  unfold vaddr_write, bind at 1. cbn [get].
  assert (CONFIG_MMU_CACHE && (mc_id (mmu_cache_at m (mmu_cache_index a)) =? mmu_cache_id a) &&
    mc_can_write (mmu_cache_at m (mmu_cache_index a)) = false) as ->.
  { destruct Hm as [-> | ->]; [done|apply andb_false_r]. }
  unfold prot_addr, bind at 1. rewrite (bind_ok _ _ _ _ _ E). cbn [ret fst].
  unfold bind at 1. cbn [get]. rewrite Hf. destruct (dev_write_ram d Hd) as (wr & -> & Hwr).
  rewrite (bind_ok _ _ _ _ _ (update_mmu_cache_ram m a pa d _ Hreg Hp Hf Hd)).
  destruct (ram_bounds m pa d len Hreg Hp Hf Hd) as (B1 & B2 & ->); [lia|].
  rewrite Hwr by done. by rewrite ram_of_fill.
Qed.

(** A hit reads and writes what the walk would. *)
Lemma host_off pa d :
  pa mod 2 ^ 12 = a mod 2 ^ 12 ->
  pa - pa mod 2 ^ 12 - dev_start d + Z.land a 0xFFF = pa - dev_start d.
Proof using Type.
  intros H. change 0xFFF with (Z.ones 12). rewrite Z.land_ones by lia. lia.
Qed.

Lemma vaddr_read_hit :
  cache_ok m -> CONFIG_MMU_CACHE = true ->
  mc_id (mmu_cache_at m (mmu_cache_index a)) = mmu_cache_id a ->
  exists pa d, ram_at m a false pa d /\
    vaddr_read a len m = Ok (ld_masked (ram_of d m) (pa - dev_start d) len) m.
Proof using Ha.
  intros Hok Hc Hid. destruct (Hok a Ha Hid) as [(pa & d & H & Hptr & _) _].
  exists pa, d. split; [done|]. unfold vaddr_read, bind at 1. cbn [get].
  rewrite Hc, Hid, Z.eqb_refl. cbn [andb]. unfold host_load, bind. cbn [get].
  rewrite Hptr. pose proof (host_off pa d (ram_at_offset _ _ _ H)) as E.
  pose proof (ra_ram _ _ _ _ _ H) as Hd. destruct d; try done; by rewrite E.
Qed.

Lemma vaddr_write_hit v :
  cache_ok m -> CONFIG_MMU_CACHE = true ->
  mc_id (mmu_cache_at m (mmu_cache_index a)) = mmu_cache_id a ->
  mc_can_write (mmu_cache_at m (mmu_cache_index a)) = true ->
  exists pa d, ram_at m a true pa d /\
    vaddr_write a len v m =
    Ok tt (set_ram d (st_bytes (ram_of d m) (pa - dev_start d) (Z.to_nat len) v) m).
Proof using Ha.
  intros Hok Hc Hid Hw. destruct (Hok a Ha Hid) as [(pa & d & _ & Hptr & H) _].
  specialize (H Hw). exists pa, d. split; [done|]. unfold vaddr_write, bind at 1. cbn [get].
  rewrite Hc, Hid, Hw, Z.eqb_refl. cbn [andb]. unfold host_store, bind. cbn [get].
  rewrite Hptr. pose proof (host_off pa d (ram_at_offset _ _ _ H)) as E.
  pose proof (ra_ram _ _ _ _ _ H) as Hd. destruct d; try done; by rewrite E.
Qed.
End Access.

(** ** Transparency of the translation cache *)
(** The same build without the translation cache. *)
Definition uncached (cfg : Config) : Config := {|
  CONFIG_DELAYSLOT := @CONFIG_DELAYSLOT cfg; CONFIG_EXCEPTION := @CONFIG_EXCEPTION cfg;
  CONFIG_PAGING := @CONFIG_PAGING cfg; CONFIG_INTR := @CONFIG_INTR cfg;
  CONFIG_MARCH_NOOP := @CONFIG_MARCH_NOOP cfg; CONFIG_MMU_CACHE := false;
  CONFIG_DECODE_CACHE := @CONFIG_DECODE_CACHE cfg;
  CONFIG_INSTR_LOG := @CONFIG_INSTR_LOG cfg;
  CONFIG_DIFF_WITH_QEMU := @CONFIG_DIFF_WITH_QEMU cfg;
  CONFIG_KERNEL_DEBUG_SERIAL := @CONFIG_KERNEL_DEBUG_SERIAL cfg;
  CONFIG_GRAPHICS := @CONFIG_GRAPHICS cfg;
  CONFIG_CMDLINE_ADDR := @CONFIG_CMDLINE_ADDR cfg; CONFIG_BRAM_BASE := @CONFIG_BRAM_BASE cfg;
  CONFIG_DDR_BASE := @CONFIG_DDR_BASE cfg;
  CONFIG_NEMU_TRAP_BASE := @CONFIG_NEMU_TRAP_BASE cfg;
  CONFIG_NEMU_CLOCK_BASE := @CONFIG_NEMU_CLOCK_BASE cfg;
  CONFIG_NEMU_CLOCK := @CONFIG_NEMU_CLOCK cfg;
  CONFIG_XLNX_ULITE_BASE := @CONFIG_XLNX_ULITE_BASE cfg;
  CONFIG_XLNX_SPI_BASE := @CONFIG_XLNX_SPI_BASE cfg;
  CONFIG_NEMU_PMU_BASE := @CONFIG_NEMU_PMU_BASE cfg;
  CONFIG_NEMU_KEYBOARD_BASE := @CONFIG_NEMU_KEYBOARD_BASE cfg;
  CONFIG_NEMU_VGA_BASE := @CONFIG_NEMU_VGA_BASE cfg;
  CONFIG_NEMU_VGA_CTRL_BASE := @CONFIG_NEMU_VGA_CTRL_BASE cfg;
  CONFIG_XLNX_SPI := @CONFIG_XLNX_SPI cfg; CONFIG_NEMU_PMU := @CONFIG_NEMU_PMU cfg;
  CONFIG_NEMU_KEYBOARD := @CONFIG_NEMU_KEYBOARD cfg; CONFIG_NEMU_VGA := @CONFIG_NEMU_VGA cfg |}.

(** Two runs agree on their outcome and on everything but the cache. *)
Definition forget (m : machine) : machine := set_mmu_cache [] m.
Definition same_result {A} (r1 r2 : res machine A) : Prop :=
  match r1, r2 with
  | Ok a s, Ok b t => a = b /\ forget s = forget t
  | Exit s, Exit t => forget s = forget t
  | Stop h s, Stop h' t => h = h' /\ forget s = forget t
  | _, _ => False
  end.

Lemma same_result_refl {A} (r : res machine A) : same_result r r.
Proof. by destruct r. Qed.

Lemma forget_fill {cfg : Config} m a pa d w : forget (fill m a pa d w) = forget m.
Proof. unfold fill. by case_match. Qed.

Lemma forget_set_ram d v m m' : forget m = forget m' -> forget (set_ram d v m) = forget (set_ram d v m').
Proof.
  intros H. assert (forall m, forget (set_ram d v m) = set_ram d v (forget m)) as E
    by (intros; by destruct d). by rewrite !E, H.
Qed.

(** C15: while the cache agrees with the TLB and the memory map, every load and store
    of one to four bytes within one page returns through it the same value, ends the same
    way and leaves the same machine (the cache itself apart) as the build without the
    cache. *)
Theorem mmu_cache_transparent {cfg : Config} a len v m :
  wf m -> regions_ok m -> cache_ok m -> is_u32 a -> 1 <= len <= 4 ->
  a mod 2 ^ 12 + len <= 2 ^ 12 ->
  same_result (vaddr_read (cfg := cfg) a len m) (vaddr_read (cfg := uncached cfg) a len m) /\
  same_result (vaddr_write (cfg := cfg) a len v m) (vaddr_write (cfg := uncached cfg) a len v m).
Proof.
  intros Hwf Hr Hok Ha Hl Hp.
  destruct (@CONFIG_MMU_CACHE cfg &&
            (mc_id (mmu_cache_at m (mmu_cache_index a)) =? mmu_cache_id a)) eqn:Hm.
  2: { split; unfold vaddr_read, vaddr_write, bind at 1 4; cbn [get]; rewrite Hm;
         apply same_result_refl. }
  apply andb_true_iff in Hm as [Hc Hid%Z.eqb_eq]. destruct (Hok a Ha Hid) as [_ H7]. split.
  - destruct (vaddr_read_hit m a len Ha Hok Hc Hid) as (pa & d & H & ->).
    destruct (vaddr_read_walk (cfg := uncached cfg) m Hwf Hr a len Ha H7 Hl Hp pa d)
      as (dirty & _ & ->); [done|by destruct H|].
    split; [done|]. symmetry. apply forget_fill.
  - destruct (mc_can_write (mmu_cache_at m (mmu_cache_index a))) eqn:Hw.
    + destruct (vaddr_write_hit m a len Ha v Hok Hc Hid Hw) as (pa & d & H & ->).
      rewrite (vaddr_write_walk (cfg := uncached cfg) m Hwf Hr a len Ha H7 Hl Hp pa d);
        [|by left|by destruct H].
      split; [done|]. apply forget_set_ram. symmetry. apply forget_fill.
    + unfold vaddr_write, bind at 1 3. cbn [get]. rewrite Hw, !andb_false_r.
      apply same_result_refl.
Qed.
