(* ===== verification/CacheInv.v ===== *)
(** * The translation cache stays in agreement with the TLB

    Every operation of the CPU except tlbr either leaves what a translation depends on
    alone or clears the cache. *)
From S2P Require Import Prelude Config Reg Fifo Ram Flash Sdlkey Machine Ulite Spi Device Mmu Memory.
From S2P Require Import ExecAlu ExecMdu ExecMem Softfloat ExecFloat Decode Cpu Frame Invariant Exits Samples Exceptions ArithProps MmuProps Layout MemProps.
Local Open Scope nemu_scope.

Section CacheInv.
Context {cfg : Config}.

Record cinv (m : machine) : Prop := mkCinv {
  ci_wf : wf m;
  ci_reg : regions_ok m;
  ci_cache : cache_ok m
}.

(** What the resolution of an address depends on. *)
Record same_xlat (m m' : machine) : Prop := mkSameXlat {
  sx_tlb : tlb m' = tlb m;
  sx_regions : memory_regions m' = memory_regions m;
  sx_asid : cp0_get entry_hi_asid (cp0 (cpu m')) = cp0_get entry_hi_asid (cp0 (cpu m));
  sx_ERL : cp0_get status_ERL (cp0 (cpu m')) = cp0_get status_ERL (cp0 (cpu m))
}.

Lemma ram_at_ext m m' a st pa d :
  same_xlat m m' -> ram_at m a st pa d -> ram_at m' a st pa d.
Proof.
  intros [E1 E2 E3 E4] []. constructor; try done.
  - unfold resolve. by rewrite E1, E3, E4.
  - unfold find_device. by rewrite E2.
Qed.

Lemma cache_agrees_ext m m' a e : same_xlat m m' -> cache_agrees m a e -> cache_agrees m' a e.
Proof.
  intros Hs [(pa & d & H & Hp & Hw) H7]. split; [|done]. exists pa, d.
  split_and!; [by eapply ram_at_ext|done|]. intros W. eapply ram_at_ext; [done|by apply Hw].
Qed.

Lemma cinv_ext m m' :
  same_xlat m m' -> mmu_cache m' = mmu_cache m -> wf m' -> cinv m -> cinv m'.
Proof.
  intros Hs Hc Hwf [_ Hr Hok]. split; [done| |].
  - unfold regions_ok. by rewrite (sx_regions _ _ Hs).
  - intros a Ha. cbv zeta. unfold mmu_cache_at. rewrite Hc. intros Hid.
    eapply cache_agrees_ext; [done|]. by apply Hok.
Qed.

(** A cleared cache agrees with any TLB. *)
Lemma cache_slot m a :
  wf m -> is_u32 a -> is_Some (mmu_cache m !! Z.to_nat (mmu_cache_index a)).
Proof.
  intros Hwf Ha. apply lookup_lt_is_Some. rewrite (wf_m_mmu_cache m Hwf), mmu_cache_index_mod.
  change MMU_BITS with 12. pose proof (Z.mod_pos_bound (a / 2 ^ 12) (2 ^ 12)). lia.
Qed.

Lemma cleared_ok m : wf m -> mmu_cache_empty m -> cache_ok m.
Proof.
  intros Hwf He a Ha e Hid. exfalso. unfold e, mmu_cache_at in Hid.
  rewrite mmu_cache_id_div in Hid. destruct (cache_slot m a Hwf Ha) as [x E].
  rewrite E in Hid. apply (Forall_lookup_1 _ _ _ _ He) in E as [E _]. cbn in Hid.
  unfold in_u in Ha. assert (0 <= a / 2 ^ 12 / 2 ^ 12 < 2 ^ 8) as Hr.
  { rewrite Z.div_div by lia. split; [apply Z.div_pos; lia|apply Z.div_lt_upper_bound; lia]. }
  lia.
Qed.

Lemma cinv_cleared m m' :
  wf m' -> memory_regions m' = memory_regions m -> mmu_cache_empty m' ->
  cinv m -> cinv m'.
Proof.
  intros Hwf Hm He [_ Hr _]. split; [done| |by apply cleared_ok].
  unfold regions_ok. by rewrite Hm.
Qed.

(** Filling a slot from a successful walk. *)
Lemma cinv_fill m a pa d w :
  cinv m -> is_u32 a -> a / 2 ^ 29 <> 7 -> ram_at m a false pa d ->
  (w = true -> ram_at m a true pa d) -> cinv (fill m a pa d w).
Proof.
  intros Hci Ha H7 H Hw. destruct Hci as [Hwf Hr Hok].
  assert (same_xlat m (fill m a pa d w)) as Hs by (unfold fill; by case_match).
  split.
  - unfold fill. case_match; [done|]. destruct Hwf. constructor; cbn; try done.
    by rewrite length_insert.
  - unfold regions_ok. by rewrite (sx_regions _ _ Hs).
  - intros b Hb. cbv zeta. unfold mmu_cache_at, fill in *.
    destruct (has_exception (cpu m)); [by apply Hok|]. cbn [mmu_cache set_mmu_cache].
    destruct (decide (Z.to_nat (mmu_cache_index a) = Z.to_nat (mmu_cache_index b))) as [Ei|Ei].
    + rewrite <- Ei. rewrite list_lookup_insert_eq.
      2: { destruct (cache_slot m a Hwf Ha) as [x E]. by eapply lookup_lt_Some. }
      cbn. intros Hid. assert (page_eq a b) as Hpq.
      { apply cache_slot_page; [|done]. rewrite !mmu_cache_index_mod in Ei |- *.
        pose proof (Z.mod_pos_bound (a / 2 ^ 12) (2 ^ 12)).
        pose proof (Z.mod_pos_bound (b / 2 ^ 12) (2 ^ 12)). lia. }
      eapply cache_agrees_ext; [exact Hs|]. split.
      * destruct (ram_at_page m a b false pa d Hpq H) as (pb & Hb' & Ep & Oa & Ob).
        exists pb, d. cbn. rewrite Ep. split_and!; [done|done|]. intros W.
        destruct (ram_at_page m a b true pa d Hpq (Hw W)) as (pb' & Hb2 & Ep' & _ & Ob').
        replace pb with pb'; [done|]. lia.
      * by rewrite <- (div_page a b 29).
    + rewrite list_lookup_insert_ne by done. intros Hid.
      eapply cache_agrees_ext; [exact Hs|]. by apply Hok.
Qed.
End CacheInv.

(** ** Frame conditions *)
Abbreviation CI := (inv cinv).

Section Keeps.
Context {cfg : Config}.

Lemma cinv_wf_step {A} (k : EM A) m :
  keeps (inv wf) k -> cinv m -> wf (st (k m)).
Proof. intros K []. by apply K. Qed.

(** CPU updates that translation does not see. *)
Definition quiet (f : CPU_state -> CPU_state) : Prop :=
  forall c, wf_cpu c -> wf_cpu (f c) /\
    cp0_get entry_hi_asid (cp0 (f c)) = cp0_get entry_hi_asid (cp0 c) /\
    cp0_get status_ERL (cp0 (f c)) = cp0_get status_ERL (cp0 c).

Lemma keeps_quiet f : quiet f -> keeps CI (upd_cpu f).
Proof.
  intros Hq m Hci. cbn. destruct (Hq (cpu m)) as (H1 & H2 & H3); [apply (ci_wf _ Hci)|].
  eapply (cinv_ext m); [by constructor|done| |done]. apply wf_set_cpu; [done|apply Hci].
Qed.

#[export] Instance cinv_dev_frame : DevFrame CI.
Proof.
  split; try exact _; intros; intros Hci; pose proof (ci_wf m Hci) as Hwf;
    (eapply (cinv_ext m); [by constructor|done| |done]) || idtac.
  all: try (destruct Hwf; constructor; cbn; auto; fail).
  apply (keeps_quiet (put_cp0 cause_IP v)); [|done].
  intros c Hc. split_and!; [auto with words|by regs|by regs].
Qed.
End Keeps.

Ltac quiet :=
  let c := fresh "c" in let Hc := fresh "Hc" in
  intros c Hc; repeat case_match;
  (split_and!; [auto 20 with words|first [done|by regs]|first [done|by regs]]).
#[export] Hint Extern 1 (keeps _ (upd_cpu _)) => apply keeps_quiet; quiet : keeps.

Section Operations.
Context {cfg : Config}.

Lemma wf_cleared m : wf m -> wf (caches_cleared m).
Proof. intros []. constructor; cbn; try done. by rewrite length_map. Qed.

Lemma cinv_caches_cleared m m' :
  wf m' -> memory_regions m' = memory_regions m -> cinv m -> cinv (caches_cleared m').
Proof.
  intros Hwf Hm. apply cinv_cleared; [by apply wf_cleared|done|apply caches_cleared_empty].
Qed.

Lemma CI_clear_decode_cache : keeps CI clear_decode_cache.
Proof.
  intros m Hci. eapply (cinv_ext m); [by constructor|done| |done].
  destruct (ci_wf m Hci). by constructor.
Qed.
Lemma CI_clear_mmu_cache : keeps CI clear_mmu_cache.
Proof.
  intros m Hci. apply (cinv_cleared m); [|done| |done].
  - apply (keeps_clear_mmu_cache (inv wf) m), Hci.
  - apply Forall_fmap, Forall_true. done.
Qed.

Lemma wf_raise code extra m : wf m -> wf (set_cpu (raise_cpu code extra (cpu m)) m).
Proof.
  intros Hwf. apply wf_set_cpu; [|done]. eapply bus_upd_wf; [apply bus_upd_raise|apply Hwf].
Qed.

Lemma CI_raise_exception e : keeps CI (raise_exception e).
Proof.
  intros m Hci. destruct (decide (Z.land e 0xFFFF = EXC_TRAP)) as [E|E].
  - unfold raise_exception. rewrite E. cbn. unfold bind, get_current_pc, ensure.
    by destruct CONFIG_INSTR_LOG.
  - rewrite raise_exception_run by done. cbn. apply (cinv_caches_cleared m); [|done|done].
    by apply wf_raise, Hci.
Qed.

(** A walk leaves the machine as it was, or raises and clears. *)
Lemma walk_cinv x a attr m r :
  is_u32 a -> (forall ex code i, x = XFault ex code i -> in_u 8 i) ->
  walk_result x a attr m r -> cinv m -> cinv (st r).
Proof.
  intros Ha Hi W Hci. destruct x as [pa d|ex code i|]; cbn in W.
  - by rewrite W.
  - destruct W as [attr' ->]. cbn. destruct (exbit attr); [|done].
    apply (cinv_caches_cleared m); [|done|done]. apply wf_set_cpu; [|apply Hci].
    eapply bus_upd_wf; [apply bus_upd_raise|]. apply fault_cpu_wf, Hci.
  - by rewrite W.
Qed.

Lemma update_not_ram m a pa d w : is_ram d = false -> update_mmu_cache a pa d w m = Ok tt m.
Proof.
  intros Hd. unfold update_mmu_cache, bind. cbn [get]. rewrite dev_map_not_ram by done.
  by case_match.
Qed.

(** An address outside the first 512 MB (below 2 GB, untranslated) fails the bounds
    check of whatever RAM its page number aliases. *)
Lemma update_high m a pa d w :
  regions_ok m -> is_u32 pa -> 2 ^ 29 <= pa -> find_device pa m = Some d -> is_ram d = true ->
  has_exception (cpu m) = false -> update_mmu_cache a pa d w m = Stop HCPUAssert m.
Proof.
  intros Hr Hp Hge Hf Hd He. unfold update_mmu_cache, bind. cbn [get]. rewrite He.
  assert (find_device (pa mod 2 ^ 29) m = Some d) as Hf'.
  { rewrite <- Hf. unfold find_device. by rewrite !ioremap_mod, Z.mod_mod. }
  pose proof (Z.mod_pos_bound pa (2 ^ 29)) as Hb. unfold in_u in Hp.
  destruct (find_device_page m (pa mod 2 ^ 29) d Hr) as (Ha & H0 & H1 & H2); [lia|done|].
  destruct (ram_size d Hd) as [Hs _]. destruct (mod_page pa 29) as [Ho _]; [lia|].
  change (2 ^ 12) with 4096 in Ho. rewrite Ho in H1, H2.
  assert (dev_size d < u32 (Z.land pa (not32 0xFFF) - dev_start d)) as Hlt.
  { rewrite land_not_fff by (unfold in_u; lia). change (2 ^ 12) with 4096.
    pose proof (Z_div_mod_eq_full pa (2 ^ 29)).
    pose proof (Z.mod_pos_bound pa 4096).
    assert (1 <= pa / 2 ^ 29) by (apply Z.div_le_lower_bound; lia).
    rewrite uw_small by (unfold in_u; lia). lia. }
  set (off := u32 _) in *.
  assert (check_ioaddr off 0 (dev_size d) = false) as Hc.
  { unfold check_ioaddr. rewrite (proj2 (Z.leb_gt off _)) by lia. done. }
  destruct d; try done; cbn [dev_map]; cbn in Hc; unfold bind, checked.
  - unfold Bram.bram_map. by rewrite Hc.
  - unfold Ddr.ddr_map. by rewrite Hc.
Qed.
End Operations.

Section Accesses.
Context {cfg : Config}.

Lemma resolve_range m a store pa d : is_u32 a -> resolve m a store = XHit pa d -> is_u32 pa.
Proof.
  intros Ha. unfold resolve, in_u in *.
  assert (forall x, 0 <= x mod 2 ^ 29 < 2 ^ 32) as Hm.
  { intros x. pose proof (Z.mod_pos_bound x (2 ^ 29)). lia. }
  repeat case_match; intros [= <- <-]; auto.
Qed.

Lemma cinv_update m a pa dirty store w d :
  cinv m -> is_u32 a -> a / 2 ^ 29 <> 7 -> resolve m a store = XHit pa dirty ->
  find_device pa m = Some d -> (w = true -> store = true \/ dirty <> 0) ->
  cinv (st (update_mmu_cache a pa d w m)).
Proof.
  intros Hci Ha H7 Hres Hf Hw.
  destruct (is_ram d) eqn:Hd; [|by rewrite update_not_ram].
  pose proof (resolve_range m a store pa dirty Ha Hres) as Hp.
  destruct (decide (pa < 2 ^ 29)) as [Hlt|Hge].
  2: { destruct (has_exception (cpu m)) eqn:He.
       - unfold update_mmu_cache, bind. cbn [get]. by rewrite He.
       - rewrite update_high by (done || apply Hci || lia). done. }
  unfold in_u in Hp. rewrite update_mmu_cache_ram by (done || apply Hci || lia). cbn.
  assert (resolve m a false = XHit pa dirty) as Hl.
  { destruct store; [by apply resolve_store_load|done]. }
  apply cinv_fill; [done..| |].
  - constructor; [by eexists|lia|done|done].
  - intros W. constructor; [|lia|done|done]. exists dirty.
    destruct store; [done|]. destruct (Hw W); [done|by apply resolve_load_store].
Qed.

Lemma resolve_fault_asid m a store ex code i :
  wf m -> resolve m a store = XFault ex code i -> in_u 8 i.
Proof.
  intros Hwf. unfold resolve. repeat case_match; try done. intros [= -> -> ->].
  destruct (wf_m_tlb m Hwf) as [_ Hl].
  eapply xlate_asid; [exact Hl|by apply (cp0_get_range entry_hi_asid)|eassumption].
Qed.

Lemma prot_addr_seg7 a attr m : is_u32 a -> a / 2 ^ 29 = 7 -> prot_addr_with_attr a attr m = Stop HPanic m.
Proof. intros Ha H. unfold prot_addr_with_attr. by rewrite seg_div, H. Qed.

(** After the translation of [a] (a walk), the rest of an access: [body] fails, or
    updates the cache and then runs a device operation. *)
Definition access_body {A} a (store : bool) (body : dev -> Z * mmu_attr_t -> EM A) : Prop :=
  forall d r, body d r = stop HCPUAssert \/
    exists f, body d r = (update_mmu_cache a (fst r) d (store || negb (dirty (snd r) =? 0)) ;; f)
              /\ keeps CI f.

Lemma CI_access {A} a store (body : dev -> Z * mmu_attr_t -> EM A) :
  is_u32 a -> access_body a store body ->
  keeps CI
    (let! r := prot_addr_with_attr a (mk_attr store true) in
     let! m := get in
     match find_device (fst r) m with
     | Some d => body d r
     | None => stop HCPUAssert
     end).
Proof.
  intros Ha Hdev m Hci. destruct (decide (a / 2 ^ 29 = 7)) as [E7|H7].
  { erewrite bind_stop; [exact Hci|]. by apply prot_addr_seg7. }
  pose proof (prot_addr_resolve a store m (ci_wf m Hci) Ha H7) as W.
  destruct (resolve m a store) as [pa d|ex code i|] eqn:Hres.
  - cbn [walk_result] in W. rewrite (bind_ok _ _ _ _ _ W). unfold bind at 1. cbn [get fst snd].
    destruct (find_device pa m) as [dv|] eqn:Hf; [|done].
    destruct (Hdev dv (pa, set_dirty d (mk_attr store true))) as [->|(f & -> & Hk)]; [done|].
    unfold bind. cbn [fst snd].
    pose proof (cinv_update m a pa d store (store || negb (dirty (set_dirty d (mk_attr store true)) =? 0))
                  dv Hci Ha H7 Hres Hf) as U.
    assert (cinv (st (update_mmu_cache a pa dv
       (store || negb (dirty (set_dirty d (mk_attr store true)) =? 0)) m))) as Hu.
    { apply U. cbn. destruct store; [by left|]. cbn. intros Hd. right. intros ->. done. }
    destruct (update_mmu_cache _ _ _ _ m) as [[] m1|m1|h m1]; cbn in Hu; [|done|done].
    by apply Hk.
  - assert (cinv (st (prot_addr_with_attr a (mk_attr store true) m))) as H1.
    { eapply walk_cinv; [exact Ha| |exact W|exact Hci].
      intros ??? [= <- <- <-]. by eapply resolve_fault_asid; [apply Hci|]. }
    destruct W as [attr' W]. rewrite W in H1. cbn [st exbit mk_attr] in H1.
    rewrite (bind_ok _ _ _ _ _ W). cbn [exbit mk_attr]. set (m1 := caches_cleared _) in *.
    unfold bind at 1. cbn [get fst snd].
    assert (has_exception (cpu m1) = true) as Hex.
    { unfold m1. cbn [cpu caches_cleared set_decode_cache set_mmu_cache set_cpu].
      apply (ra_exception _ _ _ _ (raise_cpu_raised code ex _
               (fault_cpu_wf a i _ (wf_m_cpu m (ci_wf m Hci))))). }
    destruct (find_device BLACKHOLE_ADDR m1) as [dv|]; [|done].
    destruct (Hdev dv (BLACKHOLE_ADDR, attr')) as [->|(f & -> & Hk)]; [done|].
    unfold update_mmu_cache, bind. cbn [get]. rewrite Hex. by apply Hk.
  - cbn [walk_result] in W. by rewrite (bind_stop _ _ _ _ _ W).
Qed.

Lemma CI_host_load p off len : keeps CI (host_load p off len).
Proof. unfold host_load. keeps_solve. Qed.

Lemma CI_host_store p off len v : keeps CI (host_store p off len v).
Proof.
  intros m. unfold host_store, bind. cbn. repeat case_match; cbn; try reflexivity.
  - apply bf_bram. auto with words.
  - apply bf_ddr. auto with words.
Qed.

Lemma CI_vaddr_read a len : is_u32 a -> keeps CI (vaddr_read a len).
Proof.
  intros Ha m. unfold vaddr_read, bind at 1. cbn [get].
  destruct (_ && _); [apply CI_host_load|].
  refine (CI_access a false (fun d r => match dev_read d with
    | Some rd => update_mmu_cache a (fst r) d (negb (dirty (snd r) =? 0)) ;;
                 rd (u32 (fst r - dev_start d)) len
    | None => stop HCPUAssert end) Ha _ m).
  intros d r. destruct (dev_read d) as [rd|] eqn:Er; [right|by left].
  eexists. split; [reflexivity|]. by apply (keeps_dev_read CI d).
Qed.

Lemma CI_vaddr_write a len v : is_u32 a -> keeps CI (vaddr_write a len v).
Proof.
  intros Ha m. unfold vaddr_write, bind at 1. cbn [get].
  destruct (_ && _); [apply CI_host_store|].
  pose proof (CI_access a true (fun d r => match dev_write d with
    | Some wr => update_mmu_cache a (fst r) d true ;; wr (u32 (fst r - dev_start d)) len v
    | None => stop HCPUAssert end) Ha) as K.
  assert (forall (k : Z -> EM unit) m, (let! p := prot_addr a MMU_STORE in k p) m =
    (let! r := prot_addr_with_attr a (mk_attr true true) in k (fst r)) m) as E.
  { intros k m0. unfold prot_addr, bind, MMU_STORE. by destruct (prot_addr_with_attr _ _ m0). }
  rewrite E. apply K. clear K E.
  intros d r. destruct (dev_write d) as [wr|] eqn:Er; [right|by left].
  eexists. split; [reflexivity|]. by apply (keeps_dev_write CI d).
Qed.
End Accesses.

(** ** Instruction handlers *)
Section Handlers.
Context {cfg : Config}.

Lemma eff_addr_u32 o c : is_u32 (LoadStore.eff_addr o c).
Proof. apply uw_range. lia. Qed.

Lemma word_of_u32 a : is_u32 a -> is_u32 (LoadStore.word_of a).
Proof.
  intros Ha. unfold LoadStore.word_of. rewrite Z.shiftl_mul_pow2, Z.shiftr_div_pow2 by lia.
  unfold in_u in *. change (2 ^ 2) with 4. pose proof (Z_div_mod_eq_full a 4).
  pose proof (Z.mod_pos_bound a 4). lia.
Qed.
#[local] Hint Resolve is_u32_u32 eff_addr_u32 word_of_u32 CI_clear_decode_cache CI_clear_mmu_cache
  CI_raise_exception CI_vaddr_read CI_vaddr_write : keeps.

(** A load at the pc, which is a 32-bit value. *)
Lemma CI_at_pc {A} len (k : Z -> EM A) :
  (forall v, keeps CI (k v)) ->
  keeps CI (let! c := get_cpu in let! v := vaddr_read (pc c) len in k v).
Proof.
  intros Hk m Hci. rewrite (bind_ok get_cpu _ m (cpu m) m eq_refl).
  assert (is_u32 (pc (cpu m))) as Hp by apply (ci_wf m Hci).
  apply (keeps_bind CI _ k (CI_vaddr_read (pc (cpu m)) len Hp) Hk m Hci).
Qed.

(** A result whose cache is empty. *)
Lemma cinv_empty_result {A} (k : EM A) m :
  keeps (inv wf) k -> keeps same_map k -> mmu_cache_empty (st (k m)) -> cinv m -> cinv (st (k m)).
Proof.
  intros Kw Km He Hci. apply (cinv_cleared m); [|apply Km|done|done]. apply Kw, Hci.
Qed.

Lemma CI_tlbwi o : keeps CI (System.tlbwi o).
Proof.
  intros m Hci. apply cinv_empty_result; [apply (keeps_handler (inv wf) H_tlbwi)|
    apply (keeps_handler same_map H_tlbwi)| |done].
  rewrite tlbwi_run. apply caches_cleared_empty.
Qed.

Lemma CI_eret o : keeps CI (System.eret o).
Proof.
  intros m Hci. apply cinv_empty_result; [apply (keeps_handler (inv wf) H_eret)|
    apply (keeps_handler same_map H_eret)| |done].
  rewrite eret_run. apply caches_cleared_empty.
Qed.

Lemma tlb_write_run i m :
  tlb_write i m = if i <? NR_TLB_ENTRY
    then Ok tt (set_tlb (<[Z.to_nat i := entry_of (cp0 (cpu m))]> (tlb m)) m)
    else Stop HUndefined m.
Proof. unfold tlb_write, ensure, bind. by destruct (i <? NR_TLB_ENTRY). Qed.

(** A computation followed by clearing both caches: only its abnormal ends matter. *)
Definition ends_ok (k : EM unit) : Prop :=
  forall m, cinv m -> match k m with Ok _ _ => True | r => cinv (st r) end.

Lemma ends_ok_bind {A} (k1 : EM A) (k2 : A -> EM unit) :
  keeps CI k1 -> (forall a, ends_ok (k2 a)) -> ends_ok (bind k1 k2).
Proof.
  intros H1 H2 m Hci. specialize (H1 m Hci). unfold bind. destruct (k1 m); [|done|done].
  by apply H2.
Qed.

Lemma ends_ok_tlb_write i (k : EM unit) :
  (forall m, exists m', k m = Ok tt m') -> ends_ok (tlb_write i ;; k).
Proof.
  intros Hk m Hci. unfold bind. rewrite tlb_write_run. destruct (i <? NR_TLB_ENTRY); [|done].
  by destruct (Hk (set_tlb (<[Z.to_nat i := entry_of (cp0 (cpu m))]> (tlb m)) m)) as [m' ->].
Qed.

Lemma ends_ok_tlb_write_last i : ends_ok (tlb_write i).
Proof. intros m Hci. rewrite tlb_write_run. by destruct (i <? NR_TLB_ENTRY). Qed.

Lemma CI_then_clear (k : EM unit) :
  keeps (inv wf) k -> keeps same_map k -> ends_ok k ->
  keeps CI (k ;; clear_mmu_cache ;; clear_decode_cache).
Proof.
  intros Kw Km He m Hci. specialize (He m Hci). pose proof (Kw m (ci_wf m Hci)) as Hw.
  destruct (Km m) as [Hr _]. unfold bind. destruct (k m) as [[] m1|m1|h m1]; [|done|done].
  cbn in Hw, Hr |- *. by apply (cinv_caches_cleared m).
Qed.

Lemma CI_rand : keeps CI rand.
Proof. unfold rand. keeps_solve. Qed.
#[local] Hint Resolve CI_rand : keeps.

Lemma keeps_tlb_write_random (R : relation machine) `{!ExecFrame R} :
  keeps R (if CONFIG_MARCH_NOOP then
     let! c := get_cpu in
     tlb_write (System.cp0_random c) ;;
     upd_cpu (fun c => put_cpr CP0_RANDOM 0 (u32 (System.cp0_random c + 1) mod NR_TLB_ENTRY) c)
   else
     let! r := rand in
     upd_cpu (put_cpr CP0_RANDOM 0 (r mod NR_TLB_ENTRY)) ;;
     let! c := get_cpu in
     tlb_write (System.cp0_random c)).
Proof using Type.
  pose proof (keeps_tlb_write R). pose proof (keeps_rand R). pose proof (keeps_get_cpu R).
  keeps_solve; apply keeps_upd_cpu; auto with words.
Qed.

Lemma CI_tlbwr o : keeps CI (System.tlbwr o).
Proof.
  apply CI_then_clear; [apply keeps_tlb_write_random; exact _..|].
  destruct CONFIG_MARCH_NOOP.
  - apply ends_ok_bind; [unfold get_cpu; auto with keeps|intros c].
    apply ends_ok_tlb_write. intros m. by eexists.
  - apply ends_ok_bind; [apply CI_rand|intros r]. apply ends_ok_bind; [auto with keeps|intros _].
    apply ends_ok_bind; [unfold get_cpu; auto with keeps|intros c]. apply ends_ok_tlb_write_last.
Qed.

(** Writing EntryHi changes the address space and clears the cache. *)
Lemma CI_mtc0_entry_hi v :
  keeps CI (System.copy_field v entry_hi_asid ;; System.copy_field v entry_hi_vpn ;;
            clear_mmu_cache ;; clear_decode_cache).
Proof.
  intros m Hci. cbn. apply (cinv_caches_cleared m (set_cpu _ m)); [|done|done].
  apply wf_set_cpu; [|apply Hci]. pose proof (wf_m_cpu m (ci_wf m Hci)). auto with words.
Qed.

(** The CPU after a write to status, the caches apart. *)
Definition status_cpu (v : Z) (c : CPU_state) : CPU_state :=
  let cp f c := put_cp0 f (bf_get (c_fld f) v) c in
  cp status_IE (cp status_EXL (cp status_ERL (cp status_UM (cp status_IM (cp status_NMI
    (cp status_SR (cp status_TS (cp status_BEV (cp status_RE (cp status_RP
      (put_cp0 status_CU (Z.land (bf_get (c_fld status_CU) v) 0x3) c))))))))))).

Lemma mtc0_status_run v m :
  System.mtc0_status v m =
  Ok tt (set_cpu (status_cpu v (cpu m))
    (if cp0_get status_ERL (cp0 (cpu m)) =? bf_get (c_fld status_ERL) v then m
     else caches_cleared m)).
Proof.
  unfold System.mtc0_status, status_cpu, System.copy_field, upd_cpu, modify, bind, when, get_cpu, gets.
  by destruct (_ =? _).
Qed.

Lemma status_cpu_facts v c :
  wf_cpu c ->
  wf_cpu (status_cpu v c) /\
  cp0_get entry_hi_asid (cp0 (status_cpu v c)) = cp0_get entry_hi_asid (cp0 c) /\
  cp0_get status_ERL (cp0 (status_cpu v c)) = bf_get (c_fld status_ERL) v.
Proof.
  intros Hc. unfold status_cpu. cbv zeta. split_and!; [auto 20 with words|by regs|].
  regs. apply uw_small. by apply bf_get_range.
Qed.

Lemma CI_mtc0_status v : keeps CI (System.mtc0_status v).
Proof.
  intros m Hci. rewrite mtc0_status_run. cbn [st].
  destruct (status_cpu_facts v (cpu m) (wf_m_cpu m (ci_wf m Hci))) as (H1 & H2 & H3).
  destruct (Z.eqb_spec (cp0_get status_ERL (cp0 (cpu m))) (bf_get (c_fld status_ERL) v)) as [E|_].
  - eapply (cinv_ext m); [|done| |done]; [|apply wf_set_cpu; [done|apply Hci]].
    constructor; try done. by rewrite E.
  - apply (cinv_cleared m); [|done|apply (caches_cleared_empty m)|done].
    apply wf_set_cpu; [done|]. apply wf_cleared, Hci.
Qed.
#[local] Hint Resolve CI_tlbwi CI_eret CI_tlbwr CI_mtc0_entry_hi CI_mtc0_status : keeps.

Lemma CI_get_cpu : keeps CI get_cpu.
Proof. unfold get_cpu. auto with keeps. Qed.
Lemma CI_assign_rd o f : keeps CI (assign_rd o f).
Proof. unfold assign_rd. auto with keeps. Qed.
Lemma CI_assign_rt o f : keeps CI (assign_rt o f).
Proof. unfold assign_rt. auto with keeps. Qed.
#[local] Hint Resolve CI_get_cpu CI_assign_rd CI_assign_rt : keeps.
Lemma CI_InstAssert b : keeps CI (InstAssert b).
Proof. unfold InstAssert. keeps_solve. Qed.
Lemma CI_CHECK_ALIGNED e n a : keeps CI (CHECK_ALIGNED_ADDR e n a).
Proof. unfold CHECK_ALIGNED_ADDR. keeps_solve. Qed.
Lemma CI_upd_dc f : keeps CI (upd_dc f).
Proof.
  intros m Hci. eapply (cinv_ext m); [by constructor|done| |done].
  apply (keeps_upd_dc (inv wf) f m), Hci.
Qed.
#[local] Hint Resolve CI_upd_dc : keeps.
Lemma CI_refetch_ds p : keeps CI (refetch_ds p).
Proof. unfold refetch_ds, decode_cache_fetch, free_decode_state_chain. keeps_solve. Qed.
#[local] Hint Resolve CI_refetch_ds : keeps.
Lemma CI_prepare_delayslot : keeps CI prepare_delayslot.
Proof. unfold prepare_delayslot. keeps_solve. Qed.
Lemma CI_overflow : keeps CI overflow.
Proof. unfold overflow. keeps_solve. Qed.
Lemma CI_tlb_present : keeps CI tlb_present.
Proof.
  unfold tlb_present. apply keeps_bind; [exact _|auto with keeps|]. intros m.
  generalize 0 as i. induction (tlb m) as [|e l IH]; intros i; cbn; keeps_solve.
Qed.
#[local] Hint Resolve CI_InstAssert CI_CHECK_ALIGNED CI_prepare_delayslot CI_overflow
  CI_tlb_present : keeps.

Lemma CI_inv o : keeps CI (Special.inv o).
Proof.
  unfold Special.inv. apply keeps_if; [auto with keeps|]. apply CI_at_pc. auto with keeps.
Qed.
Lemma CPRS_add o w : o = inst_ops w -> System.CPRS (o_rd o) (o_sel o) = o_rd o * 8 + o_sel o.
Proof. intros ->. apply lor_shift_add; [lia|]. by apply (bf_get_range (mkField 0 3)). Qed.

Lemma CI_mtc0 w : keeps CI (System.mtc0 (inst_ops w)).
Proof.
  remember (inst_ops w) as o eqn:Ho. pose proof (CPRS_add o w Ho) as Er.
  assert (0 <= o_sel o < 8) as Hs by (subst o; by apply (bf_get_range (mkField 0 3))).
  unfold System.mtc0. apply keeps_bind; [exact _|auto with keeps|intros c].
  rewrite Er. destruct ((_ =? _) || _ || _) eqn:E.
  - assert (exists r n, (r = 15 \/ r = 9 \/ r = 14) /\ 0 <= n < 8 /\ o_rd o = r /\ o_sel o = n)
      as (r & n & Hr & Hn & -> & ->).
    { exists (o_rd o), (o_sel o). rewrite !orb_true_iff, !Z.eqb_eq in E.
      change (System.CPRS CP0_EBASE CP0_EBASE_SEL) with 121 in E.
      change (System.CPRS CP0_COUNT 0) with 72 in E. change (System.CPRS CP0_EPC 0) with 112 in E.
      split; [lia|]. split; [lia|done]. }
    apply keeps_quiet. intros c' Hc.
    split_and!; [auto with words| |]; apply get_put_cpr_ne; try done; try cp0_ok; try lia;
      intros [= E1 _]; cbv in E1; lia.
  - rewrite <- Er. clear E. unfold System.mtc0_entry_lo, System.mtc0_cause, System.copy_field.
    pose proof CI_mtc0_entry_hi as He. unfold System.copy_field in He. keeps_solve.
Qed.
#[local] Hint Resolve CI_inv CI_mtc0 : keeps.

Lemma CI_handler h w : h <> H_tlbr -> keeps CI (exec_handler h (inst_ops w)).
Proof.
  intros Hh. destruct h; try (exfalso; apply Hh; reflexivity); cbn [exec_handler];
    lazymatch goal with
    | |- keeps _ (System.tlbwi _) => apply CI_tlbwi
    | |- keeps _ (System.tlbwr _) => apply CI_tlbwr
    | |- keeps _ (System.eret _) => apply CI_eret
    | |- keeps _ (System.mtc0 _) => apply CI_mtc0
    | |- keeps _ (Special.inv _) => apply CI_inv
    | |- _ => idtac
    end; autounfold with exec;
    unfold Alu.R_SIMPLE, Mdu.rd_sa_zero, Mdu.put_hilo, Branch.branch, Branch.branch_likely,
      Branch.link, Trap.trap_if, LoadStore.load, LoadStore.store,
      Special.should_not_reach_here,
      Float.put_rt_field, Float.put_fcsr, Float.fp_cond, Float.fop_s, Float.fop_d,
      Float.assign_fd, Float.assign_dd, Float.defined, Float.cmp_s, Float.cmp_d,
      Float.set_cond;
    keeps_solve.
Qed.

Lemma CI_to_exit h k : keeps CI k -> keeps CI (to_exit h k).
Proof.
  intros H s Hci. specialize (H s Hci). unfold to_exit. destruct (k s) as [[] s'|s'|x s']; [|done|done].
  assert (keeps CI (handler_end h)) as K by (unfold handler_end, inst_end; keeps_solve). by apply K.
Qed.

Lemma CI_instr_enqueue p i :
  keeps CI (instr_enqueue_pc p) /\ keeps CI (instr_enqueue_instr i).
Proof.
  split; intros m Hci; (eapply (cinv_ext m); [by constructor|done| |done]).
  - apply (keeps_instr_enqueue_pc (inv wf) p m), Hci.
  - apply (keeps_instr_enqueue_instr (inv wf) i m), Hci.
Qed.

Lemma CI_fetch : keeps CI fetch.
Proof.
  unfold fetch. apply keeps_bind; [exact _|auto with keeps|intros _]. apply CI_at_pc.
  intros v. pose proof (proj2 (CI_instr_enqueue 0 v)). keeps_solve.
Qed.

Lemma CI_cached_entry : keeps CI cached_entry.
Proof.
  assert (forall p, keeps CI (ds_load p)) as Hl by (intros; unfold ds_load, get_dc; keeps_solve).
  assert (forall p f, keeps CI (ds_upd p f)) as Hu by (intros; unfold ds_upd, ds_store; keeps_solve).
  pose proof (fun v => proj2 (CI_instr_enqueue 0 v)) as He. unfold cached_entry, malloc_ds, get_dc.
  apply keeps_bind; [exact _|auto with keeps|intros _].
  apply keeps_bind; [exact _|auto with keeps|intros d].
  apply keeps_bind; [exact _|auto with keeps|intros e]. destruct (ds_next e) as [b|]; [keeps_solve|].
  do 4 (apply keeps_bind; [exact _|keeps_solve|intros ?]). apply CI_at_pc. intros v. keeps_solve.
Qed.

Lemma CI_check_exception : keeps CI check_exception.
Proof. unfold check_exception, check_intrs, tick. keeps_solve. Qed.
End Handlers.

(** C16: the agreement of the translation cache with the TLB, the address space, the error
    level and the memory map is kept by the fetch (with or without the decode cache), by every instruction other than tlbr
    and by the exception check that ends a turn of the CPU loop, and an empty cache has
    it. *)
Theorem cache_ok_kept {cfg : Config} :
  (forall m, wf m -> mmu_cache_empty m -> cache_ok m) /\
  keeps CI fetch /\ keeps CI cached_entry /\
  (forall w h, decoder_get_handler w = Some h -> h <> H_tlbr -> keeps CI (exec_inst w)) /\
  keeps CI check_exception.
Proof.
  split_and!; [apply cleared_ok|apply CI_fetch|apply CI_cached_entry| |apply CI_check_exception].
  intros w h E Hh. unfold exec_inst. rewrite E. by apply CI_to_exit, CI_handler.
Qed.

Lemma cache_ok_kept_witness :
  cache_ok (cfg := mips32r1_mmu_cache) (caches_cleared m_zero) /\
  keeps (inv (cinv (cfg := mips32r1_mmu_cache))) (exec_inst (cfg := mips32r1_mmu_cache) 0x8d090000).
Proof.
  destruct (cache_ok_kept (cfg := mips32r1_mmu_cache)) as (H1 & _ & _ & H2 & _). split.
  - apply H1; [apply wf_cleared, wf_m_zero|apply caches_cleared_empty].
  - apply (H2 0x8d090000 H_lw); [reflexivity|discriminate].
Defined.

(** ** tlbr *)
(** Address spaces 1 and 2 map page 0 to frames 5 and 6 of the DDR, whose first words
    are 0x11 and 0x22; the current address space is 1 and Index is 1. *)
Definition m_asid : machine :=
  caches_cleared
    (set_cpu (put_cpr CP0_INDEX 0 1 (put_cpr CP0_ENTRY_HI 0 1 cpu_zero))
      (set_tlb (mkTlb 0 0 0 1 (mkPhyn 5 0 1 1) phyn_zero ::
                mkTlb 0 0 0 2 (mkPhyn 6 0 1 1) phyn_zero :: replicate 30 tlb_zero)
        (set_ddr (<[0x6100 := 0x22]> (<[0x5100 := 0x11]> ∅))
          (set_memory_regions (<[6 := ddr_dev]> (<[5 := ddr_dev]> ∅)) m_zero)))).

Lemma cinv_m_asid : cinv (cfg := mips32r1_mmu_cache) m_asid.
Proof.
  assert (wf m_asid) as Hwf.
  { apply wf_cleared, wf_set_cpu; [auto 10 with words|]. apply wf_set_tlb.
    - split; [done|]. do 2 (constructor; [repeat constructor; cbn; lia|]).
      apply Forall_replicate. repeat constructor; cbn; lia.
    - pose proof (wf_set_regions (<[6 := ddr_dev]> (<[5 := ddr_dev]> ∅)) m_zero wf_m_zero) as [].
      constructor; cbn; try done. do 2 (apply map_Forall_insert_2; [unfold in_u; lia|]).
      apply map_Forall_empty. }
  split; [done| |apply cleared_ok; [done|apply caches_cleared_empty]].
  intros p d. cbn [memory_regions m_asid caches_cleared set_decode_cache set_mmu_cache set_cpu
    set_tlb set_ddr set_memory_regions].
  rewrite !lookup_insert_Some, lookup_empty. intros [[<- <-]|[_ [[<- <-]|[_ ?]]]]; done.
Qed.

(** The same after a load has filled the cache line of page 0. *)
Definition m_filled : machine :=
  st (vaddr_read (cfg := mips32r1_mmu_cache) 0x100 4 m_asid).

Lemma cinv_m_filled : cinv (cfg := mips32r1_mmu_cache) m_filled.
Proof. apply CI_vaddr_read; [unfold in_u; lia|]. apply cinv_m_asid. Qed.

Lemma mmu_cache_transparent_witness :
  mc_id (mmu_cache_at m_filled (mmu_cache_index 0x102)) = mmu_cache_id 0x102 /\
  same_result (vaddr_read (cfg := mips32r1_mmu_cache) 0x102 2 m_filled)
    (vaddr_read (cfg := uncached mips32r1_mmu_cache) 0x102 2 m_filled).
Proof.
  split; [vm_compute; reflexivity|]. destruct cinv_m_filled.
  refine (proj1 (mmu_cache_transparent (cfg := mips32r1_mmu_cache) 0x102 2 0 m_filled _ _ _ _ _ _));
    [done|done|done|unfold in_u; lia|lia|vm_compute; discriminate].
Defined.

(** C17: tlbr changes the address space of EntryHi but, unlike the other instructions that
    do, does not clear the translation cache: from a state in which the cache agrees with
    the TLB it can lead to one where a load returns the data of the old address space. *)
Theorem tlbr_stale_cache :
  exists m m' : machine,
    cinv (cfg := mips32r1_mmu_cache) m /\ System.tlbr (inst_ops 0x42000001) m = Ok tt m' /\
    exists m1 m2,
      vaddr_read (cfg := mips32r1_mmu_cache) 0x100 4 m' = Ok 0x11 m1 /\
      vaddr_read (cfg := uncached mips32r1_mmu_cache) 0x100 4 m' = Ok 0x22 m2.
Proof.
  set (m := m_filled).
  exists m, (st (System.tlbr (inst_ops 0x42000001) m)). split; [apply cinv_m_filled|].
  split; [vm_compute; reflexivity|].
  exists (st (vaddr_read (cfg := mips32r1_mmu_cache) 0x100 4 (st (System.tlbr (inst_ops 0x42000001) m)))).
  exists (st (vaddr_read (cfg := uncached mips32r1_mmu_cache) 0x100 4
    (st (System.tlbr (inst_ops 0x42000001) m)))).
  split; vm_compute; reflexivity.
Qed.
