(* ===== verification/LoadStoreProps.v ===== *)
(** * Load and store instructions

    What lw, sw and the other loads and stores do when the address is RAM, when the
    translation faults and when the address is not aligned; the pairs lwl/lwr and
    swl/swr on unaligned words. *)
From S2P Require Import Prelude Config Reg Fifo Ram Flash Sdlkey Machine Ulite Spi Device Mmu Memory.
From S2P Require Import ExecAlu ExecMdu ExecMem Softfloat ExecFloat Decode Cpu Frame Invariant Exits Samples Exceptions ArithProps MmuProps Layout MemProps CacheInv.
Local Open Scope nemu_scope.

Section Accesses.
Context {cfg : Config} (m : machine) (Hci : cinv m).
Context (a len : Z) (Ha : is_u32 a) (Hseg : a / 2 ^ 29 <> 7).
Context (Hlen : 1 <= len <= 4) (Hpage : a mod 2 ^ 12 + len <= 2 ^ 12).

(** An access to RAM, through the cache or not. *)
Lemma vaddr_read_ram pa d :
  ram_at m a false pa d ->
  exists m', vaddr_read a len m = Ok (ld_masked (ram_of d m) (pa - dev_start d) len) m' /\
    forget m' = forget m /\ cinv m'.
Proof using Hci Ha Hseg Hlen Hpage.
  intros H. pose proof (CI_vaddr_read a len Ha m Hci) as K. destruct Hci as [Hwf Hr Hok].
  destruct (CONFIG_MMU_CACHE && (mc_id (mmu_cache_at m (mmu_cache_index a)) =? mmu_cache_id a))
    eqn:Hm.
  - apply andb_true_iff in Hm as [Hc Hid%Z.eqb_eq].
    destruct (vaddr_read_hit m a len Ha Hok Hc Hid) as (pa' & d' & H' & E).
    destruct (ram_at_unique _ _ _ _ _ _ _ _ H H' eq_refl) as [-> ->].
    exists m. rewrite E. split_and!; [done|done|by constructor].
  - destruct (vaddr_read_walk m Hwf Hr a len Ha Hseg Hlen Hpage pa d Hm H) as (dirty & _ & E).
    rewrite E in K |- *. eexists. split; [done|]. split; [apply forget_fill|exact K].
Qed.

Lemma vaddr_write_ram pa d v :
  ram_at m a true pa d ->
  exists m', vaddr_write a len v m = Ok tt m' /\
    forget m' = forget (set_ram d (st_bytes (ram_of d m) (pa - dev_start d) (Z.to_nat len) v) m) /\
    cinv m'.
Proof using Hci Ha Hseg Hlen Hpage.
  intros H. pose proof (CI_vaddr_write a len v Ha m Hci) as K. destruct Hci as [Hwf Hr Hok].
  destruct (CONFIG_MMU_CACHE && (mc_id (mmu_cache_at m (mmu_cache_index a)) =? mmu_cache_id a))
    eqn:Hm; [destruct (mc_can_write (mmu_cache_at m (mmu_cache_index a))) eqn:Hw|].
  - apply andb_true_iff in Hm as [Hc Hid%Z.eqb_eq].
    destruct (vaddr_write_hit m a len Ha v Hok Hc Hid Hw) as (pa' & d' & H' & E).
    destruct (ram_at_unique _ _ _ _ _ _ _ _ H H' eq_refl) as [-> ->].
    rewrite E in K |- *. by eexists.
  - rewrite (vaddr_write_walk m Hwf Hr a len Ha Hseg Hlen Hpage pa d v (or_intror Hw) H) in K |- *.
    eexists. split; [done|]. split; [apply forget_set_ram, forget_fill|exact K].
  - rewrite (vaddr_write_walk m Hwf Hr a len Ha Hseg Hlen Hpage pa d v (or_introl Hm) H) in K |- *.
    eexists. split; [done|]. split; [apply forget_set_ram, forget_fill|exact K].
Qed.

(** An access whose translation faults goes to the black hole. *)
Lemma prot_addr_fault store ex code i :
  resolve m a store = XFault ex code i ->
  exists attr' m', prot_addr_with_attr a (mk_attr store true) m = Ok (BLACKHOLE_ADDR, attr') m' /\
    faulted ex code a i m m' /\ has_exception (cpu m') = true.
Proof using Hci Ha Hseg.
  intros Hres. pose proof (prot_addr_resolve a store m (ci_wf m Hci) Ha Hseg) as W.
  rewrite Hres in W. destruct W as [attr' W]. cbn [exbit mk_attr] in W.
  exists attr'. eexists. split; [exact W|].
  pose proof (faulted_intro ex code a i m (ci_wf m Hci) Ha
                (resolve_fault_asid m a store ex code i (ci_wf m Hci) Hres)) as F.
  split; [exact F|]. apply (ra_exception _ _ _ _ (fa_raised _ _ _ _ _ _ F)).
Qed.

Lemma fault_no_hit store ex code i :
  resolve m a store = XFault ex code i ->
  CONFIG_MMU_CACHE && (mc_id (mmu_cache_at m (mmu_cache_index a)) =? mmu_cache_id a) = true ->
  store = true /\ mc_can_write (mmu_cache_at m (mmu_cache_index a)) = false.
Proof using Hci Ha.
  intros Hres [_ Hid%Z.eqb_eq]%andb_true_iff.
  destruct (ci_cache m Hci a Ha Hid) as [(pa & d & [[? R] _ _ _] & _ & Hw) _].
  destruct store; [|congruence]. split; [done|].
  destruct (mc_can_write _); [|done]. destruct (Hw eq_refl) as [[? R'] _ _ _]. congruence.
Qed.

Lemma vaddr_read_fault ex code i :
  resolve m a false = XFault ex code i -> find_device BLACKHOLE_ADDR m = Some blackhole_dev ->
  exists m', (forall len, vaddr_read a len m = Ok 0 m') /\ faulted ex code a i m m' /\
    has_exception (cpu m') = true.
Proof using Hci Ha Hseg.
  intros Hres Hbh. destruct (prot_addr_fault false ex code i Hres) as (attr' & m' & E & F & Hx).
  exists m'. split; [|done]. intros n. unfold vaddr_read, bind at 1. cbn [get].
  destruct (CONFIG_MMU_CACHE && _) eqn:Hm; [by destruct (fault_no_hit _ _ _ _ Hres Hm)|].
  rewrite (bind_ok _ _ _ _ _ E). unfold bind at 1. cbn [get fst].
  pose proof (fa_mem _ _ _ _ _ _ F) as [= _ _ _ Hreg]. unfold find_device in *.
  rewrite Hreg, Hbh. cbn [dev_read]. unfold update_mmu_cache, bind. cbn [get]. by rewrite Hx.
Qed.

Lemma vaddr_write_fault ex code i :
  resolve m a true = XFault ex code i -> find_device BLACKHOLE_ADDR m = Some blackhole_dev ->
  exists m', (forall len v, vaddr_write a len v m = Ok tt m') /\ faulted ex code a i m m' /\
    has_exception (cpu m') = true.
Proof using Hci Ha Hseg.
  intros Hres Hbh. destruct (prot_addr_fault true ex code i Hres) as (attr' & m' & E & F & Hx).
  exists m'. split; [|done]. intros n v. unfold vaddr_write, bind at 1. cbn [get].
  assert (CONFIG_MMU_CACHE && (mc_id (mmu_cache_at m (mmu_cache_index a)) =? mmu_cache_id a) &&
    mc_can_write (mmu_cache_at m (mmu_cache_index a)) = false) as ->.
  { destruct (CONFIG_MMU_CACHE && _) eqn:Hm; [|done]. by destruct (fault_no_hit _ _ _ _ Hres Hm). }
  unfold prot_addr, bind at 1. rewrite (bind_ok _ _ _ _ _ E). cbn [ret fst].
  unfold bind at 1. cbn [get].
  pose proof (fa_mem _ _ _ _ _ _ F) as [= _ _ _ Hreg]. unfold find_device in *.
  rewrite Hreg, Hbh. cbn [dev_write]. unfold update_mmu_cache, bind. cbn [get]. by rewrite Hx.
Qed.
End Accesses.

Lemma forget_fields m m' :
  forget m = forget m' ->
  cpu m = cpu m' /\ tlb m = tlb m' /\ memory_regions m = memory_regions m' /\
  bram m = bram m' /\ ddr m = ddr m'.
Proof. intros H. unfold forget, set_mmu_cache in H. injection H. intros. split_and!; done. Qed.

Lemma ram_of_forget d m m' : forget m = forget m' -> ram_of d m = ram_of d m'.
Proof. intros (_ & _ & _ & E1 & E2)%forget_fields. by destruct d. Qed.

Lemma ram_of_set_cpu d c m : ram_of d (set_cpu c m) = ram_of d m.
Proof. by destruct d. Qed.

Lemma ram_of_set_ram d v m : is_ram d = true -> ram_of d (set_ram d v m) = v.
Proof. by destruct d. Qed.

Lemma set_ram_frame d v m :
  cpu (set_ram d v m) = cpu m /\ tlb (set_ram d v m) = tlb m /\
  memory_regions (set_ram d v m) = memory_regions m.
Proof. by destruct d. Qed.

Lemma wf_ram d m : wf m -> mem_wf (ram_of d m).
Proof. intros []. by destruct d. Qed.

(** ** Alignment *)
Definition aligned (len a : Z) : Prop := Z.land a (len - 1) = 0.

Lemma aligned_page len a :
  len = 1 \/ len = 2 \/ len = 4 -> aligned len a -> a mod 2 ^ 12 + len <= 2 ^ 12.
Proof.
  intros Hl H. assert (a mod len = 0) as Hm.
  { unfold aligned in H. destruct Hl as [->|[->| ->]].
    - apply Z.mod_1_r.
    - change (2 - 1) with (Z.ones 1) in H. by rewrite Z.land_ones in H by lia.
    - change (4 - 1) with (Z.ones 2) in H. by rewrite Z.land_ones in H by lia. }
  pose proof (Z.mod_pos_bound a (2 ^ 12) ltac:(lia)).
  assert ((a mod 2 ^ 12) mod len = 0) as Hm'.
  { rewrite <- Hm. destruct Hl as [->|[->| ->]].
    - by rewrite !Z.mod_1_r.
    - apply (Z.mod_mod_divide a (2 ^ 12) 2). by exists 2048.
    - apply (Z.mod_mod_divide a (2 ^ 12) 4). by exists 1024. }
  pose proof (Z_div_mod_eq_full (a mod 2 ^ 12) len). change (2 ^ 12) with 4096 in *.
  destruct Hl as [->|[->| ->]]; lia.
Qed.

Section Instructions.
Context {cfg : Config}.

Lemma check_aligned_run AdEX len a m : aligned len a -> CHECK_ALIGNED_ADDR AdEX len a m = Ok tt m.
Proof. unfold aligned, CHECK_ALIGNED_ADDR. by intros ->. Qed.

Lemma load_run len cast o m v m' :
  aligned len (LoadStore.eff_addr o (cpu m)) ->
  vaddr_read (LoadStore.eff_addr o (cpu m)) len m = Ok v m' ->
  LoadStore.load len cast o m =
  Ok tt (if has_exception (cpu m') then m'
         else set_cpu (put_gpr (o_rt o) (cast v) (cpu m')) m').
Proof.
  intros Hal E. unfold LoadStore.load. rewrite (bind_ok get_cpu _ m (cpu m) m eq_refl).
  rewrite (bind_ok _ _ _ _ _ (check_aligned_run _ _ _ _ Hal)), (bind_ok _ _ _ _ _ E).
  unfold bind. cbn [get_cpu gets]. by destruct (has_exception (cpu m')).
Qed.

Lemma store_run len o m m' :
  aligned len (LoadStore.eff_addr o (cpu m)) ->
  vaddr_write (LoadStore.eff_addr o (cpu m)) len (GR_TV o (cpu m)) m = Ok tt m' ->
  LoadStore.store len o m = Ok tt m'.
Proof.
  intros Hal E. unfold LoadStore.store. rewrite (bind_ok get_cpu _ m (cpu m) m eq_refl).
  by rewrite (bind_ok _ _ _ _ _ (check_aligned_run _ _ _ _ Hal)).
Qed.
End Instructions.

(** C18: a store of 1, 2 or 4 bytes followed by a load of the same size whose address
    resolves to the same byte of RAM (the same virtual address, or another mapping of the
    page such as kseg0 and kseg1) loads the value stored, truncated to the size and
    converted by the load, and no other byte of any RAM changes. *)
Theorem store_load_roundtrip {cfg : Config} len cast o o' m pa d :
  cinv m -> has_exception (cpu m) = false -> len = 1 \/ len = 2 \/ len = 4 ->
  let a := LoadStore.eff_addr o (cpu m) in
  let b := LoadStore.eff_addr o' (cpu m) in
  aligned len a -> aligned len b -> a / 2 ^ 29 <> 7 -> b / 2 ^ 29 <> 7 ->
  ram_at m a true pa d -> ram_at m b false pa d ->
  exists m', (LoadStore.store len o ;; LoadStore.load len cast o') m = Ok tt m' /\
    cpu m' = put_gpr (o_rt o') (cast (uw (8 * len) (GR_TV o (cpu m)))) (cpu m) /\
    forall d' x, is_ram d' = true ->
      (d' = d -> x < pa - dev_start d \/ pa - dev_start d + len <= x) ->
      ld8 (ram_of d' m') x = ld8 (ram_of d' m) x.
Proof.
  intros Hci Hx Hlen a b Hal Hbl Ha7 Hb7 Hst Hld.
  assert (1 <= len <= 4) as Hl4 by lia.
  destruct (vaddr_write_ram m Hci a len (eff_addr_u32 o (cpu m)) Ha7 Hl4
              (aligned_page len a Hlen Hal) pa d (GR_TV o (cpu m)) Hst) as (m1 & E1 & F1 & Hci1).
  rewrite (bind_ok _ _ _ _ _ (store_run len o m m1 Hal E1)).
  set (mem' := st_bytes (ram_of d m) (pa - dev_start d) (Z.to_nat len) (GR_TV o (cpu m))) in *.
  destruct (forget_fields _ _ F1) as (C1 & T1 & R1 & _).
  destruct (set_ram_frame d mem' m) as (C2 & T2 & R2). rewrite C2 in C1. rewrite T2 in T1.
  rewrite R2 in R1. pose proof (ra_ram _ _ _ _ _ Hst) as Hd.
  assert (ram_at m1 b false pa d) as Hld1.
  { eapply ram_at_ext; [|exact Hld]. constructor; try done; by rewrite C1. }
  assert (LoadStore.eff_addr o' (cpu m1) = b) as Eb by (unfold b; by rewrite C1).
  destruct (vaddr_read_ram m1 Hci1 b len (eff_addr_u32 o' (cpu m)) Hb7 Hl4
              (aligned_page len b Hlen Hbl) pa d Hld1) as (m2 & E2 & F2 & _).
  rewrite (load_run len cast o' m1 _ m2) by (rewrite Eb; done).
  destruct (forget_fields _ _ F2) as (C3 & _). rewrite C3, C1, Hx.
  eexists. split; [reflexivity|].
  assert (forall d', is_ram d' = true -> ram_of d' m2 = if decide (d' = d) then mem' else ram_of d' m) as Hram.
  { intros d' Hd'. rewrite (ram_of_forget d' _ _ F2), (ram_of_forget d' _ _ F1).
    case_decide as Ed; [rewrite Ed; by apply ram_of_set_ram|].
    destruct d, d'; try done. }
  rewrite (ram_of_forget d _ _ F1), ram_of_set_ram by done. split.
  - cbn [cpu set_cpu]. do 2 f_equal. unfold mem'.
    rewrite ld_masked_bytes by (try done; apply mem_wf_st_bytes, wf_ram, Hci).
    rewrite ld_st_bytes_eq. f_equal. lia.
  - intros d' x Hd' Hx'. rewrite (ram_of_set_cpu d'), Hram by done. case_decide as Ed; [|done].
    rewrite Ed. unfold mem'. apply ld8_st_bytes_ne. specialize (Hx' Ed). lia.
Qed.

(** Page 5 of the DDR and the black hole mapped; $8 and $9 are its kseg0 and kseg1
    addresses, $10 the data, $11 an unmapped address of user space. *)
Definition m_ram : machine :=
  caches_cleared
    (set_cpu (put_gpr 11 0x4002 (put_gpr 10 0x89abcdef (put_gpr 9 0xa0005100
                (put_gpr 8 0x80005100 cpu_zero))))
      (set_memory_regions (<[0x1fe96 := blackhole_dev]> (<[5 := ddr_dev]> ∅)) m_zero)).

Lemma cinv_m_ram : cinv (cfg := mips32r1_defconfig) m_ram.
Proof.
  assert (wf m_ram) as Hwf.
  { apply wf_cleared, wf_set_cpu; auto 10 with words. }
  split; [done| |apply cleared_ok; [done|apply caches_cleared_empty]].
  intros p d. cbn [memory_regions m_ram caches_cleared set_decode_cache set_mmu_cache set_cpu
    set_memory_regions].
  rewrite !lookup_insert_Some, lookup_empty. intros [[<- <-]|[_ [[<- <-]|[_ ?]]]]; done.
Qed.

Lemma m_ram_at a :
  a = 0x80005100 \/ a = 0xa0005100 ->
  forall st, ram_at (cfg := mips32r1_defconfig) m_ram a st 0x5100 ddr_dev.
Proof.
  intros [-> | ->] st; (split; [by exists 0|lia| |done]); vm_compute; reflexivity.
Qed.

(** sw $10, 0($8) then lb $12, 0($9) *)
Lemma store_load_roundtrip_witness :
  exists m',
    (LoadStore.store (cfg := mips32r1_defconfig) 1 (inst_ops 0xa10a0000) ;;
     LoadStore.load (cfg := mips32r1_defconfig) 1 s8 (inst_ops 0x812c0000)) m_ram = Ok tt m' /\
    cpu m' = put_gpr 12 (s8 (u8 0x89abcdef)) (cpu m_ram).
Proof.
  destruct (store_load_roundtrip (cfg := mips32r1_defconfig) 1 s8 (inst_ops 0xa10a0000)
    (inst_ops 0x812c0000) m_ram 0x5100 ddr_dev) as (m' & E & H & _);
    [exact cinv_m_ram|reflexivity|by left|reflexivity|reflexivity|vm_compute; discriminate|
     vm_compute; discriminate| | |].
  - apply m_ram_at. left. reflexivity.
  - apply m_ram_at. right. reflexivity.
  - exists m'. split; [exact E|exact H].
Defined.

(** ** Faults and alignment *)
(** The access a load or store makes: whether it stores, the alignment it checks (1: none)
    and its address.  lwl and swl access the start of the word, and swc1 has no check. *)
Record access := mkAccess { ac_store : bool; ac_align : Z; ac_addr : Z }.

Definition access_of (h : handler) (o : operands) (c : CPU_state) : option access :=
  let a := LoadStore.eff_addr o c in
  match h with
  | H_lb | H_lbu | H_lwr => Some (mkAccess false 1 a)
  | H_lh | H_lhu => Some (mkAccess false 2 a)
  | H_lw | H_ll | H_lwc1 => Some (mkAccess false 4 a)
  | H_ldc1 => Some (mkAccess false 8 a)
  | H_lwl => Some (mkAccess false 1 (LoadStore.word_of a))
  | H_sb | H_swr | H_swc1 => Some (mkAccess true 1 a)
  | H_sh => Some (mkAccess true 2 a)
  | H_sw | H_sc => Some (mkAccess true 4 a)
  | H_sdc1 => Some (mkAccess true 8 a)
  | H_swl => Some (mkAccess true 1 (LoadStore.word_of a))
  | _ => None
  end.

(** What an instruction still does after its access at [a] faulted. *)
Definition after_fault (h : handler) (o : operands) (a : Z) (m : machine) : machine :=
  match h with
  | H_ll => set_cpu (put_gpr (o_rt o) 0 (cpu m)) m
  | H_lwl | H_swl => set_cpu (put_cpr CP0_BADVADDR 0 a (cpu m)) m
  | _ => m
  end.

Section Accessing.
Context {cfg : Config}.

Lemma access_u32 h o c acc : access_of h o c = Some acc -> is_u32 (ac_addr acc).
Proof.
  pose proof (eff_addr_u32 o c) as H. pose proof (word_of_u32 _ H).
  destruct h; try discriminate; by intros [= <-].
Qed.

Lemma faulted_regs ex code a i m m' : faulted ex code a i m m' -> same_regs (cpu m) (cpu m').
Proof. intros [[] _ _ _ _ _ _]. destruct ra_regs. by constructor. Qed.

(** An instruction is its check, the access and what follows. *)
Lemma load_fault_run h o m acc m' :
  access_of h o (cpu m) = Some acc -> ac_store acc = false -> ac_align acc <= 4 ->
  aligned (ac_align acc) (ac_addr acc) ->
  (forall len, vaddr_read (ac_addr acc) len m = Ok 0 m') -> has_exception (cpu m') = true ->
  exec_handler h o m = Ok tt (after_fault h o (LoadStore.eff_addr o (cpu m)) m').
Proof.
  intros Hacc Hst H4 Hal E Hx.
  destruct h; try discriminate Hacc; injection Hacc as <-; cbn [ac_store ac_align ac_addr] in *;
    try discriminate Hst; try lia; cbn [exec_handler after_fault];
    unfold LoadStore.lb, LoadStore.lbu, LoadStore.lh, LoadStore.lhu, LoadStore.lw, LoadStore.load,
      LoadStore.lwl, LoadStore.lwr, LoadStore.ll, Float.lwc1;
    rewrite (bind_ok get_cpu _ m (cpu m) m eq_refl);
    try rewrite (bind_ok _ _ _ _ _ (check_aligned_run _ _ _ _ Hal));
    rewrite (bind_ok _ _ _ _ _ (E _)); try done;
    rewrite (bind_ok get_cpu _ m' (cpu m') m' eq_refl), Hx; done.
Qed.

Lemma store_fault_run h o m acc m' :
  access_of h o (cpu m) = Some acc -> ac_store acc = true -> ac_align acc <= 4 ->
  aligned (ac_align acc) (ac_addr acc) ->
  (forall len v, vaddr_write (ac_addr acc) len v m = Ok tt m') -> has_exception (cpu m') = true ->
  exec_handler h o m = Ok tt (after_fault h o (LoadStore.eff_addr o (cpu m)) m').
Proof.
  intros Hacc Hst H4 Hal E Hx.
  destruct h; try discriminate Hacc; injection Hacc as <-; cbn [ac_store ac_align ac_addr] in *;
    try discriminate Hst; try lia; cbn [exec_handler after_fault];
    unfold LoadStore.sb, LoadStore.sh, LoadStore.sw, LoadStore.store,
      LoadStore.swl, LoadStore.swr, LoadStore.sc, Float.swc1;
    rewrite (bind_ok get_cpu _ m (cpu m) m eq_refl);
    try rewrite (bind_ok _ _ _ _ _ (check_aligned_run _ _ _ _ Hal));
    try apply E; rewrite (bind_ok _ _ _ _ _ (E _ _));
    rewrite (bind_ok get_cpu _ m' (cpu m') m' eq_refl), Hx; done.
Qed.

(** The outcome of a failed alignment check. *)
Definition align_fault (code a : Z) (m : machine) (r : res machine unit) : Prop :=
  if CONFIG_EXCEPTION then
    exists m', r = Exit m' /\ raised code 0 (put_cpr CP0_BADVADDR 0 a (cpu m)) (cpu m') /\
      cpr_get (cp0 (cpu m')) CP0_BADVADDR 0 = a /\ same_regs (cpu m) (cpu m') /\
      (bram m', ddr m', tlb m') = (bram m, ddr m, tlb m)
  else r = Stop HCPUAssert m.

Lemma check_unaligned code len a m (k : unit -> EM unit) :
  wf m -> is_u32 a -> ~ aligned len a -> code = EXC_AdEL \/ code = EXC_AdES ->
  align_fault code a m (bind (CHECK_ALIGNED_ADDR code len a) k m).
Proof.
  intros Hwf Ha Hal Hcode. pose proof (wf_m_cpu m Hwf) as Hc.
  set (c := put_cpr CP0_BADVADDR 0 a (cpu m)).
  assert (wf_cpu c) as Hc' by (unfold c; auto with words).
  pose proof (raise_cpu_raised code 0 c Hc') as R.
  unfold align_fault, CHECK_ALIGNED_ADDR. apply Z.eqb_neq in Hal. rewrite Hal.
  destruct CONFIG_EXCEPTION; [|done].
  exists (caches_cleared (set_cpu (raise_cpu code 0 c) m)). split.
  { unfold bind, upd_cpu, modify. rewrite raise_run0 by (destruct Hcode as [-> | ->]; done). done. }
  split; [exact R|]. split_and!; [| |done].
  - cbn [cpu set_cpu caches_cleared set_decode_cache set_mmu_cache].
    rewrite raise_cpu_cpr by done. unfold c. regs. by apply uw_small.
  - destruct (ra_regs _ _ _ _ R). by constructor.
Qed.
End Accessing.

(** C19: a load or store whose translation faults raises the TLB exception for the address
    it accesses, with BadVAddr, Context and EntryHi describing it, and changes no general,
    floating point or multiply register, not pc, no memory, no TLB entry and not the
    memory map.  This holds of lb, lbu, lh, lhu, lw, lwl, lwr, lwc1, sb, sh,
    sw, swl, swr, swc1 and sc at an address that passes their alignment check (the kernel
    segment above 0xe0000000 apart, and with the black hole device mapped); lwl and swl
    access the start of the word, and then set BadVAddr to the unaligned address.  ll is
    the exception: after the fault it still writes rt, with the 0 that the black hole
    device reads as.  The double accesses ldc1 and sdc1 are not covered. *)
Theorem access_fault_precise {cfg : Config} h o m acc ex code i :
  cinv m -> find_device BLACKHOLE_ADDR m = Some blackhole_dev ->
  access_of h o (cpu m) = Some acc -> ac_align acc <= 4 ->
  let a := ac_addr acc in
  aligned (ac_align acc) a -> a / 2 ^ 29 <> 7 ->
  resolve m a (ac_store acc) = XFault ex code i ->
  exists m', faulted ex code a i m m' /\ same_regs (cpu m) (cpu m') /\
    exec_handler h o m = Ok tt (after_fault h o (LoadStore.eff_addr o (cpu m)) m').
Proof.
  intros Hci Hbh Hacc H4 a Hal H7 Hres. pose proof (access_u32 _ _ _ _ Hacc) as Ha.
  destruct (ac_store acc) eqn:Hst.
  - destruct (vaddr_write_fault m Hci a Ha H7 ex code i Hres Hbh) as (m' & E & F & Hx).
    exists m'. split; [done|]. split; [by eapply faulted_regs|]. by eapply store_fault_run.
  - destruct (vaddr_read_fault m Hci a Ha H7 ex code i Hres Hbh) as (m' & E & F & Hx).
    exists m'. split; [done|]. split; [by eapply faulted_regs|]. by eapply load_fault_run.
Qed.

(** lhu $12, 0($11) and ll $10, 2($11) miss the TLB; ll clears $10. *)
Lemma access_fault_precise_witness :
  (exists m', faulted (cfg := mips32r1_defconfig) EX_TLB_REFILL EXC_TLBL 0x4002 0 m_ram m' /\
     exec_handler (cfg := mips32r1_defconfig) H_lhu (inst_ops 0x956c0000) m_ram = Ok tt m') /\
  (exists m', faulted (cfg := mips32r1_defconfig) EX_TLB_REFILL EXC_TLBL 0x4004 0 m_ram m' /\
     exec_handler (cfg := mips32r1_defconfig) H_ll (inst_ops 0xc16a0002) m_ram =
       Ok tt (set_cpu (put_gpr 10 0 (cpu m')) m')).
Proof.
  split.
  - destruct (access_fault_precise (cfg := mips32r1_defconfig) H_lhu (inst_ops 0x956c0000) m_ram
      (mkAccess false 2 0x4002) EX_TLB_REFILL EXC_TLBL 0 cinv_m_ram) as (m' & F & _ & E);
      [vm_compute; reflexivity|vm_compute; reflexivity|vm_compute; discriminate|reflexivity|
       vm_compute; discriminate|vm_compute; reflexivity|].
    exists m'. split; [exact F|exact E].
  - destruct (access_fault_precise (cfg := mips32r1_defconfig) H_ll (inst_ops 0xc16a0002) m_ram
      (mkAccess false 4 0x4004) EX_TLB_REFILL EXC_TLBL 0 cinv_m_ram) as (m' & F & _ & E);
      [vm_compute; reflexivity|vm_compute; reflexivity|vm_compute; discriminate|reflexivity|
       vm_compute; discriminate|vm_compute; reflexivity|].
    exists m'. split; [exact F|exact E].
Defined.

(** C20: lh, lhu, lw, ll, lwc1, ldc1, sh, sw, sc and sdc1 at an address that is not a
    multiple of 2, 4 or 8, the size of their access, make no access.  In a build with
    exceptions they raise AdEL or AdES with BadVAddr set to the address and leave through
    the label exit, with no general, floating point or multiply register, no memory and no
    TLB entry changed; in a build without, the emulator ends
    with a failed CPUAssert.  swc1 has no check: at any address of RAM, aligned or not,
    whose four bytes lie in one page, it stores them. *)
Theorem misaligned_access {cfg : Config} h o m acc :
  wf m -> access_of h o (cpu m) = Some acc ->
  let a := ac_addr acc in
  (~ aligned (ac_align acc) a ->
   align_fault (if ac_store acc then EXC_AdES else EXC_AdEL) a m (exec_handler h o m)) /\
  (h = H_swc1 -> cinv m -> a / 2 ^ 29 <> 7 -> a mod 2 ^ 12 + 4 <= 2 ^ 12 ->
   forall pa d, ram_at m a true pa d ->
   exists m', exec_handler h o m = Ok tt m' /\ cpu m' = cpu m /\
     ram_of d m' = st_bytes (ram_of d m) (pa - dev_start d) 4 (arr_get (fpr32i (cpu m)) (o_ft o))).
Proof.
  intros Hwf Hacc a. pose proof (access_u32 _ _ _ _ Hacc) as Ha. fold a in Ha. split.
  - intros Hal.
    assert (forall b code, ~ aligned 1 b -> align_fault code b m (exec_handler h o m)) as H1.
    { intros b code Hb. destruct Hb. unfold aligned. apply Z.land_0_r. }
    unfold a in *. destruct h; try discriminate Hacc; injection Hacc as <-; cbn [ac_store ac_align ac_addr] in *;
      try (by apply H1); cbn [exec_handler];
      unfold LoadStore.lb, LoadStore.lbu, LoadStore.lh, LoadStore.lhu, LoadStore.lw, LoadStore.load,
        LoadStore.ll, LoadStore.sb, LoadStore.sh, LoadStore.sw, LoadStore.store, LoadStore.sc,
        Float.lwc1, Float.ldc1, Float.sdc1;
      rewrite (bind_ok get_cpu _ m (cpu m) m eq_refl); cbv zeta; apply check_unaligned; auto.
  - intros -> Hci H7 Hpg pa d Hram. injection Hacc as <-. unfold a in *. cbn [ac_addr] in *.
    destruct (vaddr_write_ram m Hci _ 4 Ha H7 ltac:(lia) Hpg pa d (Float.FT o (cpu m)) Hram)
      as (m' & E & F & _).
    exists m'. split; [exact E|]. destruct (forget_fields _ _ F) as (C & _).
    rewrite C, (ram_of_forget d _ _ F), ram_of_set_ram by apply (ra_ram _ _ _ _ _ Hram).
    split; [apply (proj1 (set_ram_frame _ _ _))|done].
Qed.

(** lw $12, 0($11) raises AdEL; swc1 $f0, 1($8) stores at 0x80005101. *)
Lemma misaligned_access_witness :
  (exists m', exec_handler (cfg := mips32r1_defconfig) H_lw (inst_ops 0x8d6c0000) m_ram = Exit m' /\
     cpr_get (cp0 (cpu m')) CP0_BADVADDR 0 = 0x4002 /\ gpr (cpu m') = gpr (cpu m_ram)) /\
  (exists m', exec_handler (cfg := mips32r1_defconfig) H_swc1 (inst_ops 0xe5000001) m_ram = Ok tt m' /\
     cpu m' = cpu m_ram).
Proof.
  split.
  - destruct (proj1 (misaligned_access (cfg := mips32r1_defconfig) H_lw (inst_ops 0x8d6c0000) m_ram
      (mkAccess false 4 0x4002) (ci_wf _ cinv_m_ram) ltac:(vm_compute; reflexivity)) ltac:(vm_compute; discriminate))
      as (m' & E & _ & B & G & _).
    exists m'. split; [exact E|]. split; [exact B|exact (sr_gpr _ _ G)].
  - destruct (proj2 (misaligned_access (cfg := mips32r1_defconfig) H_swc1 (inst_ops 0xe5000001) m_ram
      (mkAccess true 1 0x80005101) (ci_wf _ cinv_m_ram) ltac:(vm_compute; reflexivity)) eq_refl cinv_m_ram
      ltac:(vm_compute; discriminate) ltac:(vm_compute; discriminate) 0x5101 ddr_dev) as (m' & E & C & _).
    + split; [by exists 0|lia|vm_compute; reflexivity|done].
    + exists m'. split; [exact E|exact C].
Defined.

(** ** Unaligned words *)
Lemma ld_bytes_app n k mem a :
  ld_bytes mem a (n + k) = ld_bytes mem a n + 2 ^ (8 * Z.of_nat n) * ld_bytes mem (a + Z.of_nat n) k.
Proof.
  revert a. induction n as [|n IH]; intros a; [cbn; rewrite Z.add_0_r; lia|].
  cbn [ld_bytes Nat.add]. rewrite IH, pow256. replace (a + 1 + Z.of_nat n) with (a + Z.of_nat (S n)) by lia.
  lia.
Qed.

Lemma st_bytes_app n k mem a v :
  st_bytes mem a (n + k) v =
  st_bytes (st_bytes mem a n v) (a + Z.of_nat n) k (Z.shiftr v (8 * Z.of_nat n)).
Proof.
  revert mem a v. induction n as [|n IH]; intros mem a v.
  - cbn. by rewrite Z.add_0_r, Z.shiftr_0_r.
  - cbn [st_bytes Nat.add]. rewrite IH, Z.shiftr_shiftr by lia. f_equal; [lia|f_equal; lia].
Qed.

(** The merges put the loaded bytes at one end of the register. *)
Lemma lwl_val_spec len rdata rt :
  1 <= len <= 4 -> in_u (8 * len) rdata -> is_u32 rt ->
  LoadStore.lwl_val len rdata rt = rdata * 2 ^ (8 * (4 - len)) + rt mod 2 ^ (8 * (4 - len)).
Proof.
  intros Hl Hr Ht. unfold LoadStore.lwl_val. destruct (Z.ltb_spec len 4).
  2: { replace len with 4 by lia. cbn. rewrite Z.mod_1_r. lia. }
  replace ((4 - len) * 8) with (8 * (4 - len)) by lia.
  replace (u32 (Z.shiftl rdata (8 * (4 - len)))) with (Z.shiftl rdata (8 * (4 - len))).
  2: { symmetry. apply uw_small. rewrite Z.shiftl_mul_pow2 by lia. unfold in_u in *.
       replace (2 ^ 32) with (2 ^ (8 * len) * 2 ^ (8 * (4 - len)))
         by (rewrite <- Z.pow_add_r by lia; f_equal; lia). nia. }
  replace (Z.shiftr (u32 (Z.shiftl rt (len * 8))) (len * 8)) with (rt mod 2 ^ (8 * (4 - len))).
  2: { rewrite <- Z.land_ones by lia. bitblast. }
  rewrite lor_shift_add by (lia || apply Z.mod_pos_bound; lia). done.
Qed.

Lemma lwr_val_spec idx rdata rt :
  0 <= idx < 4 -> in_u (8 * (4 - idx)) rdata -> is_u32 rt ->
  LoadStore.lwr_val idx rdata rt = rt / 2 ^ (8 * (4 - idx)) * 2 ^ (8 * (4 - idx)) + rdata.
Proof.
  intros Hi Hr Ht. unfold LoadStore.lwr_val. cbv zeta.
  assert (Z.shiftr (u32 (Z.shiftl rdata (idx * 8))) (idx * 8) = rdata) as ->.
  { rewrite uw_small.
    - rewrite Z.shiftr_shiftl_l, Z.sub_diag by lia. apply Z.shiftl_0_r.
    - rewrite Z.shiftl_mul_pow2 by lia. unfold in_u in *.
      replace (2 ^ 32) with (2 ^ (8 * (4 - idx)) * 2 ^ (idx * 8))
        by (rewrite <- Z.pow_add_r by lia; f_equal; lia). nia. }
  destruct (Z.ltb_spec (4 - idx) 4).
  2: { replace idx with 0 by lia. change (8 * (4 - 0)) with 32. unfold in_u in Ht.
       rewrite Z.div_small by lia. lia. }
  rewrite Z.lor_comm. replace ((4 - idx) * 8) with (8 * (4 - idx)) by lia.
  rewrite uw_small.
  - rewrite lor_shift_add by (done || lia). by rewrite Z.shiftr_div_pow2 by lia.
  - rewrite Z.shiftl_mul_pow2, Z.shiftr_div_pow2 by lia. unfold in_u in *.
    pose proof (Z_div_mod_eq_full rt (2 ^ (8 * (4 - idx)))).
    pose proof (Z.mod_pos_bound rt (2 ^ (8 * (4 - idx)))).
    assert (0 <= rt / 2 ^ (8 * (4 - idx))) by (apply Z.div_pos; lia). lia.
Qed.

Lemma lwr_val_u32 k rdata rt :
  0 <= k < 4 -> in_u (8 * (4 - k)) rdata -> is_u32 rt -> is_u32 (LoadStore.lwr_val k rdata rt).
Proof.
  intros Hk Hr Ht. rewrite lwr_val_spec by done. unfold in_u in *.
  assert (0 <= rt / 2 ^ (8 * (4 - k))) by (apply Z.div_pos; lia).
  replace (2 ^ 32) with (2 ^ (8 * k) * 2 ^ (8 * (4 - k)))
    by (rewrite <- Z.pow_add_r by lia; f_equal; lia).
  assert (rt / 2 ^ (8 * (4 - k)) < 2 ^ (8 * k)).
  { apply Z.div_lt_upper_bound; [lia|]. rewrite <- Z.pow_add_r by lia.
    replace (8 * (4 - k) + 8 * k) with 32 by lia. lia. }
  nia.
Qed.

(** The bytes [lwl] and [swl] transfer for the word at [a]. *)
Definition left_addr (a : Z) : Z := if a mod 4 =? 0 then a else a + (4 - a mod 4).
Definition left_len (a : Z) : Z := if a mod 4 =? 0 then 4 else a mod 4.

(** The two loads of an unaligned word, [k] bytes after an aligned one. *)
Lemma unaligned_merge mem x a rt :
  mem_wf mem -> is_u32 rt ->
  let k := a mod 4 in
  let rt1 := LoadStore.lwr_val k (ld_masked mem x (4 - k)) rt in
  is_u32 rt1 /\
  LoadStore.lwl_val (left_len a) (ld_masked mem (x + (left_addr a - a)) (left_len a)) rt1
  = ld_bytes mem x 4.
Proof.
  intros Hm Ht k rt1. pose proof (Z.mod_pos_bound a 4 ltac:(lia)) as Hk. fold k in Hk.
  unfold rt1. rewrite ld_masked_bytes by (done || lia).
  pose proof (ld_bytes_range (Z.to_nat (4 - k)) mem x Hm) as Hr.
  replace (8 * Z.of_nat (Z.to_nat (4 - k))) with (8 * (4 - k)) in Hr by lia.
  pose proof (lwr_val_spec k _ rt Hk Hr Ht) as E1.
  pose proof (lwr_val_u32 k _ rt Hk Hr Ht) as Hu. split; [done|].
  unfold left_len, left_addr. fold k. destruct (Z.eqb_spec k 0) as [Hk0|Hk0].
  - replace (x + (a - a)) with x by lia.
    rewrite ld_masked_bytes, lwl_val_spec by (lia || done || apply (ld_bytes_range 4); done).
    change (8 * (4 - 4)) with 0. rewrite Z.mod_1_r.
    change (Z.to_nat 4) with 4%nat. lia.
  - replace (x + (a + (4 - k) - a)) with (x + (4 - k)) by lia.
    pose proof (ld_bytes_range (Z.to_nat k) mem (x + (4 - k)) Hm) as Hr2.
    replace (8 * Z.of_nat (Z.to_nat k)) with (8 * k) in Hr2 by lia.
    rewrite ld_masked_bytes, lwl_val_spec by (done || lia). rewrite E1.
    rewrite Z.add_comm, (Z.add_comm (_ / _ * _)), Z.mod_add by lia.
    rewrite Z.mod_small by exact Hr.
    replace 4%nat with (Z.to_nat (4 - k) + Z.to_nat k)%nat by lia.
    rewrite ld_bytes_app. replace (8 * Z.of_nat (Z.to_nat (4 - k))) with (8 * (4 - k)) by lia.
    replace (x + Z.of_nat (Z.to_nat (4 - k))) with (x + (4 - k)) by lia. lia.
Qed.

Lemma land3 a : Z.land a 0x3 = a mod 4.
Proof. change 3 with (Z.ones 2). by rewrite Z.land_ones. Qed.

(** The word and the byte count of lwl and swl at [a + 3]. *)
Lemma left_part a :
  let k := a mod 4 in
  LoadStore.word_of (a + 3) = (if k =? 0 then a else a + (4 - k)) /\
  Z.land (a + 3) 0x3 + 1 = (if k =? 0 then 4 else k).
Proof.
  cbv zeta. rewrite land3. unfold LoadStore.word_of.
  rewrite Z.shiftl_mul_pow2, Z.shiftr_div_pow2 by lia. change (2 ^ 2) with 4.
  pose proof (Z_div_mod_eq_full a 4). pose proof (Z_div_mod_eq_full (a + 3) 4).
  pose proof (Z.mod_pos_bound a 4). pose proof (Z.mod_pos_bound (a + 3) 4).
  destruct (Z.eqb_spec (a mod 4) 0); lia.
Qed.

Lemma mod4_page a : (a mod 2 ^ 12) mod 4 = a mod 4.
Proof. apply (Z.mod_mod_divide a (2 ^ 12) 4). by exists 1024. Qed.

(** The address and the length of the left part stay in the page. *)
Lemma left_bounds a :
  a mod 2 ^ 12 <= 4092 ->
  0 <= left_addr a - a < 4 /\ 1 <= left_len a <= 4 /\
  a mod 2 ^ 12 + (left_addr a - a) + left_len a <= 2 ^ 12.
Proof.
  intros H. unfold left_addr, left_len. pose proof (mod4_page a) as E.
  pose proof (Z.mod_pos_bound a 4). pose proof (Z_div_mod_eq_full (a mod 2 ^ 12) 4).
  change (2 ^ 12) with 4096 in *. destruct (Z.eqb_spec (a mod 4) 0); lia.
Qed.

Lemma page_eq_next a i :
  0 <= i -> a mod 2 ^ 12 + i < 2 ^ 12 -> page_eq a (a + i) /\ (a + i) mod 2 ^ 12 = a mod 2 ^ 12 + i.
Proof.
  intros Hi H. pose proof (page_split a). pose proof (Z.mod_pos_bound a (2 ^ 12) ltac:(lia)).
  unfold page_eq. split.
  - apply (Z.div_unique _ _ _ (a mod 2 ^ 12 + i)); lia.
  - symmetry. apply (Z.mod_unique _ _ (a / 2 ^ 12)); lia.
Qed.

Section Unaligned.
Context {cfg : Config}.

Lemma lwr_run o m v m' :
  let a := LoadStore.eff_addr o (cpu m) in
  vaddr_read a (4 - a mod 4) m = Ok v m' -> has_exception (cpu m') = false ->
  LoadStore.lwr o m =
  Ok tt (set_cpu (put_gpr (o_rt o) (LoadStore.lwr_val (a mod 4) v (GR_TV o (cpu m'))) (cpu m')) m').
Proof.
  intros a E Hx. unfold LoadStore.lwr. rewrite (bind_ok get_cpu _ m (cpu m) m eq_refl).
  rewrite land3. fold a. rewrite (bind_ok _ _ _ _ _ E). unfold bind. cbn [get_cpu gets].
  by rewrite Hx.
Qed.

Lemma lwl_run o m v m' :
  let a := LoadStore.eff_addr o (cpu m) in
  vaddr_read (LoadStore.word_of a) (Z.land a 0x3 + 1) m = Ok v m' -> has_exception (cpu m') = false ->
  LoadStore.lwl o m =
  Ok tt (set_cpu (put_gpr (o_rt o)
    (LoadStore.lwl_val (Z.land a 0x3 + 1) v (GR_TV o (cpu m'))) (cpu m')) m').
Proof.
  intros a E Hx. unfold LoadStore.lwl. rewrite (bind_ok get_cpu _ m (cpu m) m eq_refl).
  fold a. rewrite (bind_ok _ _ _ _ _ E). unfold bind. cbn [get_cpu gets].
  by rewrite Hx.
Qed.

(** An address of the same page, [i] bytes further. *)
Lemma ram_at_next m a st pa d i :
  ram_at m a st pa d -> 0 <= i -> a mod 2 ^ 12 + i < 2 ^ 12 -> ram_at m (a + i) st (pa + i) d.
Proof.
  intros H Hi Hp. destruct (page_eq_next a i Hi Hp) as [Hpq _].
  destruct (ram_at_page m a (a + i) st pa d Hpq H) as (pb & Hb & E & Oa & Ob).
  replace (pa + i) with pb; [done|]. unfold page_eq in Hpq.
  pose proof (page_split a). pose proof (page_split (a + i)). lia.
Qed.

Lemma cinv_put_gpr i v m : cinv m -> cinv (set_cpu (put_gpr i v (cpu m)) m).
Proof.
  intros Hci. eapply (cinv_ext m); [by constructor|done| |done].
  pose proof (ci_wf m Hci). apply wf_set_cpu; auto with words.
Qed.

(** The left part of a word whose address resolves to RAM. *)
Lemma left_ram m a st pa d :
  is_u32 a -> a / 2 ^ 29 <> 7 -> a mod 2 ^ 12 <= 4092 -> ram_at m a st pa d ->
  let b := left_addr a in
  is_u32 b /\ b / 2 ^ 29 <> 7 /\ b mod 2 ^ 12 + left_len a <= 2 ^ 12 /\
  ram_at m b st (pa + (b - a)) d.
Proof.
  intros Ha H7 Hp H b. destruct (left_bounds a Hp) as (B1 & B2 & B3). fold b in B1, B3.
  destruct (page_eq_next a (b - a)) as [Pq Pm]; [lia|lia|].
  replace (a + (b - a)) with b in Pq, Pm by lia. split_and!.
  - unfold in_u in *. pose proof (page_split a). pose proof (page_split b). unfold page_eq in Pq.
    assert (a / 2 ^ 12 < 2 ^ 20) by (apply Z.div_lt_upper_bound; lia). lia.
  - by rewrite <- (div_page a b 29).
  - lia.
  - replace b with (a + (b - a)) at 1 by lia. apply ram_at_next; [done|lia|lia].
Qed.
End Unaligned.

(** C21: lwr at an address and lwl three bytes further load the unaligned little-endian
    word at that address into rt, whatever its alignment and the previous value of rt
    (within a page of RAM). *)
Theorem unaligned_load {cfg : Config} w w' m pa d :
  let o := inst_ops w in
  let o' := inst_ops w' in
  let a := LoadStore.eff_addr o (cpu m) in
  cinv m -> has_exception (cpu m) = false ->
  o_rt o' = o_rt o -> o_rs o' <> o_rt o -> LoadStore.eff_addr o' (cpu m) = a + 3 ->
  a / 2 ^ 29 <> 7 -> a mod 2 ^ 12 <= 4092 -> ram_at m a false pa d ->
  exists m', (LoadStore.lwr o ;; LoadStore.lwl o') m = Ok tt m' /\
    gpr_at (cpu m') (o_rt o) = ld_bytes (ram_of d m) (pa - dev_start d) 4.
Proof.
  intros o o' a Hci Hx Hrt Hrs Ha3 H7 Hpg H.
  destruct (ops_ranges w) as (_ & Rt & _). destruct (ops_ranges w') as (Rs' & Rt' & _).
  fold o in Rt. fold o' in Rs', Rt'. pose proof (Z.mod_pos_bound a 4 ltac:(lia)) as Hk.
  assert (is_u32 a) as Ha by apply eff_addr_u32. set (x := pa - dev_start d).
  assert (a mod 2 ^ 12 + (4 - a mod 4) <= 2 ^ 12) as Hpr by (change (2 ^ 12) with 4096 in *; lia).
  destruct (vaddr_read_ram m Hci a (4 - a mod 4) Ha H7 ltac:(lia) Hpr pa d H)
    as (m1 & E1 & F1 & Hci1).
  destruct (forget_fields _ _ F1) as (C1 & T1 & R1 & _).
  rewrite (bind_ok _ _ _ _ _ (lwr_run o m _ m1 E1 ltac:(by rewrite C1))). fold a.
  set (v1 := LoadStore.lwr_val _ _ _). set (m2 := set_cpu _ m1).
  pose proof (cinv_put_gpr (o_rt o) v1 m1 Hci1 : cinv m2) as Hci2.
  pose proof (wf_m_cpu m1 (ci_wf m1 Hci1)) as Hc1.
  assert (LoadStore.eff_addr o' (cpu m2) = a + 3) as Ea.
  { rewrite <- Ha3. unfold LoadStore.eff_addr, GR_SV, m2. cbn [cpu set_cpu].
    rewrite gpr_put_ne, C1 by lia. done. }
  assert (ram_at m2 a false pa d) as H2.
  { eapply ram_at_ext; [|exact H]. constructor; try done; unfold m2; cbn; by rewrite C1. }
  destruct (left_ram m2 a false pa d Ha H7 Hpg H2) as (L1 & L2 & L3 & L4).
  destruct (left_bounds a Hpg) as (_ & B2 & _).
  destruct (vaddr_read_ram m2 Hci2 (left_addr a) (left_len a) L1 L2 B2 L3 _ d L4)
    as (m3 & E3 & F3 & _).
  destruct (left_part a) as [Ew El]. fold (left_addr a) in Ew. fold (left_len a) in El.
  destruct (forget_fields _ _ F3) as (C3 & _).
  assert (is_u32 (GR_TV o (cpu m1))) as Ht by (unfold GR_TV; auto with words).
  destruct (unaligned_merge (ram_of d m) x a (GR_TV o (cpu m1)) (wf_ram d m (ci_wf m Hci)) Ht)
    as [Hv Hmerge].
  rewrite (lwl_run o' m2 _ m3) by (rewrite ?Ea, ?Ew, ?El; first [exact E3|by rewrite C3; unfold m2; cbn; rewrite C1]).
  eexists. split; [reflexivity|]. cbn [cpu set_cpu].
  rewrite Hrt, C3, Ea, El.
  assert (GR_TV o' (cpu m2) = v1) as ->.
  { unfold GR_TV, m2. cbn [cpu set_cpu]. rewrite Hrt, gpr_put_eq by done. by apply uw_small. }
  replace (pa + (left_addr a - a) - dev_start d) with (x + (left_addr a - a)) by (unfold x; lia).
  assert (ram_of d m2 = ram_of d m) as ->.
  { unfold m2. rewrite ram_of_set_cpu. by apply ram_of_forget. }
  rewrite gpr_put_eq by (done || apply (ci_wf _ Hci2)).
  change v1 with (LoadStore.lwr_val (a mod 4) (ld_masked (ram_of d m) x (4 - a mod 4))
                    (GR_TV o (cpu m1))).
  rewrite Hmerge. apply uw_small. apply (ld_bytes_range 4), wf_ram, Hci.
Qed.

(** $8 is the kseg0 address 0x80005101 *)
Definition m_odd : machine :=
  set_cpu (put_gpr 8 0x80005101 (cpu m_ram)) m_ram.

(** lwr $10, 0($8); lwl $10, 3($8) *)
Lemma unaligned_load_witness :
  exists m', (LoadStore.lwr (cfg := mips32r1_defconfig) (inst_ops 0x990a0000) ;;
              LoadStore.lwl (cfg := mips32r1_defconfig) (inst_ops 0x890a0003)) m_odd = Ok tt m' /\
    gpr_at (cpu m') 10 = ld_bytes (ddr m_odd) 0x5101 4.
Proof.
  destruct (unaligned_load (cfg := mips32r1_defconfig) 0x990a0000 0x890a0003 m_odd 0x5101 ddr_dev)
    as (m' & E & H);
    [apply cinv_put_gpr, cinv_m_ram|reflexivity|reflexivity|vm_compute; discriminate|
     vm_compute; reflexivity|vm_compute; discriminate|vm_compute; discriminate| |].
  - replace (LoadStore.eff_addr (inst_ops 0x990a0000) (cpu m_odd)) with 0x80005101
      by (vm_compute; reflexivity).
    split; [by exists 0|lia|vm_compute; reflexivity|done].
  - exists m'. split; [exact E|exact H].
Defined.
