(* ===== verification/DecodeProps.v ===== *)
(** * The decode cache

    With CONFIG_DECODE_CACHE the loop of cpu_exec follows chains of decoded instructions
    instead of fetching and decoding.  The chains hold what the program text says, so
    that, in a build without delay slots, exceptions and interrupts (microbench) and as
    long as the program does not rewrite its own text, every turn executes the
    instruction memory holds at pc. *)
From S2P Require Import Prelude Config Reg Fifo Ram Flash Sdlkey Machine Ulite Spi Device Mmu Memory.
From S2P Require Import ExecAlu ExecMdu ExecMem Softfloat ExecFloat Decode Cpu Frame Invariant Exits Samples.
Local Open Scope nemu_scope.

(** ** Operands

    decoder_set_state fills the members the instruction formats of the integer
    instructions use.  Coprocessor 1 instructions and movf/movt read members it leaves
    as malloc returned them. *)
Definition cacheable (w : Z) : bool :=
  negb (inst_op w =? 0x11) && negb ((inst_op w =? 0) && (inst_func w =? 1)).

Lemma s32_field f w : 0 <= f_len f <= 31 -> s32 (bf_get f w) = bf_get f w.
Proof.
  intros H. pose proof (bf_get_range f w ltac:(lia)) as R. unfold in_u in R.
  pose proof (Z.pow_le_mono_r 2 (f_len f) 31 ltac:(lia) ltac:(lia)).
  apply sw_small; [lia|]. change (2 ^ (32 - 1)) with (2 ^ 31). lia.
Qed.

Lemma u16_put_uimm v old : in_u 16 v -> u16 (put_uimm v old) = v.
Proof.
  intros Hv. apply Z.bits_inj'. intros i Hi. unfold put_uimm.
  rewrite testbit_uw, Z.lor_spec, Z.land_spec by lia. destruct (Z.ltb_spec i 16).
  - replace (Z.testbit 0xFFFF0000 i) with false; [by rewrite andb_false_r|].
    change 0xFFFF0000 with (Z.shiftl (Z.ones 16) 16). symmetry. apply Z.shiftl_spec_low. lia.
  - by rewrite (testbit_in_u 16 v i).
Qed.

Section Operands.
Context {cfg : Config}.

(** The handlers of a table, but for the entries [skip], read only operands on which
    [agree] compares. *)
Definition reads (table : list handler) (skip : nat -> bool) (agree : operands -> operands -> Prop) : Prop :=
  forall i h, table !! i = Some h -> skip i = false ->
  forall o o', agree o o' -> exec_handler h o = exec_handler h o'.

Definition agree_R (o o' : operands) : Prop :=
  o_rs o = o_rs o' /\ o_rt o = o_rt o' /\ o_rd o = o_rd o' /\ o_shamt o = o_shamt o' /\ o_func o = o_func o'.
Definition agree_S (o o' : operands) : Prop :=
  o_rs o = o_rs o' /\ o_rt o = o_rt o' /\ o_rd o = o_rd o' /\ o_shamt o = o_shamt o'.
Definition agree_I (o o' : operands) : Prop :=
  o_rs o = o_rs o' /\ o_rt o = o_rt o' /\ o_ft o = o_ft o' /\ o_uimm o = o_uimm o' /\ o_simm o = o_simm o'.
Definition agree_J (o o' : operands) : Prop := o_addr o = o_addr o'.
Definition agree_cop0 (o o' : operands) : Prop :=
  o_rt o = o_rt o' /\ o_rd o = o_rd o' /\ o_sel o = o_sel o'.
Definition agree_bshfl (o o' : operands) : Prop := o_rt o = o_rt o' /\ o_rd o = o_rd o'.
Definition agree_none (o o' : operands) : Prop := True.

Ltac reads_entry :=
  cbn [lookup list_lookup]; intros [= <-] Hs; try discriminate Hs;
  intros [] [] Ha; unfold agree_R, agree_S, agree_I, agree_J, agree_cop0, agree_bshfl in Ha;
  cbn in Ha; decompose [and] Ha; subst; reflexivity.
Ltac reads_table := intros i h; do 64 (try (destruct i as [|i]; [reads_entry|])); done.

Lemma reads_special : reads special_table (Nat.eqb 1) agree_R.
Proof. unfold special_table. reads_table. Qed.
Lemma reads_special2 : reads special2_table (fun _ => false) agree_S.
Proof. unfold special2_table. reads_table. Qed.
Lemma reads_special3 : reads special3_table (fun _ => false) agree_S.
Proof. unfold special3_table. reads_table. Qed.
Lemma reads_bshfl : reads bshfl_table (fun _ => false) agree_bshfl.
Proof. unfold bshfl_table. reads_table. Qed.
Lemma reads_regimm : reads regimm_table (fun _ => false) agree_I.
Proof. unfold regimm_table. reads_table. Qed.
Lemma reads_cop0_rs : reads cop0_table_rs (fun _ => false) agree_cop0.
Proof. unfold cop0_table_rs. reads_table. Qed.
Lemma reads_cop0_func : reads cop0_table_func (fun _ => false) agree_none.
Proof. unfold cop0_table_func. reads_table. Qed.
Lemma reads_opcode : reads opcode_table (fun i => (i =? 2)%nat || (i =? 3)%nat) agree_I.
Proof. unfold opcode_table. reads_table. Qed.
Lemma reads_jump : reads opcode_table (fun i => negb ((i =? 2)%nat || (i =? 3)%nat)) agree_J.
Proof. unfold opcode_table. reads_table. Qed.

Lemma field_to_nat f w n : 0 <= f_len f -> Z.to_nat (bf_get f w) = n -> bf_get f w = Z.of_nat n.
Proof. intros Hf <-. pose proof (bf_get_range f w Hf) as [? _]. lia. Qed.

(** What decoder_set_state stores is what the handler would read from the word. *)
Lemma ds_ops_exec w d h :
  cacheable w = true -> decoder_get_handler w = Some h ->
  exec_handler h (ds_ops (decoder_set_state d w)) = exec_handler h (inst_ops w).
Proof.
  unfold cacheable, decoder_get_handler, decoder_set_state, entry.
  destruct d as [dh n p rs rt rd sa fn sel ext i]. intros Hc.
  assert (forall lo len, 0 <= len <= 31 -> s32 (bf_get (mkField lo len) w) = bf_get (mkField lo len) w) as Hf
    by (intros; by apply s32_field).
  assert (HI : forall d, agree_I (ds_ops (mkDs dh n p (inst_rs w) (inst_rt w) (put_uimm (inst_uimm w) d) sa fn sel ext i))
                     (inst_ops w)).
  { intros d. pose proof (bf_get_range (mkField 0 16) w ltac:(cbn; lia)) as R.
    unfold agree_I, ds_ops, inst_ops, inst_simm. cbn. rewrite <- (sw_uw 16), u16_put_uimm by (done || lia).
    split_and!; try done; apply Hf; lia. }
  apply andb_true_iff in Hc as [Hc1 Hc2]. apply negb_true_iff in Hc1, Hc2.
  destruct (Z.eqb_spec (inst_op w) 0x00) as [E0|N0].
  { intros H. eapply reads_special; [exact H| |split_and!; apply Hf; lia].
    apply Nat.eqb_neq. intros E. symmetry in E. apply (field_to_nat (mkField 0 6)) in E; [|cbn; lia].
    cbn in Hc2. apply Z.eqb_neq in Hc2. done. }
  destruct (Z.eqb_spec (inst_op w) 0x01) as [E1|N1].
  { intros H. by eapply reads_regimm. }
  rewrite Hc1. destruct (Z.eqb_spec (inst_op w) 0x10) as [E10|N10].
  { rewrite E10. cbn [Z.eqb orb]. destruct (Z.land (inst_rs w) 0x10 =? 0); cbn [negb]; intros H.
    - eapply reads_cop0_rs; [exact H|done|]. split_and!; apply Hf; lia.
    - by eapply reads_cop0_func. }
  destruct (Z.eqb_spec (inst_op w) 0x1c) as [E1c|N1c].
  { rewrite E1c. cbn [Z.eqb orb Pos.eqb]. intros H. eapply reads_special2; [exact H|done|]. split_and!; apply Hf; lia. }
  destruct (Z.eqb_spec (inst_op w) 0x1f) as [E1f|N1f].
  { rewrite E1f. cbn [Z.eqb orb Pos.eqb]. destruct (inst_func w =? 0x20); intros H.
    - eapply reads_bshfl; [exact H|done|]. split_and!; apply Hf; lia.
    - eapply reads_special3; [exact H|done|]. split_and!; apply Hf; lia. }
  assert (Hop : forall k, (Z.to_nat (inst_op w) =? k)%nat = (inst_op w =? Z.of_nat k)).
  { intros k. pose proof (bf_get_range (mkField 26 6) w ltac:(cbn; lia)) as [? _]. unfold inst_op.
    destruct (Nat.eqb_spec (Z.to_nat (bf_get (mkField 26 6) w)) k), (Z.eqb_spec (bf_get (mkField 26 6) w) (Z.of_nat k)); lia. }
  destruct ((inst_op w =? 2) || (inst_op w =? 3)) eqn:EJ; intros H.
  - eapply reads_jump; [exact H|rewrite !Hop; exact (f_equal negb EJ)|].
    unfold agree_J, ds_ops, inst_ops. cbn. apply uw_small.
    pose proof (bf_get_range (mkField 0 26) w ltac:(cbn; lia)) as R. unfold in_u in *. cbn [f_len] in R.
    unfold inst_addr. lia.
  - eapply reads_opcode; [exact H|rewrite !Hop; exact EJ|]. apply HI.
Qed.
End Operands.

(** ** Chains *)
Definition likely (h : handler) : bool :=
  match h with
  | H_beql | H_bnel | H_blezl | H_bgtzl | H_bltzl | H_bgezl | H_bltzall | H_bgezall => true
  | _ => false
  end.

(** Where pc is after a handler that does not jump, in a build without delay slots: a
    likely branch not taken skips an instruction, and the last handler, tnei, is not
    followed by cpu.pc += 4. *)
Definition advance (h : handler) (p : Z) : Z :=
  let p := if likely h then u32 (p + 4) else p in
  if last_handler h then p else u32 (p + 4).

(** The state a pointer points to. *)
Definition ds_at (d : decode_cache_t) (p : ds_ptr) : option decode_state_t :=
  match p with
  | DsHead i => if 0 <=? i then dc_tab d !! Z.to_nat i else None
  | DsNode b => dc_heap d !! b
  end.

Section Chains.
Context {cfg : Config} (code : Z -> Z).

(** The address that follows an instruction which does not jump. *)
Definition succ_pc (p : Z) : Z :=
  match decoder_get_handler (code p) with
  | Some h => advance h p
  | None => u32 (p + 4)
  end.

(** A state holds the decoded instruction at address [p]. *)
Record decoded (p : Z) (e : decode_state_t) : Prop := mkDecoded {
  de_handler : ds_handler e = decoder_get_handler (code p);
  de_inst : CONFIG_INSTR_LOG = true -> ds_inst e = code p;
  de_ops : forall h, decoder_get_handler (code p) = Some h ->
    exec_handler h (ds_ops e) = exec_handler h (inst_ops (code p))
}.

(** The address the successor of a state stands for; [g] gives that of every block. *)
Definition next_pc (g : Z -> Z) (p : ds_ptr) (e : decode_state_t) : Z :=
  match p with DsHead _ => ds_pc e | DsNode b => succ_pc (g b) end.

(** Heads and blocks form disjoint chains of decoded instructions. *)
Record chains (g : Z -> Z) (d : decode_cache_t) : Prop := mkChains {
  ch_len : length (dc_tab d) = Z.to_nat (2 ^ DECODE_CACHE_BITS);
  ch_brk : forall b e, dc_heap d !! b = Some e -> b < dc_brk d;
  ch_node : forall b e, dc_heap d !! b = Some e -> decoded (g b) e;
  ch_link : forall p e n, ds_at d p = Some e -> ds_next e = Some n ->
    is_Some (dc_heap d !! n) /\ g n = next_pc g p e;
  ch_inj : forall p q e e' n, ds_at d p = Some e -> ds_at d q = Some e' ->
    ds_next e = Some n -> ds_next e' = Some n -> p = q
}.

(** ds is where the instruction at [pc] is next. *)
Definition synced (g : Z -> Z) (d : decode_cache_t) (pc : Z) : Prop :=
  exists e, ds_at d (dc_ds d) = Some e /\ next_pc g (dc_ds d) e = pc.

(** *** Clearing *)
Lemma ds_at_clear d p e :
  ds_at (dc_clear d) p = Some e ->
  exists e0, ds_at d p = Some e0 /\
    (e = e0 /\ (exists b, p = DsNode b) \/ ds_next e = None /\ ds_pc e = ds_pc e0 /\ (exists i, p = DsHead i)).
Proof using Type.
  destruct p as [i|b]; cbn.
  - destruct (0 <=? i); [|done]. rewrite list_lookup_fmap.
    destruct (dc_tab d !! Z.to_nat i) as [e0|]; [|done]. cbn. intros [= <-].
    exists e0. split; [done|]. right. split_and!; [done|done|by exists i].
  - intros E. exists e. split; [done|]. left. split; [done|]. by exists b.
Qed.

Lemma chains_clear g d : chains g d -> chains g (dc_clear d).
Proof using Type.
  intros [Hlen Hbrk Hnode Hlink Hinj]. split; try done.
  - cbn. by rewrite length_map.
  - intros p e n Hp Hn. destruct (ds_at_clear d p e Hp) as (e0 & He0 & [(-> & _)|(Hno & _)]); [|congruence].
    cbn. by apply Hlink.
  - intros p q e e' n Hp Hq Hn Hn'.
    destruct (ds_at_clear d p e Hp) as (e0 & He0 & [(-> & _)|(Hno & _)]); [|congruence].
    destruct (ds_at_clear d q e' Hq) as (e1 & He1 & [(-> & _)|(Hno & _)]); [|congruence].
    by eapply Hinj.
Qed.

(** What operations other than jumps do to the cache. *)
Definition cleared_or_same (d d' : decode_cache_t) : Prop := d' = d \/ d' = dc_clear d.

Lemma dc_clear_clear d : dc_clear (dc_clear d) = dc_clear d.
Proof using Type. unfold dc_clear, set_dc_tab. cbn. f_equal. rewrite map_map. by apply map_ext. Qed.

#[global] Instance cleared_or_same_preorder : PreOrder cleared_or_same.
Proof using Type.
  split; [by left|]. intros d1 d2 d3 [->| ->] [->| ->]; [by left|by right|by right|].
  right. apply dc_clear_clear.
Qed.

Lemma chains_cleared g d d' : cleared_or_same d d' -> chains g d -> chains g d'.
Proof using Type. intros [->| ->]; [done|apply chains_clear]. Qed.

Lemma cleared_fields d d' :
  cleared_or_same d d' ->
  dc_heap d' = dc_heap d /\ dc_brk d' = dc_brk d /\ dc_ds d' = dc_ds d /\ dc_junk d' = dc_junk d.
Proof using Type. by intros [->| ->]. Qed.

Lemma synced_cleared g d d' pc b :
  cleared_or_same d d' -> dc_ds d = DsNode b -> synced g d pc -> synced g d' pc.
Proof using Type.
  intros Hc Hb (e & He & Hn). destruct (cleared_fields d d' Hc) as (Eh & _ & Ed & _).
  exists e. rewrite Ed, Hb in *. cbn in *. by rewrite Eh.
Qed.

(** *** Freeing a chain *)
Definition hlinks (h : gmap Z decode_state_t) : Prop :=
  (forall b e n, h !! b = Some e -> ds_next e = Some n -> is_Some (h !! n)) /\
  (forall b b' e e' n, h !! b = Some e -> h !! b' = Some e' ->
     ds_next e = Some n -> ds_next e' = Some n -> b = b').
Definition root (h : gmap Z decode_state_t) (r : Z) : Prop :=
  is_Some (h !! r) /\ forall b e, h !! b = Some e -> ds_next e <> Some r.

Lemma root_delete h r e : hlinks h -> root h r -> h !! r = Some e -> hlinks (delete r h).
Proof using Type.
  intros [Hc Hi] [_ Hr] He. split.
  - intros b e1 n [Hne Hb]%lookup_delete_Some Hn. destruct (Hc b e1 n Hb Hn) as [e2 E2].
    exists e2. apply lookup_delete_Some. split; [|done]. intros <-. by apply (Hr b e1 Hb).
  - intros b b' e1 e2 n [_ Hb]%lookup_delete_Some [_ Hb']%lookup_delete_Some. by apply Hi.
Qed.

Lemma root_delete_other h r e r' :
  root h r -> h !! r = Some e -> root h r' -> r' <> r -> root (delete r h) r' /\ ds_next e <> Some r'.
Proof using Type.
  intros _ He [[e' He'] Hr'] Hne. split; [split|by apply (Hr' r)].
  - exists e'. by apply lookup_delete_Some.
  - intros b e1 [_ Hb]%lookup_delete_Some. by apply (Hr' b).
Qed.

Lemma free_chain_ok n h r :
  hlinks h -> root h r -> (size h < n)%nat ->
  exists h', free_chain n (Some r) h = Some h' /\ h' ⊆ h /\ hlinks h' /\
    forall r', root h r' -> r' <> r -> is_Some (h' !! r').
Proof using Type.
  revert h r. induction n as [|n IH]; intros h r Hl Hr Hn; [lia|].
  destruct (proj1 Hr) as [e He]. cbn. rewrite He.
  pose proof (root_delete h r e Hl Hr He) as Hl1.
  assert (delete r h ⊆ h) as Hsub by apply delete_subseteq.
  destruct (ds_next e) as [n1|] eqn:En.
  - assert (root (delete r h) n1) as Hr1.
    { destruct (proj1 Hl r e n1 He En) as [e1 E1]. split.
      - exists e1. apply lookup_delete_Some. split; [|done]. intros <-. by apply (proj2 Hr r e He).
      - intros b e2 [Hne Hb]%lookup_delete_Some Hb2. apply Hne. symmetry.
        by apply (proj2 Hl b r e2 e n1). }
    destruct (IH (delete r h) n1 Hl1 Hr1) as (h' & E & S & L & O).
    { rewrite map_size_delete, He. assert (size h <> 0%nat); [|lia].
      intros Z0. apply map_size_empty_iff in Z0. subst h. by rewrite lookup_empty in He. }
    exists h'. split; [exact E|]. split; [by etransitivity|]. split; [exact L|].
    intros r' Hr' Hne. destruct (root_delete_other h r e r' Hr He Hr' Hne) as [Hd Hx].
    apply O; [done|]. intros ->. by apply Hx.
  - exists (delete r h). split; [by destruct n|]. split; [done|]. split; [done|].
    intros r' Hr' Hne. by apply (root_delete_other h r e r' Hr He Hr' Hne).
Qed.

Lemma chains_hlinks g d : chains g d -> hlinks (dc_heap d).
Proof using Type.
  intros [_ _ _ Hlink Hinj]. split.
  - intros b e n Hb Hn. by apply (Hlink (DsNode b) e n).
  - intros b b' e e' n Hb Hb' Hn Hn'. assert (DsNode b = DsNode b') as [= ->]; [|done].
    by apply (Hinj _ _ e e' n).
Qed.

Lemma head_root g d i e r :
  chains g d -> ds_at d (DsHead i) = Some e -> ds_next e = Some r -> root (dc_heap d) r.
Proof using Type.
  intros [_ _ _ Hlink Hinj] He Hr. split; [by apply (Hlink _ e r He Hr)|].
  intros b e' Hb Hn. assert (DsHead i = DsNode b) as [=].
  by apply (Hinj _ _ e e' r).
Qed.

(** *** decode_cache_fetch *)
Lemma dc_index_range p : 0 <= decode_cache_index p < 2 ^ DECODE_CACHE_BITS.
Proof using Type.
  unfold decode_cache_index, DECODE_CACHE_BITS.
  change (2 ^ 12 - 1) with (Z.ones 12). rewrite Z.land_ones by lia. apply Z.mod_pos_bound. lia.
Qed.

Lemma tab_lookup g d p :
  chains g d -> let i := decode_cache_index p in ds_at d (DsHead i) = Some (tab_at d i).
Proof using Type.
  intros Hch i. pose proof (dc_index_range p) as Hi. fold i in Hi. unfold ds_at, tab_at.
  rewrite (proj2 (Z.leb_le 0 i)) by lia.
  destruct (lookup_lt_is_Some_2 (dc_tab d) (Z.to_nat i)) as [e ->]; [|done].
  rewrite (ch_len _ _ Hch). lia.
Qed.

Lemma ds_at_put_tab d i e q :
  (Z.to_nat i < length (dc_tab d))%nat -> 0 <= i ->
  ds_at (put_tab i e d) q = if decide (q = DsHead i) then Some e else ds_at d q.
Proof using Type.
  intros Hlen Hi. case_decide as E.
  - subst q. cbn. rewrite (proj2 (Z.leb_le 0 i)) by lia. by apply list_lookup_insert_eq.
  - destruct q as [j|b]; [|done]. cbn. destruct (Z.leb_spec 0 j); [|done].
    apply list_lookup_insert_ne. intros E2. apply E. f_equal. lia.
Qed.

(** Replacing a head whose chain was freed. *)
Lemma chains_restart g d i e h' pc :
  chains g d -> 0 <= i < 2 ^ DECODE_CACHE_BITS -> ds_at d (DsHead i) = Some e ->
  h' ⊆ dc_heap d -> hlinks h' ->
  (forall j e' r, j <> i -> ds_at d (DsHead j) = Some e' -> ds_next e' = Some r -> is_Some (h' !! r)) ->
  chains g (put_tab i (set_ds_pc pc (set_ds_next None (set_ds_handler None e))) (set_dc_heap h' d)).
Proof using Type.
  intros Hch Hi He Hsub Hl Hroots. pose proof Hch as [Hlen Hbrk Hnode Hlink Hinj].
  set (e1 := set_ds_pc pc _).
  assert (Hput : forall q, ds_at (put_tab i e1 (set_dc_heap h' d)) q =
            if decide (q = DsHead i) then Some e1 else ds_at (set_dc_heap h' d) q).
  { intros q. apply ds_at_put_tab; cbn; [rewrite Hlen|]; lia. }
  assert (Hold : forall q e' n, ds_at (put_tab i e1 (set_dc_heap h' d)) q = Some e' -> ds_next e' = Some n ->
            ds_at d q = Some e' /\ q <> DsHead i).
  { intros q e' n Hq Hn. rewrite Hput in Hq. case_decide as E; [injection Hq as <-; discriminate Hn|].
    split; [|done]. destruct q as [j|b]; [done|]. cbn in Hq. by eapply lookup_weaken. }
  split.
  - cbn. by rewrite length_insert.
  - intros b e' Hb. apply (Hbrk b e'). by eapply lookup_weaken.
  - intros b e' Hb. apply (Hnode b e'). by eapply lookup_weaken.
  - intros q e' n Hq Hn. destruct (Hold q e' n Hq Hn) as [Hq' Hne]. split; [|by apply (Hlink q e' n)].
    cbn. destruct q as [j|b]; [|].
    + apply (Hroots j e' n); try done. congruence.
    + rewrite Hput in Hq. case_decide; [done|]. by apply (proj1 Hl b e' n).
  - intros q q' e' e2 n Hq Hq' Hn Hn'.
    destruct (Hold q e' n Hq Hn) as [Hq1 _]. destruct (Hold q' e2 n Hq' Hn') as [Hq2 _].
    by apply (Hinj q q' e' e2 n).
Qed.

Lemma chains_set_ds g d p : chains g d -> chains g (set_dc_ds p d).
Proof using Type. intros []. by split. Qed.

Lemma refetch_ok g m p :
  chains g (decode_cache m) ->
  exists d', refetch_ds p m = Ok tt (set_decode_cache d' m) /\ chains g d' /\ synced g d' p.
Proof using Type.
  intros Hch. set (d := decode_cache m) in *. set (i := decode_cache_index p).
  pose proof (tab_lookup g d p Hch) as He. fold i in He. cbv zeta in He.
  pose proof (dc_index_range p) as Hi. fold i in Hi.
  unfold refetch_ds, decode_cache_fetch. fold i. unfold bind, get. fold d. cbn [when].
  destruct (Z.eqb_spec (ds_pc (tab_at d i)) p) as [Hp|Hp]; cbn [negb when].
  { exists (set_dc_ds (DsHead i) d). split; [done|]. split; [by apply chains_set_ds|].
    exists (tab_at d i). split; [exact He|exact Hp]. }
  assert (exists h', free_chain (S (size (dc_heap d))) (ds_next (tab_at d i)) (dc_heap d) = Some h' /\
            h' ⊆ dc_heap d /\ hlinks h' /\
            forall r', root (dc_heap d) r' -> ds_next (tab_at d i) <> Some r' -> is_Some (h' !! r'))
    as (h' & E & Hsub & Hl & Hroots).
  { destruct (ds_next (tab_at d i)) as [r|] eqn:Er.
    - destruct (free_chain_ok (S (size (dc_heap d))) (dc_heap d) r) as (h' & E & S & L & O);
        [by apply (chains_hlinks g)|by apply (head_root g d i (tab_at d i))|lia|].
      exists h'. split_and!; try done. intros r' Hr' Hne. apply O; [done|congruence].
    - exists (dc_heap d). split_and!; try done; [by apply (chains_hlinks g)|]. by intros r' [? _]. }
  assert (chains g (put_tab i (set_ds_pc p (set_ds_next None (set_ds_handler None (tab_at d i)))) (set_dc_heap h' d)))
    as Hch'.
  { apply chains_restart; try done. intros j e' r Hj He' Hr. apply Hroots.
    - by apply (head_root g d j e' r).
    - intros Hr2. apply Hj. assert (DsHead j = DsHead i) as [= ->]; [|done].
      by apply (ch_inj _ _ Hch _ _ e' (tab_at d i) r). }
  unfold free_decode_state_chain, bind, get, upd_dc, modify. fold d. rewrite E. cbn.
  eexists. split; [reflexivity|]. split; [apply chains_set_ds, Hch'|].
  eexists. split; [cbn; rewrite (proj2 (Z.leb_le 0 i)) by lia; apply list_lookup_insert_eq|done].
  fold d. rewrite (ch_len _ _ Hch). lia.
Qed.
End Chains.

(** ** Handlers

    A handler that completes leaves pc (a likely branch not taken adds 4, to skip an
    instruction) and at most clears the heads; one that leaves through goto exit has
    jumped: ds was fetched for the new pc. *)
Definition quiet (m m' : machine) : Prop :=
  pc (cpu m') = pc (cpu m) /\ cleared_or_same (decode_cache m) (decode_cache m').
#[global] Instance quiet_preorder : PreOrder quiet.
Proof.
  split; [by split|]. intros m1 m2 m3 [E1 C1] [E2 C2]. split; [congruence|by etransitivity].
Qed.
#[global] Instance quiet_dev_frame : DevFrame quiet.
Proof. split; try exact _; intros; by split. Qed.
#[global] Instance quiet_bus_frame : BusFrame quiet.
Proof.
  split; try exact _; intros; try by split.
  - split; [|by left]. cbn. by apply (sr_pc _ _ (bus_upd_same _ _ H)).
  - split; [done|by right].
Qed.

Section Ends.
Context {cfg : Config}.
Context (Hds : CONFIG_DELAYSLOT = false) (Hdc : CONFIG_DECODE_CACHE = true)
        (Hexc : CONFIG_EXCEPTION = false) (Hintr : CONFIG_INTR = false).

Definition jumped (m m' : machine) : Prop :=
  exists m2, cleared_or_same (decode_cache m) (decode_cache m2) /\
    refetch_ds (pc (cpu m2)) m2 = Ok tt m'.

Definition ends_at {A} (f : Z -> Z) (k : EM A) : Prop := forall m,
  match k m with
  | Ok _ m' => pc (cpu m') = f (pc (cpu m)) /\ cleared_or_same (decode_cache m) (decode_cache m')
  | Exit m' => jumped m m'
  | Stop _ _ => True
  end.
#[local] Abbreviation ends := (ends_at (fun p => p)).

Lemma jumped_quiet m m1 m' :
  cleared_or_same (decode_cache m) (decode_cache m1) -> jumped m1 m' -> jumped m m'.
Proof using Type. intros H (m2 & H2 & E). exists m2. split; [by etransitivity|done]. Qed.

Lemma ends_bind {A B} f (k : EM A) (k2 : A -> EM B) :
  ends k -> (forall a, ends_at f (k2 a)) -> ends_at f (bind k k2).
Proof using Type.
  intros H1 H2 m. unfold bind. specialize (H1 m). destruct (k m) as [a m1|m1|h m1]; [|done|done].
  destruct H1 as [Ep Ec]. specialize (H2 a m1). destruct (k2 a m1) as [b m2|m2|h m2]; [| |done].
  - rewrite Ep in H2. destruct H2. split; [done|by etransitivity].
  - by apply (jumped_quiet m m1).
Qed.
Lemma ends_ret {A} (a : A) : ends (ret a).
Proof using Type. intros m. by split. Qed.
Lemma ends_stop {A} f h : ends_at (A := A) f (stop h).
Proof using Type. done. Qed.
Lemma ends_if {A} f (b : bool) (k1 k2 : EM A) : ends_at f k1 -> ends_at f k2 -> ends_at f (if b then k1 else k2).
Proof using Type. by destruct b. Qed.
Lemma ends_when b k : ends k -> ends (when b k).
Proof using Type. destruct b; [done|intros; apply ends_ret]. Qed.
Lemma ends_ensure b h : ends (ensure b h).
Proof using Type. destruct b; [apply ends_ret|apply ends_stop]. Qed.
Lemma ends_keeps {A} (k : EM A) : keeps quiet k -> no_exit k -> ends k.
Proof using Type.
  intros H1 H2 m. specialize (H1 m). specialize (H2 m). destruct (k m) as [a m1|m1|h m1]; [exact H1| |done].
  by destruct (H2 m1).
Qed.
Lemma ends_upd_cpu f : (forall c, pc (f c) = pc c) -> ends (upd_cpu f).
Proof using Type. intros H m. cbn. split; [apply H|by left]. Qed.
Lemma ends_modify f :
  (forall m, pc (cpu (f m)) = pc (cpu m) /\ decode_cache (f m) = decode_cache m) -> ends (modify f).
Proof using Type. intros H m. cbn. destruct (H m) as [E1 E2]. split; [done|by left]. Qed.

Lemma ends_prepare_delayslot f : ends_at f prepare_delayslot.
Proof using Hds Hdc.
  intros m. unfold prepare_delayslot. rewrite Hds, Hdc. cbn [when]. unfold bind, upd_cpu, modify, get_cpu, gets.
  destruct (refetch_ds _ _) as [[] m1|m1|h m1] eqn:E; cbn; [|by apply no_exit_refetch_ds in E|done].
  exists (set_cpu (set_pc (br_target (cpu m)) (cpu m)) m). split; [by left|exact E].
Qed.

Ltac ends_step :=
  first
    [ match goal with |- forall _, _ => intros ? end
    | solve [auto with ends]
    | apply ends_bind
    | apply ends_when
    | apply ends_if
    | match goal with |- ends_at _ (match ?x with _ => _ end) => destruct x eqn:? end ].
Ltac ends_solve := repeat ends_step.
Create HintDb ends discriminated.
#[local] Hint Resolve ends_ret ends_stop ends_ensure ends_prepare_delayslot : ends.
#[local] Hint Extern 1 (ends_at _ (upd_cpu _)) =>
  apply ends_upd_cpu; intros; repeat case_match; reflexivity : ends.
#[local] Hint Extern 2 (ends_at _ _) =>
  apply ends_keeps; [solve [auto with keeps]|solve [auto with exits]] : ends.

Lemma ends_get_cpu : ends get_cpu.
Proof using Type. intros m. by split; [|left]. Qed.
Lemma ends_get : ends get.
Proof using Type. intros m. by split; [|left]. Qed.
#[local] Hint Resolve ends_get_cpu ends_get : ends.
Lemma ends_InstAssert b : ends (InstAssert b).
Proof using Hexc. unfold InstAssert. rewrite Hexc. ends_solve. Qed.
Lemma ends_CHECK_ALIGNED e n a : ends (CHECK_ALIGNED_ADDR e n a).
Proof using Hexc. unfold CHECK_ALIGNED_ADDR. rewrite Hexc. ends_solve. Qed.
Lemma ends_overflow : ends overflow.
Proof using Hexc. unfold overflow. rewrite Hexc. ends_solve. Qed.
Lemma ends_assign_rd o f : ends (assign_rd o f).
Proof using Type. unfold assign_rd. auto with ends. Qed.
Lemma ends_assign_rt o f : ends (assign_rt o f).
Proof using Type. unfold assign_rt. auto with ends. Qed.
Lemma ends_copy_field v f : ends (System.copy_field v f).
Proof using Type. unfold System.copy_field. auto with ends. Qed.
Lemma ends_tlb_write i : ends (tlb_write i).
Proof using Type. unfold tlb_write. ends_solve. Qed.
Lemma ends_tlb_read i : ends (tlb_read i).
Proof using Type. unfold tlb_read, read_entry_lo. ends_solve. Qed.
Lemma ends_tlb_present : ends tlb_present.
Proof using Type.
  unfold tlb_present. apply ends_bind; [auto with ends|]. intros m.
  generalize 0 as i. induction (tlb m) as [|e l IH]; intros i; cbn; ends_solve.
Qed.
Lemma ends_rand : ends rand.
Proof using Type. unfold rand. ends_solve. Qed.
#[local] Hint Resolve ends_InstAssert ends_CHECK_ALIGNED ends_overflow ends_assign_rd ends_assign_rt
  ends_copy_field ends_tlb_write ends_tlb_read ends_tlb_present ends_rand : ends.

(** Taken, it jumps; not taken, it skips an instruction. *)
Lemma ends_branch_likely b o : ends_at (fun p => u32 (p + 4)) (Branch.branch_likely b o).
Proof using Hds Hdc.
  destruct b; cbn [Branch.branch_likely]; [ends_solve|]. intros m. cbn. split; [done|by left].
Qed.
#[local] Hint Resolve ends_branch_likely : ends.

Lemma ends_likely h o : likely h = true -> ends_at (fun p => u32 (p + 4)) (exec_handler h o).
Proof using Hds Hdc Hexc.
  intros Hl. destruct h; try discriminate Hl; cbn [exec_handler]; autounfold with exec;
    unfold Branch.link; ends_solve.
Qed.

Lemma ends_handler h o : likely h = false -> ends (exec_handler h o).
Proof using Hds Hdc Hexc.
  intros Hl. destruct h; try discriminate Hl; cbn [exec_handler]; autounfold with exec;
    unfold Alu.R_SIMPLE, Mdu.rd_sa_zero, Mdu.put_hilo, Branch.branch,
      Branch.link, Trap.trap_if, LoadStore.load, LoadStore.store, System.mtc0_status,
      System.mtc0_entry_lo, System.mtc0_cause, Special.should_not_reach_here,
      Float.put_rt_field, Float.put_fcsr, Float.fp_cond, Float.fop_s, Float.fop_d,
      Float.assign_fd, Float.assign_dd, Float.defined, Float.cmp_s, Float.cmp_d,
      Float.set_cond;
    ends_solve.
Qed.

Lemma to_exit_ends h o m m' :
  to_exit h (exec_handler h o) m = Ok tt m' ->
  pc (cpu m') = advance h (pc (cpu m)) /\
    cleared_or_same (decode_cache m) (decode_cache m') \/
  jumped m m'.
Proof using Hds Hdc Hexc.
  unfold to_exit, handler_end, advance. rewrite Hds.
  assert (ends_at (fun p => if likely h then u32 (p + 4) else p) (exec_handler h o)) as H.
  { destruct (likely h) eqn:El; [by apply ends_likely|by apply ends_handler]. }
  specialize (H m). destruct (exec_handler h o m) as [[] m1|m1|x m1]; [| |done].
  2: { intros [= <-]. by right. }
  destruct H as [Ep Ec]. intros E. left.
  destruct (last_handler h); injection E as <-; cbn; by rewrite Ep.
Qed.
End Ends.

(** ** make_entry *)
Definition ds_put (p : ds_ptr) (e : decode_state_t) : decode_cache_t -> decode_cache_t :=
  match p with DsHead i => put_tab i e | DsNode b => put_heap b e end.

(** The cache after a state was allocated behind [p] and filled with [node]. *)
Definition dc_extend (p : ds_ptr) (e node : decode_state_t) (d : decode_cache_t) : decode_cache_t :=
  let b := dc_brk d in
  put_heap b node (set_dc_ds (DsNode b)
    (ds_put p (set_ds_next (Some b) e) (set_dc_brk (b + 1) (put_heap b (dc_junk d b) d)))).

Section Entry.
Context {cfg : Config} (code : Z -> Z).

Lemma brk_fresh g d : chains code g d -> dc_heap d !! dc_brk d = None.
Proof using Type.
  intros Hch. destruct (dc_heap d !! dc_brk d) as [e|] eqn:E; [|done].
  apply (ch_brk _ _ _ Hch) in E. lia.
Qed.

Lemma ds_at_ne_brk g d p e : chains code g d -> ds_at d p = Some e -> p <> DsNode (dc_brk d).
Proof using Type. intros Hch Hp ->. cbn in Hp. by rewrite (brk_fresh g d Hch) in Hp. Qed.

Lemma ds_at_extend g d p e node q :
  chains code g d -> ds_at d p = Some e ->
  ds_at (dc_extend p e node d) q =
  if decide (q = DsNode (dc_brk d)) then Some node
  else if decide (q = p) then Some (set_ds_next (Some (dc_brk d)) e) else ds_at d q.
Proof using Type.
  intros Hch Hp. pose proof (ds_at_ne_brk g d p e Hch Hp) as Hne. unfold dc_extend.
  set (b := dc_brk d) in *. set (d1 := set_dc_brk _ _).
  assert (forall q, q <> DsNode b -> ds_at d1 q = ds_at d q) as H1.
  { intros [i|b'] Hq; [done|]. cbn. apply lookup_insert_ne. congruence. }
  assert (forall q, ds_at (ds_put p (set_ds_next (Some b) e) d1) q =
            if decide (q = p) then Some (set_ds_next (Some b) e) else ds_at d1 q) as H2.
  { intros q'. destruct p as [i|b']; cbn [ds_put].
    - cbn in Hp. destruct (Z.leb_spec 0 i); [|done]. apply ds_at_put_tab; [|done].
      by apply lookup_lt_Some in Hp.
    - case_decide as E; [subst q'; apply lookup_insert_eq|]. destruct q' as [i|b2]; [done|].
      apply lookup_insert_ne. congruence. }
  case_decide as E; [subst q; apply lookup_insert_eq|].
  transitivity (ds_at (ds_put p (set_ds_next (Some b) e) d1) q).
  { destruct q as [i|b']; [done|]. apply lookup_insert_ne. congruence. }
  rewrite H2. case_decide; [done|]. by apply H1.
Qed.

Lemma decoded_next p e n : decoded code p e -> decoded code p (set_ds_next n e).
Proof using Type. intros []. by split. Qed.

Definition new_addr (g : Z -> Z) (b p : Z) : Z -> Z := fun b' => if b' =? b then p else g b'.

Lemma chains_extend g d p e node pc :
  chains code g d -> ds_at d p = Some e -> ds_next e = None -> next_pc code g p e = pc ->
  decoded code pc node -> ds_next node = None ->
  chains code (new_addr g (dc_brk d) pc) (dc_extend p e node d).
Proof using Type.
  intros Hch Hp Hno Hpc Hdec Hnode0. pose proof Hch as [Hlen Hbrk Hnode Hlink Hinj].
  set (b := dc_brk d) in *. set (g' := new_addr g b pc). set (d' := dc_extend p e node d).
  assert (forall q, ds_at d' q = if decide (q = DsNode b) then Some node
            else if decide (q = p) then Some (set_ds_next (Some b) e) else ds_at d q) as Hat
    by (intros; by apply (ds_at_extend g)).
  assert (forall x, x < b -> g' x = g x) as Hg by (intros; unfold g', new_addr; by rewrite (proj2 (Z.eqb_neq _ _)) by lia).
  assert (g' b = pc) as Hgb by (unfold g', new_addr; by rewrite Z.eqb_refl).
  assert (forall q e', ds_at d q = Some e' -> next_pc code g' q e' = next_pc code g q e') as Hnp.
  { intros [i|x] e' Hq; [done|]. cbn. rewrite Hg by (by apply (Hbrk x e')). done. }
  assert (forall x, is_Some (dc_heap d !! x) -> is_Some (dc_heap d' !! x)) as Hsome.
  { intros x Hx. change (is_Some (ds_at d' (DsNode x))). rewrite Hat. repeat case_decide; done. }
  split.
  - assert (length (dc_tab d') = length (dc_tab d)) as ->; [|done].
    unfold d', dc_extend. destruct p as [i|x]; cbn; [apply length_insert|done].
  - intros x e' Hx. change (ds_at d' (DsNode x) = Some e') in Hx. rewrite Hat in Hx.
    assert (dc_brk d' = b + 1) as -> by (unfold d', dc_extend; by destruct p).
    case_decide as E1; [injection E1 as ->; lia|]. case_decide as E2.
    + subst p. apply Hbrk in Hp. lia.
    + apply Hbrk in Hx. lia.
  - intros x e' Hx. change (ds_at d' (DsNode x) = Some e') in Hx. rewrite Hat in Hx.
    case_decide as E1; [injection E1 as ->; injection Hx as <-; by rewrite Hgb|]. case_decide as E2.
    + subst p. injection Hx as <-. rewrite Hg by (by apply (Hbrk x e)). by apply decoded_next, Hnode.
    + rewrite Hg by (by apply (Hbrk x e')). by apply Hnode.
  - intros q e' n Hq Hn. rewrite Hat in Hq. case_decide as E1; [injection Hq as <-; congruence|].
    case_decide as E2.
    + subst q. injection Hq as <-. injection Hn as <-. split.
      * change (is_Some (ds_at d' (DsNode b))). rewrite Hat. by case_decide.
      * rewrite Hgb, <- Hpc, <- (Hnp p e Hp). by destruct p.
    + destruct (Hlink q e' n Hq Hn) as [Hs En]. split; [by apply Hsome|].
      rewrite (Hnp q e' Hq), Hg; [done|]. destruct Hs as [e2 He2]. by apply (Hbrk n e2).
  - assert (forall q e' n, ds_at d q = Some e' -> ds_next e' = Some n -> n <> b) as Hold.
    { intros q e' n Hq Hn ->. destruct (Hlink q e' b Hq Hn) as [[e2 He2] _]. apply Hbrk in He2. lia. }
    intros q q' e1 e2 n Hq Hq' Hn Hn'. rewrite Hat in Hq, Hq'.
    destruct (decide (q = DsNode b)); [injection Hq as <-; congruence|].
    destruct (decide (q' = DsNode b)); [injection Hq' as <-; congruence|].
    destruct (decide (q = p)), (decide (q' = p)).
    + congruence.
    + injection Hq as <-. injection Hn as <-. by destruct (Hold q' e2 b Hq' Hn').
    + injection Hq' as <-. injection Hn' as <-. by destruct (Hold q e1 b Hq Hn).
    + by apply (Hinj q q' e1 e2 n).
Qed.

Lemma ds_load_run m p e : ds_at (decode_cache m) p = Some e -> ds_load p m = Ok e m.
Proof using Type.
  unfold ds_load, get_dc, gets, bind. destruct p as [i|b]; cbn; [|by intros ->].
  unfold tab_at. destruct (0 <=? i); [|done]. by intros ->.
Qed.

Lemma ds_upd_run m p e f :
  ds_at (decode_cache m) p = Some e ->
  ds_upd p f m = Ok tt (set_decode_cache (ds_put p (f e) (decode_cache m)) m).
Proof using Type.
  intros H. unfold ds_upd. rewrite (bind_ok _ _ _ _ _ (ds_load_run m p e H)). by destruct p.
Qed.

Lemma put_heap_twice b e e' d : put_heap b e (put_heap b e' d) = put_heap b e d.
Proof using Type. unfold put_heap, set_dc_heap. cbn. by rewrite insert_insert_eq. Qed.

Lemma cleared_put_heap b e d d' :
  cleared_or_same d d' -> cleared_or_same (put_heap b e d) (put_heap b e d').
Proof using Type. intros [->| ->]; [by left|by right]. Qed.

(** The state with register 0 cleared in which make_entry reads memory. *)
Definition entry_state (d : decode_cache_t) (m : machine) : machine :=
  set_decode_cache d (set_cpu (put_gpr 0 0 (cpu m)) m).

(** The contents of a fresh state once it is decoded. *)
Definition filled (inst : Z) (junk : decode_state_t) : decode_state_t :=
  let e := set_ds_next None junk in
  let e := if CONFIG_INSTR_LOG then set_ds_inst inst e else e in
  set_ds_handler (decoder_get_handler inst) (decoder_set_state e inst).

Lemma filled_decoded p junk : cacheable (code p) = true -> decoded code p (filled (code p) junk).
Proof using Type.
  intros Hc. unfold filled. set (e := if CONFIG_INSTR_LOG then _ else _).
  assert (forall e w, ds_inst (decoder_set_state e w) = ds_inst e) as Hi.
  { intros [] w. unfold decoder_set_state. repeat case_match; done. }
  split; [done| |].
  - intros HL. cbn. rewrite Hi. unfold e. by rewrite HL.
  - intros h Hh. change (ds_ops (set_ds_handler _ ?x)) with (ds_ops x). by apply ds_ops_exec.
Qed.

Lemma filled_next inst junk : ds_next (filled inst junk) = None.
Proof using Type.
  assert (forall e w, ds_next (decoder_set_state e w) = ds_next e) as Hi.
  { intros [] w. unfold decoder_set_state. repeat case_match; done. }
  unfold filled. cbn. rewrite Hi. by destruct CONFIG_INSTR_LOG.
Qed.

(** The two paths of make_entry, run. *)
Lemma entry_hit m e b e1 :
  let d := decode_cache m in
  ds_at d (dc_ds d) = Some e -> ds_next e = Some b -> dc_heap d !! b = Some e1 ->
  exists m', cached_entry m = Ok (ds_handler e1) m' /\ pc (cpu m') = pc (cpu m) /\
    decode_cache m' = set_dc_ds (DsNode b) d.
Proof using Type.
  intros d He Hn Hb. unfold cached_entry. erewrite bind_ok by reflexivity. erewrite bind_ok by reflexivity.
  set (m0 := set_cpu _ m). change (decode_cache m0) with d.
  rewrite (bind_ok _ _ _ _ _ (ds_load_run m0 (dc_ds d) e He)), Hn. erewrite bind_ok by reflexivity.
  set (m1 := set_decode_cache _ m0).
  rewrite (bind_ok _ _ _ _ _ (ds_load_run m1 (DsNode b) e1 Hb)).
  unfold when. destruct CONFIG_INSTR_LOG; (erewrite bind_ok by reflexivity); by eexists.
Qed.

Lemma entry_miss g m e :
  let d := decode_cache m in
  chains code g d -> ds_at d (dc_ds d) = Some e -> ds_next e = None ->
  let m1 := entry_state (dc_extend (dc_ds d) e (set_ds_next None (dc_junk d (dc_brk d))) d) m in
  match vaddr_read (pc (cpu m)) 4 m1 with
  | Ok inst m2 =>
      exists m', cached_entry m = Ok (decoder_get_handler inst) m' /\ pc (cpu m') = pc (cpu m2) /\
        decode_cache m' = put_heap (dc_brk d) (filled inst (dc_junk d (dc_brk d))) (decode_cache m2)
  | Exit m2 => cached_entry m = Exit m2
  | Stop h m2 => cached_entry m = Stop h m2
  end.
Proof using Type.
  intros d Hch He Hn m1. pose proof (ds_at_ne_brk g d _ e Hch He) as Hne. set (b := dc_brk d) in *.
  set (junk := dc_junk d b) in *.
  unfold cached_entry. erewrite bind_ok by reflexivity. erewrite bind_ok by reflexivity.
  set (m0 := set_cpu _ m). change (decode_cache m0) with d.
  rewrite (bind_ok _ _ _ _ _ (ds_load_run m0 (dc_ds d) e He)), Hn.
  rewrite (bind_ok malloc_ds _ m0 b _ eq_refl).
  set (ma := set_decode_cache _ m0).
  assert (ds_at (decode_cache ma) (dc_ds d) = Some e) as Ha.
  { destruct (dc_ds d) as [i|x]; [done|]. cbn. rewrite lookup_insert_ne; [done|]. fold d b. congruence. }
  rewrite (bind_ok _ _ _ _ _ (ds_upd_run ma _ e _ Ha)).
  erewrite bind_ok by reflexivity. set (mb := set_decode_cache (set_dc_ds _ _) _).
  assert (ds_at (decode_cache mb) (DsNode b) = Some junk) as Hb.
  { cbn. destruct (dc_ds d) as [i|x]; cbn; [apply lookup_insert_eq|].
    rewrite lookup_insert_ne by congruence. apply lookup_insert_eq. }
  rewrite (bind_ok _ _ _ _ _ (ds_upd_run mb _ junk _ Hb)).
  erewrite bind_ok by reflexivity. set (mc := set_decode_cache _ mb). change mc with m1.
  change (pc (cpu m1)) with (pc (cpu m)).
  pose proof (keeps_vaddr_read quiet (pc (cpu m)) 4 m1) as Hq.
  destruct (vaddr_read (pc (cpu m)) 4 m1) as [inst m2|m2|h m2] eqn:Er;
    [|by erewrite bind_exit by exact Er|by erewrite bind_stop by exact Er].
  rewrite (bind_ok _ _ _ _ _ Er). destruct Hq as [_ Hcl]. cbn [st] in Hcl.
  destruct (cleared_fields _ _ Hcl) as (Eh & _).
  assert (forall m3 x, ds_at (decode_cache m3) (DsNode b) = Some x ->
    exists m', (ds_upd (DsNode b) (fun e => decoder_set_state e inst) ;;
      ds_upd (DsNode b) (set_ds_handler (decoder_get_handler inst)) ;; ret (decoder_get_handler inst)) m3 =
      Ok (decoder_get_handler inst) m' /\ pc (cpu m') = pc (cpu m3) /\
      decode_cache m' = put_heap b (set_ds_handler (decoder_get_handler inst) (decoder_set_state x inst))
        (decode_cache m3)) as Htail.
  { intros m3 x Hx. rewrite (bind_ok _ _ _ _ _ (ds_upd_run m3 _ x _ Hx)).
    erewrite bind_ok by (eapply ds_upd_run; cbn; apply lookup_insert_eq).
    eexists. split; [reflexivity|]. split; [done|]. cbn [decode_cache set_decode_cache ds_put]. apply put_heap_twice. }
  assert (ds_at (decode_cache m2) (DsNode b) = Some (set_ds_next None junk)) as H2.
  { cbn [ds_at]. rewrite Eh. apply lookup_insert_eq. }
  unfold filled, when. destruct CONFIG_INSTR_LOG.
  - erewrite bind_ok; cycle 1.
    { erewrite bind_ok by reflexivity. by apply (ds_upd_run (set_iq _ m2) (DsNode b) (set_ds_next None junk)). }
    set (m3 := set_decode_cache _ _).
    destruct (Htail m3 (set_ds_inst inst (set_ds_next None junk))) as (m' & E & Ep & Ed); [cbn; apply lookup_insert_eq|].
    exists m'. split; [exact E|]. split; [exact Ep|]. rewrite Ed. unfold m3. cbn [decode_cache set_decode_cache ds_put].
    apply put_heap_twice.
  - erewrite bind_ok by reflexivity. by apply Htail.
Qed.

(** The word memory holds at pc. *)
Definition text_at_pc (m : machine) : Prop := forall d q,
  match vaddr_read (pc (cpu m)) 4 (entry_state d (set_iq q m)) with
  | Ok v _ => v = code (pc (cpu m))
  | _ => True
  end.

(** Whichever path it takes, make_entry ends at the label of the instruction at pc. *)
Lemma entry_ok g m :
  chains code g (decode_cache m) -> synced code g (decode_cache m) (pc (cpu m)) ->
  cacheable (code (pc (cpu m))) = true -> text_at_pc m ->
  match cached_entry m with
  | Ok h m' =>
      h = decoder_get_handler (code (pc (cpu m))) /\ pc (cpu m') = pc (cpu m) /\
      exists g' b e, chains code g' (decode_cache m') /\ dc_ds (decode_cache m') = DsNode b /\
        dc_heap (decode_cache m') !! b = Some e /\ g' b = pc (cpu m)
  | Exit _ => False
  | Stop _ _ => True
  end.
Proof using Type.
  intros Hch (e & He & Hpc) Hc Ht. set (d := decode_cache m) in *. destruct (ds_next e) as [b|] eqn:En.
  - destruct (ch_link _ _ _ Hch _ e b He En) as [[e1 He1] Hg].
    destruct (entry_hit m e b e1 He En He1) as (m' & -> & Ep & Ed). fold d in Ed.
    assert (g b = pc (cpu m)) as Hgb by congruence.
    pose proof (ch_node _ _ _ Hch b e1 He1) as [Hh _ _]. rewrite Hgb in Hh.
    split; [done|]. split; [done|]. exists g, b, e1. rewrite Ed. split_and!; try done. by apply chains_set_ds.
  - set (b := dc_brk d). set (junk := dc_junk d b).
    pose proof (entry_miss g m e Hch He En) as Hm. cbv zeta in Hm. fold d b junk in Hm.
    set (m1 := entry_state _ m) in Hm.
    pose proof (keeps_vaddr_read quiet (pc (cpu m)) 4 m1) as Hq.
    assert (match vaddr_read (pc (cpu m)) 4 m1 with Ok v _ => v = code (pc (cpu m)) | _ => True end) as Hv.
    { specialize (Ht (decode_cache m1) (iq m)). unfold m1. by destruct m. }
    pose proof (no_exit_vaddr_read (pc (cpu m)) 4 m1) as Hx.
    destruct (vaddr_read (pc (cpu m)) 4 m1) as [inst m2|m2|h m2]; [|by destruct (Hx m2)|by rewrite Hm].
    subst inst. destruct Hm as (m' & -> & Ep & Ed). destruct Hq as [Ep2 Hcl]. cbn [st] in *.
    split; [done|]. split; [by rewrite Ep, Ep2|].
    set (node := filled (code (pc (cpu m))) junk) in *.
    apply (cleared_put_heap b node) in Hcl. rewrite <- Ed in Hcl.
    assert (put_heap b node (decode_cache m1) = dc_extend (dc_ds d) e node d) as Eext
      by (unfold m1, dc_extend; apply put_heap_twice).
    rewrite Eext in Hcl. destruct (cleared_fields _ _ Hcl) as (Eh & _ & Eds & _).
    exists (new_addr g b (pc (cpu m))), b, node. split_and!.
    + apply (chains_cleared _ _ _ _ Hcl). apply chains_extend; try done.
      * by apply filled_decoded.
      * apply filled_next.
    + rewrite Eds. unfold dc_extend. by destruct (dc_ds d).
    + rewrite Eh. unfold dc_extend. apply lookup_insert_eq.
    + unfold new_addr. by rewrite Z.eqb_refl.
Qed.
End Entry.

(** ** Runs *)
Section Transparent.
Context {cfg : Config} (code : Z -> Z).

(** The reference: one turn of the loop executes the instruction [code] holds at pc. *)
Definition exec_text : EM unit :=
  let! c := get_cpu in
  let! _ := cached_entry in
  exec_inst (code (pc c)).

Definition step_text : EM unit :=
  let! c := get_cpu in
  when CONFIG_INSTR_LOG (instr_enqueue_pc (pc c)) ;;
  exec_text ;;
  check_exception.

Fixpoint loop_text (n : nat) : EM unit :=
  match n with
  | O => ret tt
  | S n =>
      step_text ;;
      let! m := get in
      if decide (nemu_state m = NEMU_RUNNING) then loop_text n else ret tt
  end.

(** cpu_exec around that loop. *)
Definition start_run : EM unit :=
  modify (set_nemu_state NEMU_RUNNING) ;;
  let! c := get_cpu in
  when CONFIG_DECODE_CACHE (refetch_ds (pc c)).
Definition run_text (n : nat) : EM unit :=
  start_run ;;
  loop_text n ;;
  let! m := get in
  when (bool_decide (nemu_state m = NEMU_RUNNING)) (modify (set_nemu_state NEMU_STOP)).
Definition cpu_exec_text (n : nat) : EM unit := fun m =>
  if decide (nemu_state m = NEMU_END) then Ok tt m
  else match run_text n m with
       | Stop HCPUAssert m' =>
           if work_mode m =? MODE_GDB then Ok tt (set_nemu_state NEMU_END m')
           else Stop HCPUAssert m'
       | r => r
       end.

(** Along the run, memory holds [code] at pc, and no instruction is one the cache
    cannot hold. *)
Fixpoint runs_text (n : nat) (m : machine) : Prop :=
  match n with
  | O => True
  | S n =>
      cacheable (code (pc (cpu m))) = true /\ text_at_pc code m /\
      match step_text m with
      | Ok _ m' => nemu_state m' = NEMU_RUNNING -> runs_text n m'
      | _ => True
      end
  end.

(** The chains hold instructions of [code]. *)
Definition holds_text (m : machine) : Prop := exists g, chains code g (decode_cache m).
Definition ready (m : machine) : Prop :=
  exists g, chains code g (decode_cache m) /\ synced code g (decode_cache m) (pc (cpu m)).

Context (Hds : CONFIG_DELAYSLOT = false) (Hdc : CONFIG_DECODE_CACHE = true)
        (Hexc : CONFIG_EXCEPTION = false) (Hintr : CONFIG_INTR = false).

Lemma exec_cached_text m :
  ready m -> cacheable (code (pc (cpu m))) = true -> text_at_pc code m ->
  exec_cached m = exec_text m /\ forall m', exec_text m = Ok tt m' -> ready m'.
Proof using Hds Hdc Hexc.
  intros (g & Hch & Hs) Hc Ht. unfold exec_cached, exec_text.
  rewrite (bind_ok get_cpu _ m (cpu m) m eq_refl).
  pose proof (entry_ok code g m Hch Hs Hc Ht) as He. unfold bind at 1 4 5.
  destruct (cached_entry m) as [h m1|m1|x m1]; [|done|done].
  destruct He as (-> & Ep & g' & b & e & Hch' & Hb & Hbe & Hgb).
  rewrite (bind_ok get_dc _ m1 (decode_cache m1) m1 eq_refl).
  rewrite (bind_ok _ _ _ _ _ (ds_load_run m1 (dc_ds (decode_cache m1)) e ltac:(rewrite Hb; exact Hbe))).
  pose proof (ch_node _ _ _ Hch' b e Hbe) as [_ _ Hops]. rewrite Hgb in Hops.
  unfold exec_inst, dispatch. destruct (decoder_get_handler (code (pc (cpu m)))) as [h|] eqn:Eh; [|done].
  unfold to_exit at 1. rewrite (Hops h eq_refl). split; [done|]. intros m' Hm'.
  apply (to_exit_ends Hds Hdc Hexc) in Hm' as [[Epc Hcl]|(m2 & Hcl & Hr)].
  - exists g'. split; [by apply (chains_cleared _ _ _ _ Hcl)|].
    apply (synced_cleared code g' _ _ _ b Hcl Hb). exists e. rewrite Hb. split; [exact Hbe|].
    cbn. unfold succ_pc. rewrite Hgb, Eh, Epc, Ep. done.
  - apply (chains_cleared _ _ _ _ Hcl) in Hch'.
    destruct (refetch_ok code g' m2 (pc (cpu m2)) Hch') as (d' & E & Hd1 & Hd2).
    rewrite E in Hr. injection Hr as <-. by exists g'.
Qed.

Lemma step_cached m :
  ready m -> cacheable (code (pc (cpu m))) = true -> text_at_pc code m ->
  step m = step_text m /\ forall m', step_text m = Ok tt m' -> ready m'.
Proof using Hds Hdc Hexc Hintr.
  intros Hr Hc Ht. unfold step, step_text. rewrite (bind_ok get_cpu _ m (cpu m) m eq_refl).
  rewrite (bind_ok get_cpu _ m (cpu m) m eq_refl).
  assert (exists m1, when CONFIG_INSTR_LOG (instr_enqueue_pc (pc (cpu m))) m = Ok tt m1 /\
            decode_cache m1 = decode_cache m /\ cpu m1 = cpu m /\ text_at_pc code m1)
    as (m1 & E & Ed & Ec & Ht1).
  { unfold when. destruct CONFIG_INSTR_LOG; [|by exists m]. eexists. split; [reflexivity|].
    split; [done|]. split; [done|]. intros d q. apply (Ht d q). }
  rewrite (bind_ok _ _ _ _ _ E), (bind_ok _ _ _ _ _ E). rewrite Hexc, Hdc. cbn [andb].
  destruct (exec_cached_text m1) as [Ex Hex].
  { destruct Hr as (g & H1 & H2). exists g. by rewrite Ed, Ec. }
  { by rewrite Ec. } { exact Ht1. }
  assert (forall k, (k ;; check_exception) m1 = k m1) as Hce.
  { intros k. unfold check_exception, bind. rewrite Hexc, Hintr. by destruct (k m1) as [[]| |]. }
  rewrite !Hce, Ex. split; [done|exact Hex].
Qed.

Lemma loop_cached n m :
  ready m -> runs_text n m ->
  cpu_loop n m = loop_text n m /\ forall m', loop_text n m = Ok tt m' -> ready m'.
Proof using Hds Hdc Hexc Hintr.
  revert m. induction n as [|n IH]; intros m Hr Hrun.
  { split; [done|]. by intros m' [= <-]. }
  destruct Hrun as (Hc & Ht & Hnext). destruct (step_cached m Hr Hc Ht) as [Es Hrs].
  cbn [cpu_loop loop_text]. unfold bind at 1 3 5. rewrite Es.
  destruct (step_text m) as [[] m1|m1|h m1]; [|done|done]. specialize (Hrs m1 eq_refl).
  rewrite !(bind_ok get _ m1 m1 m1 eq_refl). case_decide as Hst; [by apply IH; auto|].
  split; [done|]. by intros m' [= <-].
Qed.

Lemma start_ready m :
  holds_text m -> exists m0, start_run m = Ok tt m0 /\ ready m0.
Proof using Hdc.
  intros [g Hch]. unfold start_run. rewrite Hdc. cbn [when].
  set (m1 := set_nemu_state NEMU_RUNNING m).
  destruct (refetch_ok code g m1 (pc (cpu m1)) Hch) as (d' & E & H1 & H2).
  exists (set_decode_cache d' m1). split; [exact E|]. by exists g.
Qed.
End Transparent.

(** C36: the decode cache is transparent.  In a build with the decode cache and without
    delay slots, exceptions and interrupts, when the chains hold instructions of the
    program text (as they do when nothing is cached), memory holds that text at every
    pc the run reaches, and no instruction the run reaches is a coprocessor 1 instruction,
    movf or movt (decoder_set_state does not fill in what those read), cpu_exec equals the loop that at every turn, after make_entry has
    followed or extended the chain, executes the instruction the text has at pc: the
    handler and the operands taken from a chain are always those of that instruction.
    When cpu_exec stops so that it can be resumed, the chains hold the text again. *)
Theorem decode_cache_transparent {cfg : Config} code n m :
  CONFIG_DELAYSLOT = false -> CONFIG_DECODE_CACHE = true ->
  CONFIG_EXCEPTION = false -> CONFIG_INTR = false ->
  holds_text code m ->
  match start_run m with Ok _ m0 => runs_text code n m0 | _ => True end ->
  cpu_exec n m = cpu_exec_text code n m /\
  forall m', cpu_exec n m = Ok tt m' -> nemu_state m' = NEMU_STOP -> holds_text code m'.
Proof.
  intros Hds Hdc Hexc Hintr Hh Hrun.
  destruct (start_ready code Hdc m Hh) as (m0 & E0 & Hr). rewrite E0 in Hrun.
  destruct (loop_cached code Hds Hdc Hexc Hintr n m0 Hr Hrun) as [El Hrl].
  assert (run_loop n m = run_text code n m) as Erun.
  { unfold run_text. rewrite (bind_ok _ _ _ _ _ E0). unfold start_run in E0. rewrite Hdc in E0. cbn [when] in E0.
    unfold run_loop. rewrite Hdc. cbn [when]. unfold bind at 1 2 3. unfold bind at 1 2 in E0.
    cbn [modify] in *. destruct (get_cpu _) as [c mc|mc|h mc]; [|done|done].
    destruct (refetch_ds _ _) as [[] m2|m2|h m2]; [|done|done]. injection E0 as ->.
    unfold bind at 1 3. by rewrite El. }
  unfold cpu_exec, cpu_exec_text. rewrite Erun. split; [done|]. intros m'.
  case_decide; [by intros [= <-]|]. unfold run_text. rewrite (bind_ok _ _ _ _ _ E0).
  unfold bind at 1. destruct (loop_text code n m0) as [[] m1|m1|h m1]; [|done|].
  - destruct (Hrl m1 eq_refl) as (g & Hch & _). unfold bind, get, when. cbn.
    destruct (bool_decide _); intros [= <-] _; by exists g.
  - destruct h; try done. destruct (_ =? _); [|done]. by intros [= <-].
Qed.

(** Nothing is cached. *)
Lemma holds_text_clear {cfg : Config} code m :
  length (dc_tab (decode_cache m)) = Z.to_nat (2 ^ DECODE_CACHE_BITS) ->
  dc_heap (decode_cache m) = ∅ -> Forall (fun e => ds_next e = None) (dc_tab (decode_cache m)) ->
  holds_text code m.
Proof.
  intros Hl Hh Hn. exists (fun _ => 0).
  assert (forall p e, ds_at (decode_cache m) p = Some e -> ds_next e = None) as H.
  { intros [i|b] e; cbn.
    - destruct (0 <=? i); [|done]. intros Hi. by apply (Forall_lookup_1 _ _ _ _ Hn Hi).
    - rewrite Hh. done. }
  split; [done|rewrite Hh; done|rewrite Hh; done| |].
  - intros p e n Hp Hx. rewrite (H p e Hp) in Hx. done.
  - intros p q e e' n Hp _ Hx. rewrite (H p e Hp) in Hx. done.
Qed.

(** A loop that counts $1 up to $2: addiu $1, $1, 1; bne $1, $2, -2. *)
Definition count_text (p : Z) : Z := if p =? 0xbfc00000 then 0x24210001 else 0x1422fffe.
Definition m_bench : machine :=
  set_cpu (set_pc 0xbfc00000 (put_gpr 2 9 (cpu m_zero)))
    (set_memory_regions {[0x1fc00 := bram_dev]}
      (set_bram (st_bytes (st_bytes ∅ 0 4 0x24210001) 4 4 0x1422fffe) m_zero)).

Lemma decode_cache_transparent_witness :
  cpu_exec (cfg := microbench_defconfig) 7 m_bench = cpu_exec_text (cfg := microbench_defconfig) count_text 7 m_bench.
Proof.
  apply (decode_cache_transparent (cfg := microbench_defconfig) count_text 7 m_bench);
    [reflexivity..| |].
  - apply (holds_text_clear (cfg := microbench_defconfig)); [vm_compute; done|done|].
    apply Forall_replicate. done.
  - vm_compute. repeat split.
Defined.
