(* ===== verification/CpuProps.v ===== *)
(** * The CPU loop and control flow

    Decoding is total, a run keeps the machine well-formed and ends in a definite
    state, $0 reads zero, branches take effect after their delay slot. *)
From S2P Require Import Prelude Config Reg Fifo Ram Flash Sdlkey Machine Ulite Spi Device Mmu Memory.
From S2P Require Import ExecAlu ExecMdu ExecMem Softfloat ExecFloat Decode Cpu Frame Invariant Exits Samples Exceptions ArithProps.
Local Open Scope nemu_scope.

(** ** Decoding *)
(** The labels that only stand for a nested table. *)
Definition nested (h : handler) : bool :=
  match h with
  | H_exec_special | H_exec_special2 | H_exec_special3 | H_exec_bshfl | H_exec_regimm
  | H_exec_cop0 | H_exec_cop1 => true
  | _ => false
  end.

(** Entry [i] of a table exists and is an instruction. *)
Definition good (table : list handler) (i : Z) : bool :=
  match entry table i with Some h => negb (nested h) | None => false end.

Definition range (n : nat) : list Z := map Z.of_nat (seq 0 n).

Lemma in_range n i : 0 <= i < Z.of_nat n -> In i (range n).
Proof.
  intros H. apply in_map_iff. exists (Z.to_nat i). split; [lia|]. apply in_seq. lia.
Qed.

Lemma good_entry (skip : Z -> bool) n table i :
  forallb (fun i => skip i || good table i) (range n) = true -> 0 <= i < Z.of_nat n ->
  skip i = false -> exists h, entry table i = Some h /\ nested h = false.
Proof.
  rewrite forallb_forall. intros H Hi Hs. specialize (H i (in_range n i Hi)).
  rewrite Hs in H. unfold good in H. destruct (entry table i) as [h|]; [|done].
  exists h. split; [done|]. by apply negb_true_iff.
Qed.

Lemma field_range f w : 0 <= f_len f -> 0 <= bf_get f w < Z.of_nat (Z.to_nat (2 ^ f_len f)).
Proof. intros H. pose proof (bf_get_range f w H) as R. unfold in_u in R. lia. Qed.

(** C22: every 32-bit word decodes to the label of an instruction: the dispatch tables have
    an entry for every value of the fields that index them, and no word reaches the labels
    that stand for a nested table, whose code is a panic. *)
Theorem decoder_total w :
  exists h, decoder_get_handler w = Some h /\ nested h = false.
Proof.
  unfold decoder_get_handler.
  assert (forall lo len skip table, 0 <= len ->
    forallb (fun i => skip i || good table i) (range (Z.to_nat (2 ^ len))) = true ->
    skip (bf_get (mkField lo len) w) = false ->
    exists h, entry table (bf_get (mkField lo len) w) = Some h /\ nested h = false) as G.
  { intros lo len skip table Hl H Hs. eapply good_entry; [exact H| |exact Hs].
    by apply (field_range (mkField lo len)). }
  pose (none := fun _ : Z => false).
  destruct (Z.eqb_spec (inst_op w) 0x00); [by apply (G 0 6 none)|].
  destruct (Z.eqb_spec (inst_op w) 0x01); [by apply (G 16 5 none)|].
  destruct (Z.eqb_spec (inst_op w) 0x10); [destruct (_ =? 0); [by apply (G 21 5 none)|by apply (G 0 6 none)]|].
  destruct (Z.eqb_spec (inst_op w) 0x11).
  { destruct (_ =? FPU_FMT_S); [by apply (G 0 6 none)|].
    destruct (_ =? FPU_FMT_D); [by apply (G 0 6 none)|].
    destruct (_ =? FPU_FMT_W); [by apply (G 0 6 none)|]. by apply (G 21 5 none). }
  destruct (Z.eqb_spec (inst_op w) 0x1c); [by apply (G 0 6 none)|].
  destruct (Z.eqb_spec (inst_op w) 0x1f).
  { destruct (Z.eqb_spec (inst_func w) 0x20) as [|Hf]; [by apply (G 6 5 none)|].
    apply (G 0 6 (fun i => i =? 0x20)); [lia|done|]. apply Z.eqb_neq, Hf. }
  apply (G 26 6 (fun i => one_of i [0; 1; 0x10; 0x11; 0x1c; 0x1f])); [lia|vm_compute; done|].
  unfold one_of. cbn [existsb]. fold (inst_op w). rewrite !orb_false_iff, !Z.eqb_neq. tauto.
Qed.

(** ** Runs *)
Section Runs.
Context {cfg : Config}.

End Runs.



(** ** Register 0 *)
Definition same_gpr (m m' : machine) : Prop := gpr (cpu m') = gpr (cpu m).
#[export] Instance same_gpr_preorder : PreOrder same_gpr.
Proof. split; [done|]. unfold same_gpr. intros ??? E1 E2. congruence. Qed.
#[export] Instance same_gpr_dev_frame : DevFrame same_gpr.
Proof. split; try exact _; intros; done. Qed.
#[export] Instance same_gpr_bus_frame : BusFrame same_gpr.
Proof.
  split; try exact _; intros; try done. unfold same_gpr. cbn.
  by apply (sr_gpr _ _ (bus_upd_same _ _ H)).
Qed.

(** Whatever the previous instruction wrote to it, register 0 is zero when an
    instruction starts to execute, and the fetch changes no other general register, also
    when it faults. *)
Theorem fetch_zero_register {cfg : Config} m :
  wf m ->
  let m' := st (fetch m) in
  gpr_at (cpu m') 0 = 0 /\ forall i, 0 < i < 32 -> gpr_at (cpu m') i = gpr_at (cpu m) i.
Proof.
  intros Hwf m'. pose proof (wf_m_cpu m Hwf) as Hc.
  assert (gpr (cpu m') = gpr (put_gpr 0 0 (cpu m))) as E.
  { unfold m', fetch. rewrite (bind_ok (upd_cpu (put_gpr 0 0)) _ m tt _ eq_refl).
    set (m1 := set_cpu _ m). change (gpr (put_gpr 0 0 (cpu m))) with (gpr (cpu m1)).
    assert (keeps same_gpr (let! c := get_cpu in
      let! inst := vaddr_read (pc c) 4 in
      when CONFIG_INSTR_LOG (instr_enqueue_instr inst) ;; ret inst)) as K; [|by apply K].
    unfold get_cpu. keeps_solve. by apply keeps_modify. }
  unfold gpr_at. rewrite E. split.
  - by apply (gpr_put_eq (cpu m) 0 0).
  - intros i Hi. apply (gpr_put_ne (cpu m)); lia.
Qed.

Lemma fetch_zero_register_witness :
  gpr_at (cpu (st (fetch (cfg := mips32r1_defconfig)
    (set_cpu (put_gpr 0 7 (cpu m_zero)) m_zero)))) 0 = 0.
Proof.
  apply (fetch_zero_register (cfg := mips32r1_defconfig)).
  apply wf_set_cpu; auto 10 with words.
Defined.

(** ** Branches *)
(** The architectural description of a branch or jump: its condition, whether a branch
    not taken skips the delay slot, the register that gets the return address, the
    reserved fields that must be zero, and the destination. *)
Record flow := mkFlow {
  fl_cond : CPU_state -> bool;
  fl_likely : bool;
  fl_link : option Z;
  fl_ok : bool;
  fl_dest : CPU_state -> Z
}.

Section Flow.
Variable o : operands.

(** The bit of the FCSR that holds floating point condition [cc]. *)
Definition fcc_bit (cc : Z) : Z := if cc =? 0 then 23 else 24 + cc.

(** (pc + 4) + offset * 4 *)
Definition rel_dest (c : CPU_state) : Z := u32 (pc c + 4 + 4 * o_simm o).
(** the 256 MB region of the branch, as the emulator computes it from pc *)
Definition abs_dest (c : CPU_state) : Z := pc c / 2 ^ 28 * 2 ^ 28 + 4 * o_addr o.

Definition rel (cond : CPU_state -> bool) (likely : bool) (lnk : option Z) (ok : bool) : option flow :=
  Some (mkFlow cond likely lnk ok rel_dest).

Definition flow_of (h : handler) : option flow :=
  let eq c := gpr_at c (o_rs o) =? gpr_at c (o_rt o) in
  let rs c := s32 (gpr_at c (o_rs o)) in
  match h with
  | H_beq => rel eq false None true
  | H_bne => rel (fun c => negb (eq c)) false None true
  | H_blez => rel (fun c => rs c <=? 0) false None (o_rt o =? 0)
  | H_bgtz => rel (fun c => 0 <? rs c) false None true
  | H_bltz => rel (fun c => rs c <? 0) false None true
  | H_bgez => rel (fun c => 0 <=? rs c) false None true
  | H_bltzal => rel (fun c => rs c <? 0) false (Some 31) true
  | H_bgezal => rel (fun c => 0 <=? rs c) false (Some 31) true
  | H_beql => rel eq true None true
  | H_bnel => rel (fun c => negb (eq c)) true None true
  | H_blezl => rel (fun c => rs c <=? 0) true None (o_rt o =? 0)
  | H_bgtzl => rel (fun c => 0 <? rs c) true None true
  | H_bltzl => rel (fun c => rs c <? 0) true None true
  | H_bgezl => rel (fun c => 0 <=? rs c) true None true
  | H_bltzall => rel (fun c => rs c <? 0) true (Some 31) true
  | H_bgezall => rel (fun c => 0 <=? rs c) true (Some 31) true
  | H_bc1 => rel (fun c => eqb (Z.testbit (fcsr c) (fcc_bit (o_cc2 o))) (o_tf o =? 1)) false None (o_nd o =? 0)
  | H_j => Some (mkFlow (fun _ => true) false None true abs_dest)
  | H_jal => Some (mkFlow (fun _ => true) false (Some 31) true abs_dest)
  | H_jr => Some (mkFlow (fun _ => true) false None ((o_rt o =? 0) && (o_rd o =? 0))
                    (fun c => gpr_at c (o_rs o)))
  | H_jalr => Some (mkFlow (fun _ => true) false (Some (o_rd o)) ((o_rt o =? 0) && (o_shamt o =? 0))
                    (fun c => gpr_at c (o_rs o)))
  | _ => None
  end.
End Flow.

(** The CPU with the return address written. *)
Definition linked_cpu (f : flow) (c : CPU_state) : CPU_state :=
  match fl_link f with Some r => put_gpr r (pc c + 8) c | None => c end.

(** What a branch leaves: it waits for its delay slot, or the slot is skipped. *)
Definition branch_cpu (f : flow) (c : CPU_state) : CPU_state :=
  let c := linked_cpu f c in
  if fl_cond f c then set_pc (pc c + 4) (set_is_delayslot true (set_br_target (fl_dest f c) c))
  else if fl_likely f then set_pc (pc c + 8) (set_br_target (pc c + 8) c)
  else set_pc (pc c + 4) (set_is_delayslot true (set_br_target (pc c + 8) c)).

Section BranchRun.
Context {cfg : Config} (Hds : CONFIG_DELAYSLOT = true).

Lemma rel_target o c : set_br_target (Branch.target o c) c = set_br_target (rel_dest o c) c.
Proof.
  unfold set_br_target, rel_dest, Branch.target. f_equal.
  rewrite uw_uw, Z.shiftl_mul_pow2 by lia. f_equal. lia.
Qed.

Lemma abs_target w c :
  is_u32 (pc c) -> Branch.jump_target (inst_ops w) c = abs_dest (inst_ops w) c.
Proof.
  intros Hp. unfold Branch.jump_target, abs_dest.
  assert (Z.land (pc c) 0xf0000000 = Z.shiftl (pc c / 2 ^ 28) 28) as ->.
  { change 0xf0000000 with (Z.shiftl (Z.ones 4) 28). rewrite <- Z.shiftr_div_pow2 by lia.
    apply Z.bits_inj'. intros i Hi. rewrite Z.land_spec, !Z.shiftl_spec by lia.
    destruct (Z.ltb_spec i 28).
    - rewrite !(Z.testbit_neg_r _ (i - 28)) by lia. apply andb_false_r.
    - rewrite testbit_ones, Z.shiftr_spec by lia. replace (i - 28 + 28) with i by lia.
      destruct (Z.ltb_spec (i - 28) 4).
      + rewrite (proj2 (Z.leb_le 0 _)) by lia. apply andb_true_r.
      + by rewrite (testbit_in_u 32 (pc c) i) by (done || lia). }
  rewrite lor_shift_add; [|lia|].
  - rewrite Z.shiftl_mul_pow2 by lia. change (2 ^ 2) with 4. lia.
  - pose proof (bf_get_range (mkField 0 26) w ltac:(cbn; lia)) as H. unfold in_u in *.
    cbn [f_len] in H. change (o_addr (inst_ops w)) with (bf_get (mkField 0 26) w).
    rewrite Z.shiftl_mul_pow2 by lia. lia.
Qed.

(** The three shapes of a branch handler, on a CPU outside a delay slot. *)
Definition wait_slot (dest : Z) (c : CPU_state) : CPU_state :=
  set_pc (pc c + 4) (set_is_delayslot true (set_br_target dest c)).

Lemma slot_run dest m :
  (upd_cpu (set_br_target dest) ;; prepare_delayslot) m =
  Exit (set_cpu (wait_slot dest (cpu m)) m).
Proof using Hds. unfold prepare_delayslot. rewrite Hds. done. Qed.

Lemma branch_run h taken o m :
  to_exit h (Branch.branch taken o) m =
  Ok tt (set_cpu (wait_slot (if taken then rel_dest o (cpu m) else pc (cpu m) + 8) (cpu m)) m).
Proof using Hds.
  unfold to_exit, Branch.branch, prepare_delayslot. rewrite Hds. unfold bind, upd_cpu, modify. cbn.
  destruct taken; [|done]. by rewrite rel_target.
Qed.

Lemma branch_likely_run h taken o m :
  is_delayslot (cpu m) = false -> is_u32 (pc (cpu m)) ->
  to_exit h (Branch.branch_likely taken o) m =
  Ok tt (set_cpu (if taken then wait_slot (rel_dest o (cpu m)) (cpu m)
                  else set_pc (pc (cpu m) + 8) (set_br_target (pc (cpu m) + 8) (cpu m))) m).
Proof using Hds.
  intros Hs Hp. unfold to_exit, Branch.branch_likely, prepare_delayslot. rewrite Hds.
  destruct taken; unfold bind, upd_cpu, modify; cbn.
  - by rewrite rel_target.
  - unfold handler_end, inst_end, bind, get_cpu, gets. rewrite Hds. cbn. rewrite Hs.
    assert (u32 (u32 (pc (cpu m) + 4) + 4) = u32 (pc (cpu m) + 8)) as E.
    { unfold uw. rewrite Zplus_mod_idemp_l. f_equal. lia. }
    unfold upd_cpu, modify, set_pc. cbn. by rewrite E.
Qed.
End BranchRun.

Section Branches.
Context {cfg : Config} (Hds : CONFIG_DELAYSLOT = true).

Lemma bind_get_cpu {A} (k : CPU_state -> EM A) m : (let! c := get_cpu in k c) m = k (cpu m) m.
Proof using Type. done. Qed.

Lemma to_exit_bind_ok {A} h (k1 : EM A) a (k2 : A -> EM unit) m m1 :
  k1 m = Ok a m1 -> to_exit h (bind k1 k2) m = to_exit h (k2 a) m1.
Proof using Type. intros E. unfold to_exit. by rewrite (bind_ok _ _ _ _ _ E). Qed.

Lemma to_exit_get_cpu h k m : to_exit h (let! c := get_cpu in k c) m = to_exit h (k (cpu m)) m.
Proof using Type. done. Qed.

Lemma InstAssert_run b m : b = true -> InstAssert b m = Ok tt m.
Proof using Type. by intros ->. Qed.

(** The condition codes are bit 23 of the FCSR and its bits from 25 on. *)
Lemma fp_cond_run cc m :
  in_u 3 cc -> Float.fp_cond cc m = Ok (b2z (Z.testbit (fcsr (cpu m)) (fcc_bit cc))) m.
Proof using Type.
  intros Hcc. unfold in_u in Hcc. unfold Float.fp_cond, getFPCondCode, fcc_bit. rewrite bind_get_cpu.
  destruct (Z.eqb_spec cc 0).
  { unfold fcsr_fcc0. by rewrite bf_get_bit by lia. }
  rewrite (proj2 (Z.ltb_lt cc 8)) by lia.
  change (Z.land (Z.shiftr ?x ?n) 1) with (bf_get (mkField n 1) x).
  rewrite bf_get_bit by lia. unfold bf_get, fcsr_fcc1_7. cbn [f_lo f_len].
  rewrite Z.land_spec, Z.shiftr_spec, testbit_ones by lia.
  rewrite (proj2 (Z.leb_le 0 _)), (proj2 (Z.ltb_lt _ 7)), andb_true_r by lia.
  replace (cc - 1 + 25) with (24 + cc) by lia. done.
Qed.

(** bc1f and bc1t: a branch on a condition code. *)
Lemma bc1_run h w m :
  let o := inst_ops w in
  o_nd o = 0 ->
  to_exit h (Float.bc1 o) m =
  to_exit h (Branch.branch (eqb (Z.testbit (fcsr (cpu m)) (fcc_bit (o_cc2 o))) (o_tf o =? 1)) o) m.
Proof using Hds.
  intros o Hnd. pose proof (bf_get_range (mkField 18 3) w ltac:(cbn; lia)) as Hcc.
  pose proof (bf_get_range (mkField 16 1) w ltac:(cbn; lia)) as Htf. unfold in_u in Htf. cbn [f_len] in Htf.
  unfold Float.bc1. rewrite (to_exit_bind_ok h _ tt _ m m) by (apply InstAssert_run; by rewrite Hnd).
  cbn [o o_tf o_cc2 inst_ops]. fold (inst_cc2 w) in Hcc. fold (inst_tf w) in Htf.
  assert (inst_tf w = 0 \/ inst_tf w = 1) as [E|E] by lia; rewrite E; cbn [Z.eqb Pos.eqb];
    unfold to_exit, bind at 1; rewrite (bind_ok _ _ _ _ _ (fp_cond_run (inst_cc2 w) m Hcc));
    destruct (Z.testbit (fcsr (cpu m)) _); done.
Qed.

Lemma link_run r m : Branch.link r m = Ok tt (set_cpu (put_gpr r (pc (cpu m) + 8) (cpu m)) m).
Proof using Type. done. Qed.

(** Every branch and jump does what its description says. *)
Lemma branch_spec h w f m :
  wf m -> is_delayslot (cpu m) = false ->
  flow_of (inst_ops w) h = Some f -> fl_ok f = true ->
  to_exit h (exec_handler h (inst_ops w)) m = Ok tt (set_cpu (branch_cpu f (cpu m)) m).
Proof using Hds.
  intros Hwf Hs Hf Hok. pose proof (wf_pc _ (wf_m_cpu m Hwf)) as Hp.
  assert (Hjump : forall h d m1, to_exit h (upd_cpu (fun c => set_br_target (d c) c) ;; prepare_delayslot) m1 =
    Ok tt (set_cpu (wait_slot (d (cpu m1)) (cpu m1)) m1)).
  { intros h1 d m1. unfold to_exit, prepare_delayslot. by rewrite Hds. }
  assert (Habs : forall r, Branch.jump_target (inst_ops w) (put_gpr r (pc (cpu m) + 8) (cpu m)) =
                      abs_dest (inst_ops w) (put_gpr r (pc (cpu m) + 8) (cpu m)))
    by (intros; by apply abs_target).
  pose proof (abs_target w (cpu m) Hp) as Habs0. remember (inst_ops w) as o eqn:Ho.
  destruct h; try discriminate Hf; unfold flow_of, rel in Hf; injection Hf as <-;
    cbn [fl_ok] in Hok; cbn [exec_handler];
    unfold Branch.beq, Branch.bne, Branch.blez, Branch.bgtz, Branch.bltz, Branch.bgez,
      Branch.bltzal, Branch.bgezal, Branch.beql, Branch.bnel, Branch.blezl, Branch.bgtzl,
      Branch.bltzl, Branch.bgezl, Branch.bltzall, Branch.bgezall, Branch.j, Branch.jal,
      Branch.jr, Branch.jalr;
    try (erewrite to_exit_bind_ok by (apply InstAssert_run; exact Hok));
    try (erewrite to_exit_bind_ok by apply link_run);
    try (rewrite Ho, bc1_run, <- Ho by (rewrite Ho in Hok; by apply Z.eqb_eq in Hok));
    try rewrite to_exit_get_cpu;
    unfold branch_cpu, linked_cpu; cbn [fl_cond fl_likely fl_link fl_dest cpu set_cpu];
    first [ rewrite branch_run by done | rewrite branch_likely_run by done | rewrite Hjump ];
    unfold GR_SV, GR_TV, wait_slot; cbn [cpu set_cpu]; rewrite ?Habs, ?Habs0; try done;
    match goal with |- context [if ?b then _ else _] => by destruct b end.
Qed.
End Branches.

(** The parts of the CPU that steer the control flow. *)
Definition flow_state (c : CPU_state) : Z * Z * bool := (pc c, br_target c, is_delayslot c).

(** C25: in a build with delay slots and without the decode cache, for every branch and
    jump (bc1f and bc1t included) that is not itself in a delay slot and whose reserved
    fields are zero: a taken one (and one not taken that is not a likely branch) first
    executes the next instruction and only then continues at its destination (after the
    slot), with the return address written before; a likely branch not taken skips the
    slot.  The instruction in the slot is any handler body that completes without leaving
    to the label exit and does not change pc, the pending destination or the delay-slot
    flag (it raises no exception and is not a branch). *)
Theorem branch_delay_slot {cfg : Config} h w f m h2 k m2 :
  wf m -> CONFIG_DELAYSLOT = true -> CONFIG_DECODE_CACHE = false ->
  is_delayslot (cpu m) = false -> flow_of (inst_ops w) h = Some f -> fl_ok f = true ->
  let c := linked_cpu f (cpu m) in
  let c1 := branch_cpu f (cpu m) in
  let branch := to_exit h (exec_handler h (inst_ops w)) in
  if fl_cond f c || negb (fl_likely f) then
    k (set_cpu c1 m) = Ok tt m2 -> flow_state (cpu m2) = flow_state c1 ->
    pc c1 = u32 (pc (cpu m) + 4) /\ gpr c1 = gpr c /\
    exists m3, (branch ;; to_exit h2 k) m = Ok tt m3 /\
      pc (cpu m3) = u32 (if fl_cond f c then fl_dest f c else pc (cpu m) + 8) /\
      is_delayslot (cpu m3) = false /\ gpr (cpu m3) = gpr (cpu m2)
  else
    exists m1, branch m = Ok tt m1 /\ pc (cpu m1) = u32 (pc (cpu m) + 8) /\
      is_delayslot (cpu m1) = false /\ gpr (cpu m1) = gpr c.
Proof.
  intros Hwf Hds Hdc Hs Hf Hok c c1 branch.
  pose proof (branch_spec Hds h w f m Hwf Hs Hf Hok) as Hb. fold branch c1 in Hb.
  assert (pc c = pc (cpu m) /\ is_delayslot c = false) as [Ep Ed].
  { unfold c, linked_cpu. by destruct (fl_link f). }
  destruct (fl_cond f c || negb (fl_likely f)) eqn:E.
  - intros Hk Hfl.
    assert (c1 = wait_slot (if fl_cond f c then fl_dest f c else pc (cpu m) + 8) c) as E1.
    { unfold c1, branch_cpu, wait_slot. fold c. rewrite Ep. destruct (fl_cond f c); [done|].
      cbn in E. apply negb_true_iff in E. by rewrite E. }
    rewrite E1 in Hfl. injection Hfl as F1 F2 F3.
    split_and!; [rewrite E1; unfold wait_slot; cbn; by rewrite Ep|by rewrite E1|].
    rewrite (bind_ok _ _ _ _ _ Hb). unfold to_exit. rewrite Hk, handler_end_run by (by rewrite ?Hdc, ?Hds).
    eexists. split; [done|]. cbn [cpu set_cpu]. unfold end_cpu. rewrite Hds, F3. cbn.
    rewrite F2. unfold wait_slot. cbn. by rewrite uw_uw by lia.
  - apply orb_false_iff in E as [E1 E2%negb_false_iff]. rewrite Hb. eexists. split; [done|].
    cbn [cpu set_cpu]. unfold c1, branch_cpu. fold c. rewrite E1, E2. cbn. by rewrite Ep, Ed.
Qed.

(** beq $0, $0, 3 and bc1f 3, each with a nop in its slot *)
Lemma branch_delay_slot_witness :
  let nop := to_exit (cfg := mips32r1_defconfig) H_sll (exec_handler (cfg := mips32r1_defconfig) H_sll (inst_ops 0)) in
  let run h w := to_exit (cfg := mips32r1_defconfig) h (exec_handler (cfg := mips32r1_defconfig) h (inst_ops w)) ;; nop in
  (exists m3, run H_beq 0x10000003 m_zero = Ok tt m3 /\ pc (cpu m3) = 16 /\ is_delayslot (cpu m3) = false) /\
  (exists m3, run H_bc1 0x45000003 m_zero = Ok tt m3 /\ pc (cpu m3) = 16 /\ is_delayslot (cpu m3) = false).
Proof.
  split.
  - destruct (branch_delay_slot (cfg := mips32r1_defconfig) H_beq 0x10000003 _ m_zero H_sll
      (exec_handler (cfg := mips32r1_defconfig) H_sll (inst_ops 0)) _ wf_m_zero eq_refl eq_refl
      eq_refl eq_refl eq_refl eq_refl eq_refl) as (_ & _ & m3 & E & H1 & H2 & _).
    exists m3. split; [exact E|]. split; [exact H1|exact H2].
  - destruct (branch_delay_slot (cfg := mips32r1_defconfig) H_bc1 0x45000003 _ m_zero H_sll
      (exec_handler (cfg := mips32r1_defconfig) H_sll (inst_ops 0)) _ wf_m_zero eq_refl eq_refl
      eq_refl eq_refl eq_refl eq_refl eq_refl) as (_ & _ & m3 & E & H1 & H2 & _).
    exists m3. split; [exact E|]. split; [exact H1|exact H2].
Defined.
