(* ===== verification/Cp0Props.v ===== *)
(** * Writes to CP0

    mtc0 assigns register by register, field by field; together the assignments write
    exactly the writable bits of each register. *)
From S2P Require Import Prelude Config Reg Fifo Ram Flash Sdlkey Machine Ulite Spi Device Mmu Memory.
From S2P Require Import ExecAlu ExecMdu ExecMem Softfloat ExecFloat Decode Cpu Frame Invariant Exits Samples Exceptions ArithProps MmuProps Layout MemProps CacheInv.
Local Open Scope nemu_scope.

(** ** Masked writes *)
(** The bits of [w] under the mask [M] replaced by those of [v]. *)
Definition merge (M v w : Z) : Z := Z.lor (Z.ldiff w M) (Z.land v M).
Definition field_mask (f : field) : Z := Z.shiftl (Z.ones (f_len f)) (f_lo f).

Lemma bf_copy f v w :
  0 <= f_lo f -> 0 <= f_len f -> bf_set f (bf_get f v) w = merge (field_mask f) v w.
Proof.
  intros. unfold bf_set, bf_get, merge, field_mask. apply Z.bits_inj'. intros i Hi. bb_rewrite.
  destruct (Z.ltb_spec (i - f_lo f) 0).
  - rewrite (proj2 (Z.leb_gt 0 _)) by lia. cbn. by rewrite !andb_false_r.
  - bb_rewrite. bb_split; bb_finish.
Qed.

Lemma bf_set_low f v w : f_lo f = 0 -> bf_set f (bf_get f v) w = bf_set f v w.
Proof.
  intros H. unfold bf_set, bf_get. by rewrite H, Z.shiftr_0_r, <- Z.land_assoc, Z.land_diag.
Qed.

Lemma merge_0 v w : merge 0 v w = w.
Proof. unfold merge. rewrite Z.land_0_r, Z.lor_0_r. apply Z.ldiff_0_r. Qed.

Lemma merge_merge M N v w : merge N v (merge M v w) = merge (Z.lor M N) v w.
Proof.
  unfold merge. apply Z.bits_inj'. intros i Hi. bb_rewrite.
  by destruct (Z.testbit v i), (Z.testbit w i), (Z.testbit M i), (Z.testbit N i).
Qed.

Lemma merge_all v w : is_u32 v -> is_u32 w -> merge (Z.ones 32) v w = v.
Proof.
  intros Hv Hw. apply (bits_ext 32); [|done|lia|].
  - unfold merge. assert (Z.ldiff w (Z.ones 32) = 0) as ->.
    { apply Z.bits_inj'. intros i Hi. bb_rewrite. destruct (Z.ltb_spec i 32).
      - rewrite (proj2 (Z.leb_le 0 i)) by lia. apply andb_false_r.
      - by rewrite (testbit_in_u 32 w i) by (done || lia). }
    rewrite Z.lor_0_l, Z.land_ones by lia. by apply uw_range.
  - intros i Hi. unfold merge. bb_rewrite. bb_split; bb_finish.
Qed.

(** ** Copying the fields of one register *)
Definition copies (v : Z) (fs : list cp0_field) (c : CPU_state) : CPU_state :=
  fold_left (fun c f => put_cp0 f (bf_get (c_fld f) v) c) fs c.

Definition fields_mask (fs : list cp0_field) : Z :=
  fold_left (fun M f => Z.lor M (field_mask (c_fld f))) fs 0.

Definition of_reg (r n : Z) (f : cp0_field) : Prop := c_reg f = r /\ c_sel f = n /\ cp0_ok f.

Lemma copies_acc v r n fs c M w :
  Forall (of_reg r n) fs -> wf_cpu c -> cpr_get (cp0 c) r n = merge M v w ->
  wf_cpu (copies v fs c) /\
  cpr_get (cp0 (copies v fs c)) r n =
    merge (fold_left (fun M f => Z.lor M (field_mask (c_fld f))) fs M) v w /\
  (forall r' n', 0 <= r' < 32 -> 0 <= n' < 8 -> (r, n) <> (r', n') ->
     cpr_get (cp0 (copies v fs c)) r' n' = cpr_get (cp0 c) r' n').
Proof.
  intros Hfs. revert c M. unfold copies.
  induction Hfs as [|f fs (Hr & Hn & Hok) Hfs IH]; intros c M Hc E; cbn [fold_left];
    [by split_and!|].
  set (c1 := put_cp0 f (bf_get (c_fld f) v) c).
  assert (wf_cpu c1) as Hc1 by (unfold c1; auto with words).
  destruct Hok as (O1 & O2 & O3 & O4 & O5).
  assert (cpr_get (cp0 c1) r n = merge (Z.lor M (field_mask (c_fld f))) v w) as E1.
  { unfold c1, put_cp0, cp0_set. cbn [cp0 set_cp0]. rewrite Hr, Hn.
    rewrite cpr_get_set_eq by (apply Hc || congruence).
    rewrite uw_small by (apply bf_set_range; [done..|]; auto with words).
    by rewrite bf_copy, E, merge_merge by done. }
  destruct (IH c1 _ Hc1 E1) as (I1 & I2 & I3). split_and!; [done|done|].
  intros r' n' Hr' Hn' Hne. rewrite I3 by done. unfold c1.
  apply cpr_put_cp0_ne; [done..|]. congruence.
Qed.

Lemma copies_spec v r n fs c :
  wf_cpu c -> Forall (of_reg r n) fs ->
  wf_cpu (copies v fs c) /\
  cpr_get (cp0 (copies v fs c)) r n = merge (fields_mask fs) v (cpr_get (cp0 c) r n) /\
  (forall r' n', 0 <= r' < 32 -> 0 <= n' < 8 -> (r, n) <> (r', n') ->
     cpr_get (cp0 (copies v fs c)) r' n' = cpr_get (cp0 c) r' n').
Proof. intros Hc Hfs. apply copies_acc; [done|done|]. by rewrite merge_0. Qed.

(** ** The writable bits *)
Definition cp0_masks : list (Z * Z * Z) :=
  [(CP0_INDEX, 0, 0x0000001F); (CP0_ENTRY_LO0, 0, 0x03FFFFFF); (CP0_ENTRY_LO1, 0, 0x03FFFFFF);
   (CP0_CONTEXT, 0, 0xFF800000); (CP0_PAGEMASK, 0, 0x1FFFE000); (CP0_BADVADDR, 0, 0);
   (CP0_COUNT, 0, 0xFFFFFFFF); (CP0_ENTRY_HI, 0, 0xFFFFE0FF); (CP0_COMPARE, 0, 0xFFFFFFFF);
   (CP0_STATUS, 0, 0xFA78FF17); (CP0_CAUSE, 0, 0x00C00300); (CP0_EPC, 0, 0xFFFFFFFF);
   (CP0_EBASE, CP0_EBASE_SEL, 0xFFFFFFFF); (CP0_CONFIG, 0, 0x00000007)].

(** Coprocessors 2 and 3 cannot be enabled. *)
Definition written (r v : Z) : Z := if r =? CP0_STATUS then Z.land v 0x3FFFFFFF else v.

(** The CPU [c'] after a masked write of [v] to register [r], select [n]. *)
Definition masked_write (r n M v : Z) (c c' : CPU_state) : Prop :=
  wf_cpu c' /\ cpr_get (cp0 c') r n = merge M v (cpr_get (cp0 c) r n) /\
  forall r' n', 0 <= r' < 32 -> 0 <= n' < 8 -> (r, n) <> (r', n') ->
    cpr_get (cp0 c') r' n' = cpr_get (cp0 c) r' n'.

Lemma masked_copies r n fs v c :
  wf_cpu c -> Forall (of_reg r n) fs -> masked_write r n (fields_mask fs) v c (copies v fs c).
Proof. apply copies_spec. Qed.

Lemma masked_put_cpr r n v c :
  wf_cpu c -> 0 <= r < 32 -> 0 <= n < 8 -> is_u32 v ->
  masked_write r n (Z.ones 32) v c (put_cpr r n v c).
Proof.
  intros Hc Hr Hn Hv. split; [auto with words|]. split.
  - rewrite cpr_put_cpr_eq by done. rewrite uw_small by done. symmetry.
    apply merge_all; auto with words.
  - intros r' n' Hr' Hn' Hne. by apply cpr_put_cpr_ne.
Qed.

(** Writing a software interrupt line is a copy of its bit. *)
Definition cause_IP_bit (k : Z) : cp0_field := mkCp0 CP0_CAUSE 0 (mkField (8 + k) 1).

Lemma ip_bit_set k v w :
  0 <= k < 8 ->
  bf_set (c_fld cause_IP)
    (if negb (Z.land (bf_get (c_fld cause_IP) v) (Z.shiftl 1 k) =? 0)
     then Z.lor (bf_get (c_fld cause_IP) w) (Z.shiftl 1 k)
     else Z.land (bf_get (c_fld cause_IP) w) (Z.lnot (Z.shiftl 1 k))) w =
  bf_set (mkField (8 + k) 1) (bf_get (mkField (8 + k) 1) v) w.
Proof.
  intros Hk. rewrite !Z.shiftl_1_l, land_pow2_test, negb_involutive by lia.
  rewrite bf_copy by (cbn; lia). unfold merge, field_mask, bf_set, bf_get.
  cbn [c_fld cause_IP f_lo f_len]. apply Z.bits_inj'. intros i Hi.
  rewrite Z.land_spec, Z.shiftr_spec, testbit_ones by lia.
  rewrite (proj2 (Z.leb_le 0 k)), (proj2 (Z.ltb_lt k 8)), andb_true_r by lia.
  replace (k + 8) with (8 + k) by lia.
  destruct (decide (i = 8 + k)) as [->|Hne].
  - destruct (Z.testbit v (8 + k)) eqn:Ev; bb_rewrite; rewrite ?Ev; bb_split; bb_finish.
  - destruct (Z.testbit v (8 + k)) eqn:Ev; bb_rewrite; rewrite ?Ev; bb_split; bb_finish.
    all: rewrite Z.lnot_spec, Z.pow2_bits_eqb by lia; replace (i - 8 + 8) with i by lia;
      destruct (Z.eqb_spec k (i - 8)); [lia|apply andb_true_r].
Qed.

Lemma ip7_clear w :
  bf_set (c_fld cause_IP) (Z.land (bf_get (c_fld cause_IP) w) (Z.lnot (Z.shiftl 1 7))) w =
  Z.ldiff w (2 ^ 15).
Proof.
  unfold bf_set, bf_get. cbn [c_fld cause_IP f_lo f_len]. rewrite Z.shiftl_1_l.
  apply Z.bits_inj'. intros i Hi. destruct (Z.ltb_spec i 8); bb_rewrite.
  - rewrite (proj2 (Z.leb_gt 0 (i - 8))) by lia. bb_split; bb_finish.
  - bb_split; bb_finish.
Qed.

Lemma ldiff_u32 w x : is_u32 w -> is_u32 (Z.ldiff w x).
Proof.
  intros Hw. rewrite Z.ldiff_land. apply land_lnot_in_u; [lia|done].
Qed.

Section Mtc0.
Context {cfg : Config}.

Lemma set_irq_bit k v c m :
  0 <= k < 8 -> wf_cpu (cpu m) -> c = copies v [cause_IP_bit k] (cpu m) ->
  nemu_set_irq k (negb (Z.land (bf_get (c_fld cause_IP) v) (Z.shiftl 1 k) =? 0)) m =
  Ok tt (set_cpu c m).
Proof.
  intros Hk Hc ->. unfold nemu_set_irq. rewrite (proj2 (Z.leb_le 0 k)), (proj2 (Z.ltb_lt k 8)) by lia.
  cbn [andb ensure]. unfold bind, ret, upd_cpu, modify. do 2 f_equal.
  unfold copies. cbn [fold_left]. unfold put_cp0, cp0_set, cp0_get.
  cbn [c_reg c_sel c_fld cause_IP cause_IP_bit]. by rewrite (ip_bit_set k v).
Qed.

Ltac cprs :=
  repeat match goal with |- context [System.CPRS ?a ?b =? System.CPRS ?c ?d] =>
    let x := constr:(System.CPRS a b =? System.CPRS c d) in
    let y := eval vm_compute in x in change x with y end; cbn [orb].

Ltac fields_ok :=
  repeat first [ apply List.Forall_nil
               | apply List.Forall_cons; [split; [done|split; [done|cp0_side]]|] ].

Lemma mtc0_cause_run v m :
  wf_cpu (cpu m) ->
  System.mtc0_cause v m =
  Ok tt (set_cpu (copies v [cause_IV; cause_WP; cause_IP_bit 0; cause_IP_bit 1] (cpu m)) m).
Proof.
  intros Hc. unfold System.mtc0_cause, System.copy_field, upd_cpu, modify. unfold bind at 1 2. cbv zeta.
  erewrite bind_ok by (apply set_irq_bit; [lia| |reflexivity]; cbn; auto with words).
  erewrite set_irq_bit; [reflexivity|lia| |reflexivity]. unfold copies. cbn. auto with words.
Qed.

Lemma status_copies v c :
  status_cpu v c =
  copies (Z.land v 0x3FFFFFFF) [status_CU; status_RP; status_RE; status_BEV; status_TS; status_SR;
    status_NMI; status_IM; status_UM; status_ERL; status_EXL; status_IE] c.
Proof.
  unfold status_cpu, copies. cbn [fold_left]. change 0x3FFFFFFF with (Z.ones 30).
  assert (forall f, 0 <= f_lo f -> 0 <= f_len f -> f_lo f + f_len f <= 30 ->
    bf_get f (Z.land v (Z.ones 30)) = bf_get f v) as Hlow.
  { intros f H1 H2 H3. unfold bf_get. bitblast. }
  assert (bf_get (c_fld status_CU) (Z.land v (Z.ones 30)) = Z.land (bf_get (c_fld status_CU) v) 3) as ->.
  { change 3 with (Z.ones 2). unfold bf_get. cbn [c_fld status_CU f_lo f_len]. bitblast. }
  by rewrite !Hlow by (cbn; lia).
Qed.

Ltac by_fields fs :=
  lazymatch goal with H : forall _ : list cp0_field, _ |- _ =>
    eexists; split; [reflexivity|]; eexists;
    split; [apply (H fs); [fields_ok|vm_compute; reflexivity]|] end.

Ltac by_put :=
  eexists; split; [reflexivity|]; eexists;
  split; [apply masked_put_cpr; [done|done|done|done]|reflexivity].

(** mtc0 as a function of the register. *)
Lemma mtc0_dispatch r n M o m :
  wf m -> In (r, n, M) cp0_masks -> o_rd o = r -> o_sel o = n ->
  let v := GR_TV o (cpu m) in
  exists m', System.mtc0 o m = Ok tt m' /\
    exists c, masked_write r n M (written r v) (cpu m) c /\
      cpu m' = if r =? CP0_COMPARE
               then put_cp0 cause_IP (Z.land (cp0_get cause_IP (cp0 c)) (Z.lnot (Z.shiftl 1 7))) c
               else c.
Proof.
  intros Hwf Hin Hr Hn v. pose proof (wf_m_cpu m Hwf) as Hc.
  assert (is_u32 v) as Hv by (unfold v, GR_TV; auto with words).
  unfold System.mtc0. rewrite (bind_ok get_cpu _ m (cpu m) m eq_refl). cbv zeta. fold v.
  rewrite Hr, Hn.
  assert (forall fs, Forall (of_reg r n) fs -> fields_mask fs = M ->
    masked_write r n M v (cpu m) (copies v fs (cpu m))) as Hmw.
  { intros fs Hfs <-. by apply masked_copies. }
  cbn [In cp0_masks] in Hin.
  repeat (destruct Hin as [[= <- <- <-]|Hin]; [cprs|]); [..|done].
  all: unfold written; cbn [Z.eqb Pos.eqb CP0_STATUS CP0_COMPARE CP0_INDEX CP0_ENTRY_LO0
    CP0_ENTRY_LO1 CP0_CONTEXT CP0_PAGEMASK CP0_BADVADDR CP0_COUNT CP0_ENTRY_HI CP0_CAUSE CP0_EPC
    CP0_EBASE CP0_EBASE_SEL CP0_CONFIG].
  - by_fields [index_idx]. unfold copies. cbn [fold_left cpu set_cpu].
    unfold put_cp0, cp0_set. by rewrite (bf_set_low (c_fld index_idx) v).
  - by by_fields [entry_lo_g CP0_ENTRY_LO0; entry_lo_v CP0_ENTRY_LO0; entry_lo_d CP0_ENTRY_LO0;
      entry_lo_c CP0_ENTRY_LO0; entry_lo_pfn CP0_ENTRY_LO0].
  - by by_fields [entry_lo_g CP0_ENTRY_LO1; entry_lo_v CP0_ENTRY_LO1; entry_lo_d CP0_ENTRY_LO1;
      entry_lo_c CP0_ENTRY_LO1; entry_lo_pfn CP0_ENTRY_LO1].
  - by by_fields [context_PTEBase].
  - by by_fields [pagemask_mask].
  - by by_fields (@nil cp0_field).
  - by by_put.
  - by by_fields [entry_hi_asid; entry_hi_vpn].
  - by by_put.
  - rewrite mtc0_status_run. eexists. split; [reflexivity|]. eexists.
    split; [|by destruct (_ =? _)]. rewrite status_copies. apply masked_copies; [done|fields_ok].
  - rewrite mtc0_cause_run by done.
    by by_fields [cause_IV; cause_WP; cause_IP_bit 0; cause_IP_bit 1].
  - by by_put.
  - by by_put.
  - by by_fields [config_K0].
Qed.
End Mtc0.

(** C26: mtc0 to each implemented CP0 register replaces exactly its writable bits by those
    of rt (enabling coprocessors 2 and 3 is ignored) and leaves every other CP0 register
    alone; a write to Compare also acknowledges the timer interrupt, clearing IP7 and no
    other line. *)
Theorem mtc0_writable_bits {cfg : Config} r n M w m :
  wf m -> In (r, n, M) cp0_masks -> o_rd (inst_ops w) = r -> o_sel (inst_ops w) = n ->
  let o := inst_ops w in
  exists m', System.mtc0 o m = Ok tt m' /\
    cpr_get (cp0 (cpu m')) r n = merge M (written r (GR_TV o (cpu m))) (cpr_get (cp0 (cpu m)) r n) /\
    (forall r' n', 0 <= r' < 32 -> 0 <= n' < 8 -> (r, n) <> (r', n') ->
       (r = CP0_COMPARE -> r' <> CP0_CAUSE) ->
       cpr_get (cp0 (cpu m')) r' n' = cpr_get (cp0 (cpu m)) r' n') /\
    (r = CP0_COMPARE ->
       cpr_get (cp0 (cpu m')) CP0_CAUSE 0 =
       Z.ldiff (cpr_get (cp0 (cpu m)) CP0_CAUSE 0) (2 ^ 15)).
Proof.
  intros Hwf Hin Hr Hn o.
  destruct (mtc0_dispatch r n M o m Hwf Hin Hr Hn) as (m' & E & c & (Hc & W1 & W2) & Ec).
  exists m'. split; [exact E|]. destruct (Z.eqb_spec r CP0_COMPARE) as [Er|Er]; rewrite Ec.
  - assert (n = 0) as En.
    { clear - Hin Er. subst r. cbn [In cp0_masks] in Hin.
      repeat (destruct Hin as [Hin|Hin]; [vm_compute in Hin; by inversion Hin|]). done. }
    split_and!.
    + rewrite cpr_put_cp0_ne; [exact W1|done|by rewrite Er|by rewrite En|cp0_side|].
      rewrite Er, En. vm_compute. congruence.
    + intros r' n' Hr' Hn' Hne Hca. rewrite cpr_put_cp0_ne; [by apply W2|done..|cp0_side|].
      intros [= <- <-]. by apply Hca.
    + intros _. rewrite <- (W2 CP0_CAUSE 0) by (try done; rewrite Er, En; vm_compute; congruence).
      unfold put_cp0, cp0_set, cp0_get. cbn [cp0 set_cp0 c_reg c_sel cause_IP].
      rewrite cpr_get_set_eq by (done || apply Hc). rewrite ip7_clear. apply uw_small.
      apply ldiff_u32. auto with words.
  - split_and!; [done| |done]. intros. by apply W2.
Qed.

(** mtc0 $8, Status with $8 = 0xffffffff *)
Lemma mtc0_writable_bits_witness :
  exists m', System.mtc0 (cfg := mips32r1_defconfig) (inst_ops 0x40886000)
      (set_cpu (put_gpr 8 0xffffffff (cpu m_zero)) m_zero) = Ok tt m' /\
    cpr_get (cp0 (cpu m')) CP0_STATUS 0 = 0x3a78ff17.
Proof.
  destruct (mtc0_writable_bits (cfg := mips32r1_defconfig) CP0_STATUS 0 0xFA78FF17 0x40886000
    (set_cpu (put_gpr 8 0xffffffff (cpu m_zero)) m_zero)) as (m' & E & H & _).
  - apply wf_set_cpu; auto 10 with words.
  - repeat first [left; reflexivity|right].
  - reflexivity.
  - reflexivity.
  - exists m'. split; [exact E|]. rewrite H. vm_compute. reflexivity.
Defined.
