(* ===== verification/DeviceProps.v ===== *)
(** * Devices

    The ring buffers, the serial port, the SPI controller, the memory devices and the
    keyboard against what they promise to the guest. *)
From S2P Require Import Prelude Config Reg Fifo Ram Flash Sdlkey Machine Ulite Spi Device Mmu Memory.
From S2P Require Import ExecAlu ExecMdu ExecMem Softfloat ExecFloat Decode Cpu Frame Invariant Exits Samples.
Local Open Scope nemu_scope.

(** ** Ring buffers *)
(** The abstract queue: a list of at most [cap] elements.  A pop gives out the first
    element; what a pop of the empty queue gives out ([Some None]) is not its business. *)
Inductive qop : Type := QPush (ch : Z) | QPop | QReset.

Definition abs_step (cap : nat) (l : list Z) (op : qop) : list Z * option (option Z) :=
  match op with
  | QPush ch => (if (length l =? cap)%nat then l else l ++ [ch], None)
  | QPop => match l with [] => ([], Some None) | x :: l => (l, Some (Some x)) end
  | QReset => ([], None)
  end.

(** The same on the ring buffer.  fifo_pop tests for an empty buffer only before it moves
    the head: it always gives out the element the head was at, and xlnx_ulite_read and
    nemu_keyboard_rp call it without a test of their own. *)
Definition ring_step (q : fifo Z) (op : qop) : fifo Z * option Z :=
  match op with
  | QPush ch => (fifo_push ch q, None)
  | QPop => let (x, q') := fifo_pop 0 q in (q', Some x)
  | QReset => (fifo_reset q, None)
  end.

Fixpoint run_ops {S O} (step : S -> qop -> S * option O) (s : S) (ops : list qop) : S * list O :=
  match ops with
  | [] => (s, [])
  | op :: ops =>
      let (s1, out) := step s op in
      let (s2, outs) := run_ops step s1 ops in
      (s2, match out with Some x => x :: outs | None => outs end)
  end.

Definition pushed (ops : list qop) : list Z :=
  omap (fun op => match op with QPush ch => Some ch | _ => None end) ops.

(** A value given out is the one the queue promises; a pop of an empty queue may give out
    any of the values [stale]. *)
Definition given (stale : list Z) (x : Z) (promised : option Z) : Prop :=
  match promised with Some y => x = y | None => x ∈ stale end.

Lemma head_in_array q : fifo_wf q -> nth (f_head q) (f_e q) 0 ∈ f_e q.
Proof. intros (_ & H & _). unfold fifo_capacity in H. apply list_elem_of_In, nth_In. done. Qed.

(** One operation; [all] bounds the cells of the array. *)
Lemma ring_step_refines q op all :
  fifo_wf q -> f_e q ⊆ all -> pushed [op] ⊆ all ->
  let (q', out) := ring_step q op in
  let (l', aout) := abs_step (fifo_capacity q) (fifo_list 0 q) op in
  fifo_wf q' /\ fifo_capacity q' = fifo_capacity q /\ fifo_list 0 q' = l' /\ f_e q' ⊆ all /\
  match out, aout with
  | Some x, Some o => given all x o
  | None, None => True
  | _, _ => False
  end.
Proof.
  intros Hq Hall Hop. destruct op as [ch| |]; cbn [ring_step abs_step].
  - split_and!; [by apply fifo_push_wf|apply fifo_push_capacity| | |done].
    + rewrite (fifo_push_list 0) by done. unfold fifo_is_full. by rewrite length_fifo_list.
    + unfold fifo_push. case_match; [|done]. cbn [f_e]. intros x Hx.
      apply list_elem_of_lookup in Hx as [k Hk]. apply list_lookup_insert_Some in Hk as [(_ & <- & _)|(_ & Hk)].
      * apply Hop. cbn. set_solver.
      * apply Hall. by eapply list_elem_of_lookup_2.
  - pose proof (fifo_pop_list 0 q Hq) as P. pose proof (fifo_pop_wf 0 q Hq) as W.
    pose proof (fifo_pop_capacity 0 q) as C. pose proof (head_in_array q Hq) as Hh.
    assert (f_e (fifo_pop 0 q).2 = f_e q) as Ee by (unfold fifo_pop; cbn [fst snd]; by destruct (0 <? f_size q)%nat).
    assert ((fifo_pop 0 q).1 = nth (f_head q) (f_e q) 0) as Ex by (unfold fifo_pop; cbn [fst snd]; by destruct (0 <? f_size q)%nat).
    destruct (fifo_pop 0 q) as [y q']. cbn in P, W, C, Ee, Ex. rewrite Ee.
    destruct (fifo_list 0 q) as [|x l] eqn:El.
    + subst q'. split_and!; [done|done|done|done|]. cbn. rewrite Ex. by apply Hall.
    + destruct P as [-> <-]. by split_and!.
  - by split_and!; [apply fifo_reset_wf|..].
Qed.

Lemma run_ops_refines ops all : forall q,
  fifo_wf q -> f_e q ⊆ all -> pushed ops ⊆ all ->
  let (q', outs) := run_ops ring_step q ops in
  let (l', aouts) := run_ops (abs_step (fifo_capacity q)) (fifo_list 0 q) ops in
  fifo_wf q' /\ fifo_list 0 q' = l' /\ Forall2 (given all) outs aouts.
Proof.
  induction ops as [|op ops IH]; intros q Hq Hall Hops; cbn [run_ops]; [done|].
  assert (pushed [op] ⊆ all /\ pushed ops ⊆ all) as [H1 H2].
  { unfold pushed in *. cbn in *. destruct op; set_solver. }
  pose proof (ring_step_refines q op all Hq Hall H1) as R. destruct (ring_step q op) as [q1 out].
  destruct (abs_step _ _ op) as [l1 aout]. destruct R as (W & C & <- & Hall1 & Hout).
  specialize (IH q1 W Hall1 H2). rewrite C in IH.
  destruct (run_ops ring_step q1 ops) as [q2 outs], (run_ops _ (fifo_list 0 q1) ops) as [l2 aouts].
  destruct IH as (W2 & E2 & F2). split_and!; [done|done|].
  destruct out, aout; try done. by constructor.
Qed.

(** C27: for any sequence of pushes, pops and resets, a ring buffer holds exactly what a
    bounded first-in first-out list holds, pushes to a full buffer being dropped, and every
    pop of a non-empty buffer gives out the element the list gives out.  A pop of an empty
    buffer leaves it empty and gives out a stale element: one that was in the array at the
    start or was pushed during the sequence. *)
Theorem fifo_refines_queue q ops :
  fifo_wf q ->
  let (q', outs) := run_ops ring_step q ops in
  let (l', promised) := run_ops (abs_step (fifo_capacity q)) (fifo_list 0 q) ops in
  fifo_wf q' /\ fifo_list 0 q' = l' /\ Forall2 (given (f_e q ++ pushed ops)) outs promised.
Proof. intros Hq. apply run_ops_refines; [done|set_solver|set_solver]. Qed.

(** The last pop finds the buffer empty and gives out the first character again. *)
Lemma fifo_refines_queue_witness :
  let ops := [QPush 1; QPush 2; QPush 3; QPop; QPop; QPop] in
  let (q', outs) := run_ops ring_step (fifo_zero 0 2) ops in
  outs = [1; 2; 1] /\ fifo_wf q' /\ fifo_list 0 q' = [] /\
  Forall2 (given [0; 0; 1; 2; 3]) outs [Some 1; Some 2; None].
Proof.
  split; [reflexivity|].
  apply (fifo_refines_queue (fifo_zero 0 2) [QPush 1; QPush 2; QPush 3; QPop; QPop; QPop]).
  apply fifo_zero_wf. lia.
Defined.

(** ** Memory devices *)
(** The block RAM and the DDR keep the contract of a memory device: an access
    of one to four bytes is accepted exactly inside the array, a read returns the last
    value written to its bytes and a write changes no byte outside its range. *)
Theorem ram_devices_contract :
  RamDevice Bram.BRAM_SIZE Bram.bram_read Bram.bram_write /\
  RamDevice Ddr.DDR_SIZE Ddr.ddr_read Ddr.ddr_write.
Proof. split; [apply bram_ram|apply ddr_ram]. Qed.

(** ** Serial input *)
Section Serial.
Context {cfg : Config}.

(** [n] reads of the receive register. *)
Fixpoint reads (n : nat) : EM (list Z) :=
  match n with
  | O => ret []
  | S n => let! x := xlnx_ulite_read Rx 4 in let! l := reads n in ret (x :: l)
  end.

Definition ulite_list (m : machine) : list Z := fifo_list 0 (ulite_q (ulite m)).

Lemma ulite_read_run m x l :
  fifo_wf (ulite_q (ulite m)) -> ulite_list m = x :: l ->
  exists m', xlnx_ulite_read Rx 4 m = Ok (u32 x) m' /\ ulite_list m' = l /\
    fifo_wf (ulite_q (ulite m')) /\ h_stdin (host m') = h_stdin (host m).
Proof.
  intros Hq E. pose proof (fifo_pop_list 0 _ Hq) as P. pose proof (fifo_pop_wf 0 _ Hq) as W.
  unfold ulite_list in E. rewrite E in P. destruct P as [P1 P2].
  unfold xlnx_ulite_read. change (check_ioaddr Rx 4 XLNX_ULITE_SIZE) with true.
  cbn [ensure]. unfold bind at 1, ret at 1. change (Rx =? Rx) with true.
  unfold nemu_set_irq. change ((0 <=? XLNX_ULITE_IRQ_NO) && (XLNX_ULITE_IRQ_NO <? 8)) with true.
  cbn [ensure]. unfold bind, ret, upd_cpu, modify. cbn [get ulite set_cpu].
  destruct (fifo_pop 0 (ulite_q (ulite m))) as [y q]. cbn [fst snd] in *. subst y.
  eexists. split; [reflexivity|]. by split_and!.
Qed.

Lemma reads_run n m :
  fifo_wf (ulite_q (ulite m)) -> (n <= length (ulite_list m))%nat ->
  exists m', reads n m = Ok (map u32 (take n (ulite_list m))) m' /\
    ulite_list m' = drop n (ulite_list m) /\ h_stdin (host m') = h_stdin (host m).
Proof.
  revert m. induction n as [|n IH]; intros m Hq Hn; [by exists m|].
  destruct (ulite_list m) as [|x l] eqn:E; [cbn in Hn; lia|].
  destruct (ulite_read_run m x l Hq E) as (m1 & E1 & L1 & Q1 & S1). cbn [reads].
  rewrite (bind_ok _ _ _ _ _ E1). destruct (IH m1 Q1) as (m2 & E2 & L2 & S2).
  { rewrite L1. cbn in Hn. lia. }
  rewrite (bind_ok _ _ _ _ _ E2). exists m2. rewrite L1, S1 in *. by cbn.
Qed.

(** The characters of [data] that are ^X; check_ctrl_x_commands asks for each of them. *)
Definition ctrl_x (data : list Z) : nat := length (filter (fun ch => s8 ch = 0x18) data).

(** None of the first [k] answers on the console is q. *)
Definition not_quit (k : nat) (answers : list Z) : Prop :=
  Forall (fun c => u8 c <> 113) (take k answers).

Definition set_stdin (l : list Z) (m : machine) : machine := set_host (set_h_stdin l (host m)) m.

Lemma ctrl_x_run ch m :
  let stdin := h_stdin (host m) in
  let k := if bool_decide (ch = 0x18) then 1%nat else 0%nat in
  (not_quit k stdin -> check_ctrl_x_commands ch m = Ok tt (set_stdin (drop k stdin) m)) /\
  (~ not_quit k stdin -> exists m', check_ctrl_x_commands ch m = Stop HExit m').
Proof.
  cbv zeta. unfold check_ctrl_x_commands, not_quit. case_bool_decide as E.
  2: { apply Z.eqb_neq in E. rewrite E. split; [|intros []; constructor].
       intros _. unfold set_stdin. by destruct m as [? ? ? ? ? ? ? ? ? ? ? ? ? ? ? []]. }
  rewrite E. cbn [Z.eqb Pos.eqb when]. unfold getchar, bind, upd_host, modify. cbn [get].
  unfold set_stdin. destruct (h_stdin (host m)) as [|c cs] eqn:Es; cbn.
  - split; [|intros []; constructor]. intros _. rewrite <- Es at 1.
    by destruct m as [? ? ? ? ? ? ? ? ? ? ? ? ? ? ? []].
  - rewrite firstn_O, Forall_singleton. destruct (Z.eqb_spec (u8 c) 113) as [Eq|Eq]; split; try done.
    intros _. by eexists.
Qed.

Lemma not_quit_S (b : bool) k l :
  not_quit ((if b then 1 else 0) + k) l <->
  not_quit (if b then 1 else 0) l /\ not_quit k (drop (if b then 1 else 0) l).
Proof.
  unfold not_quit. destruct b; cbn [Nat.add]; [|by rewrite take_0, drop_0, Forall_nil; tauto].
  destruct l as [|c l]; [rewrite !firstn_nil, Forall_nil; tauto|].
  cbn. rewrite firstn_O, drop_0, Forall_singleton, Forall_cons. done.
Qed.

(** Characters put in the queue by the host side. *)
Lemma receive_eq data m :
  let stdin := h_stdin (host m) in
  (not_quit (ctrl_x data) stdin ->
   ulite_receive data m = Ok tt (set_stdin (drop (ctrl_x data) stdin) (set_ulite (set_ulite_q
     (fifo_push_all (map (fun ch => s32 (s8 ch)) data) (ulite_q (ulite m))) (ulite m)) m))) /\
  (~ not_quit (ctrl_x data) stdin -> exists m', ulite_receive data m = Stop HExit m').
Proof.
  revert m. induction data as [|ch data IH]; intros m; cbv zeta; cbn [ulite_receive].
  { split; [|intros []; constructor]. intros _. unfold set_stdin.
    by destruct m as [? ? ? ? ? ? ? ? ? [] ? ? ? ? ? []]. }
  set (b := bool_decide (s8 ch = 0x18)).
  assert (ctrl_x (ch :: data) = (if b then 1 else 0) + ctrl_x data)%nat as Ek.
  { unfold ctrl_x, b. rewrite filter_cons. by case_decide; [rewrite bool_decide_true by done|rewrite bool_decide_false by done]. }
  rewrite Ek, not_quit_S. destruct (ctrl_x_run (s8 ch) m) as [C1 C2].
  fold b in C1, C2. set (k := if b then 1%nat else 0%nat) in *.
  assert (Decision (not_quit k (h_stdin (host m)))) as Hd by (unfold not_quit; apply _).
  destruct (decide (not_quit k (h_stdin (host m)))) as [Hq|Hq].
  2: { split; [tauto|]. intros _. destruct (C2 Hq) as [m' E]. exists m'. by erewrite bind_stop by exact E. }
  rewrite (bind_ok _ _ _ _ _ (C1 Hq)).
  set (m1 := set_stdin _ m). unfold xlnx_ulite_enqueue, upd_ulite.
  erewrite bind_ok by reflexivity. set (m2 := set_ulite _ m1).
  destruct (IH m2) as [I1 I2]. change (h_stdin (host m2)) with (drop k (h_stdin (host m))) in *. split.
  - intros [_ H2]. rewrite (I1 H2), drop_drop. f_equal.
  - intros Hn. apply I2. tauto.
Qed.

Lemma receive_run data m :
  fifo_wf (ulite_q (ulite m)) -> not_quit (ctrl_x data) (h_stdin (host m)) ->
  exists m', ulite_receive data m = Ok tt m' /\ fifo_wf (ulite_q (ulite m')) /\
    ulite_list m' = ulite_list m ++ take (fifo_capacity (ulite_q (ulite m)) - length (ulite_list m))
                                      (map s8 data) /\
    h_stdin (host m') = drop (ctrl_x data) (h_stdin (host m)).
Proof.
  intros Hq Hd. eexists. split; [by apply receive_eq|].
  unfold set_stdin, ulite_list. cbn [ulite set_ulite ulite_q set_ulite_q set_host].
  split; [by apply fifo_push_all_wf|]. split; [|done].
  rewrite (fifo_push_all_list 0) by done.
  rewrite length_fifo_list. do 2 f_equal. apply map_ext. intros ch. apply sw_small; [lia|].
  pose proof (sw_range 8 ch). lia.
Qed.

Section Input.
Context (n : nat) (m : machine).
#[local] Abbreviation data := (take n (h_stdin (host m))).
#[local] Abbreviation rest := (drop n (h_stdin (host m))).

Lemma update_irq_run :
  fifo_wf (ulite_q (ulite m)) -> not_quit (ctrl_x data) rest ->
  exists b m', xlnx_ulite_update_irq n m = Ok b m' /\ fifo_wf (ulite_q (ulite m')) /\
    ulite_list m' = ulite_list m ++ take (fifo_capacity (ulite_q (ulite m)) - length (ulite_list m))
                                      (map s8 data) /\
    h_stdin (host m') = drop (ctrl_x data) rest.
Proof.
  intros Hq Hd. unfold xlnx_ulite_update_irq. unfold bind at 1. cbn [get].
  destruct data as [|c cs] eqn:Ed.
  { exists false, m. split_and!; [done|done|by rewrite firstn_nil, app_nil_r|]. rewrite drop_0.
    destruct n as [|n']; [done|]. by destruct (h_stdin (host m)). }
  unfold bind at 1, upd_host at 1, modify at 1.
  destruct (receive_run (c :: cs) (set_stdin rest m) Hq Hd) as (m1 & E1 & Q1 & L1 & S1).
  rewrite (bind_ok _ _ _ _ _ E1). unfold xlnx_ulite_set_irq. unfold bind at 2. cbn [get].
  exists true. unfold bind.
  destruct (intr_enabled (ulite m1) =? 0); (eexists; split; [reflexivity|]); auto.
Qed.

Lemma update_irq_quit :
  ~ not_quit (ctrl_x data) rest -> exists m', xlnx_ulite_update_irq n m = Stop HExit m'.
Proof.
  intros Hd. unfold xlnx_ulite_update_irq. unfold bind at 1. cbn [get].
  destruct data as [|c cs] eqn:Ed; [destruct Hd; constructor|].
  unfold bind at 1, upd_host at 1, modify at 1.
  destruct (proj2 (receive_eq (c :: cs) (set_stdin rest m)) Hd) as [m' E]. exists m'.
  by erewrite bind_stop by exact E.
Qed.
End Input.
End Serial.

(** C29: characters typed on the host reach the guest complete and in order: after the
    timer has taken [n] characters of stdin into an empty receive queue that can hold them,
    that many reads of the receive register return exactly these characters (sign-extended
    to 32 bits), ^X (0x18) included, and the queue is empty again.  For every ^X among them
    the next character of stdin behind the [n] is taken as the answer to its question and
    does not reach the guest; if one of the answers is q the emulator exits instead. *)
Theorem serial_input_order n m :
  wf m -> ulite_list m = [] ->
  let data := take n (h_stdin (host m)) in
  let rest := drop n (h_stdin (host m)) in
  (length data <= fifo_capacity (ulite_q (ulite m)))%nat ->
  (not_quit (ctrl_x data) rest ->
   exists m',
     (let! _ := xlnx_ulite_update_irq n in reads (length data)) m = Ok (map (fun ch => u32 (s8 ch)) data) m' /\
     ulite_list m' = [] /\ h_stdin (host m') = drop (ctrl_x data) rest) /\
  (~ not_quit (ctrl_x data) rest -> exists m', xlnx_ulite_update_irq n m = Stop HExit m').
Proof.
  intros Hwf Hl data rest Hcap. split; [|apply update_irq_quit]. intros Hx.
  pose proof (wf_m_ulite m Hwf) as Hq. unfold wf_fifo in Hq.
  destruct (update_irq_run n m Hq) as (b & m1 & E1 & Q1 & L1 & S1); [exact Hx|].
  fold data in L1, S1. fold rest in S1. rewrite Hl in L1. cbn [app] in L1.
  rewrite firstn_all2 in L1 by (rewrite length_map; cbn; lia).
  rewrite (bind_ok _ _ _ _ _ E1).
  destruct (reads_run (length data) m1 Q1) as (m2 & E2 & L2 & S2).
  { by rewrite L1, length_map. }
  exists m2. rewrite E2, L2, S2, L1, S1, <- (length_map s8 data), firstn_all, drop_all, map_map.
  done.
Qed.

(** h, ^X, i and then the answers n and q: the two characters and the ^X arrive. *)
Definition m_typed : machine := set_stdin [104; 0x18; 105; 110; 113] m_zero.

Lemma serial_input_order_witness :
  exists m', (let! _ := xlnx_ulite_update_irq 3 in reads 3) m_typed = Ok [104; 0x18; 105] m' /\
    ulite_list m' = [] /\ h_stdin (host m') = [113].
Proof.
  apply (serial_input_order 3 m_typed).
  - destruct wf_m_zero. by constructor.
  - reflexivity.
  - vm_compute. lia.
  - repeat constructor; vm_compute; congruence.
Defined.
