(* ===== verification/MonitorProps.v ===== *)
(** * Loading and booting a program

    load_elf puts every segment of the file where the program headers say, and the
    emulator, started at its reset address, reaches the entry point of the file. *)
From S2P Require Import Prelude Config Reg Fifo Ram Flash Sdlkey Machine Ulite Spi Device Mmu Memory.
From S2P Require Import ExecAlu ExecMdu ExecMem Softfloat ExecFloat Decode Cpu Elfsym Monitor Frame Invariant Exits Samples.
From S2P Require Import Exceptions ArithProps MmuProps Layout MemProps CacheInv LoadStoreProps.
Local Open Scope nemu_scope.

(** ** Specification *)
(** Bytes of the file; a little-endian field of it. *)
Definition byte_at (buf : list Z) (i : Z) : Z := default 0 (buf !! Z.to_nat i).
Definition elf_field (buf : list Z) (base : Z) (f : Z * Z) : Z := le_bytes (slice buf (base + fst f) (snd f)).

Record phdr := mkPhdr { ph_type : Z; ph_offset : Z; ph_vaddr : Z; ph_filesz : Z; ph_memsz : Z }.
Definition phdr_at (buf : list Z) (o : Z) : phdr :=
  mkPhdr (elf_field buf o p_type) (elf_field buf o p_offset) (elf_field buf o p_vaddr) (elf_field buf o p_filesz)
    (elf_field buf o p_memsz).
Definition phdr_pos (buf : list Z) (i : Z) : Z := elf_field buf 0 e_phoff + i * elf_field buf 0 e_phentsize.
Definition phdrs (buf : list Z) : list phdr :=
  map (fun i => phdr_at buf (phdr_pos buf (Z.of_nat i))) (seq 0 (Z.to_nat (elf_field buf 0 e_phnum))).
Definition is_load (ph : phdr) : bool := ph_type ph =? PT_LOAD.

(** A 32-bit little-endian MIPS executable whose program headers lie in the file. *)
Record elf_file (buf : list Z) : Prop := mkElfFile {
  elf_bytes : Forall (in_u 8) buf;
  elf_size : 52 <= Z.of_nat (length buf) < 2 ^ 31;
  elf_ident : le_bytes (slice buf 0 4) = elf_magic /\ elf_field buf 0 EI_CLASS = ELFCLASS32 /\
    elf_field buf 0 EI_DATA = ELFDATA2LSB /\ elf_field buf 0 e_machine = EM_MIPS;
  elf_phdrs : forall i, 0 <= i < elf_field buf 0 e_phnum -> phdr_pos buf i + 32 <= Z.of_nat (length buf);
  elf_offsets : forall ph, In ph (phdrs buf) -> ph_offset ph < Z.of_nat (length buf)
}.

(** The array of a memory device and the offset in it that a guest address names. *)
Definition placed {cfg : Config} (m : machine) (va len : Z) (d : dev) (off : Z) : Prop :=
  is_unmapped va = true /\ find_device (ioremap va) m = Some d /\ is_ram d = true /\
  off = u32 (ioremap va - dev_start d) /\ 0 <= len /\ off + len <= array_size d.

Record segment := mkSegment { sg_dev : dev; sg_off : Z; sg_phdr : phdr }.
Record segment_ok {cfg : Config} (buf : list Z) (m : machine) (s : segment) : Prop := mkSegmentOk {
  so_placed : placed m (ph_vaddr (sg_phdr s)) (ph_memsz (sg_phdr s)) (sg_dev s) (sg_off s);
  so_filesz : ph_filesz (sg_phdr s) <= ph_memsz (sg_phdr s);
  so_file : ph_offset (sg_phdr s) + ph_filesz (sg_phdr s) <= Z.of_nat (length buf)
}.

(** What a segment says about byte [x] of the array of [d]: the file, then zeros. *)
Definition segment_byte (buf : list Z) (s : segment) (d : dev) (x : Z) : option Z :=
  if decide (d = sg_dev s /\ sg_off s <= x < sg_off s + ph_memsz (sg_phdr s)) then
    Some (if x - sg_off s <? ph_filesz (sg_phdr s)
          then byte_at buf (ph_offset (sg_phdr s) + (x - sg_off s)) else 0)
  else None.
(** A later segment overrides an earlier one. *)
Fixpoint image_byte (buf : list Z) (l : list segment) (d : dev) (x : Z) : option Z :=
  match l with
  | [] => None
  | s :: l => match image_byte buf l d x with Some b => Some b | None => segment_byte buf s d x end
  end.

(** ** Bytes and fields *)
Lemma le_bytes_range l : Forall (in_u 8) l -> 0 <= le_bytes l < 2 ^ (8 * Z.of_nat (length l)).
Proof.
  induction 1 as [|b l Hb _ IH]; [cbn; lia|]. cbn [le_bytes length]. rewrite pow256.
  unfold in_u in Hb. change (2 ^ 8) with 256 in Hb. lia.
Qed.

Lemma elf_field_range buf base f : Forall (in_u 8) buf -> 0 <= snd f -> 0 <= elf_field buf base f < 2 ^ (8 * snd f).
Proof.
  intros Hb Hf. unfold elf_field, slice.
  pose proof (le_bytes_range (take (Z.to_nat (snd f)) (drop (Z.to_nat (base + fst f)) buf))) as H.
  destruct H as [H0 H1]; [by apply Forall_take, Forall_drop|]. split; [done|].
  apply Z.lt_le_trans with (1 := H1). apply Z.pow_le_mono_r; [lia|].
  rewrite length_take. lia.
Qed.

Section Load.
Context {cfg : Config}.

Lemma field_run buf base f (m : machine) :
  0 <= base + fst f -> 0 <= snd f -> base + fst f + snd f <= Z.of_nat (length buf) ->
  field_at buf base f m = Ok (elf_field buf base f) m.
Proof using Type.
  intros H1 H2 H3. unfold field_at, buf_at, in_buf.
  rewrite (proj2 (Z.leb_le _ _) H1), (proj2 (Z.leb_le _ _) H2), (proj2 (Z.leb_le _ _) H3). done.
Qed.

Lemma array_dev_size d : is_ram d = true -> array_size d = dev_size d /\ array_size d < 2 ^ 31.
Proof using Type. by destruct d. Qed.

Lemma vaddr_map_run va len d off m : placed m va len d off -> vaddr_map va len m = Ok (d, off) m.
Proof using Type.
  intros (Hu & Hf & Hr & -> & Hl & Hb). unfold vaddr_map. rewrite Hu.
  erewrite bind_ok by reflexivity. erewrite bind_ok by reflexivity. rewrite Hf.
  set (off := u32 (ioremap va - dev_start d)) in *.
  assert (check_ioaddr off len (array_size d) = true) as Hc.
  { assert (0 <= off) by (apply uw_range; lia). destruct (array_dev_size d Hr) as [_ Hs]. unfold check_ioaddr.
    rewrite (uw_small 32 len) by (unfold in_u; lia). rewrite (uw_small 32 (off + len)) by (unfold in_u; lia).
    rewrite !andb_true_iff, !Z.leb_le. lia. }
  destruct d; try discriminate Hr; cbn in Hc |- *; unfold Bram.bram_map, Ddr.ddr_map, bind; by rewrite Hc.
Qed.

Lemma put_array_run d off data m :
  is_ram d = true -> put_array (d, off) data m = Ok tt (set_ram d (st_buf (ram_of d m) off data) m).
Proof using Type. by destruct d. Qed.

(** Only the contents of the memory devices change. *)
Definition mem_only (m m' : machine) : Prop := exists b dd, m' = set_bram b (set_ddr dd m).
#[global] Instance mem_only_preorder : PreOrder mem_only.
Proof using Type.
  split; [intros []; by eexists _, _|]. intros m1 m2 m3 (b & dd & ->) (b' & dd' & ->). by exists b', dd'.
Qed.

Lemma mem_only_set_ram d v m m' : mem_only m m' -> mem_only m (set_ram d v m').
Proof using Type.
  intros H. trans m'; [done|]. exists (bram (set_ram d v m')), (ddr (set_ram d v m')). by destruct m', d.
Qed.

Lemma placed_mem_only m m' va len d off : mem_only m m' -> placed m va len d off -> placed m' va len d off.
Proof using Type. by intros (b & dd & ->). Qed.

Lemma ld8_set_ram d v m d' x :
  is_ram d = true -> is_ram d' = true ->
  ld8 (ram_of d' (set_ram d v m)) x = if decide (d' = d) then ld8 v x else ld8 (ram_of d' m) x.
Proof using Type. by destruct d, d'. Qed.

(** memcpy then memset, byte by byte. *)
Lemma fill_bytes a bs n m x :
  ld8 (st_buf (st_buf m a bs) (a + Z.of_nat (length bs)) (replicate n 0)) x =
  if decide (a <= x < a + Z.of_nat (length bs + n)) then
    if x - a <? Z.of_nat (length bs) then u8 (byte_at bs (x - a)) else 0
  else ld8 m x.
Proof using Type.
  case_decide as Hx; [|rewrite !ld8_st_buf_ne; [done|lia|rewrite length_replicate; lia]].
  destruct (Z.ltb_spec (x - a) (Z.of_nat (length bs))).
  - rewrite ld8_st_buf_ne by lia. destruct (lookup_lt_is_Some_2 bs (Z.to_nat (x - a))) as [b Hb]; [lia|].
    replace x with (a + Z.of_nat (Z.to_nat (x - a))) at 1 by lia. rewrite (ld8_st_buf bs m a _ b Hb).
    unfold byte_at. by rewrite Hb.
  - set (k := Z.to_nat (x - a - Z.of_nat (length bs))).
    replace x with (a + Z.of_nat (length bs) + Z.of_nat k) at 1 by lia.
    rewrite (ld8_st_buf _ _ _ k 0); [done|]. apply lookup_replicate. lia.
Qed.

Lemma slice_lookup buf off len i :
  0 <= off -> 0 <= i < len -> byte_at (slice buf off len) i = byte_at buf (off + i).
Proof using Type.
  intros Ho Hi. unfold byte_at, slice. rewrite lookup_take, decide_True by lia. rewrite lookup_drop.
  do 2 f_equal. lia.
Qed.

Lemma length_slice buf off len :
  0 <= off -> 0 <= len -> off + len <= Z.of_nat (length buf) -> length (slice buf off len) = Z.to_nat len.
Proof using Type. intros. unfold slice. rewrite length_take, length_drop. lia. Qed.

Lemma byte_at_range buf i : Forall (in_u 8) buf -> in_u 8 (byte_at buf i).
Proof using Type.
  intros H. unfold byte_at. destruct (buf !! Z.to_nat i) as [b|] eqn:E; cbn; [|unfold in_u; lia].
  by apply (Forall_lookup_1 _ _ _ _ H E).
Qed.

(** ** The loop over the program headers *)
Definition updates (m m' : machine) (f : dev -> Z -> option Z) : Prop :=
  mem_only m m' /\
  forall d x, is_ram d = true -> ld8 (ram_of d m') x = default (ld8 (ram_of d m) x) (f d x).

Lemma ensure_run {A} b h (k : EM A) m : b = true -> (ensure b h ;; k) m = k m.
Proof using Type. by intros ->. Qed.

Section File.
Variable buf : list Z.
Hypothesis He : elf_file buf.

Lemma header_field_run f (m : machine) : 0 <= fst f -> 0 <= snd f -> fst f + snd f <= 52 -> field_at buf 0 f m = Ok (elf_field buf 0 f) m.
Proof using He. intros. destruct (elf_size _ He). apply field_run; cbn; lia. Qed.

Lemma header_field_range f : 0 <= snd f -> 0 <= elf_field buf 0 f < 2 ^ (8 * snd f).
Proof using He. apply elf_field_range, (elf_bytes _ He). Qed.

(** The two copies, once the address is resolved. *)
Lemma copy_segment_run s m :
  0 <= sg_off s -> 0 <= ph_offset (sg_phdr s) -> 0 <= ph_filesz (sg_phdr s) -> segment_ok buf m s ->
  exists m', (host_memcpy (sg_dev s, sg_off s) buf (ph_offset (sg_phdr s)) (ph_filesz (sg_phdr s)) ;;
     host_memset (ptr_add (sg_dev s, sg_off s) (ph_filesz (sg_phdr s))) 0
       (u32 (ph_memsz (sg_phdr s) - ph_filesz (sg_phdr s)))) m = Ok tt m' /\
    updates m m' (segment_byte buf s).
Proof using He.
  intros H0 Ho Hz [(_ & _ & Hr & _ & Hm & Ha) Hf Hb].
  set (d := sg_dev s) in *. set (off := sg_off s) in *. set (fo := ph_offset _) in *.
  set (fs := ph_filesz _) in *. set (ms := ph_memsz _) in *.
  destruct (array_dev_size d Hr) as [_ Hs].
  unfold host_memcpy, host_memset, in_buf, in_array, ptr_add. cbn [fst snd].
  rewrite (uw_small 32) by (unfold in_u; lia).
  assert (length (slice buf fo fs) = Z.to_nat fs) as El by (apply length_slice; lia).
  erewrite bind_ok; [|rewrite ensure_run by (rewrite !andb_true_iff, !Z.leb_le; lia); by apply put_array_run].
  rewrite ensure_run by (rewrite !andb_true_iff, !Z.leb_le; lia). rewrite put_array_run by done.
  eexists. split; [done|]. split; [by repeat apply mem_only_set_ram|].
  intros d' x Hd'. rewrite ld8_set_ram by done. unfold segment_byte. fold d off fo fs ms.
  case_decide as Ed; [subst d'|rewrite decide_False by (intros [? _]; done); by rewrite ld8_set_ram, decide_False].
  rewrite ram_of_set_ram by done.
  pose proof (fill_bytes off (slice buf fo fs) (Z.to_nat (ms - fs)) (ram_of d m) x) as E.
  rewrite El, Z2Nat.id in E by lia. rewrite E. clear E.
  replace (off + Z.of_nat (Z.to_nat fs + Z.to_nat (ms - fs))) with (off + ms) by lia.
  case_decide; [rewrite decide_True by done|rewrite decide_False by tauto; done]. cbn.
  destruct (Z.ltb_spec (x - off) fs); [|done]. rewrite slice_lookup by lia.
  apply uw_small, byte_at_range, (elf_bytes _ He).
Qed.

Variable i : Z.
Hypothesis Hi : 0 <= i < elf_field buf 0 e_phnum.
Let ph := phdr_at buf (phdr_pos buf i).

Lemma phdr_pos_bounds : 0 <= phdr_pos buf i /\ i * elf_field buf 0 e_phentsize < 2 ^ 31 /\ phdr_pos buf i + 32 < 2 ^ 31.
Proof using He Hi.
  pose proof (elf_phdrs _ He i Hi) as H. destruct (elf_size _ He). unfold phdr_pos in *.
  pose proof (header_field_range e_phoff ltac:(done)). pose proof (header_field_range e_phentsize ltac:(done)). nia.
Qed.

Lemma phdr_field_run f (m : machine) : 0 <= fst f -> 0 <= snd f -> fst f + snd f <= 32 ->
  field_at buf (phdr_pos buf i) f m = Ok (elf_field buf (phdr_pos buf i) f) m.
Proof using He Hi.
  intros. destruct phdr_pos_bounds. pose proof (elf_phdrs _ He i Hi). apply field_run; lia.
Qed.

Lemma phdr_in : In ph (phdrs buf).
Proof using Hi.
  unfold phdrs. apply in_map_iff. exists (Z.to_nat i). rewrite Z2Nat.id by lia. split; [done|].
  apply in_seq. lia.
Qed.

(** The guards pass, and only a loadable segment is copied. *)
Lemma load_segment_guards m :
  load_segment buf i m =
  when (is_load ph)
    (let! ptr := vaddr_map (ph_vaddr ph) (ph_memsz ph) in
     host_memcpy ptr buf (ph_offset ph) (ph_filesz ph) ;;
     host_memset (ptr_add ptr (ph_filesz ph)) 0 (u32 (ph_memsz ph - ph_filesz ph))) m.
Proof using He Hi.
  destruct phdr_pos_bounds as (B1 & B2 & B3). destruct (elf_size _ He) as [_ Hs].
  pose proof (elf_phdrs _ He i Hi) as B4. pose proof (elf_offsets _ He _ phdr_in) as B5.
  unfold load_segment. rewrite !(sw_small 32) by lia.
  do 2 (erewrite bind_ok by (by apply header_field_run)).
  rewrite ensure_run by (by apply Z.ltb_lt).
  replace (i * elf_field buf 0 e_phentsize + elf_field buf 0 e_phoff) with (phdr_pos buf i) by (unfold phdr_pos; lia).
  rewrite (sw_small 32) by lia. rewrite ensure_run by (apply Z.ltb_lt; lia).
  erewrite bind_ok by (by apply phdr_field_run).
  rewrite (uw_small 32) by (unfold in_u; lia). rewrite ensure_run by (by apply Z.ltb_lt).
  erewrite bind_ok by (by apply phdr_field_run).
  unfold is_load. cbn [ph_type ph phdr_at]. destruct (_ =? PT_LOAD); [|done]. cbn [when].
  do 3 (erewrite bind_ok by (by apply phdr_field_run)). done.
Qed.

Lemma load_segment_skip m : is_load ph = false -> load_segment buf i m = Ok tt m.
Proof using He Hi. intros H. by rewrite load_segment_guards, H. Qed.

Lemma load_segment_run s m :
  sg_phdr s = ph -> is_load ph = true -> segment_ok buf m s ->
  exists m', load_segment buf i m = Ok tt m' /\ updates m m' (segment_byte buf s).
Proof using He Hi.
  intros Es Hl Hs. pose proof Hs as [Hp _ _]. rewrite load_segment_guards, Hl. cbn [when]. rewrite <- Es.
  erewrite bind_ok by (by apply vaddr_map_run).
  assert (forall f, 0 <= snd f -> 0 <= elf_field buf (phdr_pos buf i) f) as Hpos
    by (intros f Hf; by apply elf_field_range; [apply (elf_bytes _ He)|]).
  apply copy_segment_run; [|rewrite Es; by apply Hpos..|done].
  destruct Hp as (_ & _ & _ & -> & _). apply uw_range; lia.
Qed.
End File.

(** The headers of the last [n] turns of the loop. *)
Definition phdrs_from (buf : list Z) (i : Z) (n : nat) : list phdr :=
  map (fun k => phdr_at buf (phdr_pos buf (i + Z.of_nat k))) (seq 0 n).

Lemma phdrs_from_S buf i n :
  phdrs_from buf i (S n) = phdr_at buf (phdr_pos buf i) :: phdrs_from buf (i + 1) n.
Proof using Type.
  unfold phdrs_from. cbn [seq map]. rewrite <- seq_shift, map_map, Z.add_0_r. f_equal.
  apply map_ext. intros k. do 2 f_equal. lia.
Qed.

Lemma segment_ok_mem_only buf m m' s : mem_only m m' -> segment_ok buf m s -> segment_ok buf m' s.
Proof using Type. intros Hm [? ? ?]. constructor; eauto using placed_mem_only. Qed.

Lemma load_segments_run buf n : elf_file buf -> forall i l m,
  0 <= i -> i + Z.of_nat n <= elf_field buf 0 e_phnum ->
  map sg_phdr l = List.filter is_load (phdrs_from buf i n) -> Forall (segment_ok buf m) l ->
  exists m', load_segments buf n i m = Ok tt m' /\ updates m m' (image_byte buf l).
Proof using Type.
  intros He. induction n as [|n IH]; intros i l m Hi Hn Hl Hok.
  { destruct l; [|done]. exists m. done. }
  rewrite phdrs_from_S in Hl. cbn [List.filter load_segments] in *.
  destruct (is_load _) eqn:Ep.
  - destruct l as [|s l]; [done|]. injection Hl as Es Hl. apply Forall_cons in Hok as [Hs Hok].
    destruct (load_segment_run buf He i ltac:(lia) s m Es Ep Hs) as (m1 & E1 & K1 & U1).
    destruct (IH (i + 1) l m1) as (m2 & E2 & K2 & U2); [lia..|done| |].
    { eapply Forall_impl; [exact Hok|]. intros. by eapply segment_ok_mem_only. }
    exists m2. erewrite bind_ok by exact E1. split; [done|]. split; [by etrans|].
    intros d x Hd. rewrite U2, U1 by done. cbn. by destruct (image_byte buf l d x).
  - erewrite bind_ok by (apply load_segment_skip; [done|lia|done]). apply IH; try done; lia.
Qed.

(** ** The boot stub *)
(** lui t0, %hi(entry); ori t0, t0, %lo(entry); jr t0; nop *)
Definition boot_stub (entry : Z) : list Z :=
  [0x3c080000 + entry / 2 ^ 16; 0x35080000 + entry mod 2 ^ 16; 0x01000008; 0].

Lemma host_store_run d off o len v m :
  is_ram d = true ->
  host_store (Some (d, off)) o len v m = Ok tt (set_ram d (st_bytes (ram_of d m) (off + o) (Z.to_nat len) v) m).
Proof using Type. by destruct d. Qed.

Lemma halves x : is_u32 x -> in_u 16 (x / 2 ^ 16) /\ in_u 16 (x mod 2 ^ 16).
Proof using Type.
  intros [H0 H1]. change (2 ^ 32) with (2 ^ 16 * 2 ^ 16) in H1.
  split; [split; [apply Z.div_pos|apply Z.div_lt_upper_bound]|apply Z.mod_pos_bound]; lia.
Qed.

Lemma stub_words entry : is_u32 entry ->
  [u32 (Z.lor 0x3c080000 (Z.shiftr entry 16)); u32 (Z.lor 0x35080000 (Z.land entry 0xFFFF)); u32 0x01000008; u32 0]
  = boot_stub entry.
Proof using Type.
  intros He. unfold boot_stub.
  rewrite Z.shiftr_div_pow2 by lia. change 0xFFFF with (Z.ones 16). rewrite Z.land_ones by lia.
  change 0x3c080000 with (Z.shiftl 0x3c08 16) at 1. change 0x35080000 with (Z.shiftl 0x3508 16) at 1.
  destruct (halves entry) as [Hd Hm]; [done|].
  rewrite !lor_shift_add by (done || lia). unfold in_u in *.
  rewrite !(uw_small 32) by (unfold in_u; cbn in *; lia). done.
Qed.

Lemma load_rom_run entry m d off :
  is_u32 entry -> placed m CPU_INIT_PC 16 d off ->
  exists m', load_rom entry m = Ok tt m' /\ mem_only m m' /\
    (forall d' x, is_ram d' = true -> ~ (d' = d /\ off <= x < off + 16) ->
       ld8 (ram_of d' m') x = ld8 (ram_of d' m) x) /\
    forall k w, boot_stub entry !! k = Some w -> ld_bytes (ram_of d m') (off + 4 * Z.of_nat k) 4 = w.
Proof using Type.
  intros He Hp. unfold load_rom. erewrite bind_ok by (by apply vaddr_map_run).
  destruct Hp as (_ & _ & Hr & _).
  do 3 (erewrite bind_ok by (by apply host_store_run)). rewrite host_store_run by done.
  eexists. split; [reflexivity|]. split; [by repeat apply mem_only_set_ram|].
  rewrite !ram_of_set_ram by done. split.
  - intros d' x Hd' Hx. rewrite !ld8_set_ram by done. case_decide; [subst d'|done].
    assert (~ (off <= x < off + 16)) by tauto. by rewrite !ld8_st_bytes_ne by lia.
  - rewrite <- stub_words by done. intros k w Hk.
    destruct k as [|[|[|[|k]]]]; [apply (inj Some) in Hk as <-..|done].
    all: repeat (rewrite ld_st_bytes_ne by (cbn; lia)); rewrite ?Z.add_0_r; apply ld_st_bytes_eq.
Qed.

Lemma load_elf_run buf m l d0 off0 :
  elf_file buf -> map sg_phdr l = List.filter is_load (phdrs buf) -> Forall (segment_ok buf m) l ->
  placed m CPU_INIT_PC 16 d0 off0 ->
  let entry := elf_field buf 0 e_entry in
  let stub := negb (entry =? CPU_INIT_PC) in
  exists m', load_elf (Some buf) m = Ok entry m' /\ mem_only m m' /\
    (forall d x, is_ram d = true -> ~ (stub = true /\ d = d0 /\ off0 <= x < off0 + 16) ->
       ld8 (ram_of d m') x = default (ld8 (ram_of d m) x) (image_byte buf l d x)) /\
    (stub = true -> forall k w, boot_stub entry !! k = Some w ->
       ld_bytes (ram_of d0 m') (off0 + 4 * Z.of_nat k) 4 = w).
Proof using Type.
  intros He Hl Hok Hp entry stub. pose proof (elf_ident _ He) as (I1 & I2 & I3 & I4).
  destruct (elf_size _ He) as [Hs _].
  assert (buf_at buf 0 4 m = Ok elf_magic m) as Em.
  { rewrite <- I1. apply (field_run buf 0 (0, 4)); cbn; lia. }
  unfold load_elf. erewrite bind_ok by (by apply header_field_run). erewrite bind_ok by exact Em.
  rewrite ensure_run by done.
  do 3 (erewrite bind_ok by (by apply header_field_run); rewrite ?I2, ?I3, ?I4, ensure_run by done).
  erewrite bind_ok by (by apply header_field_run).
  pose proof (header_field_range buf He e_phnum ltac:(done)) as Hn.
  destruct (load_segments_run buf (Z.to_nat (elf_field buf 0 e_phnum)) He 0 l m) as (m1 & E1 & K1 & U1);
    [done|lia|done|done|]. erewrite bind_ok by exact E1. fold entry. fold stub.
  destruct stub; cbn [when].
  - destruct (load_rom_run entry m1 d0 off0) as (m2 & E2 & K2 & F2 & W2).
    { apply (header_field_range buf He e_entry). done. }
    { by eapply placed_mem_only. }
    erewrite bind_ok by exact E2. exists m2. split_and!; [done|by etrans| |done].
    intros d x Hd Hx. rewrite F2, U1 by tauto. done.
  - exists m1. split_and!; [done..| |done]. intros d x Hd _. by apply U1.
Qed.
End Load.

(** C37: loading a 32-bit little-endian MIPS executable whose loadable segments lie in
    memory devices succeeds, returns the entry point of the file and changes nothing but
    the contents of the memory devices: every byte is what the last segment that covers it
    says (the bytes of the file up to p_filesz, then zeros up to p_memsz) and the old
    byte where no segment does, but for the four words of the boot stub at CPU_INIT_PC,
    written unless the program starts there itself. *)
Theorem load_elf_image {cfg : Config} buf m l d0 off0 :
  elf_file buf -> map sg_phdr l = List.filter is_load (phdrs buf) -> Forall (segment_ok buf m) l ->
  placed m CPU_INIT_PC 16 d0 off0 ->
  let entry := elf_field buf 0 e_entry in
  let stub := negb (entry =? CPU_INIT_PC) in
  exists m', load_elf (Some buf) m = Ok entry m' /\ mem_only m m' /\
    (forall d x, is_ram d = true -> ~ (stub = true /\ d = d0 /\ off0 <= x < off0 + 16) ->
       ld8 (ram_of d m') x = default (ld8 (ram_of d m) x) (image_byte buf l d x)) /\
    (stub = true -> forall k w, boot_stub entry !! k = Some w ->
       ld_bytes (ram_of d0 m') (off0 + 4 * Z.of_nat k) 4 = w).
Proof. apply load_elf_run. Qed.

(** An executable with a note, a segment of two words, the first in the file, and the symbol
    main. *)
Definition sample_elf : list Z :=
  [0x7f; 0x45; 0x4c; 0x46; 1; 1; 1; 0; 0; 0; 0; 0; 0; 0; 0; 0; 2; 0; 8; 0; 1; 0; 0; 0; 0; 0x10; 0; 0x80;
   0x34; 0; 0; 0; 0xbc; 0; 0; 0; 0; 0; 0; 0; 0x34; 0; 0x20; 0; 2; 0; 0x28; 0; 4; 0; 3; 0; 4; 0; 0; 0; 0x74;
   0; 0; 0; 0; 0; 0; 0; 0; 0; 0; 0; 0; 0; 0; 0; 0; 0; 0; 0; 0; 0; 0; 0; 0; 0; 0; 0; 1; 0; 0; 0; 0x74; 0; 0;
   0; 0; 0x10; 0; 0x80; 0; 0; 0; 0; 4; 0; 0; 0; 8; 0; 0; 0; 5; 0; 0; 0; 4; 0; 0; 0; 0xef; 0xcd; 0xab; 0x89;
   0; 0; 0; 0; 0; 0; 0; 0; 0; 0; 0; 0; 0; 0; 0; 0; 1; 0; 0; 0; 0; 0x10; 0; 0x80; 8; 0; 0; 0; 0x12; 0; 1; 0;
   0; 0x6d; 0x61; 0x69; 0x6e; 0; 0; 0x2e; 0x73; 0x79; 0x6d; 0x74; 0x61; 0x62; 0; 0x2e; 0x73; 0x74; 0x72;
   0x74; 0x61; 0x62; 0; 0x2e; 0x73; 0x68; 0x73; 0x74; 0x72; 0x74; 0x61; 0x62; 0; 0; 0; 0; 0; 0; 0; 0; 0; 0;
   0; 0; 0; 0; 0; 0; 0; 0; 0; 0; 0; 0; 0; 0; 0; 0; 0; 0; 0; 0; 0; 0; 0; 0; 0; 0; 0; 0; 0; 0; 0; 0; 0; 0; 1;
   0; 0; 0; 2; 0; 0; 0; 0; 0; 0; 0; 0; 0; 0; 0; 0x78; 0; 0; 0; 0x20; 0; 0; 0; 0; 0; 0; 0; 0; 0; 0; 0; 0; 0;
   0; 0; 0; 0; 0; 0; 9; 0; 0; 0; 3; 0; 0; 0; 0; 0; 0; 0; 0; 0; 0; 0; 0x98; 0; 0; 0; 6; 0; 0; 0; 0; 0; 0; 0;
   0; 0; 0; 0; 0; 0; 0; 0; 0; 0; 0; 0; 0x11; 0; 0; 0; 3; 0; 0; 0; 0; 0; 0; 0; 0; 0; 0; 0; 0x9e; 0; 0; 0;
   0x1b; 0; 0; 0; 0; 0; 0; 0; 0; 0; 0; 0; 0; 0; 0; 0; 0; 0; 0; 0].

(** The tables elfsym_load finds in it. *)
Definition sample_elfsym : elfsym_t := st (elfsym_load (Some sample_elf) elfsym_zero).

Lemma sample_elf_file : elf_file sample_elf.
Proof.
  constructor.
  - repeat (constructor; [split; lia|]). constructor.
  - vm_compute. split; [discriminate|reflexivity].
  - by vm_compute.
  - intros i. unfold phdr_pos. change (elf_field sample_elf 0 e_phnum) with 2.
    change (elf_field sample_elf 0 e_phoff) with 52. change (elf_field sample_elf 0 e_phentsize) with 32. cbn. lia.
  - intros ph H. vm_compute in H. destruct H as [<-|[<-|[]]]; reflexivity.
Qed.

(** Block RAM at the reset address, DDR at 0x1000 with a stale byte. *)
Definition m_load : machine :=
  set_memory_regions (<[0x1fc00 := bram_dev]> (<[1 := ddr_dev]> ∅)) (set_ddr {[0x1004 := 255]} m_zero).
Definition sample_segment : segment :=
  mkSegment ddr_dev 0x1000 (mkPhdr 1 0x74 0x80001000 4 8).

(** The stale byte becomes zero. *)
Lemma load_elf_image_witness :
  exists m', load_elf (cfg := mips32r1_defconfig) (Some sample_elf) m_load = Ok 0x80001000 m' /\
    ld8 (ddr m') 0x1003 = 0x89 /\ ld8 (ddr m') 0x1004 = 0 /\
    ld_bytes (bram m') 0 4 = 0x3c088000 /\ ld_bytes (bram m') 4 4 = 0x35081000.
Proof.
  destruct (load_elf_image (cfg := mips32r1_defconfig) sample_elf m_load [sample_segment] bram_dev 0
    sample_elf_file) as (m' & E & _ & HB & HS).
  - vm_compute. reflexivity.
  - repeat constructor; vm_compute; (reflexivity || discriminate).
  - repeat split; vm_compute; (reflexivity || discriminate).
  - exists m'. split; [exact E|]. split; [|split; [|split]].
    + rewrite (HB ddr_dev); [reflexivity|reflexivity|]. intros (_ & H & _). discriminate H.
    + rewrite (HB ddr_dev); [reflexivity|reflexivity|]. intros (_ & H & _). discriminate H.
    + apply (HS eq_refl 0%nat). reflexivity.
    + apply (HS eq_refl 1%nat). reflexivity.
Defined.
