(* ===== verification/BootProps.v ===== *)
(** * From reset to the entry point

    init_monitor leaves the machine at the reset address with the boot stub in front of
    it; the CPU loop runs the four instructions of the stub and arrives at the entry point
    of the loaded program. *)
From S2P Require Import Prelude Config Reg Fifo Ram Flash Sdlkey Machine Ulite Spi Device Mmu Memory.
From S2P Require Import ExecAlu ExecMdu ExecMem Softfloat ExecFloat Decode Cpu Elfsym Monitor Frame Invariant Exits Samples.
From S2P Require Import Exceptions ArithProps MmuProps Layout MemProps CacheInv LoadStoreProps MonitorProps.
Local Open Scope nemu_scope.

(** ** The loaders keep the machine well formed *)
Section Keeps.
Context {cfg : Config} (R : relation machine) `{!DevFrame R}.

Lemma keeps_put_array p data : keeps R (put_array p data).
Proof.
  intros m. unfold put_array, bind. cbn. destruct (fst p); cbn; try reflexivity;
    [apply bf_bram|apply bf_ddr]; auto with words.
Qed.
Lemma keeps_rom_store p off len v : keeps R (host_store p off len v).
Proof.
  intros m. unfold host_store, bind. cbn. destruct p as [[[] ?]|]; cbn; try reflexivity;
    [apply bf_bram|apply bf_ddr]; auto with words.
Qed.
Lemma keeps_vaddr_map a len : keeps R (vaddr_map a len).
Proof.
  intros m. unfold vaddr_map, bind, ensure. cbn. destruct (is_unmapped a); cbn; [|reflexivity].
  destruct (find_device _ m) as [d|]; [|reflexivity]. destruct d; cbn; try reflexivity;
    unfold Bram.bram_map, Ddr.ddr_map, bind; cbn; destruct (check_ioaddr _ _ _); reflexivity.
Qed.
#[local] Hint Resolve keeps_put_array keeps_rom_store keeps_vaddr_map : keeps.

Lemma keeps_load_segments buf n i : keeps R (load_segments buf n i).
Proof.
  revert i. induction n as [|n IH]; intros i; cbn; [keeps_solve|].
  apply keeps_bind; [exact _| |intros _; apply IH].
  unfold load_segment, field_at, buf_at, host_memcpy, host_memset. keeps_solve.
Qed.
#[local] Hint Resolve keeps_load_segments : keeps.

Lemma keeps_load_elf f : keeps R (load_elf f).
Proof. destruct f; unfold load_elf, load_rom, field_at, buf_at; keeps_solve. Qed.
End Keeps.

(** ** One turn of the CPU loop with interrupts masked *)
Section Turn.
Context {cfg : Config}.
Hypothesis Hdc : CONFIG_DECODE_CACHE = false.

(** What the turns leave alone. *)
Record quiet (m m' : machine) : Prop := mkQuiet {
  q_bram : bram m' = bram m;
  q_ddr : ddr m' = ddr m;
  q_regions : memory_regions m' = memory_regions m;
  q_state : nemu_state m' = nemu_state m
}.
#[global] Instance quiet_preorder : PreOrder quiet.
Proof using Type. split; [by constructor|]. intros ? ? ? [] []. constructor; congruence. Qed.

Lemma quiet_ram d m m' : quiet m m' -> ram_of d m' = ram_of d m.
Proof using Type. intros []. by destruct d. Qed.

(** Nothing is raised and every interrupt is masked. *)
Record calm (c : CPU_state) : Prop := mkCalm {
  cm_exc : has_exception c = false;
  cm_mask : cp0_get status_IM (cp0 c) = 0
}.

Lemma sampled_calm c : wf_cpu c -> calm c -> calm (sampled c) /\ exists x, sampled c = set_cp0 x c.
Proof using Type.
  intros Hc [H1 H2]. unfold sampled. destruct CONFIG_INTR; [|split; [done|]; exists (cp0 c); by destruct c].
  split; [constructor|].
  - unfold tick_cpu, raise_ip. by case_match.
  - unfold tick_cpu, raise_ip. case_match; regs; done.
  - unfold tick_cpu, raise_ip. case_match; by eexists.
Qed.

Lemma check_exception_calm m :
  wf m -> calm (cpu m) -> exists x, check_exception m = Ok tt (set_cpu (set_cp0 x (cpu m)) m) /\
    calm (set_cp0 x (cpu m)).
Proof using Type.
  intros Hwf Hc. unfold check_exception. destruct (_ || _); cbn [when].
  2:{ exists (cp0 (cpu m)). split; [|by destruct Hc]. by destruct m as [[]]. }
  destruct (sampled_calm (cpu m) (wf_m_cpu m Hwf) Hc) as ([H1 H2] & x & Ex).
  exists x. rewrite <- Ex. split; [|done].
  assert (check_intrs m = Ok tt (set_cpu (sampled (cpu m)) m)) as Ei.
  { rewrite check_intrs_run. unfold intr_pending. rewrite H2, Z.land_0_l, andb_false_r. done. }
  unfold get_cpu, bind at 1. cbn [gets]. rewrite (cm_exc _ Hc). cbn [negb when].
  erewrite bind_ok by exact Ei. unfold bind. cbn. rewrite H1. done.
Qed.

(** The stub is in front of the machine. *)
Record booting (d : dev) (off : Z) (stub : list Z) (m : machine) : Prop := mkBooting {
  bt_cinv : cinv m;
  bt_calm : calm (cpu m);
  bt_placed : placed m CPU_INIT_PC 16 d off;
  bt_words : forall k w, stub !! k = Some w -> ld_bytes (ram_of d m) (off + 4 * Z.of_nat k) 4 = w
}.

Lemma booting_quiet d off stub m m' :
  booting d off stub m -> quiet m m' -> cinv m' -> calm (cpu m') -> booting d off stub m'.
Proof using Type.
  intros [_ _ Hp Hw] Hq Hci Hc. constructor; [done|done| |by rewrite (quiet_ram d m m')].
  unfold placed, find_device in *. by rewrite (q_regions _ _ Hq).
Qed.

Definition stub_addr (k : nat) : Z := CPU_INIT_PC + 4 * Z.of_nat k.

Lemma stub_ram_at d off stub m k :
  booting d off stub m -> (k < 4)%nat ->
  ram_at m (stub_addr k) false (0x1fc00000 + 4 * Z.of_nat k) d /\
  0x1fc00000 + 4 * Z.of_nat k - dev_start d = off + 4 * Z.of_nat k.
Proof using Type.
  intros [[_ Hr _] _ (_ & Hf & Hd & Ho & _) _] Hk. change (ioremap CPU_INIT_PC) with 0x1fc00000 in *.
  destruct (find_device_page m 0x1fc00000 d Hr ltac:(lia) Hf) as (_ & P1 & P2).
  change (0x1fc00000 - 0x1fc00000 mod 4096) with 0x1fc00000 in P2.
  rewrite uw_small in Ho by (unfold in_u; lia). split; [|lia].
  assert (resolve m (stub_addr k) false = XHit (0x1fc00000 + 4 * Z.of_nat k) 0) as E.
  { destruct k as [|[|[|[|]]]]; [done..|lia]. }
  constructor; [by exists 0|lia| |done].
  rewrite (find_device_page_eq m _ 0x1fc00000); [done|]. destruct k as [|[|[|[|]]]]; [done..|lia].
Qed.

Lemma fetch_stub d off stub m k w :
  booting d off stub m -> (k < 4)%nat -> stub !! k = Some w -> pc (cpu m) = stub_addr k ->
  exists m', fetch m = Ok w m' /\ quiet m m' /\ cpu m' = put_gpr 0 0 (cpu m).
Proof using Type.
  intros Hb Hk Hw Hpc. unfold fetch. erewrite bind_ok by reflexivity. set (m1 := set_cpu _ m).
  assert (cinv m1) as Hci by apply cinv_put_gpr, (bt_cinv _ _ _ _ Hb).
  assert (booting d off stub m1) as Hb1.
  { apply (booting_quiet d off stub m); [done|by constructor|done|]. by destruct (bt_calm _ _ _ _ Hb). }
  destruct (stub_ram_at d off stub m1 k Hb1 Hk) as [Hra Hoff].
  unfold get_cpu, bind at 1. cbn [gets]. change (pc (cpu m1)) with (pc (cpu m)). rewrite Hpc.
  assert (is_u32 (stub_addr k) /\ stub_addr k / 2 ^ 29 = 5 /\ stub_addr k mod 2 ^ 12 + 4 <= 2 ^ 12)
    as (A1 & A2 & A3) by (destruct k as [|[|[|[|]]]]; [by vm_compute..|lia]).
  destruct (vaddr_read_ram m1 Hci (stub_addr k) 4 A1 ltac:(lia) ltac:(lia) A3 _ d Hra) as (m2 & E & F & _).
  rewrite ld_masked_bytes in E by (lia || apply wf_ram, Hci).
  change (Z.to_nat 4) with 4%nat in E. rewrite Hoff, (bt_words _ _ _ _ Hb1 k w Hw) in E. erewrite bind_ok by exact E.
  pose proof (forget_fields _ _ F) as (C & _ & R & B & D).
  assert (nemu_state m2 = nemu_state m1) as S by (unfold forget, set_mmu_cache in F; by injection F).
  destruct CONFIG_INSTR_LOG; (eexists; split; [reflexivity|]; split; [by constructor|exact C]).
Qed.

(** A turn that executes instruction [k] of the stub. *)
Lemma stub_turn d off stub m k w h g :
  booting d off stub m -> (k < 4)%nat -> stub !! k = Some w -> pc (cpu m) = stub_addr k ->
  decoder_get_handler w = Some h -> h <> H_tlbr ->
  (forall m1, wf m1 -> cpu m1 = put_gpr 0 0 (cpu m) ->
     to_exit h (exec_handler h (inst_ops w)) m1 = Ok tt (set_cpu (g (cpu m1)) m1)) ->
  (forall c, cp0 (g c) = cp0 c /\ has_exception (g c) = has_exception c) ->
  exists m' x, step m = Ok tt m' /\ booting d off stub m' /\ quiet m m' /\
    cpu m' = set_cp0 x (g (put_gpr 0 0 (cpu m))).
Proof using Hdc.
  intros Hb Hk Hw Hpc Hh Ht Hg Hfr. unfold step. unfold get_cpu at 1, bind at 1. cbn [gets].
  assert (exists m1, when CONFIG_INSTR_LOG (instr_enqueue_pc (pc (cpu m))) m = Ok tt m1 /\
    quiet m m1 /\ cpu m1 = cpu m /\ cinv m1) as (m1 & E1 & Q1 & C1 & I1).
  { pose proof (proj1 (CI_instr_enqueue (pc (cpu m)) 0) m (bt_cinv _ _ _ _ Hb)) as K.
    destruct CONFIG_INSTR_LOG; cbn [when] in *; eexists; (split; [reflexivity|]); split_and!;
      [by constructor|done|exact K|by constructor|done|apply Hb]. }
  assert (booting d off stub m1) as Hb1
    by (apply (booting_quiet d off stub m); [done..|]; rewrite C1; apply Hb).
  erewrite bind_ok by exact E1.
  assert ((Z.land (pc (cpu m)) 0x3 =? 0) = true) as -> by (rewrite Hpc; destruct k as [|[|[|[|]]]]; [done..|lia]).
  rewrite andb_false_r, Hdc.
  destruct (fetch_stub d off stub m1 k w Hb1 Hk Hw) as (m2 & E2 & Q2 & C2); [by rewrite C1|].
  pose proof (CI_fetch m1 I1) as I2. rewrite E2 in I2. cbn [st] in I2. rewrite C1 in C2.
  assert (exec_inst w m2 = Ok tt (set_cpu (g (cpu m2)) m2)) as E3.
  { unfold exec_inst, dispatch. rewrite Hh. apply Hg; [apply I2|done]. }
  pose proof (CI_to_exit h _ (CI_handler h w Ht) m2 I2) as I3. unfold exec_inst, dispatch in E3.
  rewrite Hh in E3. rewrite E3 in I3. cbn [st] in I3. set (m3 := set_cpu _ m2) in *.
  assert (calm (cpu m3)) as Hc3.
  { unfold m3. cbn [cpu set_cpu]. destruct (Hfr (cpu m2)) as [F1 F2]. destruct (bt_calm _ _ _ _ Hb).
    constructor; rewrite ?F1, ?F2, C2; done. }
  destruct (check_exception_calm m3 (ci_wf _ I3) Hc3) as (x & E4 & Hc4).
  pose proof (CI_check_exception m3 I3) as I4. rewrite E4 in I4. cbn [st] in I4.
  assert (quiet m (set_cpu (set_cp0 x (cpu m3)) m3)) as Q by (etrans; [exact Q1|]; etrans; [exact Q2|]; by constructor).
  exists (set_cpu (set_cp0 x (cpu m3)) m3), x. split_and!.
  - erewrite bind_ok; [exact E4|]. erewrite bind_ok by exact E2. unfold exec_inst, dispatch. by rewrite Hh.
  - by apply (booting_quiet d off stub m).
  - exact Q.
  - unfold m3. cbn [cpu set_cpu]. by rewrite C2.
Qed.

(** ** The four instructions *)
Lemma imm_field K imm lo len :
  in_u 16 imm -> 16 <= lo -> bf_get (mkField lo len) (K * 2 ^ 16 + imm) = bf_get (mkField (lo - 16) len) K.
Proof using Type.
  intros Hi Hl. unfold bf_get. cbn [f_lo f_len]. f_equal.
  replace lo with (16 + (lo - 16)) at 1 by lia. rewrite <- Z.shiftr_shiftr by lia. f_equal.
  rewrite Z.shiftr_div_pow2, Z.div_add_l by lia. rewrite (Z.div_small imm) by exact Hi. lia.
Qed.

Lemma imm_uimm K imm : in_u 16 imm -> inst_uimm (K * 2 ^ 16 + imm) = imm.
Proof using Type.
  intros Hi. unfold inst_uimm, bf_get. cbn [f_lo f_len]. rewrite Z.shiftr_0_r, Z.land_ones by lia.
  rewrite Z.add_comm, Z.mod_add by lia. by apply Z.mod_small.
Qed.

(** An I-format instruction is decoded from its upper half. *)
Lemma imm_handler K imm :
  in_u 16 imm -> let op := bf_get (mkField 10 6) K in op = 0xd \/ op = 0xf ->
  decoder_get_handler (K * 2 ^ 16 + imm) = entry opcode_table op.
Proof using Type.
  intros Hi op Ho. unfold decoder_get_handler, inst_op. rewrite imm_field by (done || lia).
  change (26 - 16) with 10. fold op. by destruct Ho as [-> | ->].
Qed.

Hypothesis Hds : CONFIG_DELAYSLOT = true.

Definition lui_cpu (imm : Z) (c : CPU_state) : CPU_state := set_pc (pc c + 4) (put_gpr 8 (Z.shiftl imm 16) c).
Definition ori_cpu (imm : Z) (c : CPU_state) : CPU_state := set_pc (pc c + 4) (put_gpr 8 (Z.lor (gpr_at c 8) imm) c).
Definition jr_cpu (c : CPU_state) : CPU_state :=
  set_pc (pc c + 4) (set_is_delayslot true (set_br_target (gpr_at c 8) c)).
Definition nop_cpu (c : CPU_state) : CPU_state :=
  set_is_delayslot false (set_pc (br_target c) (put_gpr 0 (gpr_at c 0) c)).

Lemma lui_turn imm m :
  in_u 16 imm -> is_delayslot (cpu m) = false ->
  to_exit H_lui (exec_handler H_lui (inst_ops (0x3c08 * 2 ^ 16 + imm))) m =
  Ok tt (set_cpu (lui_cpu imm (cpu m)) m).
Proof using Type.
  intros Hi Hs. unfold to_exit. cbn [exec_handler]. unfold Alu.lui, assign_rt. cbn [o_rs o_rt o_uimm inst_ops].
  unfold inst_rs, inst_rt. rewrite !imm_field, imm_uimm by (done || lia).
  change (bf_get (mkField (21 - 16) 5) 0x3c08) with 0. change (bf_get (mkField (16 - 16) 5) 0x3c08) with 8. cbn.
  rewrite handler_end_run by (rewrite ?orb_true_r; cbn; by rewrite ?Hs, ?andb_false_r).
  unfold end_cpu. cbn. by rewrite Hs, andb_false_r.
Qed.

Lemma ori_turn imm m :
  in_u 16 imm -> is_delayslot (cpu m) = false ->
  to_exit H_ori (exec_handler H_ori (inst_ops (0x3508 * 2 ^ 16 + imm))) m =
  Ok tt (set_cpu (ori_cpu imm (cpu m)) m).
Proof using Type.
  intros Hi Hs. unfold to_exit. cbn [exec_handler]. unfold Alu.ori, assign_rt, GR_SV. cbn [o_rs o_rt o_uimm inst_ops].
  unfold inst_rs, inst_rt. rewrite !imm_field, imm_uimm by (done || lia).
  change (bf_get (mkField (21 - 16) 5) 0x3508) with 8. change (bf_get (mkField (16 - 16) 5) 0x3508) with 8. cbn.
  rewrite handler_end_run by (rewrite ?orb_true_r; cbn; by rewrite ?Hs, ?andb_false_r).
  unfold end_cpu. cbn. by rewrite Hs, andb_false_r.
Qed.

Lemma jr_turn m :
  to_exit H_jr (exec_handler H_jr (inst_ops 0x01000008)) m =
  Ok tt (set_cpu (jr_cpu (cpu m)) m).
Proof using Hds.
  unfold to_exit. cbn [exec_handler]. unfold Branch.jr, prepare_delayslot. rewrite Hds. done.
Qed.

Lemma nop_turn m :
  is_delayslot (cpu m) = true ->
  to_exit H_sll (exec_handler H_sll (inst_ops 0)) m =
  Ok tt (set_cpu (nop_cpu (cpu m)) m).
Proof using Hds Hdc.
  intros Hs. change (to_exit H_sll (exec_handler H_sll (inst_ops 0)) m) with
    (handler_end H_sll (set_cpu (put_gpr 0 (Z.shiftl (gpr_at (cpu m) 0) 0) (cpu m)) m)).
  rewrite Z.shiftl_0_r, handler_end_run by (by rewrite ?Hdc, ?Hds). unfold end_cpu. cbn. by rewrite Hs, Hds.
Qed.

(** The general registers after the stub. *)
Definition stub_gpr (entry : Z) (c : CPU_state) (i : Z) : Z :=
  if i =? 0 then 0 else if i =? 8 then entry else gpr_at c i.

Lemma cpu_loop_S n m m' :
  step m = Ok tt m' -> nemu_state m' = NEMU_RUNNING -> cpu_loop (S n) m = cpu_loop n m'.
Proof using Type. intros E S. cbn [cpu_loop]. erewrite bind_ok by exact E. unfold bind. cbn. by rewrite decide_True. Qed.

Lemma stub_words_half entry : is_u32 entry ->
  boot_stub entry = [0x3c08 * 2 ^ 16 + entry / 2 ^ 16; 0x3508 * 2 ^ 16 + entry mod 2 ^ 16; 0x01000008; 0] /\
  in_u 16 (entry / 2 ^ 16) /\ in_u 16 (entry mod 2 ^ 16).
Proof using Type. intros H. split; [done|by apply halves]. Qed.

(** The registers, through the four instructions and the clearing of register 0. *)
Lemma stub_registers entry g i :
  is_u32 entry -> length g = 32%nat -> 0 <= i < 32 ->
  let g2 := arr_set (arr_set (arr_set g 0 0) 8 (u32 (Z.shiftl (entry / 2 ^ 16) 16))) 0 0 in
  let g4 := arr_set (arr_set g2 8 (u32 (Z.lor (arr_get g2 8) (entry mod 2 ^ 16)))) 0 0 in
  arr_get g4 8 = entry /\
  arr_get (arr_set (arr_set g4 0 0) 0 (u32 (arr_get (arr_set g4 0 0) 0))) i =
    if i =? 0 then 0 else if i =? 8 then entry else arr_get g i.
Proof using Type.
  intros He Hl Hi. cbv zeta. destruct (halves entry He) as [H1 H2].
  set (g1 := arr_set (arr_set g 0 0) 8 _).
  assert (arr_get (arr_set g1 0 0) 8 = entry / 2 ^ 16 * 2 ^ 16) as E1.
  { rewrite arr_get_set_ne by lia. unfold g1. rewrite arr_get_set_eq by (rewrite !length_arr_set; lia).
    rewrite Z.shiftl_mul_pow2 by lia. apply uw_small. unfold in_u in *.
    pose proof (Z.div_mod entry (2 ^ 16) ltac:(lia)). destruct He. lia. }
  rewrite E1. rewrite <- (Z.shiftl_mul_pow2 _ 16), lor_shift_add by (lia || done).
  rewrite (Z.mul_comm (entry / 2 ^ 16)), <- (Z.div_mod entry (2 ^ 16)), uw_small by (lia || done).
  set (g3 := arr_set _ 8 entry). 
  assert (arr_get (arr_set g3 0 0) 8 = entry) as E2.
  { rewrite arr_get_set_ne by lia. apply arr_get_set_eq. unfold g1. rewrite !length_arr_set. lia. }
  split; [done|]. destruct (Z.eqb_spec i 0) as [->|].
  - rewrite !arr_get_set_eq by (unfold g3, g1; rewrite !length_arr_set; lia). done.
  - rewrite !(arr_get_set_ne _ 0 i) by lia. destruct (Z.eqb_spec i 8) as [->|].
    + by rewrite arr_get_set_ne in E2 by lia.
    + unfold g3, g1. by rewrite !arr_get_set_ne by lia.
Qed.

Lemma stub_run entry d off m :
  is_u32 entry -> booting d off (boot_stub entry) m -> pc (cpu m) = CPU_INIT_PC ->
  is_delayslot (cpu m) = false -> nemu_state m = NEMU_RUNNING ->
  exists m', cpu_loop 4 m = Ok tt m' /\ quiet m m' /\ pc (cpu m') = entry /\
    is_delayslot (cpu m') = false /\ forall i, 0 <= i < 32 -> gpr_at (cpu m') i = stub_gpr entry (cpu m) i.
Proof using Hds Hdc.
  intros He Hb Hpc Hs Hn. destruct (stub_words_half entry He) as (Ew & H1 & H2). rewrite Ew in Hb.
  destruct (stub_turn _ _ _ m 0 _ H_lui (lui_cpu (entry / 2 ^ 16)) Hb ltac:(lia) eq_refl Hpc
    (imm_handler 0x3c08 _ H1 (or_intror eq_refl)) ltac:(done)) as (m1 & x1 & E1 & B1 & Q1 & C1); [|done|].
  { intros m1 _ Em. apply lui_turn; [done|by rewrite Em]. }
  destruct (stub_turn _ _ _ m1 1 _ H_ori (ori_cpu (entry mod 2 ^ 16)) B1 ltac:(lia) eq_refl ltac:(by rewrite C1; cbn; rewrite Hpc)
    (imm_handler 0x3508 _ H2 (or_introl eq_refl)) ltac:(done)) as (m2 & x2 & E2 & B2 & Q2 & C2); [|done|].
  { intros m2 _ Em. apply ori_turn; [done|by rewrite Em, C1]. }
  destruct (stub_turn _ _ _ m2 2 _ H_jr jr_cpu B2 ltac:(lia) eq_refl ltac:(by rewrite C2, C1; cbn; rewrite Hpc)
    eq_refl ltac:(done)) as (m3 & x3 & E3 & B3 & Q3 & C3); [|done|].
  { intros m3 _ _. apply jr_turn. }
  destruct (stub_turn _ _ _ m3 3 _ H_sll nop_cpu B3 ltac:(lia) eq_refl ltac:(by rewrite C3, C2, C1; cbn; rewrite Hpc)
    eq_refl ltac:(done)) as (m4 & x4 & E4 & B4 & Q4 & C4); [|done|].
  { intros m4 _ Em. apply nop_turn. by rewrite Em, C3. }
  assert (quiet m m2) as Q02 by (by etrans). assert (quiet m m3) as Q03 by (by etrans).
  assert (quiet m m4) as Q04 by (by etrans).
  exists m4. rewrite (cpu_loop_S _ _ _ E1) by (rewrite (q_state _ _ Q1); done).
  rewrite (cpu_loop_S _ _ _ E2) by (rewrite (q_state _ _ Q02); done).
  rewrite (cpu_loop_S _ _ _ E3) by (rewrite (q_state _ _ Q03); done).
  rewrite (cpu_loop_S _ _ _ E4) by (rewrite (q_state _ _ Q04); done).
  pose proof (wf_gpr_len _ (wf_m_cpu m (ci_wf _ (bt_cinv _ _ _ _ Hb)))) as Hg.
  split; [done|]. split; [done|]. rewrite C4, C3, C2, C1. split; [|split; [done|]].
  - trans (u32 (u32 entry)); [|rewrite uw_uw by lia; by apply uw_small]. cbn [pc set_cp0 nop_cpu set_is_delayslot set_pc]. f_equal.
    cbn [br_target put_gpr set_gpr set_cp0 jr_cpu set_pc set_is_delayslot set_br_target]. f_equal.
    exact (proj1 (stub_registers entry (gpr (cpu m)) 0 He Hg ltac:(lia))).
  - intros i Hi. exact (proj2 (stub_registers entry (gpr (cpu m)) i He Hg Hi)).
Qed.
End Turn.

(** ** Reset *)
Section Reset.
Context {cfg : Config}.

Definition reset_cpu (c : CPU_state) : CPU_state := init_config (set_pc CPU_INIT_PC (reset_cp0 c)).

Lemma reset_cpu_wf c : wf_cpu c -> wf_cpu (reset_cpu c).
Proof using Type. intros H. unfold reset_cpu, init_config, reset_cp0. destruct CONFIG_DIFF_WITH_QEMU; auto 40 with words. Qed.

Lemma reset_cpu_calm c : wf_cpu c -> has_exception c = false -> calm (reset_cpu c).
Proof using Type.
  intros Hc He. unfold reset_cpu, init_config, reset_cp0.
  constructor; destruct CONFIG_DIFF_WITH_QEMU; [done|done|..]; regs; done.
Qed.

Lemma reset_cpu_frame c :
  gpr (reset_cpu c) = gpr c /\ is_delayslot (reset_cpu c) = is_delayslot c /\ pc (reset_cpu c) = CPU_INIT_PC.
Proof using Type. unfold reset_cpu, init_config, reset_cp0. by destruct CONFIG_DIFF_WITH_QEMU. Qed.

(** Without a command line. *)
Lemma init_cpu_run cmd m :
  default [] cmd = [] -> wf m -> regions_ok m ->
  exists m', init_cpu CPU_INIT_PC cmd m = Ok tt m' /\ quiet m m' /\ cpu m' = reset_cpu (cpu m) /\ cinv m'.
Proof using Type.
  intros Hcmd Hwf Hr. unfold init_cpu.
  assert (exists t h, get_current_time m = Ok t (set_host h m)) as (t & h & E).
  { unfold get_current_time, bind. cbn. destruct (h_times (host m)) as [|t ts] eqn:Et; cbn; [|by eexists _, _].
    eexists _, (host m). by destruct m. }
  erewrite bind_ok by exact E.
  set (m' := caches_cleared (set_cpu (reset_cpu (cpu m)) (set_nemu_start_time t (set_host h m)))).
  exists m'. split; [by destruct cmd as [[]|]|]. split; [by constructor|]. split; [done|].
  assert (wf m') as Hw.
  { apply wf_cleared, wf_set_cpu; [by apply reset_cpu_wf, wf_m_cpu|]. destruct Hwf. by constructor. }
  split; [done|exact Hr|]. apply cleared_ok; [done|apply caches_cleared_empty].
Qed.
End Reset.

(** C38: in a build with delay slots and without the decode cache, and with no command
    line for the kernel (no --cmdline option, or an empty string: otherwise init_cpu also sets
    $a0 and $a1 and writes the string to memory), a machine set up by init_monitor with a
    symbol file that loads and an executable whose segments lie in memory and which does
    not start at the reset address runs the boot stub.  From a well-formed machine with no
    exception pending and outside a delay slot, after four turns of the CPU loop it is at
    the entry point of the file, outside a delay slot, with $t0 holding the entry point,
    register 0 zero, the other general registers as before the load, and, but for the 16
    bytes of the stub, the memory holding the segments of the file and elsewhere what it
    held before. *)
Theorem boot_reaches_entry {cfg : Config} buf sym_file cmd es es' m l d0 off0 :
  CONFIG_DELAYSLOT = true -> CONFIG_DECODE_CACHE = false ->
  wf m -> regions_ok m -> has_exception (cpu m) = false -> is_delayslot (cpu m) = false ->
  elf_file buf -> map sg_phdr l = List.filter is_load (phdrs buf) -> Forall (segment_ok buf m) l ->
  placed m CPU_INIT_PC 16 d0 off0 -> default [] cmd = [] ->
  elfsym_load (Some sym_file) es = Ok tt es' ->
  let entry := elf_field buf 0 e_entry in
  entry <> CPU_INIT_PC ->
  exists m1 m2, init_monitor (ElfFile (Some buf)) (Some (Some sym_file)) cmd es m = Ok (entry, es') m1 /\ pc (cpu m1) = CPU_INIT_PC /\
    run_loop 4 m1 = Ok tt m2 /\ pc (cpu m2) = entry /\ is_delayslot (cpu m2) = false /\
    nemu_state m2 = NEMU_STOP /\
    (forall i, 0 <= i < 32 -> gpr_at (cpu m2) i = stub_gpr entry (cpu m) i) /\
    forall d x, is_ram d = true -> ~ (d = d0 /\ off0 <= x < off0 + 16) ->
      ld8 (ram_of d m2) x = default (ld8 (ram_of d m) x) (image_byte buf l d x).
Proof.
  intros Hds Hdc Hwf Hr Hex Hsl He Hl Hok Hp Hcmd Hsym entry Hne.
  destruct (load_elf_run buf m l d0 off0 He Hl Hok Hp) as (m0 & E0 & K0 & B0 & W0). fold entry in E0, B0, W0.
  pose proof (keeps_load_elf (inv wf) (Some buf) m Hwf) as Hw0. rewrite E0 in Hw0. cbn [st] in Hw0.
  rewrite (proj2 (Z.eqb_neq _ _) Hne) in B0, W0. specialize (W0 eq_refl).
  pose proof (placed_mem_only m m0 _ _ _ _ K0 Hp) as Hp0.
  assert (cpu m0 = cpu m /\ regions_ok m0) as [Hc0 Hr0] by (by destruct K0 as (b & dd & ->)).
  destruct (init_cpu_run cmd m0 Hcmd Hw0 Hr0) as (m1 & E1 & Q1 & C1 & I1).
  assert (calm (cpu m1)) as Hcm1 by (rewrite C1, Hc0; by apply reset_cpu_calm; [apply wf_m_cpu|]).
  destruct (reset_cpu_frame (cpu m0)) as (G1 & S1 & P1). rewrite <- C1 in G1, S1, P1. rewrite Hc0 in G1, S1.
  set (m1' := set_nemu_state NEMU_RUNNING m1).
  assert (booting d0 off0 (boot_stub entry) m1') as Hb.
  { constructor; [by apply (bf_nemu_state (R := CI)) |done| |].
    - unfold placed, find_device in *. cbn [memory_regions m1' set_nemu_state]. by rewrite (q_regions _ _ Q1).
    - intros k w Hk. change (ram_of d0 m1') with (ram_of d0 m1). rewrite (quiet_ram d0 m0 m1 Q1). by apply W0. }
  destruct (stub_run Hdc Hds entry d0 off0 m1') as (m2 & E2 & Q2 & P2 & S2 & G2);
    [by apply (header_field_range buf He e_entry)|done|done|by cbn; rewrite S1|done|].
  exists m1, (set_nemu_state NEMU_STOP m2). split_and!.
  - unfold init_monitor. erewrite bind_ok by exact E0.
    erewrite bind_ok by (unfold lift_elfsym; by rewrite Hsym). by erewrite bind_ok by exact E1.
  - done.
  - unfold run_loop, when. rewrite Hdc. erewrite bind_ok by reflexivity. unfold get_cpu, bind at 1. cbn [gets].
    erewrite bind_ok by reflexivity. fold m1'. erewrite bind_ok by exact E2. unfold bind. cbn.
    by rewrite (q_state _ _ Q2).
  - done.
  - done.
  - done.
  - intros i Hi. cbn [cpu set_nemu_state]. rewrite G2 by done. unfold stub_gpr, gpr_at. cbn [cpu m1' set_nemu_state].
    by rewrite G1.
  - intros d x Hd Hx. change (ram_of d (set_nemu_state NEMU_STOP m2)) with (ram_of d m2).
    rewrite (quiet_ram d m1' m2 Q2). change (ram_of d m1') with (ram_of d m1). rewrite (quiet_ram d m0 m1 Q1).
    apply B0; [done|]. tauto.
Qed.

Lemma m_load_wf : wf m_load.
Proof.
  apply wf_set_regions. destruct wf_m_zero. constructor; try done. cbn.
  intros a b. rewrite lookup_singleton_Some. intros [_ <-]. by vm_compute.
Qed.

Lemma m_load_regions : regions_ok (cfg := mips32r1_defconfig) m_load.
Proof.
  intros p d. cbn [memory_regions m_load set_memory_regions].
  rewrite !lookup_insert_Some, lookup_empty. intros [[<- <-]|[_ [[<- <-]|[_ ?]]]]; done.
Qed.

(** The sample executable. *)
Lemma boot_reaches_entry_witness :
  exists m1 m2,
    init_monitor (cfg := mips32r1_defconfig) (ElfFile (Some sample_elf)) (Some (Some sample_elf)) (Some []) elfsym_zero
      m_load = Ok (0x80001000, sample_elfsym) m1 /\
    run_loop (cfg := mips32r1_defconfig) 4 m1 = Ok tt m2 /\ pc (cpu m2) = 0x80001000 /\
    gpr_at (cpu m2) 8 = 0x80001000 /\ ld8 (ddr m2) 0x1003 = 0x89 /\ ld8 (ddr m2) 0x1004 = 0.
Proof.
  destruct (boot_reaches_entry (cfg := mips32r1_defconfig) sample_elf sample_elf (Some []) elfsym_zero sample_elfsym m_load [sample_segment] bram_dev 0
    eq_refl eq_refl) as (m1 & m2 & E1 & _ & E2 & H1 & _ & _ & HG & HB).
  - exact m_load_wf.
  - exact m_load_regions.
  - reflexivity.
  - reflexivity.
  - exact sample_elf_file.
  - vm_compute. reflexivity.
  - repeat constructor; vm_compute; (reflexivity || discriminate).
  - repeat split; vm_compute; (reflexivity || discriminate).
  - reflexivity.
  - vm_compute. reflexivity.
  - vm_compute. discriminate.
  - exists m1, m2. split; [exact E1|]. split; [exact E2|]. split; [exact H1|]. split; [|split].
    + rewrite HG; [reflexivity|lia].
    + rewrite (HB ddr_dev); [reflexivity|reflexivity|]. intros [H _]. discriminate H.
    + rewrite (HB ddr_dev); [reflexivity|reflexivity|]. intros [H _]. discriminate H.
Defined.
