(* ===== verification/ElfsymProps.v ===== *)
(** * Symbol lookup

    elfsym_find_symbol finds the first function that contains an address, and the
    direct-mapped cache of its answers changes none of them but that for address 0. *)
From S2P Require Import Prelude Config Reg Fifo Ram Machine Elfsym Monitor MonitorProps.
Local Open Scope nemu_scope.

(** ** Specification *)
Record symbol := mkSymbol { sy_name : Z; sy_value : Z; sy_size : Z; sy_info : Z }.
Definition symbol_at (t : list Z) (i : Z) : symbol :=
  let b := i * SIZEOF_SYM in
  mkSymbol (elf_field t b st_name) (elf_field t b st_value) (elf_field t b st_size) (elf_field t b st_info).
Definition symbols_from (t : list Z) (i : Z) (n : nat) : list symbol :=
  map (fun k => symbol_at t (i + Z.of_nat k)) (seq 0 n).
Definition symbols (e : elfsym_t) : list symbol :=
  symbols_from (default [] (symtab e)) 0 (Z.to_nat (nr_symtab_entry e)).

Definition is_func (s : symbol) : bool := ELF32_ST_TYPE (sy_info s) =? STT_FUNC.
Definition contains (addr : Z) (s : symbol) : bool :=
  (sy_value s <=? addr) && (addr <? u32 (sy_value s + sy_size s)) && is_func s.
(** The first function that contains the address. *)
Definition symbol_in (l : list symbol) (addr : Z) : sym :=
  match List.find (contains addr) l with Some s => SymName (s32 (sy_name s)) | None => SymUnknown end.
Definition symbol_of (e : elfsym_t) (addr : Z) : sym := symbol_in (symbols e) addr.

(** The symbol table is in its buffer and the functions have names in the string table. *)
Record tables_ok (e : elfsym_t) : Prop := mkTablesOk {
  tk_symtab : is_Some (symtab e);
  tk_bound : nr_symtab_entry e * SIZEOF_SYM <= Z.of_nat (length (default [] (symtab e)));
  tk_names : Forall (fun s => is_func s = true -> s32 (sy_name s) < strtab_size e) (symbols e)
}.

(** A sequence of queries. *)
Fixpoint find_symbols (addrs : list Z) : M elfsym_t (list sym) :=
  match addrs with
  | [] => ret []
  | a :: addrs =>
      let! s := elfsym_find_symbol a in
      let! l := find_symbols addrs in ret (s :: l)
  end.

(** ** The search *)
Lemma sym_field_run e t i f :
  symtab e = Some t -> 0 <= i -> (i + 1) * SIZEOF_SYM <= Z.of_nat (length t) ->
  0 <= fst f -> 0 <= snd f -> fst f + snd f <= SIZEOF_SYM ->
  sym_field i f e = Ok (elf_field t (i * SIZEOF_SYM) f) e.
Proof.
  intros Ht. intros. unfold sym_field, bind. cbn [get]. rewrite Ht. unfold SIZEOF_SYM in *.
  unfold field_at, buf_at, in_buf. rewrite !(proj2 (Z.leb_le _ _)) by lia. done.
Qed.

Lemma symbols_from_S t i n : symbols_from t i (S n) = symbol_at t i :: symbols_from t (i + 1) n.
Proof.
  unfold symbols_from. cbn [seq map]. rewrite <- seq_shift, map_map, Z.add_0_r. f_equal.
  apply map_ext. intros k. f_equal. lia.
Qed.

Lemma find_symbol_loop_run addr e t n : forall i,
  symtab e = Some t -> 0 <= i -> (i + Z.of_nat n) * SIZEOF_SYM <= Z.of_nat (length t) ->
  Forall (fun s => is_func s = true -> s32 (sy_name s) < strtab_size e) (symbols_from t i n) ->
  find_symbol_loop addr n i e = Ok (symbol_in (symbols_from t i n) addr) e.
Proof.
  induction n as [|n IH]; intros i Ht Hi Hb Hn; [done|].
  assert ((i + 1) * SIZEOF_SYM <= Z.of_nat (length t)) as Hi1 by (unfold SIZEOF_SYM in *; lia).
  rewrite symbols_from_S in *. apply Forall_cons in Hn as [Hs Hn]. cbn [find_symbol_loop].
  do 2 (erewrite bind_ok by (by apply (sym_field_run e t))).
  specialize (IH (i + 1) Ht ltac:(lia) ltac:(unfold SIZEOF_SYM in *; lia) Hn).
  unfold symbol_in in *. cbn [List.find]. unfold contains at 1.
  set (s := symbol_at t i) in *. fold (sy_value s) (sy_size s).
  change (elf_field t (i * SIZEOF_SYM) st_value) with (sy_value s). change (elf_field t (i * SIZEOF_SYM) st_size) with (sy_size s).
  destruct ((sy_value s <=? addr) && (addr <? u32 (sy_value s + sy_size s))); cbn [negb andb]; [|exact IH].
  erewrite bind_ok by (by apply (sym_field_run e t)).
  change (elf_field t (i * SIZEOF_SYM) st_info) with (sy_info s). fold (is_func s).
  destruct (is_func s) eqn:Ef; cbn [negb]; [|exact IH].
  unfold sym_name. erewrite bind_ok; [done|]. erewrite bind_ok by (by apply (sym_field_run e t)).
  unfold bind. cbn [get]. change (elf_field t (i * SIZEOF_SYM) st_name) with (sy_name s).
  rewrite (proj2 (Z.ltb_lt _ _) (Hs eq_refl)). done.
Qed.

Lemma search_run addr e :
  tables_ok e -> find_symbol_loop addr (Z.to_nat (nr_symtab_entry e)) 0 e = Ok (symbol_of e addr) e.
Proof.
  intros [[t Ht] Hb Hn]. unfold symbol_of, symbols in *. rewrite Ht in *. cbn in Hb, Hn |- *.
  destruct (Z.le_gt_cases 0 (nr_symtab_entry e)).
  - apply find_symbol_loop_run; [done|done|lia|done].
  - replace (Z.to_nat (nr_symtab_entry e)) with 0%nat by lia. done.
Qed.

(** ** The cache *)
(** Every filled entry is the answer for its address, in the slot of that address. *)
Definition cache_good (e : elfsym_t) : Prop :=
  forall c i s a, addr2sym_cache e = Some c -> c !! i = Some (s, a) -> s = symbol_of e a /\ sym_cache_index a = i.

(** The tables are not touched. *)
Definition same_tables (e e' : elfsym_t) : Prop :=
  symtab e' = symtab e /\ nr_symtab_entry e' = nr_symtab_entry e /\ strtab_size e' = strtab_size e /\
  strtab e' = strtab e.

Lemma symbol_of_same e e' a : same_tables e e' -> symbol_of e' a = symbol_of e a.
Proof. intros (H1 & H2 & _). unfold symbol_of, symbols. by rewrite H1, H2. Qed.
Lemma tables_ok_same e e' : same_tables e e' -> tables_ok e -> tables_ok e'.
Proof. intros (H1 & H2 & H3 & _) [? ? ?]. constructor; unfold symbols in *; by rewrite ?H1, ?H2, ?H3. Qed.

(** An address that the zeroed entries of the cache do not claim. *)
Definition answerable (e : elfsym_t) (a : Z) : Prop := a <> 0 \/ addr2sym_cache e = None.

Lemma find_symbol_run a e :
  tables_ok e -> cache_good e -> answerable e a ->
  exists e', elfsym_find_symbol a e = Ok (symbol_of e a) e' /\ same_tables e e' /\ cache_good e' /\
    (addr2sym_cache e = None -> e' = e).
Proof.
  intros Ht Hg Ha. unfold elfsym_find_symbol, bind at 1. cbn [get].
  destruct (addr2sym_cache e) as [c|] eqn:Ec.
  - destruct (Z.eqb_spec (snd (cache_entry c (sym_cache_index a))) a) as [Eh|Eh].
    + exists e. split; [|done]. unfold cache_entry in *. destruct (c !! sym_cache_index a) as [[s a']|] eqn:El.
      * cbn in Eh |- *. subst a'. by destruct (Hg c _ s a Ec El) as [-> _].
      * cbn in Eh. destruct Ha as [Ha|Ha]; congruence.
    + set (e' := set_addr2sym_cache (<[sym_cache_index a := (symbol_of e a, a)]> c) e).
      exists e'. erewrite bind_ok by (by apply search_run). unfold cache_symbol, bind. cbn [get]. rewrite Ec.
      split; [done|]. split; [done|]. split; [|done]. intros c' i s b [= <-] Hl.
      apply lookup_insert_Some in Hl as [[<- [= <- <-]]|[_ Hl]]; [done|]. by apply (Hg c).
  - exists e. erewrite bind_ok by (by apply search_run). unfold cache_symbol, bind. cbn [get]. rewrite Ec. done.
Qed.

Lemma find_symbols_run addrs : forall e,
  tables_ok e -> cache_good e -> Forall (answerable e) addrs ->
  exists e', find_symbols addrs e = Ok (map (symbol_of e) addrs) e'.
Proof.
  induction addrs as [|a addrs IH]; intros e Ht Hg Ha; [by exists e|].
  apply Forall_cons in Ha as [Ha Has].
  destruct (find_symbol_run a e Ht Hg Ha) as (e1 & E1 & S1 & G1 & N1).
  destruct (IH e1) as (e2 & E2); [by apply (tables_ok_same e)|done| |].
  { eapply Forall_impl; [exact Has|]. intros b [?|Hb]; [by left|right]. by rewrite (N1 Hb). }
  exists e2. cbn [find_symbols map]. erewrite bind_ok by exact E1. erewrite bind_ok by exact E2.
  unfold ret. do 2 f_equal. apply map_ext. intros. by apply symbol_of_same.
Qed.

(** C39: for a symbol table that lies in its buffer and whose function symbols have their
    names inside the string table, any sequence of queries answers each
    address with the first function symbol that contains it, or with the unknown symbol;
    with the cache of elfsym_optimize_find_symbol the answers are the same for every
    sequence of nonzero addresses, whatever the collisions in the cache, while the first
    query for address 0 hits a zeroed entry and gives a null pointer. *)
Theorem find_symbol_cached e addrs :
  tables_ok e -> addr2sym_cache e = None ->
  (exists e1, find_symbols addrs e = Ok (map (symbol_of e) addrs) e1) /\
  (Forall (fun a => a <> 0) addrs ->
   exists e2, find_symbols addrs (elfsym_optimize_find_symbol e) = Ok (map (symbol_of e) addrs) e2) /\
  elfsym_find_symbol 0 (elfsym_optimize_find_symbol e) = Ok SymNull (elfsym_optimize_find_symbol e).
Proof.
  intros Ht Hn. split_and!; [| |done].
  - apply find_symbols_run; [done|by intros c i s a; rewrite Hn|]. apply Forall_forall. intros a _. by right.
  - intros Ha. set (e0 := elfsym_optimize_find_symbol e).
    assert (same_tables e e0) as Hs by done.
    destruct (find_symbols_run addrs e0) as [e2 E2]; [by apply (tables_ok_same e)|by intros c i s a [= <-]| |].
    { eapply Forall_impl; [exact Ha|]. intros. by left. }
    exists e2. by rewrite E2.
Qed.

(** main is at 0x80001000; 0x80002000 has the same slot. *)
Lemma find_symbol_cached_witness :
  exists e, find_symbols [0x80001004; 0x80002004; 0x80001004; 0x80000ffc]
    (elfsym_optimize_find_symbol sample_elfsym) = Ok [SymName 1; SymUnknown; SymName 1; SymUnknown] e.
Proof.
  destruct (find_symbol_cached sample_elfsym [0x80001004; 0x80002004; 0x80001004; 0x80000ffc]) as (_ & H & _).
  - split; [vm_compute; eexists; reflexivity|vm_compute; discriminate|].
    apply Forall_forall. intros s Hs. apply list_elem_of_In in Hs. vm_compute in Hs.
    destruct Hs as [<-|[<-|[]]]; vm_compute; reflexivity.
  - reflexivity.
  - destruct H as [e E]; [repeat constructor; discriminate|]. exists e. exact E.
Defined.
