(* ===== verification/GdbProps.v ===== *)
(** * Packets of the GDB remote protocol

    What gdb_send writes and what gdb_recv reads, against the format of the protocol:
    literal bytes, escaped bytes and run lengths between the start marker and the
    checksum, with retransmission of the packets that arrive damaged. *)
From S2P Require Import Prelude GdbProto.
Local Open Scope nemu_scope.

(** ** The format *)
Definition special (c : Z) : bool := (c =? ch_dollar) || (c =? ch_hash) || (c =? ch_brace) || (c =? ch_star).

(** A literal byte, an escaped byte, [n] more copies of the last byte. *)
Inductive item := Lit (b : Z) | Esc (b : Z) | Run (n : Z).
Definition item_bytes (it : item) : list Z :=
  match it with Lit b => [b] | Esc b => [ch_brace; Z.lxor b 0x20] | Run n => [ch_star; n + 29] end.
(** The bytes an item stands for, after [p]. *)
Definition item_data (p : list Z) (it : item) : list Z :=
  match it with Lit b | Esc b => [b] | Run n => replicate (Z.to_nat n) (List.last p 0) end.
Definition item_ok (p : list Z) (it : item) : bool :=
  match it with
  | Lit b => negb (special b)
  | Esc b => negb (special (Z.lxor b 0x20))
  | Run n => (0 <=? n) && (n <=? 97) && negb (n + 29 =? ch_dollar) && negb (n + 29 =? ch_hash) && negb (bool_decide (p = []))
  end.

Fixpoint items_ok (p : list Z) (l : list item) : bool :=
  match l with [] => true | it :: l => item_ok p it && items_ok (p ++ item_data p it) l end.
Fixpoint payload (p : list Z) (l : list item) : list Z :=
  match l with [] => p | it :: l => payload (p ++ item_data p it) l end.
Definition body (l : list item) : list Z := concat (map item_bytes l).
Definition checksum (l : list item) : Z := byte_sum (body l).

(** Bytes before the start marker, the items, the two digits after the end marker. *)
Record frame := mkFrame { fr_noise : list Z; fr_items : list item; fr_msb : Z; fr_lsb : Z }.
Definition frame_bytes (f : frame) : list Z :=
  fr_noise f ++ ch_dollar :: body (fr_items f) ++ [ch_hash; fr_msb f; fr_lsb f].
Definition frame_ok (f : frame) : Prop :=
  Forall (fun c => c <> ch_dollar) (fr_noise f) /\ items_ok [] (fr_items f) = true /\
  Z.of_nat (length (payload [] (fr_items f))) < 2 ^ 60.
Definition intact (f : frame) : bool := checksum (fr_items f) =? gdb_decode_hex (fr_msb f) (fr_lsb f).

(** The packet of a command without special bytes. *)
Definition plain_frame (cmd : list Z) : frame :=
  match print_02X (byte_sum cmd) with
  | [msb; lsb] => mkFrame [] (map Lit cmd) msb lsb
  | _ => mkFrame [] [] 0 0
  end.

(** ** The main loop *)
(** The size of the buffer follows the bytes in it. *)
Definition fits (size : Z) (reply : list Z) : Prop :=
  4096 <= size <= 4096 + 2 * Z.of_nat (length reply) /\ Z.of_nat (length reply) <= size.

Lemma payload_length l : forall p, (length p <= length (payload p l))%nat.
Proof. induction l as [|it l IH]; intros p; cbn; [lia|]. specialize (IH (p ++ item_data p it)). rewrite length_app in IH. lia. Qed.

Lemma special_false c : special c = false ->
  (c =? ch_dollar) = false /\ (c =? ch_hash) = false /\ (c =? ch_brace) = false /\ (c =? ch_star) = false.
Proof. unfold special. rewrite !orb_false_iff. tauto. Qed.

(** A byte that is not special is added. *)
Lemma recv_loop_add c input reply size sum (escape : bool) :
  special c = false -> fits size reply -> Z.of_nat (length reply) < 2 ^ 60 ->
  exists size', recv_loop (c :: input) reply size sum escape =
      recv_loop input (reply ++ [if escape then Z.lxor c 0x20 else c]) size' (u8 (sum + c)) false /\
    fits size' (reply ++ [if escape then Z.lxor c 0x20 else c]).
Proof.
  intros (E1 & E2 & E3 & E4)%special_false [[H1 H2] H3] Hl. cbn [recv_loop]. rewrite E1, E2, E3, E4. cbn [andb].
  set (i := Z.of_nat (length reply)) in *.
  exists (if i =? size then u64 (size * 2) else size). unfold fits. rewrite length_app, Nat2Z.inj_add. cbn [length].
  fold i. destruct (Z.eqb_spec i size) as [Ei|Ei].
  - rewrite uw_small by (unfold in_u; lia). rewrite (proj2 (Z.ltb_lt i _)) by lia. split; [done|]. lia.
  - rewrite (proj2 (Z.ltb_lt i size)) by lia. split; [done|]. lia.
Qed.

Lemma recv_loop_item it input reply size sum :
  item_ok reply it = true -> fits size reply -> Z.of_nat (length (reply ++ item_data reply it)) < 2 ^ 60 ->
  exists size', recv_loop (item_bytes it ++ input) reply size sum false =
      recv_loop input (reply ++ item_data reply it) size' (foldl (fun s c => u8 (s + c)) sum (item_bytes it)) false /\
    fits size' (reply ++ item_data reply it).
Proof.
  intros Hok Hf Hl. rewrite length_app in Hl. destruct it as [b|b|n]; cbn [item_bytes item_data item_ok app] in *.
  - apply negb_true_iff in Hok. apply (recv_loop_add b input reply size sum false); [done|done|lia].
  - apply negb_true_iff in Hok.
    destruct (recv_loop_add (Z.lxor b 0x20) input reply size (u8 (sum + ch_brace)) true) as (size' & E & F);
      [done|done|lia|]. rewrite Z.lxor_assoc, Z.lxor_nilpotent, Z.lxor_0_r in E, F. by exists size'.
  - rewrite !andb_true_iff, !negb_true_iff in Hok. destruct Hok as [[[[H1 H2] H3] H4] H5].
    apply Z.leb_le in H1, H2. rewrite bool_decide_eq_false in H5. destruct Hf as [[F1 F2] F3].
    rewrite length_replicate in Hl.
    set (i := Z.of_nat (length reply)) in *. assert (0 < i) by (destruct reply; [done|unfold i; cbn; lia]).
    exists (if size <? i + n then u64 (size * 2) else size).
    cbn [recv_loop]. fold i. change (ch_star =? ch_dollar) with false. change (ch_star =? ch_hash) with false.
    change (ch_star =? ch_brace) with false. change (ch_star =? ch_star) with true. rewrite (proj2 (Z.ltb_lt 0 i)) by lia.
    cbn [andb]. rewrite H3, H4, (proj2 (Z.ltb_ge (n + 29) 29)), (proj2 (Z.ltb_ge 126 (n + 29))) by lia. cbn [orb].
    replace (n + 29 - 29) with n by lia. unfold fits. rewrite length_app, length_replicate, Nat2Z.inj_add, Z2Nat.id by lia. fold i.
    destruct (Z.ltb_spec size (i + n)).
    + rewrite uw_small by (unfold in_u; lia). rewrite (proj2 (Z.leb_le (i + n) _)) by lia. split; [done|lia].
    + rewrite (proj2 (Z.leb_le (i + n) size)) by lia. split; [done|lia].
Qed.

Lemma recv_loop_body l : forall input reply size sum,
  items_ok reply l = true -> fits size reply -> Z.of_nat (length (payload reply l)) < 2 ^ 60 ->
  exists size', recv_loop (body l ++ input) reply size sum false =
      recv_loop input (payload reply l) size' (foldl (fun s c => u8 (s + c)) sum (body l)) false /\
    fits size' (payload reply l).
Proof.
  induction l as [|it l IH]; intros input reply size sum Hok Hf Hl; cbn [items_ok payload] in *.
  { exists size. done. }
  apply andb_true_iff in Hok as [Hi Hok].
  pose proof (payload_length l (reply ++ item_data reply it)) as Hp.
  destruct (recv_loop_item it (body l ++ input) reply size sum Hi Hf ltac:(lia)) as (s1 & E1 & F1).
  destruct (IH input _ s1 (foldl (fun s c => u8 (s + c)) sum (item_bytes it)) Hok F1 Hl) as (s2 & E2 & F2).
  exists s2. split; [|done]. change (body (it :: l)) with (item_bytes it ++ body l).
  by rewrite <- app_assoc, foldl_app, E1.
Qed.

(** ** Frames *)
Lemma skip_noise noise l : Forall (fun c => c <> ch_dollar) noise -> skip_to_start (noise ++ ch_dollar :: l) = l.
Proof.
  induction 1 as [|c noise Hc _ IH]; [done|]. cbn [app skip_to_start]. by rewrite (proj2 (Z.eqb_neq _ _) Hc).
Qed.

Lemma byte_sum_range l : in_u 8 (byte_sum l).
Proof.
  unfold byte_sum. assert (forall s, in_u 8 s -> in_u 8 (foldl (fun s c => u8 (s + c)) s l)) as H; [|by apply H].
  induction l as [|c l IH]; intros s Hs; [done|]. apply IH, uw_range. lia.
Qed.

Lemma recv_packet_frame f rest c :
  frame_ok f -> gin c = frame_bytes f ++ rest ->
  recv_packet c = Ok (payload [] (fr_items f), intact f) (set_gin rest c).
Proof.
  intros (Hn & Hok & Hl) Hin. unfold recv_packet. rewrite Hin. unfold frame_bytes.
  rewrite <- app_assoc. cbn [app]. rewrite skip_noise, <- app_assoc by done.
  destruct (recv_loop_body (fr_items f) ([ch_hash; fr_msb f; fr_lsb f] ++ rest) [] 4096 0 Hok) as (s & E & [[F1 F2] F3]);
    [by split; cbn; lia|done|].
  rewrite E. cbn [app recv_loop]. change (ch_hash =? ch_dollar) with false. change (ch_hash =? ch_hash) with true.
  cbn [next_u8]. set (i := Z.of_nat _) in *. fold (byte_sum (body (fr_items f))). fold (checksum (fr_items f)).
  replace (u8 (u8 (checksum (fr_items f) + ch_hash) - ch_hash)) with (checksum (fr_items f)).
  2:{ unfold uw. rewrite Zminus_mod_idemp_l, Z.add_simpl_r. symmetry. apply Z.mod_small, byte_sum_range. }
  replace (i <? (if i =? s then u64 (s + 1) else s)) with true; [done|]. symmetry. apply Z.ltb_lt.
  destruct (Z.eqb_spec i s); [rewrite uw_small by (unfold in_u; lia)|]; lia.
Qed.

(** A packet is answered with one byte, and a damaged one is asked for again. *)
Lemma gdb_recv_loop_frames bad : forall n f rest c,
  Forall (fun g => frame_ok g /\ intact g = false) bad -> frame_ok f -> intact f = true -> gack c = true ->
  gin c = concat (map frame_bytes bad) ++ frame_bytes f ++ rest -> (length bad < n)%nat ->
  gdb_recv_loop n c =
  Ok (payload [] (fr_items f)) (mkConn rest (gout c ++ replicate (length bad) ch_minus ++ [ch_plus]) true).
Proof.
  induction bad as [|g bad IH]; intros n f rest c Hb Hf Hi Ha Hin Hn; (destruct n as [|n]; [cbn in Hn; lia|]);
    cbn [gdb_recv_loop].
  - cbn [map concat app] in Hin. rewrite (bind_ok _ _ _ _ _ (recv_packet_frame f rest c Hf Hin)).
    unfold bind. cbn. rewrite Ha, Hi. cbn. by rewrite Ha.
  - apply Forall_cons in Hb as [[Hg Hgi] Hb]. cbn [map concat] in Hin. rewrite <- app_assoc in Hin.
    rewrite (bind_ok _ _ _ _ _ (recv_packet_frame g _ c Hg Hin)). unfold bind. cbn [get]. cbn [gack set_gin]. rewrite Ha, Hgi.
    cbn. rewrite (IH n f rest); [|done..|cbn in Hn; lia]. cbn. by rewrite <- app_assoc.
Qed.

Lemma gdb_recv_frames bad f rest c :
  Forall (fun g => frame_ok g /\ intact g = false) bad -> frame_ok f -> intact f = true -> gack c = true ->
  gin c = concat (map frame_bytes bad) ++ frame_bytes f ++ rest ->
  gdb_recv c = Ok (payload [] (fr_items f)) (mkConn rest (gout c ++ replicate (length bad) ch_minus ++ [ch_plus]) true).
Proof.
  intros Hb Hf Hi Ha Hin. unfold gdb_recv, bind. cbn [get]. apply gdb_recv_loop_frames; try done.
  rewrite Hin, length_app. assert (length bad <= length (concat (map frame_bytes bad)))%nat; [|lia].
  clear. induction bad as [|g bad IH]; cbn; [lia|]. rewrite length_app.
  assert (1 <= length (frame_bytes g))%nat by (unfold frame_bytes; rewrite length_app; cbn; lia). lia.
Qed.

(** ** Sending *)
Lemma hex_digits x : in_u 8 x -> gdb_decode_hex (hex_upper (Z.shiftr x 4)) (hex_upper (Z.land x 0xf)) = x.
Proof.
  intros Hx. assert (forallb (fun n => let x := Z.of_nat n in
    gdb_decode_hex (hex_upper (Z.shiftr x 4)) (hex_upper (Z.land x 0xf)) =? x) (seq 0 256) = true) as H by (vm_compute; reflexivity).
  rewrite forallb_forall in H. specialize (H (Z.to_nat x)). cbv zeta in H.
  unfold in_u in Hx. change (2 ^ 8) with 256 in Hx. rewrite Z2Nat.id in H by lia. apply Z.eqb_eq, H, in_seq. lia.
Qed.

Lemma body_plain cmd : body (map Lit cmd) = cmd.
Proof. unfold body. induction cmd; cbn in *; congruence. Qed.
Lemma payload_plain cmd : forall p, payload p (map Lit cmd) = p ++ cmd.
Proof. induction cmd as [|b cmd IH]; intros p; cbn; [by rewrite app_nil_r|]. by rewrite IH, <- app_assoc. Qed.
Lemma items_plain cmd : forall p, Forall (fun b => special b = false) cmd -> items_ok p (map Lit cmd) = true.
Proof.
  induction cmd as [|b cmd IH]; intros p H; cbn; [done|]. apply Forall_cons in H as [Hb H]. by rewrite Hb, IH.
Qed.

Lemma plain_frame_ok cmd :
  Forall (fun b => special b = false) cmd -> Z.of_nat (length cmd) < 2 ^ 60 ->
  frame_ok (plain_frame cmd) /\ intact (plain_frame cmd) = true /\ payload [] (fr_items (plain_frame cmd)) = cmd.
Proof.
  intros Hc Hl. unfold frame_ok, intact, checksum, plain_frame. cbn [print_02X fr_noise fr_items fr_msb fr_lsb].
  rewrite payload_plain, body_plain. split_and!; [done|by apply items_plain|done| |done].
  apply Z.eqb_eq. symmetry. apply hex_digits, byte_sum_range.
Qed.

Lemma send_packet_run cmd c :
  send_packet cmd c = Ok tt (mkConn (gin c) (gout c ++ frame_bytes (plain_frame cmd)) (gack c)).
Proof.
  assert (frame_bytes (plain_frame cmd) = ch_dollar :: cmd ++ ch_hash :: print_02X (byte_sum cmd)) as ->.
  { unfold frame_bytes, plain_frame. cbn [print_02X fr_noise fr_items fr_msb fr_lsb app]. by rewrite body_plain. }
  unfold send_packet, fwrite, bind, modify. cbn [gin gout gack]. by rewrite <- !app_assoc.
Qed.

(** The packet is repeated until it is acknowledged. *)
Lemma gdb_send_loop_run cmd nacks : forall n rest c,
  Forall (fun ch => ch <> ch_plus) nacks -> gack c = true -> gin c = nacks ++ ch_plus :: rest -> (length nacks < n)%nat ->
  gdb_send_loop n cmd c =
  Ok tt (mkConn rest (gout c ++ concat (replicate (S (length nacks)) (frame_bytes (plain_frame cmd)))) true).
Proof.
  induction nacks as [|ch nacks IH]; intros n rest c Hn Ha Hin Hl; (destruct n as [|n]; [cbn in Hl; lia|]);
    cbn [gdb_send_loop]; erewrite bind_ok by apply send_packet_run; unfold fgetc, bind; cbn [get gack gin]; rewrite Ha, Hin; cbn [negb app].
  - cbn. by rewrite app_nil_r.
  - apply Forall_cons in Hn as [Hc Hn]. cbn [gin]. unfold ret, modify. rewrite (proj2 (Z.eqb_neq _ _) Hc).
    rewrite (IH n rest); [|done..|cbn in Hl; lia]. cbn [gout set_gin length replicate concat]. by rewrite <- app_assoc.
Qed.

(** C40: packets survive the link.  gdb_recv skips what comes before a packet, undoes the
    escapes and the run lengths, stays in its buffer however long the packet, asks again
    (with one '-') for every packet whose checksum is wrong and returns the payload of the
    first intact one, leaving the bytes after it unread.  gdb_send repeats the packet of a
    command until it is acknowledged, and what it writes for a command without special
    bytes is an intact packet whose payload is the command. *)
Theorem gdb_packets_roundtrip :
  (forall bad f rest c,
    Forall (fun g => frame_ok g /\ intact g = false) bad -> frame_ok f -> intact f = true -> gack c = true ->
    gin c = concat (map frame_bytes bad) ++ frame_bytes f ++ rest ->
    gdb_recv c =
    Ok (payload [] (fr_items f)) (mkConn rest (gout c ++ replicate (length bad) ch_minus ++ [ch_plus]) true)) /\
  (forall cmd nacks rest c,
    Forall (fun b => special b = false) cmd -> Z.of_nat (length cmd) < 2 ^ 60 ->
    Forall (fun ch => ch <> ch_plus) nacks -> gack c = true -> gin c = nacks ++ ch_plus :: rest ->
    gdb_send cmd c =
      Ok tt (mkConn rest (gout c ++ concat (replicate (S (length nacks)) (frame_bytes (plain_frame cmd)))) true) /\
    forall out more,
      gdb_recv (mkConn (frame_bytes (plain_frame cmd) ++ more) out true) = Ok cmd (mkConn more (out ++ [ch_plus]) true)).
Proof.
  split; [exact gdb_recv_frames|]. intros cmd nacks rest c Hc Hl Hn Ha Hin. split.
  - unfold gdb_send, bind. cbn [get]. apply gdb_send_loop_run; [done..|]. rewrite Hin, length_app. cbn. lia.
  - intros out more. destruct (plain_frame_ok cmd Hc Hl) as (H1 & H2 & H3).
    rewrite (gdb_recv_frames [] (plain_frame cmd) more); [by rewrite H3|by constructor|done..].
Qed.

(** Noise, a damaged packet, then "0*!}" with an escaped '$': four more zeros and '$'. *)
Lemma gdb_packets_roundtrip_witness :
  gdb_recv (mkConn ([ch_plus; ch_dollar; 0x61; ch_hash; 0x30; 0x30; ch_dollar; 0x30; ch_star; 0x21; ch_brace; 0x04; ch_hash; 0x66; 0x63]
                    ++ [7]) [] true)
    = Ok [0x30; 0x30; 0x30; 0x30; 0x30; 0x24] (mkConn [7] [ch_minus; ch_plus] true) /\
  gdb_send [0x67] (mkConn [ch_minus; ch_plus] [] true)
    = Ok tt (mkConn [] [0x24; 0x67; 0x23; 0x36; 0x37; 0x24; 0x67; 0x23; 0x36; 0x37] true).
Proof.
  destruct gdb_packets_roundtrip as [H1 H2]. split.
  - apply (H1 [mkFrame [ch_plus] [Lit 0x61] 0x30 0x30] (mkFrame [] [Lit 0x30; Run 4; Esc 0x24] 0x66 0x63) [7]).
    + constructor; [|constructor]. split; [|reflexivity]. split; [|split; reflexivity].
      constructor; [discriminate|constructor].
    + split; [constructor|]. split; reflexivity.
    + vm_compute. reflexivity.
    + reflexivity.
    + reflexivity.
  - destruct (H2 [0x67] [ch_minus] [] (mkConn [ch_minus; ch_plus] [] true)) as [E _];
      [repeat constructor|reflexivity|repeat constructor; discriminate|reflexivity|reflexivity|exact E].
Defined.
