(* ===== verification/GdbServerProps.v ===== *)
(** * The debugger sees and changes the machine

    What a client writes to memory it reads back, byte for byte, and a breakpoint that is
    inserted and removed leaves memory as it was. *)
From S2P Require Import Prelude Config Reg Fifo Ram Flash Sdlkey Machine Ulite Spi Device Mmu Memory.
From S2P Require Import ExecAlu ExecMdu ExecMem Softfloat ExecFloat Decode Cpu GdbProto GdbServer.
From S2P Require Import Frame Invariant Samples MmuProps Layout MemProps Elfsym Monitor MonitorProps BootProps.
Local Open Scope nemu_scope.

(** ** Hexadecimal numbers *)
Lemma hex_encode_digit d :
  0 <= d < 16 -> hex_nibble (hex_encode d) = d /\ isxdigit (hex_encode d) = true /\ 48 <= hex_encode d <= 102.
Proof.
  intros Hd. assert (forall k, In k (map Z.of_nat (seq 0 16)) ->
    hex_nibble (hex_encode k) = k /\ isxdigit (hex_encode k) = true /\ 48 <= hex_encode k <= 102) as H.
  { intros k Hk. cbn in Hk. decompose [or] Hk; subst; try done; vm_compute; done. }
  apply H. replace d with (Z.of_nat (Z.to_nat d)) by lia. apply in_map, in_seq. lia.
Qed.

Lemma nibble_range v i : 0 <= Z.land (Z.shiftr v i) 0xF < 16.
Proof. change 0xF with (Z.ones 4). rewrite Z.land_ones by lia. by apply Z.mod_pos_bound. Qed.

Lemma print_x_digits n v : Forall (fun c => isxdigit c = true /\ 48 <= c <= 102) (print_x n v).
Proof. induction n as [|n IH]; constructor; [|done]. apply hex_encode_digit, nibble_range. Qed.
Lemma print_x_length n v : length (print_x n v) = n.
Proof. induction n as [|n IH]; [done|]. cbn. by rewrite IH. Qed.

Lemma print_x_value n v acc :
  foldl (fun v c => v * 16 + hex_nibble c) acc (print_x n v) = acc * 16 ^ Z.of_nat n + v mod 16 ^ Z.of_nat n.
Proof.
  revert acc. induction n as [|n IH]; intros acc; [cbn; rewrite Z.mod_1_r; lia|]. cbn [print_x foldl]. rewrite IH.
  rewrite (proj1 (hex_encode_digit _ (nibble_range v (4 * Z.of_nat n)))).
  change 0xF with (Z.ones 4). rewrite Z.land_ones, Z.shiftr_div_pow2, (Z.pow_mul_r 2 4) by lia. change (2 ^ 4) with 16.
  rewrite Nat2Z.inj_succ, Z.pow_succ_r by lia. assert (0 < 16 ^ Z.of_nat n) by (apply Z.pow_pos_nonneg; lia).
  rewrite (Z.mul_comm 16 (16 ^ _)), Z.rem_mul_r by lia. ring.
Qed.
Lemma hex_value_print n v : (n <= 8)%nat -> 0 <= v < 16 ^ Z.of_nat n -> hex_value false (print_x n v) = v.
Proof.
  intros Hn Hv. unfold hex_value. rewrite print_x_value, Z.mul_0_l, Z.add_0_l, Z.mod_small by done.
  assert (16 ^ Z.of_nat n <= 16 ^ 8) by (apply Z.pow_le_mono_r; lia). rewrite (proj2 (Z.leb_gt _ _)) by lia. done.
Qed.

(** ** Scanning *)
Lemma take_while_all p l r :
  Forall (fun c => p c = true) l -> match r with [] => True | c :: _ => p c = false end ->
  take_while p (l ++ r) = l /\ drop_while p (l ++ r) = r.
Proof.
  intros Hl Hr. induction Hl as [|c l Hc _ [IH1 IH2]].
  - destruct r as [|c r]; [done|]. cbn. by rewrite Hr.
  - cbn. rewrite Hc. by rewrite IH1, IH2.
Qed.

Lemma digit_chars c : isxdigit c = true /\ 48 <= c <= 102 ->
  isspace c = false /\ (c =? 45) = false /\ (c =? 43) = false /\ (c =? 0) = false /\ (c =? 58) = false /\ (tolower c =? 120) = false.
Proof.
  intros [Hx Hc]. unfold isxdigit, isdigit in Hx. rewrite !orb_true_iff, !andb_true_iff, !Z.leb_le in Hx.
  assert (isspace c = false /\ (tolower c =? 120) = false) as [E1 E2].
  { unfold isspace, tolower. rewrite (proj2 (Z.eqb_neq c 32)), (proj2 (Z.leb_gt c 13)), andb_false_r by lia. split; [done|].
    destruct ((65 <=? c) && (c <=? 90)) eqn:E; apply Z.eqb_neq; [|lia].
    apply andb_true_iff in E as [E1%Z.leb_le E2%Z.leb_le]. lia. }
  rewrite !(proj2 (Z.eqb_neq c _)) by lia. done.
Qed.

(** A character that ends a number. *)
Definition ends_number (r : list Z) : Prop :=
  match r with [] => True | c :: _ => isxdigit c = false /\ (tolower c =? 120) = false end.

Lemma scan_window width n v r q :
  (1 <= n <= 8)%nat -> 0 <= v < 16 ^ Z.of_nat n -> ends_number r ->
  let s := print_x n v ++ r ++ q in
  match width with Some w => take w s | None => s end = print_x n v ++ r ->
  scan_x width s = Some (v, r ++ q).
Proof.
  intros Hn Hv Hr s Hw. pose proof (print_x_digits n v) as Hd. pose proof (print_x_length n v) as Hlen.
  assert (drop_while isspace s = s) as Esp.
  { unfold s. destruct (print_x n v) as [|c l]; [cbn in Hlen; lia|]. apply Forall_cons in Hd as [Hc _].
    cbn. by rewrite (proj1 (digit_chars c Hc)). }
  unfold scan_x. rewrite Esp, Hw. pose proof (take_while_all isxdigit (print_x n v) r) as [E1 E2].
  { eapply Forall_impl; [exact Hd|]. by intros ? [? _]. }
  { by destruct r as [|? ?]; [|apply Hr]. }
  assert (hex_value false (print_x n v) = v) as Ev by (apply hex_value_print; [lia|done]).
  assert (16 ^ Z.of_nat n <= 16 ^ 8) as Hp by (apply Z.pow_le_mono_r; lia).
  assert (u32 v = v) as Eu by (apply uw_small; unfold in_u; lia).
  assert (drop n s = r ++ q) as Edrop by (unfold s; by rewrite drop_app_length').
  destruct (print_x n v) as [|c l] eqn:Ep; [cbn in Hlen; lia|]. apply Forall_cons in Hd as [Hc Hl].
  destruct (digit_chars c Hc) as (_ & Em & Epl & _). cbn [app]. rewrite Em, Epl.
  replace (match l ++ r with [] => _ | x :: r0 => _ end) with (false, c :: l ++ r).
  2:{ assert (match l ++ r with [] => True | x :: _ => (tolower x =? 120) = false end) as Hx.
      { destruct l as [|x l']; cbn [app]; [destruct r; [done|apply Hr]|].
        apply Forall_cons in Hl as [Hx _]. by destruct (digit_chars x Hx) as (_ & _ & _ & _ & _ & ->). }
      destruct (l ++ r) as [|x ?]; [done|]. by rewrite Hx, andb_false_r. }
  cbn [app] in E1, E2. rewrite E1, E2, Ev, Eu. cbn [orb negb]. rewrite bool_decide_false by done. cbn [negb].
  rewrite <- Edrop. do 2 f_equal. f_equal. cbn [length] in *. rewrite length_app. lia.
Qed.

Lemma scan_number n v r : (1 <= n <= 8)%nat -> 0 <= v < 16 ^ Z.of_nat n -> ends_number r ->
  scan_x None (print_x n v ++ r) = Some (v, r).
Proof.
  intros Hn Hv Hr. rewrite <- (app_nil_r r) at 1 2. apply scan_window; [done|done|done|]. by rewrite app_nil_r.
Qed.
Lemma scan_byte v q : 0 <= v < 256 -> scan_x (Some 2%nat) (print_x 2 v ++ q) = Some (v, q).
Proof. intros Hv. apply (scan_window (Some 2%nat) 2 v [] q); [lia|done|done|]. by rewrite app_nil_r, take_app_length'. Qed.

(** <addr>,<length> *)
Definition range_text (a n : Z) (r : list Z) : list Z := print_x 8 a ++ 44 :: print_x 4 n ++ r.
Lemma scan2_range a n r : is_u32 a -> in_u 16 n -> ends_number r -> scan2 (range_text a n r) = (a, n).
Proof.
  intros Ha Hn Hr. unfold scan2, range_text. rewrite scan_number; [|lia|done|done]. cbn [scan_lit Z.eqb Pos.eqb].
  by rewrite scan_number by (done || lia).
Qed.

(** ** Memory behind the debugger *)
Section Debug.
Context {cfg : Config}.

(** The [n] bytes at [a] are bytes of the RAM [d], in an unmapped segment. *)
Record debug_range (m : machine) (a n : Z) (d : dev) : Prop := mkDebugRange {
  dr_addr : is_u32 a;
  dr_seg : a / 2 ^ 29 = 4 \/ a / 2 ^ 29 = 5;
  dr_end : a mod 2 ^ 29 + n <= 2 ^ 29;
  dr_dev : forall i, 0 <= i < n -> find_device (a mod 2 ^ 29 + i) m = Some d;
  dr_ram : is_ram d = true;
  dr_regions : regions_ok m;
  dr_wf : mem_wf (ram_of d m)
}.
Definition ram_offset (a : Z) (d : dev) : Z := a mod 2 ^ 29 - dev_start d.

(** Only the array of [d] and the decode cache changed. *)
Definition poked (d : dev) (mem : gmap Z Z) (m m' : machine) : Prop :=
  exists dc, m' = set_decode_cache dc (set_ram d mem m).
Lemma poked_trans d mem1 mem2 m m1 m2 : poked d mem1 m m1 -> poked d mem2 m1 m2 -> poked d mem2 m m2.
Proof using Type. intros (dc1 & ->) (dc2 & ->). exists dc2. by destruct m, d. Qed.
Lemma poked_ram d mem m m' : is_ram d = true -> poked d mem m m' -> ram_of d m' = mem.
Proof using Type. intros Hd (dc & ->). by destruct m, d. Qed.
Lemma poked_range m m' a n d mem :
  poked d mem m m' -> mem_wf mem -> debug_range m a n d -> debug_range m' a n d.
Proof using Type.
  intros Hp Hm [Ha Hs He Hd Hr Hg Hw]. pose proof (poked_ram d mem m m' Hr Hp) as Er.
  destruct Hp as (dc & ->). split; [done|done|done| |done| |by rewrite Er].
  - intros i Hi. rewrite <- (Hd i Hi). by destruct m, d.
  - intros p d' H'. apply Hg. by destruct m, d.
Qed.

Lemma range_tail m a n d :
  debug_range m a n d -> 1 < n ->
  debug_range m (u32 (a + 1)) (n - 1) d /\ ram_offset (u32 (a + 1)) d = ram_offset a d + 1.
Proof using Type.
  intros [Ha Hs He Hd Hr Hg Hw] H1. unfold in_u in Ha.
  pose proof (Z.div_mod a (2 ^ 29) ltac:(lia)). pose proof (Z.mod_pos_bound a (2 ^ 29) ltac:(lia)).
  rewrite uw_small by (unfold in_u; lia).
  assert ((a + 1) / 2 ^ 29 = a / 2 ^ 29) as E1 by (symmetry; apply Z.div_unique with (a mod 2 ^ 29 + 1); lia).
  assert ((a + 1) mod 2 ^ 29 = a mod 2 ^ 29 + 1) as E2 by (symmetry; apply Z.mod_unique with (a / 2 ^ 29); lia).
  split; [|unfold ram_offset; rewrite E2; lia].
  split; [unfold in_u; lia|by rewrite E1|rewrite E2; lia| |done|done|done].
  intros i Hi. rewrite E2. replace (a mod 2 ^ 29 + 1 + i) with (a mod 2 ^ 29 + (i + 1)) by lia. apply Hd. lia.
Qed.

Section Access.
Context (m : machine) (a n len : Z) (d : dev) (H : debug_range m a n d).
Context (Hlen : 1 <= len <= 4) (Hn : len <= n) (Hpage : a mod 2 ^ 12 + len <= 2 ^ 12).

Lemma debug_addr attr : prot_addr_with_attr a attr m = Ok (a mod 2 ^ 29, attr) m.
Proof using H.
  unfold prot_addr_with_attr. rewrite seg_div by apply (dr_addr _ _ _ _ H). unfold bind. cbn [get]. cbv zeta.
  rewrite ioremap_mod. destruct (dr_seg _ _ _ _ H) as [-> | ->]; done.
Qed.
Lemma debug_device :
  find_device (a mod 2 ^ 29) m = Some d /\ u32 (a mod 2 ^ 29 - dev_start d) = ram_offset a d /\
  0 <= ram_offset a d /\ ram_offset a d + len <= dev_size d.
Proof using H Hlen Hn Hpage.
  destruct H as [Ha Hs He Hd Hr Hg Hw]. assert (find_device (a mod 2 ^ 29) m = Some d) as Hf
    by (rewrite <- (Hd 0) by lia; f_equal; lia).
  pose proof (Z.mod_pos_bound a (2 ^ 29) ltac:(lia)).
  destruct (mod_page a 29 ltac:(lia)) as [Hm _].
  destruct (ram_bounds m (a mod 2 ^ 29) d len Hg ltac:(lia) Hf Hr) as (B1 & B2 & B3); [by rewrite Hm|].
  split; [done|]. split; [done|]. unfold ram_offset. lia.
Qed.

Lemma dbg_read_run : dbg_vaddr_read a len m = Ok (ld_masked (ram_of d m) (ram_offset a d) len) m.
Proof using H Hlen Hn Hpage.
  destruct debug_device as (Hf & Eo & B1 & B2). unfold dbg_vaddr_read. erewrite bind_ok by apply debug_addr.
  cbv zeta. cbn [fst]. rewrite (bind_ok get _ m m m eq_refl), Hf.
  destruct (dev_read_ram d (dr_ram _ _ _ _ H)) as (rd & -> & Hrd). rewrite Eo. apply Hrd; lia.
Qed.
Lemma dbg_write_run v :
  exists m', dbg_vaddr_write a len v m = Ok tt m' /\
    poked d (st_bytes (ram_of d m) (ram_offset a d) (Z.to_nat len) v) m m'.
Proof using H Hlen Hn Hpage.
  destruct debug_device as (Hf & Eo & B1 & B2). unfold dbg_vaddr_write. erewrite bind_ok by apply debug_addr.
  cbv zeta. cbn [fst]. rewrite (bind_ok get _ m m m eq_refl), Hf.
  destruct (dev_write_ram d (dr_ram _ _ _ _ H)) as (wr & -> & Hwr). rewrite Eo.
  erewrite bind_ok by (apply Hwr; lia). eexists. split; [done|]. by eexists.
Qed.
End Access.

(** ** Reading and writing bytes *)
Definition hex_bytes (l : list Z) : list Z := concat (map (print_x 2) l).
Fixpoint mem_bytes (mem : gmap Z Z) (off : Z) (n : nat) : list Z :=
  match n with O => [] | S n => ld8 mem off :: mem_bytes mem (off + 1) n end.

Lemma mem_bytes_st_buf l : forall mem off,
  Forall (in_u 8) l -> mem_bytes (st_buf mem off l) off (length l) = l.
Proof using Type.
  induction l as [|b l IH]; intros mem off Hl; [done|]. apply Forall_cons in Hl as [Hb Hl]. cbn [length mem_bytes st_buf].
  rewrite (IH _ _ Hl), ld8_st_buf_ne by lia. unfold ld8. rewrite lookup_insert_eq. cbn. by rewrite uw_small.
Qed.

Lemma page_byte a : a mod 2 ^ 12 + 1 <= 2 ^ 12.
Proof using Type. pose proof (Z.mod_pos_bound a (2 ^ 12)). lia. Qed.

(** Everything but the machine is as it was. *)
Definition same_server (s s' : gdb_server) : Prop :=
  gs_conn s' = gs_conn s /\ break_points s' = break_points s /\ gs_mem s' = gs_mem s.

Lemma write_memory_run d bs : forall s a c,
  Forall (in_u 8) bs -> debug_range (gs_m s) a (Z.of_nat (length bs)) d ->
  exists s', write_memory_loop (length bs) a (Some (c :: hex_bytes bs)) s = Ok tt s' /\
    poked d (st_buf (ram_of d (gs_m s)) (ram_offset a d) bs) (gs_m s) (gs_m s') /\ same_server s s'.
Proof using Type.
  induction bs as [|b bs IH]; intros s a c Hb Hr.
  { exists s. split; [done|]. split; [|done]. exists (decode_cache (gs_m s)). by destruct (gs_m s), d. }
  apply Forall_cons in Hb as [Hb Hbs]. cbn [length write_memory_loop].
  change (tail (c :: hex_bytes (b :: bs))) with (print_x 2 b ++ hex_bytes bs). rewrite scan_byte by done.
  destruct (dbg_write_run (gs_m s) a _ 1 d Hr ltac:(lia) ltac:(cbn; lia) (page_byte a) b) as (m1 & E1 & P1).
  erewrite bind_ok by (apply zoom_ok; exact E1). set (s1 := set_gs_m m1 s).
  assert (mem_wf (<[ram_offset a d := u8 b]> (ram_of d (gs_m s)))) as Hwf by (apply mem_wf_insert, (dr_wf _ _ _ _ Hr)).
  pose proof (poked_ram d _ _ _ (dr_ram _ _ _ _ Hr) P1) as Er. cbn in P1, Er.
  destruct (decide (bs = [])) as [->|Hne].
  { exists s1. by split. }
  assert (1 < Z.of_nat (length (b :: bs))) as Hlen by (destruct bs; [done|cbn; lia]).
  destruct (range_tail _ _ _ _ (poked_range _ _ _ _ _ _ P1 Hwf Hr) Hlen) as [Hr1 Eo].
  change (hex_bytes (b :: bs)) with (print_x 2 b ++ hex_bytes bs). cbn [print_x app drop].
  destruct (IH s1 (u32 (a + 1)) (hex_encode (Z.land (Z.shiftr b (4 * Z.of_nat 0)) 0xF)) Hbs) as (s2 & E2 & P2 & S2).
  { replace (Z.of_nat (length bs)) with (Z.of_nat (length (b :: bs)) - 1) by (cbn; lia). exact Hr1. }
  exists s2. split; [exact E2|]. split; [|by destruct S2 as (A & B & C)].
  apply (poked_trans d _ _ _ _ _ P1). cbn in P2. by rewrite Er, Eo in P2.
Qed.

Lemma read_memory_run d n : forall s a len text,
  debug_range (gs_m s) a (Z.of_nat n) d -> len + 2 * Z.of_nat n <= MEM_SIZE + 2 ->
  read_memory_loop n a len text s =
  Ok (len + 2 * Z.of_nat n, text ++ hex_bytes (mem_bytes (ram_of d (gs_m s)) (ram_offset a d) n)) s.
Proof using Type.
  induction n as [|n IH]; intros s a len text Hr Hl; [cbn; rewrite app_nil_r; do 2 f_equal; lia|].
  cbn [read_memory_loop mem_bytes].
  pose proof (dbg_read_run (gs_m s) a _ 1 d Hr ltac:(lia) ltac:(lia) (page_byte a)) as E1.
  rewrite ld_masked_bytes in E1 by (apply (dr_wf _ _ _ _ Hr) || lia). change (Z.to_nat 1) with 1%nat in E1. cbn [ld_bytes] in E1.
  rewrite Z.mul_0_r, Z.add_0_r in E1. set (b := ld8 _ _) in *.
  assert (0 <= b < 256) as Hb by (apply ld8_range, (dr_wf _ _ _ _ Hr)).
  erewrite bind_ok by (apply zoom_ok; exact E1). replace (set_gs_m (gs_m s) s) with s by (by destruct s).
  rewrite (proj2 (Z.leb_le _ _)) by lia. rewrite (bind_ok (ensure true HUndefined) _ s tt s eq_refl).
  change 0xFF with (Z.ones 8). rewrite Z.land_ones, (Z.mod_small b) by (lia || done).
  destruct (decide (n = 0%nat)) as [->|Hn0].
  { cbn [read_memory_loop mem_bytes]. unfold hex_bytes. cbn [map concat]. by rewrite app_nil_r. }
  destruct (range_tail _ _ _ _ Hr ltac:(lia)) as [Hr1 Eo]. rewrite IH.
  - rewrite Eo. unfold ret. f_equal. f_equal; [lia|]. rewrite <- app_assoc. done.
  - by replace (Z.of_nat n) with (Z.of_nat (S n) - 1) by lia.
  - lia.
Qed.

(** ** Requests *)
Context (forever : nat).

Definition write_request (a : Z) (bs : list Z) : list Z :=
  77 :: range_text a (Z.of_nat (length bs)) (58 :: hex_bytes bs).
Definition read_request (a n : Z) : list Z := 109 :: range_text a n [].

Lemma c_str_text l : Forall (fun c => 48 <= c <= 102 \/ c = 44) l -> c_str l = l.
Proof using Type.
  intros H. unfold c_str. rewrite <- (app_nil_r l) at 1. apply take_while_all; [|done].
  eapply Forall_impl; [exact H|]. intros c Hc. apply negb_true_iff, Z.eqb_neq. cbn in Hc. lia.
Qed.
Lemma print_x_text n v : Forall (fun c => 48 <= c <= 102 \/ c = 44) (print_x n v).
Proof using Type. eapply Forall_impl; [apply print_x_digits|]. intros c [_ Hc]. by left. Qed.
Lemma hex_bytes_text l : Forall (fun c => 48 <= c <= 102 \/ c = 44) (hex_bytes l).
Proof using Type. induction l as [|b l IH]; [constructor|]. apply Forall_app. split; [apply print_x_text|done]. Qed.
Lemma range_text_text a n r :
  Forall (fun c => 48 <= c <= 102 \/ c = 44) r -> Forall (fun c => 48 <= c <= 102 \/ c = 44) (range_text a n r).
Proof using Type.
  intros Hr. apply Forall_app. split; [apply print_x_text|]. constructor; [lia|]. apply Forall_app. split; [apply print_x_text|done].
Qed.
Lemma range_colon a n r : strchr (range_text a n (58 :: r)) 58 = Some (58 :: r).
Proof using Type.
  unfold strchr, range_text. replace (print_x 8 a ++ 44 :: print_x 4 n ++ 58 :: r) with ((print_x 8 a ++ 44 :: print_x 4 n) ++ 58 :: r)
    by (by rewrite <- app_assoc).
  assert (forall k v, Forall (fun c => negb (c =? 58) = true) (print_x k v)) as Hp.
  { intros k v. eapply Forall_impl; [apply print_x_digits|]. intros c Hc. destruct (digit_chars c Hc) as (_ & _ & _ & _ & -> & _). done. }
  assert (Forall (fun c => negb (c =? 58) = true) (print_x 8 a ++ 44 :: print_x 4 n)) as Hf
    by (apply Forall_app; split; [apply Hp|constructor; [done|apply Hp]]).
  by rewrite (proj2 (take_while_all (fun x => negb (x =? 58)) _ (58 :: r) Hf eq_refl)).
Qed.

Lemma write_request_run s a bs d :
  Forall (in_u 8) bs -> Z.of_nat (length bs) < 2 ^ 16 -> debug_range (gs_m s) a (Z.of_nat (length bs)) d ->
  exists s', gdb_respond forever (write_request a bs) s = Ok reply_OK s' /\
    poked d (st_buf (ram_of d (gs_m s)) (ram_offset a d) bs) (gs_m s) (gs_m s') /\ same_server s s'.
Proof using Type.
  intros Hb Hn Hr. destruct (write_memory_run d bs s a 58 Hb Hr) as (s' & E & P & S). exists s'. split; [|done].
  unfold gdb_respond, write_request. rewrite (bind_ok (ensure (77 <? 128) HUndefined) _ s tt s eq_refl).
  change (handlers forever 77) with (Some (gdb_write_memory (cfg := cfg))). cbv beta iota.
  rewrite (bind_ok _ _ s (Some reply_OK) s'); [done|]. unfold gdb_write_memory.
  rewrite c_str_text by (apply range_text_text; constructor; [lia|apply hex_bytes_text]).
  rewrite scan2_range, range_colon, Nat2Z.id by (apply (dr_addr _ _ _ _ Hr) || (unfold in_u; lia) || done).
  by erewrite bind_ok by exact E.
Qed.

Lemma read_request_run s a n d :
  (0 < n)%nat -> Z.of_nat n < 2048 -> debug_range (gs_m s) a (Z.of_nat n) d ->
  exists s', gdb_respond forever (read_request a (Z.of_nat n)) s =
      Ok (hex_bytes (mem_bytes (ram_of d (gs_m s)) (ram_offset a d) n)) s' /\
    gs_m s' = gs_m s /\ break_points s' = break_points s.
Proof using Type.
  intros H0 Hn Hr. pose proof (read_memory_run d n s a 0 [] Hr ltac:(unfold MEM_SIZE; lia)) as E.
  set (text := hex_bytes _) in *. exists (set_gs_mem text s). split; [|done].
  unfold gdb_respond, read_request. rewrite (bind_ok (ensure (109 <? 128) HUndefined) _ s tt s eq_refl).
  change (handlers forever 109) with (Some (gdb_read_memory (cfg := cfg))). cbv beta iota.
  rewrite (bind_ok _ _ s (Some text) (set_gs_mem text s)); [done|]. unfold gdb_read_memory. rewrite c_str_text by (apply range_text_text; constructor).
  rewrite scan2_range, Nat2Z.id by (apply (dr_addr _ _ _ _ Hr) || (unfold in_u; lia) || done).
  erewrite bind_ok by exact E. cbn [fst snd]. rewrite (proj2 (Z.ltb_lt _ _)) by (unfold MEM_SIZE; lia).
  rewrite (bind_ok (ensure true HAssert) _ s tt s eq_refl). rewrite (proj2 (Z.eqb_neq _ _)) by lia. done.
Qed.

(** ** Breakpoints *)
(** Storing what was read restores memory. *)
Lemma restore_bytes n mem : forall mem' off x,
  mem_wf mem -> (forall y, y < off \/ off + Z.of_nat n <= y -> ld8 mem' y = ld8 mem y) ->
  ld8 (st_bytes mem' off n (ld_bytes mem off n)) x = ld8 mem x.
Proof using Type.
  induction n as [|n IH]; intros mem' off x Hw Hm; [apply Hm; lia|]. cbn [st_bytes ld_bytes].
  pose proof (ld8_range mem off Hw) as Hb. set (b := ld8 mem off) in *. set (v := ld_bytes mem (off + 1) n).
  assert (u8 (b + 256 * v) = b) as E1.
  { unfold uw. change (2 ^ 8) with 256. rewrite Z.mul_comm, Z.mod_add, Z.mod_small by lia. done. }
  assert (Z.shiftr (b + 256 * v) 8 = v) as E2.
  { rewrite Z.shiftr_div_pow2 by lia. change (2 ^ 8) with 256. rewrite Z.mul_comm, Z.div_add, Z.div_small by lia. lia. }
  rewrite E1, E2. apply IH; [done|]. intros y Hy. unfold ld8 at 1. destruct (decide (y = off)) as [->|Hne].
  - by rewrite lookup_insert_eq.
  - rewrite lookup_insert_ne by done. apply Hm. lia.
Qed.

(** Z0,<addr>,4 and z0,<addr>,4 *)
Definition break_text (a : Z) : list Z := print_x 1 0 ++ 44 :: print_x 8 a ++ [44; 52].
Definition insert_request (a : Z) : list Z := 90 :: break_text a.
Definition remove_request (a : Z) : list Z := 122 :: break_text a.

Lemma break_addr a : is_u32 a -> scan_addr (c_str (break_text a)) = a.
Proof using Type.
  intros Ha. rewrite c_str_text.
  - unfold scan_addr, scan2, break_text. rewrite scan_number; [|lia|done|done]. cbn [scan_lit Z.eqb Pos.eqb].
    by rewrite scan_number by (done || lia).
  - apply Forall_app. split; [apply print_x_text|]. constructor; [lia|]. apply Forall_app. split; [apply print_x_text|].
    repeat constructor; lia.
Qed.

Lemma break_page a : a mod 4 = 0 -> a mod 2 ^ 12 + 4 <= 2 ^ 12.
Proof using Type.
  intros H. pose proof (Z.mod_pos_bound a (2 ^ 12) ltac:(lia)). pose proof (Z.div_mod a (2 ^ 12) ltac:(lia)).
  pose proof (Z.div_mod a 4 ltac:(lia)). lia.
Qed.

(** Slot [i] is the first free one and no breakpoint is set at [a]. *)
Definition free_slot (s : gdb_server) (a : Z) (i : nat) : Prop :=
  (exists b, list_find (fun b => bp_used b = false) (break_points s) = Some (i, b)) /\
  Forall (fun b => bp_used b = true -> bp_addr b <> a) (break_points s).

Lemma insert_run s a i d :
  free_slot s a i -> a mod 4 = 0 -> debug_range (gs_m s) a 4 d ->
  let word := ld_bytes (ram_of d (gs_m s)) (ram_offset a d) 4 in
  exists s', gdb_respond forever (insert_request a) s = Ok reply_OK s' /\
    poked d (st_bytes (ram_of d (gs_m s)) (ram_offset a d) 4 BREAK_INSTR) (gs_m s) (gs_m s') /\
    break_points s' = <[i := mkBp true a word]> (break_points s).
Proof using Type.
  intros [[b Hf] _] Ha Hr word. pose proof (break_page a Ha) as Hp.
  pose proof (dbg_read_run (gs_m s) a 4 4 d Hr ltac:(lia) ltac:(lia) Hp) as Er.
  rewrite ld_masked_bytes in Er by (apply (dr_wf _ _ _ _ Hr) || lia). fold word in Er.
  destruct (dbg_write_run (gs_m s) a 4 4 d Hr ltac:(lia) ltac:(lia) Hp BREAK_INSTR) as (m1 & Ew & P1).
  eexists. split; [|split].
  - unfold gdb_respond, insert_request. rewrite (bind_ok (ensure (90 <? 128) HUndefined) _ s tt s eq_refl).
    change (handlers forever 90) with (Some (gdb_insert_break_point (cfg := cfg))). cbv beta iota.
    erewrite (bind_ok _ _ s (Some reply_OK)); [reflexivity|]. unfold gdb_insert_break_point. rewrite break_addr by apply (dr_addr _ _ _ _ Hr).
    rewrite (bind_ok get _ s s s eq_refl). cbv zeta. rewrite Hf.
    rewrite (bind_ok (modify _) _ s tt _ eq_refl). erewrite bind_ok by (apply zoom_ok; exact Er).
    rewrite (bind_ok (modify _) _ _ tt _ eq_refl). erewrite bind_ok by (apply zoom_ok; exact Ew).
    by rewrite (bind_ok (modify _) _ _ tt _ eq_refl).
  - exact P1.
  - cbn. by rewrite !list_insert_insert_eq.
Qed.

Lemma remove_run s a i word d :
  list_find (fun b => bp_used b = true /\ bp_addr b = a) (break_points s) = Some (i, mkBp true a word) ->
  a mod 4 = 0 -> debug_range (gs_m s) a 4 d ->
  exists s', gdb_respond forever (remove_request a) s = Ok reply_OK s' /\
    poked d (st_bytes (ram_of d (gs_m s)) (ram_offset a d) 4 word) (gs_m s) (gs_m s') /\
    break_points s' = <[i := mkBp false a word]> (break_points s).
Proof using Type.
  intros Hf Ha Hr. pose proof (break_page a Ha) as Hp.
  destruct (dbg_write_run (gs_m s) a 4 4 d Hr ltac:(lia) ltac:(lia) Hp word) as (m1 & Ew & P1).
  eexists. split; [|split].
  - unfold gdb_respond, remove_request. rewrite (bind_ok (ensure (122 <? 128) HUndefined) _ s tt s eq_refl).
    change (handlers forever 122) with (Some (gdb_remove_break_point (cfg := cfg))). cbv beta iota.
    erewrite (bind_ok _ _ s (Some reply_OK)); [reflexivity|]. unfold gdb_remove_break_point.
    rewrite break_addr by apply (dr_addr _ _ _ _ Hr).
    rewrite (bind_ok get _ s s s eq_refl). cbv zeta. rewrite Hf.
    rewrite (bind_ok (modify _) _ s tt _ eq_refl). by erewrite bind_ok by (apply zoom_ok; exact Ew).
  - exact P1.
  - done.
Qed.

Lemma find_inserted s a i word :
  free_slot s a i ->
  list_find (fun b => bp_used b = true /\ bp_addr b = a) (<[i := mkBp true a word]> (break_points s)) =
    Some (i, mkBp true a word).
Proof using Type.
  intros [[b Hf] Hn]. apply list_find_Some in Hf as (Hi & _ & _). apply list_find_Some.
  split; [apply list_lookup_insert_eq; by eapply lookup_lt_Some|]. split; [done|].
  intros j y Hj Hlt [Hu Hy]. rewrite list_lookup_insert_ne in Hj by lia.
  eapply Forall_lookup_1 in Hn; [|exact Hj]. by apply Hn.
Qed.

Lemma filter_unused (l : list break_point_t) i b b' :
  l !! i = Some b -> bp_used b = false -> bp_used b' = false ->
  filter (fun b => bp_used b = true) (<[i := b']> l) = filter (fun b => bp_used b = true) l.
Proof using Type.
  revert i. induction l as [|x l IH]; intros i Hi Hb Hb'; [done|]. destruct i as [|i]; cbn in Hi.
  - injection Hi as ->. change (<[0%nat := b']> (b :: l)) with (b' :: l). rewrite !filter_cons, !decide_False by congruence. done.
  - change (<[S i := b']> (x :: l)) with (x :: <[i := b']> l). rewrite !filter_cons. by rewrite (IH i).
Qed.

(** ** Registers *)
Lemma decode_pair a b : 0 <= a < 16 -> 0 <= b < 16 -> gdb_decode_hex (hex_encode a) (hex_encode b) = 16 * a + b.
Proof using Type.
  intros Ha Hb. destruct (hex_encode_digit a Ha) as (Na & Xa & _), (hex_encode_digit b Hb) as (Nb & Xb & _).
  unfold gdb_decode_hex. rewrite Xa, Xb, Na, Nb. apply uw_small. unfold in_u. lia.
Qed.

(** The nibbles of a word in network order. *)
Lemma htonl_nibbles v :
  print_x 8 (htonl v) = map (fun i => hex_encode (Z.land (Z.shiftr v i) 0xF)) [4; 0; 12; 8; 20; 16; 28; 24].
Proof using Type.
  cbn [print_x map]. unfold htonl. change 0xFF with (Z.ones 8). change 0xF with (Z.ones 4).
  repeat (apply (f_equal2 cons); [apply f_equal; bitblast|]). done.
Qed.

Lemma decode_print_reg v : is_u32 v -> gdb_decode_hex_str (print_reg v) = v.
Proof using Type.
  intros Hv. unfold print_reg, gdb_decode_hex_str. rewrite htonl_nibbles. cbn [map].
  assert (forall i, isxdigit (hex_encode (Z.land (Z.shiftr v i) 0xF)) = true) as Hx
    by (intros i; apply hex_encode_digit, nibble_range).
  cbn [decode_hex_loop]. rewrite !Hx. cbn [andb]. rewrite !decode_pair by apply nibble_range.
  change 0xF with (Z.ones 4). rewrite !Z.land_ones, !Z.shiftr_div_pow2 by lia.
  assert (forall i j, 0 <= i -> j = i + 4 -> v / 2 ^ i = 16 * (v / 2 ^ j) + (v / 2 ^ i) mod 2 ^ 4 /\ 0 <= (v / 2 ^ i) mod 2 ^ 4 < 16) as Hs.
  { intros i j Hi ->. rewrite Z.pow_add_r, <- Z.div_div by lia. change (2 ^ 4) with 16.
    split; [apply Z.div_mod; lia|apply Z.mod_pos_bound; lia]. }
  pose proof (Hs 0 4 ltac:(lia) eq_refl). pose proof (Hs 4 8 ltac:(lia) eq_refl). pose proof (Hs 8 12 ltac:(lia) eq_refl). pose proof (Hs 12 16 ltac:(lia) eq_refl).
  pose proof (Hs 16 20 ltac:(lia) eq_refl). pose proof (Hs 20 24 ltac:(lia) eq_refl). pose proof (Hs 24 28 ltac:(lia) eq_refl). pose proof (Hs 28 32 ltac:(lia) eq_refl).
  assert (v / 2 ^ 32 = 0) by (apply Z.div_small; exact Hv). assert (v / 2 ^ 0 = v) by apply Z.div_1_r.
  change (u64 (1 * (16 * 16))) with 256. change (u64 (256 * (16 * 16))) with (2 ^ 16). change (u64 (2 ^ 16 * (16 * 16))) with (2 ^ 24).
  unfold in_u in Hv. unfold uw. rewrite !Z.add_mod_idemp_l by lia.
  rewrite (Z.mod_small (_ + 256 * _)), Z.mod_small by lia. lia.
Qed.

Lemma chunk {A} (f : A -> list Z) w : forall (l : list A) i x,
  (forall y, length (f y) = w) -> l !! i = Some x -> take w (drop (w * i) (concat (map f l))) = f x.
Proof using Type.
  induction l as [|y l IH]; intros i x Hw Hi; [done|]. cbn [map concat]. destruct i as [|i].
  - injection Hi as ->. rewrite Nat.mul_0_r, drop_0. rewrite take_app_length'; [done|]. by rewrite Hw.
  - replace (w * S i)%nat with (length (f y) + w * i)%nat by (rewrite Hw; lia). rewrite drop_app_add. by apply IH.
Qed.

(** *** The registers *)
(** Register [n] of the protocol, of which there are 38. *)
Definition gdb_register (c : CPU_state) (n : nat) : Z :=
  match n with
  | 32%nat => cpr_get (cp0 c) CP0_STATUS 0
  | 33%nat => lo c
  | 34%nat => hi c
  | 35%nat => cpr_get (cp0 c) CP0_BADVADDR 0
  | 36%nat => cpr_get (cp0 c) CP0_CAUSE 0
  | 37%nat => pc c
  | _ => gpr_at c (Z.of_nat n)
  end.
Definition NR_GDB_REGS : nat := 38.

Lemma gdb_register_u32 c n : wf_cpu c -> is_u32 (gdb_register c n).
Proof using Type.
  intros Hc. unfold gdb_register.
  repeat (case_match; auto using gpr_at_u32, cpr_get_u32, wf_lo, wf_hi, wf_pc).
Qed.

Lemma registers_run s :
  gdb_respond forever [103] s =
  Ok (concat (map print_reg (map (gdb_register (cpu (gs_m s))) (seq 0 NR_GDB_REGS)))) s.
Proof using Type. reflexivity. Qed.

Lemma concat_length_const {A} (f : A -> list Z) w (l : list A) :
  (forall y, length (f y) = w) -> length (concat (map f l)) = (w * length l)%nat.
Proof using Type.
  intros Hw. induction l as [|y l IH]; cbn [map concat length]; [lia|]. rewrite length_app, Hw, IH. lia.
Qed.

(** Every RAM holds what it held. *)
Lemma poked_restored d mem m m' :
  is_ram d = true -> poked d mem m m' -> (forall x, ld8 mem x = ld8 (ram_of d m) x) ->
  forall d' x, is_ram d' = true -> ld8 (ram_of d' m') x = ld8 (ram_of d' m) x.
Proof using Type.
  intros Hd Hp Hx d' x Hd'. destruct (decide (d' = d)) as [->|Hne].
  - by rewrite (poked_ram d mem m m' Hd Hp).
  - destruct Hp as (dc & ->). by destruct d, d', m.
Qed.
End Debug.

(** C12: the commands of the gdb server do what the debugger expects of memory in an
    unmapped segment that a RAM backs.  A write command (M) answers OK and changes
    exactly the bytes it names; a read command (m) of the same range then answers with
    the digits that were written, for any length below 2048.  Inserting a breakpoint (Z)
    at an aligned address where none is set, while a slot is free, puts the break
    instruction there and changes no other byte, and removing it (z) restores every byte
    of both RAMs, the CPU and the set of breakpoints.  The reply to g gives exactly the 38
    registers of the protocol, the 32 general ones and then status, lo, hi, badvaddr,
    cause and pc, each in the encoding that the client side of the same program
    decodes. *)
Theorem gdb_server_commands {cfg : Config} forever s a d :
  (forall bs, Forall (in_u 8) bs -> (0 < length bs < 2048)%nat -> debug_range (gs_m s) a (Z.of_nat (length bs)) d ->
   exists s1 s2, gdb_respond forever (write_request a bs) s = Ok reply_OK s1 /\
     poked d (st_buf (ram_of d (gs_m s)) (ram_offset a d) bs) (gs_m s) (gs_m s1) /\
     gdb_respond forever (read_request a (Z.of_nat (length bs))) s1 = Ok (hex_bytes bs) s2 /\ gs_m s2 = gs_m s1) /\
  (forall i, free_slot s a i -> a mod 4 = 0 -> debug_range (gs_m s) a 4 d ->
   exists s1 s2, gdb_respond forever (insert_request a) s = Ok reply_OK s1 /\
     poked d (st_bytes (ram_of d (gs_m s)) (ram_offset a d) 4 BREAK_INSTR) (gs_m s) (gs_m s1) /\
     ld_bytes (ram_of d (gs_m s1)) (ram_offset a d) 4 = BREAK_INSTR /\
     gdb_respond forever (remove_request a) s1 = Ok reply_OK s2 /\
     (forall d' x, is_ram d' = true -> ld8 (ram_of d' (gs_m s2)) x = ld8 (ram_of d' (gs_m s)) x) /\
     cpu (gs_m s2) = cpu (gs_m s) /\
     filter (fun b => bp_used b = true) (break_points s2) = filter (fun b => bp_used b = true) (break_points s)) /\
  (wf (gs_m s) -> exists reply, gdb_respond forever [103] s = Ok reply s /\
     length reply = (8 * NR_GDB_REGS)%nat /\
     forall i, (i < NR_GDB_REGS)%nat ->
       gdb_decode_hex_str (take 8 (drop (8 * i) reply)) = gdb_register (cpu (gs_m s)) i).
Proof.
  split_and!.
  - intros bs Hb Hn Hr. destruct (write_request_run forever s a bs d Hb ltac:(lia) Hr) as (s1 & E1 & P1 & _).
    assert (mem_wf (st_buf (ram_of d (gs_m s)) (ram_offset a d) bs)) as Hwf by (apply mem_wf_st_buf, (dr_wf _ _ _ _ Hr)).
    destruct (read_request_run forever s1 a (length bs) d ltac:(lia) ltac:(lia) (poked_range _ _ _ _ _ _ P1 Hwf Hr)) as (s2 & E2 & M2 & _).
    rewrite (poked_ram d _ _ _ (dr_ram _ _ _ _ Hr) P1), mem_bytes_st_buf in E2 by done. by exists s1, s2.
  - intros i Hs Ha Hr. destruct (insert_run forever s a i d Hs Ha Hr) as (s1 & E1 & P1 & B1).
    set (mem := ram_of d (gs_m s)) in *. set (off := ram_offset a d) in *. set (word := ld_bytes mem off 4) in *.
    pose proof (dr_wf _ _ _ _ Hr) as Hw. fold mem in Hw.
    pose proof (poked_ram d _ _ _ (dr_ram _ _ _ _ Hr) P1) as M1.
    assert (debug_range (gs_m s1) a 4 d) as Hr1 by (apply (poked_range _ _ _ _ _ _ P1); [by apply mem_wf_st_bytes|done]).
    pose proof (find_inserted s a i word Hs) as Hf. rewrite <- B1 in Hf.
    destruct (remove_run forever s1 a i word d Hf Ha Hr1) as (s2 & E2 & P2 & B2).
    pose proof (poked_ram d _ _ _ (dr_ram _ _ _ _ Hr) P2) as M2. exists s1, s2.
    split; [done|]. split; [done|]. split; [by rewrite M1, ld_st_bytes_eq|]. split; [done|]. split_and!.
    + pose proof (poked_trans _ _ _ _ _ _ P1 P2) as P12. apply (poked_restored d _ _ _ (dr_ram _ _ _ _ Hr) P12).
      intros x. rewrite M1. apply restore_bytes; [done|]. intros y Hy. apply ld8_st_bytes_ne. lia.
    + destruct P1 as (dc1 & Q1), P2 as (dc2 & Q2). rewrite Q2, Q1. by destruct d.
    + rewrite B2, B1, list_insert_insert_eq. destruct Hs as [[b Hb] _]. apply list_find_Some in Hb as (Hi & Hu & _).
      by apply (filter_unused _ i b).
  - intros Hwf. eexists. split; [apply registers_run|].
    split; [by rewrite (concat_length_const print_reg 8), length_map, length_seq by (intros; apply print_x_length)|].
    intros i Hi. erewrite (chunk print_reg 8); [|intros; apply print_x_length|].
    2: { rewrite list_lookup_fmap, lookup_seq_lt by done. reflexivity. }
    by apply decode_print_reg, gdb_register_u32, wf_m_cpu.
Qed.

(** A server on the sample machine, with no breakpoint set. *)
Definition sample_server : gdb_server :=
  mkGs (gdb_begin_server []) m_load (repeat (mkBp false 0 0) NR_BREAK_POINTS) [].

Lemma sample_range :
  debug_range (cfg := mips32r1_defconfig) (gs_m sample_server) 0x80001000 4 ddr_dev.
Proof.
  split; [done|by left|vm_compute; discriminate| |done|exact m_load_regions|exact (wf_m_ddr _ m_load_wf)].
  intros i Hi. assert (i = 0 \/ i = 1 \/ i = 2 \/ i = 3) as [->|[->|[->| ->]]] by lia; reflexivity.
Qed.

Lemma gdb_server_commands_witness :
  exists s1 s2 s3 s4,
    gdb_respond (cfg := mips32r1_defconfig) 0 (write_request 0x80001000 [0xde; 0xad; 0xbe; 0xef]) sample_server = Ok reply_OK s1 /\
    gdb_respond (cfg := mips32r1_defconfig) 0 (read_request 0x80001000 4) s1 = Ok (hex_bytes [0xde; 0xad; 0xbe; 0xef]) s2 /\
    gdb_respond (cfg := mips32r1_defconfig) 0 (insert_request 0x80001000) sample_server = Ok reply_OK s3 /\
    gdb_respond (cfg := mips32r1_defconfig) 0 (remove_request 0x80001000) s3 = Ok reply_OK s4 /\
    exists reply, gdb_respond (cfg := mips32r1_defconfig) 0 [103] sample_server = Ok reply sample_server /\
      length reply = 304%nat /\ gdb_decode_hex_str (take 8 (drop 296 reply)) = pc (cpu m_load).
Proof.
  destruct (gdb_server_commands (cfg := mips32r1_defconfig) 0 sample_server 0x80001000 ddr_dev) as (H1 & H2 & H3).
  destruct (H1 [0xde; 0xad; 0xbe; 0xef]) as (s1 & s2 & E1 & _ & E2 & _).
  { repeat constructor; discriminate. }
  { cbn. lia. }
  { exact sample_range. }
  destruct (H2 0%nat) as (s3 & s4 & E3 & _ & _ & E4 & _).
  { split; [eexists; reflexivity|]. apply Forall_forall. intros b Hb. apply list_elem_of_In, repeat_spec in Hb. by subst. }
  { reflexivity. }
  { exact sample_range. }
  destruct (H3 m_load_wf) as (reply & E5 & E6 & E7).
  exists s1, s2, s3, s4. split; [exact E1|]. split; [exact E2|]. split; [exact E3|]. split; [exact E4|].
  exists reply. split; [exact E5|]. split; [exact E6|]. apply (E7 37%nat). unfold NR_GDB_REGS. lia.
Defined.
