(* ===== verification/HashProps.v ===== *)
(** * Hash tables and the profilers

    The chained table refines a map from keys to stacks of values, and the profilers
    built on it count what they record. *)
From S2P Require Import Prelude Config Reg Fifo Ram Elfsym Hash Perf.
Local Open Scope nemu_scope.

(** ** Representation *)
(** The blocks a chain goes through. *)
Fixpoint chain (h : gmap Z hash_element_t) (p : option Z) (l : list Z) : Prop :=
  match p, l with
  | None, [] => True
  | Some b, b' :: l => b = b' /\ exists e, h !! b = Some e /\ chain h (he_next e) l
  | _, _ => False
  end.

(** [l i] are the blocks of bucket [i]. *)
Record table_rep (t : hash_table_t) (l : Z -> list Z) : Prop := mkTableRep {
  tr_chain : forall i, chain (ht_heap t) (pool t !! i) (l i);
  tr_nodup : forall i, NoDup (l i);
  tr_key : forall i b e, b ∈ l i -> ht_heap t !! b = Some e -> bkdr_hash (he_key e) = i;
  tr_brk : forall b, is_Some (ht_heap t !! b) -> b < ht_brk t
}.

(** The values of a key, the newest first. *)
Definition value_for (h : gmap Z hash_element_t) (key : list Z) (b : Z) : option (list Z) :=
  match h !! b with
  | Some e => if hash_kv_equals (he_key e) key then Some (he_value e) else None
  | None => None
  end.
Definition values (h : gmap Z hash_element_t) (key : list Z) (l : list Z) : list (list Z) :=
  omap (value_for h key) l.

Definition stacks : Type := list Z -> list (list Z).
(** With [c], every block that is allocated is in the table. *)
Definition reached (t : hash_table_t) (l : Z -> list Z) : Prop :=
  forall b, is_Some (ht_heap t !! b) -> exists i, b ∈ l i.
Definition table_rel (c : bool) (t : hash_table_t) (s : stacks) : Prop :=
  exists l, table_rep t l /\ (forall key, values (ht_heap t) key (l (bkdr_hash key)) = s key) /\
    (c = true -> reached t l).

(** ** Chains *)
Lemma bkdr_range key : 0 <= bkdr_hash key < HASH_SIZE.
Proof. apply Z.mod_pos_bound. done. Qed.

Lemma chain_elem h p l b : chain h p l -> b ∈ l -> is_Some (h !! b).
Proof.
  revert p. induction l as [|b' l IH]; intros p Hc Hb; [by apply elem_of_nil in Hb|].
  destruct p as [?|]; [|done]. destruct Hc as (-> & e & He & Hc).
  apply elem_of_cons in Hb as [->|Hb]; [by exists e|by apply (IH (he_next e))].
Qed.

(** A chain looks only at the links of its blocks. *)
Lemma chain_ext h h' p l :
  (forall b e, b ∈ l -> h !! b = Some e -> exists e', h' !! b = Some e' /\ he_next e' = he_next e) ->
  chain h p l -> chain h' p l.
Proof.
  revert p. induction l as [|b l IH]; intros [?|] He Hc; try done.
  destruct Hc as (-> & e & Hb & Hc). split; [done|].
  destruct (He b e ltac:(left) Hb) as (e' & Hb' & En). exists e'. split; [done|]. rewrite En.
  apply IH; [|done]. intros b' e1 Hin. apply He. by right.
Qed.

Lemma values_ext h h' key l :
  (forall b, b ∈ l -> value_for h' key b = value_for h key b) -> values h' key l = values h key l.
Proof.
  induction l as [|b l IH]; intros H; [done|]. unfold values. cbn.
  rewrite (H b) by left. fold (values h' key l) (values h key l). rewrite IH; [done|]. intros. apply H. by right.
Qed.

Lemma chain_length h p l : chain h p l -> NoDup l -> (length l <= size h)%nat.
Proof.
  intros Hc Hn. transitivity (size (list_to_set l : gset Z)); [by rewrite size_list_to_set|].
  rewrite <- (size_dom h). apply subseteq_size. intros b Hb. apply elem_of_list_to_set in Hb.
  apply elem_of_dom. by apply (chain_elem h p l).
Qed.

Lemma rep_disjoint t l i j b : table_rep t l -> b ∈ l i -> b ∈ l j -> i = j.
Proof.
  intros Hr Hi Hj. destruct (chain_elem _ _ _ b (tr_chain t l Hr i) Hi) as [e He].
  by rewrite <- (tr_key t l Hr i b e), <- (tr_key t l Hr j b e).
Qed.

Lemma rep_fuel t l i : table_rep t l -> (length (l i) <= walk_fuel t)%nat.
Proof. intros Hr. apply (chain_length _ (pool t !! i)); [apply (tr_chain t l Hr)|apply (tr_nodup t l Hr)]. Qed.

(** ** Walks *)
(** The first block of a list that holds the key. *)
Fixpoint find_key (h : gmap Z hash_element_t) (key : list Z) (l : list Z) : option Z :=
  match l with
  | [] => None
  | b :: l => match value_for h key b with Some _ => Some b | None => find_key h key l end
  end.

Lemma find_key_values h key l :
  match find_key h key l with
  | Some b => b ∈ l /\ exists e, h !! b = Some e /\ he_key e = key /\ head (values h key l) = Some (he_value e)
  | None => values h key l = []
  end.
Proof.
  induction l as [|b l IH]; [done|]. cbn [find_key]. unfold values. cbn.
  destruct (value_for h key b) as [v|] eqn:Ev.
  - split; [left|]. unfold value_for, hash_kv_equals in Ev. destruct (h !! b) as [e|] eqn:Eb; [|done].
    case_bool_decide; [|done]. injection Ev as <-. by exists e.
  - fold (values h key l). destruct (find_key h key l) as [b'|]; [|done].
    destruct IH as (Hin & IH). split; [by right|done].
Qed.

Lemma hash_get_loop_run t key l : forall fuel p,
  chain (ht_heap t) p l -> (length l <= fuel)%nat ->
  hash_get_loop fuel key p t = Ok (find_key (ht_heap t) key l) t.
Proof.
  induction l as [|b l IH]; intros fuel [b'|] Hc Hf; try done; [by destruct fuel|].
  destruct Hc as (-> & e & He & Hc). destruct fuel as [|fuel]; [cbn in Hf; lia|]. cbn [hash_get_loop find_key].
  unfold bind, he_at at 1, bind. cbn [get]. rewrite He. cbn [ret]. unfold value_for. rewrite He.
  destruct (hash_kv_equals (he_key e) key); [done|]. apply IH; [done|]. cbn in Hf. lia.
Qed.

Lemma hash_get_run t l key :
  table_rep t l -> hash_get key t = Ok (find_key (ht_heap t) key (l (bkdr_hash key))) t.
Proof.
  intros Hr. unfold hash_get, bind. cbn [get]. apply hash_get_loop_run; [apply (tr_chain t l Hr)|by apply rep_fuel].
Qed.

(** ** hash_push *)
Definition stack_push (key v : list Z) (s : stacks) : stacks :=
  fun k => if decide (k = key) then v :: s k else s k.

Lemma hash_push_rel c t s key v :
  table_rel c t s -> exists t', hash_push key v t = Ok tt t' /\ table_rel c t' (stack_push key v s).
Proof.
  intros (l & Hr & Hs & Hcl). eexists. split; [done|]. set (idx := bkdr_hash key). set (new := mkHe _ _ _).
  assert (forall i b, b ∈ l i -> ht_brk t <> b) as Hfresh.
  { intros i b Hb <-. destruct (chain_elem _ _ _ _ (tr_chain t l Hr i) Hb) as [e He].
    pose proof (tr_brk t l Hr (ht_brk t) ltac:(by exists e)). lia. }
  set (h' := <[ht_brk t := new]> (ht_heap t)).
  assert (forall i, chain h' (pool t !! i) (l i)) as Hc.
  { intros i. apply (chain_ext (ht_heap t)); [|apply (tr_chain t l Hr)]. intros b e Hb He. exists e.
    unfold h'. rewrite lookup_insert_ne by (by apply (Hfresh i)). done. }
  exists (fun i => if decide (i = idx) then ht_brk t :: l i else l i). split; [split|split]; cbn [pool ht_heap ht_brk set_slot].
  - intros i. case_decide as Hi.
    + subst i. rewrite lookup_partial_alter_eq. split; [done|]. exists new. unfold h'. rewrite lookup_insert_eq. split; [done|]. apply Hc.
    + rewrite lookup_partial_alter_ne by done. apply Hc.
  - intros i. case_decide; [|apply (tr_nodup t l Hr)]. apply NoDup_cons. split; [|apply (tr_nodup t l Hr)].
    intros Hb. by apply (Hfresh i) in Hb.
  - intros i b e Hb He. assert (b = ht_brk t /\ i = idx \/ b ∈ l i) as [[-> ->]|Hb'].
    { case_decide; [|by right]. apply elem_of_cons in Hb as [->|Hb]; [by left|by right]. }
    + unfold h' in He. rewrite lookup_insert_eq in He. by injection He as <-.
    + unfold h' in He. rewrite lookup_insert_ne in He by (by apply (Hfresh i)). by apply (tr_key t l Hr i b).
  - intros b Hb. unfold h' in Hb. destruct (decide (b = ht_brk t)) as [->|]; [lia|].
    rewrite lookup_insert_ne in Hb by done. pose proof (tr_brk t l Hr b Hb). lia.
  - intros k. assert (values h' k (l (bkdr_hash k)) = s k) as Hv.
    { rewrite <- Hs. apply values_ext. intros b Hb. unfold value_for, h'. by rewrite lookup_insert_ne by (by apply (Hfresh (bkdr_hash k))). }
    unfold stack_push. case_decide as Hi.
    + unfold values. cbn. unfold value_for at 1, h' at 1. rewrite lookup_insert_eq. unfold hash_kv_equals. cbn.
      fold (values h' k (l (bkdr_hash k))). rewrite Hv. case_bool_decide; destruct (decide (k = key)); congruence.
    + destruct (decide (k = key)); [subst k; done|done].
  - intros C b Hb. cbn in Hb. destruct (decide (b = ht_brk t)) as [->|Hne].
    + exists idx. rewrite decide_True by done. left.
    + unfold h' in Hb. rewrite lookup_insert_ne in Hb by done. destruct (Hcl C b Hb) as [i Hi]. exists i.
      case_decide; [by right|done].
Qed.

(** ** Writing through the pointer that hash_get returned *)
Definition hash_update (key v : list Z) : HM unit :=
  let! he := hash_get key in
  match he with
  | Some b => let! e := he_at b in modify (put_he b (set_he_value v e))
  | None => ret tt
  end.
Definition stack_update (key v : list Z) (s : stacks) : stacks :=
  fun k => if decide (k = key) then match s k with [] => [] | _ :: r => v :: r end else s k.

Lemma values_update h key v e b l :
  find_key h key l = Some b -> h !! b = Some e -> NoDup l ->
  forall k, values (<[b := set_he_value v e]> h) k l =
    if decide (k = key) then v :: tail (values h k l) else values h k l.
Proof.
  intros Hf He Hn k. assert (he_key e = key) as Hk.
  { pose proof (find_key_values h key l) as H. rewrite Hf in H. destruct H as (_ & e' & He' & Hk & _). congruence. }
  assert (value_for (<[b := set_he_value v e]> h) k b = if decide (k = key) then Some v else None) as Hb.
  { unfold value_for. rewrite lookup_insert_eq. unfold hash_kv_equals. cbn. rewrite Hk.
    case_bool_decide; destruct (decide (k = key)); congruence. }
  assert (forall b', b' <> b -> value_for (<[b := set_he_value v e]> h) k b' = value_for h k b') as Hne.
  { intros b' Hb'. unfold value_for. by rewrite lookup_insert_ne. }
  assert (value_for h k b = if decide (k = key) then Some (he_value e) else None) as Hb0.
  { unfold value_for. rewrite He. unfold hash_kv_equals. rewrite Hk. case_bool_decide; destruct (decide (k = key)); congruence. }
  clear Hk He. induction l as [|b' l IH]; [done|]. apply NoDup_cons in Hn as [Hni Hn]. cbn [find_key] in Hf.
  destruct (decide (b' = b)) as [->|Hbb].
  - unfold values. cbn. rewrite Hb, Hb0. fold (values (<[b := set_he_value v e]> h) k l) (values h k l).
    rewrite (values_ext h); [by destruct (decide (k = key))|]. intros b' Hb'. apply Hne. by intros ->.
  - destruct (value_for h key b') eqn:Ev; [congruence|]. unfold values in *. cbn. rewrite Hne by done.
    rewrite (IH Hf Hn). destruct (decide (k = key)) as [->|]; [by rewrite Ev|done].
Qed.

Lemma hash_update_rel c t s key v :
  table_rel c t s -> exists t', hash_update key v t = Ok tt t' /\ table_rel c t' (stack_update key v s).
Proof.
  intros (l & Hr & Hs & Hcl). unfold hash_update. erewrite bind_ok by (by apply hash_get_run).
  pose proof (find_key_values (ht_heap t) key (l (bkdr_hash key))) as Hf.
  destruct (find_key _ _ _) as [b|] eqn:Ef.
  - destruct Hf as (Hb & e & He & Hk & Hh). erewrite bind_ok by (unfold he_at, bind; cbn [get]; by rewrite He).
    eexists. split; [done|]. exists l. split; [split|split]; cbn.
    + intros i. apply (chain_ext (ht_heap t)); [|apply (tr_chain t l Hr)]. intros b' e' _ He'.
      destruct (decide (b' = b)) as [->|]; [|exists e'; by rewrite lookup_insert_ne].
      rewrite lookup_insert_eq. eexists. split; [done|]. cbn. congruence.
    + apply (tr_nodup t l Hr).
    + intros i b' e' Hb' He'. destruct (decide (b' = b)) as [->|].
      * rewrite lookup_insert_eq in He'. injection He' as <-. by apply (tr_key t l Hr i b e).
      * rewrite lookup_insert_ne in He' by done. by apply (tr_key t l Hr i b').
    + intros b' Hb'. apply (tr_brk t l Hr). destruct (decide (b' = b)) as [->|]; [by exists e|]. by rewrite lookup_insert_ne in Hb'.
    + intros k. unfold stack_update. destruct (decide (bkdr_hash k = bkdr_hash key)) as [E|E].
      * rewrite E, (values_update _ key v e b _ Ef He) by apply (tr_nodup t l Hr). rewrite <- E, Hs.
        destruct (decide (k = key)) as [->|]; [|done]. rewrite Hs in Hh. by destruct (s key).
      * rewrite decide_False by congruence. rewrite <- Hs. apply values_ext. intros b' Hb'. unfold value_for.
        rewrite lookup_insert_ne; [done|]. intros ->. by apply E, (rep_disjoint t l _ _ b').
    + intros C b' Hb'. apply (Hcl C). cbn in Hb'. destruct (decide (b' = b)) as [->|]; [by exists e|].
      by rewrite lookup_insert_ne in Hb'.
  - exists t. split; [done|]. exists l. split; [done|]. split; [|done]. intros k. unfold stack_update.
    destruct (decide (k = key)) as [->|]; [|done]. by rewrite <- Hs, Hf.
Qed.

(** ** hash_delete *)
Definition stack_pop (key : list Z) (s : stacks) : stacks :=
  fun k => if decide (k = key) then tail (s k) else s k.

(** The block before [b]. *)
Fixpoint pred_of (phe : option Z) (l : list Z) (b : Z) : option Z :=
  match l with
  | [] => phe
  | b' :: l => if decide (b' = b) then phe else pred_of (Some b') l b
  end.
(** What taking an element out of a chain does to the memory. *)
Definition unlink (index : Z) (a : option Z) (e : hash_element_t) (t : hash_table_t) : hash_table_t :=
  match a with
  | Some a => put_he a (set_he_next (he_next e) (default e (ht_heap t !! a))) t
  | None => set_slot index (he_next e) t
  end.
Definition without (b : Z) (l : list Z) : list Z := filter (fun x => x <> b) l.

Lemma without_cons b x l : without b (x :: l) = if decide (x = b) then without b l else x :: without b l.
Proof.
  unfold without. rewrite filter_cons. destruct (decide (x = b)), (decide (x <> b)); done.
Qed.
Lemma without_absent b l : b ∉ l -> without b l = l.
Proof.
  induction l as [|x l IH]; intros H; [done|]. rewrite without_cons. apply not_elem_of_cons in H as [H1 H2].
  rewrite decide_False by done. by rewrite IH.
Qed.
Lemma elem_of_without b x l : x ∈ without b l <-> x <> b /\ x ∈ l.
Proof. unfold without. by rewrite list_elem_of_filter. Qed.

Lemma pred_of_elem a l b : b ∈ l -> forall c, pred_of (Some a) l b = Some c -> c ∈ a :: l.
Proof.
  revert a. induction l as [|x l IH]; intros a Hb c Hc; [by apply elem_of_nil in Hb|]. cbn in Hc.
  case_decide; [injection Hc as <-; left|]. apply elem_of_cons in Hb as [->|Hb]; [done|]. right. by apply (IH x).
Qed.
Lemma pred_of_some a l b : exists c, pred_of (Some a) l b = Some c.
Proof. revert a. induction l as [|x l IH]; intros a; cbn; [by exists a|]. case_decide; [by exists a|apply IH]. Qed.

Lemma delete_loop_run t index key l : forall fuel phe p,
  chain (ht_heap t) p l -> (length l <= fuel)%nat -> (forall a, phe = Some a -> is_Some (ht_heap t !! a)) ->
  exists t', hash_delete_loop fuel index key phe p t = Ok tt t' /\
    match find_key (ht_heap t) key l with
    | Some b => exists e, ht_heap t !! b = Some e /\ t' = unlink index (pred_of phe l b) e t
    | None => t' = t
    end.
Proof.
  induction l as [|b l IH]; intros fuel phe [b'|] Hc Hf Hp; try done.
  { exists t. split; [|done]. by destruct fuel. }
  destruct Hc as (-> & e & He & Hc). destruct fuel as [|fuel]; [cbn in Hf; lia|].
  cbn [hash_delete_loop find_key]. erewrite bind_ok by (unfold he_at, bind; cbn [get]; by rewrite He).
  unfold value_for. rewrite He. destruct (hash_kv_equals (he_key e) key) eqn:Eq.
  - cbn [pred_of]. rewrite decide_True by done. destruct phe as [a|].
    + destruct (Hp a eq_refl) as [ea Ha]. eexists. split.
      { erewrite bind_ok by (unfold he_at, bind; cbn [get]; by rewrite Ha). done. }
      exists e. split; [done|]. unfold unlink. by rewrite Ha.
    + eexists. split; [done|]. by exists e.
  - destruct (IH fuel (Some b) (he_next e) Hc) as (t' & E & Ht'); [cbn in Hf; lia|intros a [= <-]; by exists e|].
    exists t'. split; [done|]. destruct (find_key (ht_heap t) key l) as [b1|] eqn:Ef; [|done].
    destruct Ht' as (e1 & He1 & ->). exists e1. split; [done|]. cbn [pred_of].
    destruct (decide (b = b1)) as [<-|]; [|done]. exfalso.
    pose proof (find_key_values (ht_heap t) key l) as Hv. rewrite Ef in Hv. destruct Hv as (_ & e2 & E2 & Hk & _).
    apply bool_decide_eq_false in Eq. congruence.
Qed.

Lemma chain_unlink h b e x l : forall p ea,
  chain h p (x :: l) -> NoDup (x :: l) -> b ∈ l -> h !! b = Some e ->
  forall a, pred_of (Some x) l b = Some a -> h !! a = Some ea ->
  chain (<[a := set_he_next (he_next e) ea]> h) p (x :: without b l).
Proof.
  revert x. induction l as [|y l IH]; intros x p ea Hc Hn Hb He a Ha Hea; [by apply elem_of_nil in Hb|].
  destruct p as [p|]; [|done]. destruct Hc as (-> & ex & Hx & Hc). apply NoDup_cons in Hn as [Hxn Hn].
  rewrite without_cons. cbn [pred_of] in Ha. split; [done|]. case_decide as Hy.
  - subst y. injection Ha as <-. rewrite lookup_insert_eq. eexists. split; [done|]. cbn [he_next set_he_next].
    rewrite without_absent by (by apply NoDup_cons in Hn as [? _]).
    destruct (he_next ex) as [q|]; [|done]. destruct Hc as (-> & eb & Eb & Hc). assert (eb = e) as -> by congruence.
    apply (chain_ext h); [|done]. intros c ec Hcl Hec. exists ec. rewrite lookup_insert_ne; [done|].
    intros ->. apply Hxn. by right.
  - assert (b ∈ l) as Hb' by (apply elem_of_cons in Hb as [->|]; done).
    exists ex. rewrite lookup_insert_ne.
    + split; [done|]. by apply (IH y (he_next ex) ea).
    + intros ->. by apply Hxn, (pred_of_elem y l b).
Qed.

Lemma values_without h key b l :
  find_key h key l = Some b -> NoDup l ->
  forall k, values h k (without b l) = if decide (k = key) then tail (values h k l) else values h k l.
Proof.
  intros Hf Hn k. pose proof (find_key_values h key l) as H. rewrite Hf in H. destruct H as (_ & e & He & Hk & _).
  assert (value_for h k b = if decide (k = key) then Some (he_value e) else None) as Hb0.
  { unfold value_for. rewrite He. unfold hash_kv_equals. rewrite Hk. case_bool_decide; destruct (decide (k = key)); congruence. }
  induction l as [|x l IH]; [done|]. apply NoDup_cons in Hn as [Hx Hn]. rewrite without_cons. cbn [find_key] in Hf.
  destruct (decide (x = b)) as [->|Hxb].
  - rewrite without_absent by done. unfold values. cbn. rewrite Hb0. by destruct (decide (k = key)).
  - destruct (value_for h key x) eqn:Ev; [congruence|]. unfold values in *. cbn. rewrite (IH Hf Hn).
    destruct (decide (k = key)) as [->|]; [by rewrite Ev|done].
Qed.

(** The links change, not the contents. *)
Definition same_data (h h' : gmap Z hash_element_t) : Prop :=
  forall b, option_map (fun e => (he_key e, he_value e)) (h' !! b) = option_map (fun e => (he_key e, he_value e)) (h !! b).
Lemma same_data_value h h' k b : same_data h h' -> value_for h' k b = value_for h k b.
Proof.
  intros H. specialize (H b). unfold value_for.
  destruct (h !! b), (h' !! b); cbn in H; try done. by injection H as -> ->.
Qed.
Lemma same_data_key h h' b e' : same_data h h' -> h' !! b = Some e' -> exists e, h !! b = Some e /\ he_key e' = he_key e.
Proof.
  intros H He. specialize (H b). rewrite He in H. destruct (h !! b) as [e|]; [|done]. cbn in H.
  injection H as H1 _. by exists e.
Qed.

Lemma unlink_spec t l key b e :
  table_rep t l -> let i := bkdr_hash key in find_key (ht_heap t) key (l i) = Some b -> ht_heap t !! b = Some e ->
  let t' := unlink i (pred_of None (l i) b) e t in
  ht_brk t' = ht_brk t /\ same_data (ht_heap t) (ht_heap t') /\
  (forall j, j <> i -> chain (ht_heap t') (pool t' !! j) (l j)) /\ chain (ht_heap t') (pool t' !! i) (without b (l i)).
Proof.
  intros Hr i Hf He t'. pose proof (find_key_values (ht_heap t) key (l i)) as Hb. rewrite Hf in Hb. destruct Hb as [Hb _].
  pose proof (tr_chain t l Hr i) as Hc. pose proof (tr_nodup t l Hr i) as Hn.
  destruct (l i) as [|x r] eqn:El; [by apply elem_of_nil in Hb|]. subst t'. cbn [pred_of]. rewrite without_cons.
  destruct (decide (x = b)) as [->|Hxb].
  - cbn. split; [done|]. split; [done|]. split.
    + intros j Hj. rewrite lookup_partial_alter_ne by done. apply (tr_chain t l Hr).
    + rewrite lookup_partial_alter_eq, without_absent by (by apply NoDup_cons in Hn as [? _]).
      destruct (pool t !! i) as [q|]; [|done]. destruct Hc as (-> & e' & He' & Hc). congruence.
  - assert (b ∈ r) as Hbr by (apply elem_of_cons in Hb as [->|]; done).
    destruct (pred_of_some x r b) as [a Ha]. pose proof (pred_of_elem x r b Hbr a Ha) as Har.
    destruct (chain_elem _ _ _ a Hc Har) as [ea Hea]. rewrite Ha. cbn [unlink]. rewrite Hea. cbn.
    split; [done|]. split; [|split].
    + intros c. destruct (decide (c = a)) as [->|]; [by rewrite lookup_insert_eq, Hea|by rewrite lookup_insert_ne].
    + intros j Hj. apply (chain_ext (ht_heap t)); [|apply (tr_chain t l Hr)]. intros c ec Hcl Hec. exists ec.
      rewrite lookup_insert_ne; [done|]. intros ->. apply Hj, (rep_disjoint t l j i c Hr Hcl). by rewrite El.
    + by apply (chain_unlink _ b e).
Qed.

(** The element that is taken out is not freed. *)
Lemma hash_delete_rel d t s key :
  table_rel d t s -> exists t', hash_delete key t = Ok tt t' /\ table_rel false t' (stack_pop key s).
Proof.
  intros (l & Hr & Hs & _). set (i := bkdr_hash key).
  destruct (delete_loop_run t i key (l i) (walk_fuel t) None (pool t !! i)) as (t' & E & Ht');
    [apply (tr_chain t l Hr)|by apply rep_fuel|done|].
  exists t'. split; [exact E|]. clear E. destruct (find_key (ht_heap t) key (l i)) as [b|] eqn:Ef.
  - destruct Ht' as (e & He & ->). destruct (unlink_spec t l key b e Hr Ef He) as (Hb & Hd & Hj & Hi). fold i in Hb, Hd, Hj, Hi.
    exists (fun j => if decide (j = i) then without b (l j) else l j). split; [split|split; [|done]].
    + intros j. case_decide; [by subst j|by apply Hj].
    + intros j. case_decide; [apply NoDup_filter|]; apply (tr_nodup t l Hr).
    + intros j c ec Hc Hec. destruct (same_data_key _ _ c ec Hd Hec) as (e0 & E0 & ->).
      apply (tr_key t l Hr j c); [|done]. case_decide; [by apply elem_of_without in Hc as [_ ?]|done].
    + intros c [ec Hec]. destruct (same_data_key _ _ c ec Hd Hec) as (e0 & E0 & _). rewrite Hb. apply (tr_brk t l Hr). by exists e0.
    + intros k. rewrite (values_ext (ht_heap t)) by (intros; by apply same_data_value). unfold stack_pop.
      destruct (decide (bkdr_hash k = i)) as [Ek|Ek].
      * rewrite Ek, (values_without _ key b _ Ef (tr_nodup t l Hr i)). by rewrite <- Ek, Hs.
      * rewrite decide_False by (intros ->; done). apply Hs.
  - subst t'. exists l. split; [done|]. split; [|done]. intros k. unfold stack_pop. destruct (decide (k = key)) as [->|]; [|done].
    pose proof (find_key_values (ht_heap t) key (l i)) as Hv. rewrite Ef in Hv. rewrite <- Hs. fold i. by rewrite Hv.
Qed.

(** ** hash_free *)
(** The blocks of [l] are gone. *)
Definition freed (t t' : hash_table_t) (l : list Z) : Prop :=
  pool t' = pool t /\ ht_brk t' = ht_brk t /\
  forall b, ht_heap t' !! b = if decide (b ∈ l) then None else ht_heap t !! b.

Lemma freed_nil t : freed t t [].
Proof. split; [done|]. split; [done|]. intros b. by rewrite decide_False by apply not_elem_of_nil. Qed.
Lemma freed_app t t1 t2 l1 l2 : freed t t1 l1 -> freed t1 t2 l2 -> freed t t2 (l1 ++ l2).
Proof.
  intros (P1 & B1 & H1) (P2 & B2 & H2). split; [congruence|]. split; [congruence|]. intros b. rewrite H2, H1.
  destruct (decide (b ∈ l1 ++ l2)) as [H|H]; rewrite elem_of_app in H.
  - destruct (decide (b ∈ l2)); [done|]. by rewrite decide_True by tauto.
  - by rewrite !decide_False by tauto.
Qed.

Lemma free_slot_run l : forall t fuel p,
  chain (ht_heap t) p l -> NoDup l -> (length l <= fuel)%nat ->
  exists t', free_hash_slot fuel p t = Ok tt t' /\ freed t t' l.
Proof.
  induction l as [|b l IH]; intros t fuel [b'|] Hc Hn Hf; try done.
  { exists t. split; [by destruct fuel|apply freed_nil]. }
  destruct Hc as (-> & e & He & Hc). apply NoDup_cons in Hn as [Hb Hn]. destruct fuel as [|fuel]; [cbn in Hf; lia|].
  cbn [free_hash_slot]. erewrite bind_ok by (unfold he_at, bind; cbn [get]; by rewrite He).
  rewrite (bind_ok (modify _) _ t tt _ eq_refl). set (t1 := set_heap _ t).
  destruct (IH t1 fuel (he_next e)) as (t' & E & Hfr); [|done|cbn in Hf; lia|].
  { apply (chain_ext (ht_heap t)); [|done]. intros c ec Hcl Hec. exists ec. cbn. rewrite lookup_delete_ne; [done|]. by intros ->. }
  exists t'. split; [done|]. apply (freed_app t t1 t' [b] l); [|done]. split; [done|]. split; [done|]. intros c. cbn.
  destruct (decide (c ∈ [b])) as [Hcb|Hcb].
  - apply list_elem_of_singleton in Hcb as ->. apply lookup_delete_eq.
  - apply lookup_delete_ne. intros ->. apply Hcb. by left.
Qed.

Definition blocks (l : Z -> list Z) (i : Z) (n : nat) : list Z :=
  concat (map (fun k => l (i + Z.of_nat k)) (seq 0 n)).
Lemma blocks_S l i n : blocks l i (S n) = l i ++ blocks l (i + 1) n.
Proof.
  unfold blocks. cbn [seq map concat]. rewrite <- seq_shift, map_map, Z.add_0_r. do 2 f_equal.
  apply map_ext. intros k. f_equal. lia.
Qed.
Lemma elem_of_blocks l i n b : b ∈ blocks l i n <-> exists j, i <= j < i + Z.of_nat n /\ b ∈ l j.
Proof.
  revert i. induction n as [|n IH]; intros i.
  - split; [intros H; by apply elem_of_nil in H|intros (j & Hj & _); lia].
  - rewrite blocks_S, elem_of_app, IH. split.
    + intros [H|(j & Hj & H)]; [exists i|exists j]; (split; [lia|done]).
    + intros (j & Hj & H). destruct (decide (j = i)) as [->|]; [by left|right; exists j; split; [lia|done]].
Qed.

Lemma free_slots_run l n : forall t i,
  (forall j, i <= j < i + Z.of_nat n -> chain (ht_heap t) (pool t !! j) (l j) /\ NoDup (l j)) ->
  (forall j k b, b ∈ l j -> b ∈ l k -> j = k) ->
  exists t', free_slots n i t = Ok tt t' /\ freed t t' (blocks l i n).
Proof.
  induction n as [|n IH]; intros t i Hc Hd; [exists t; split; [done|apply freed_nil]|].
  destruct (Hc i ltac:(lia)) as [Hci Hni].
  destruct (free_slot_run (l i) t (walk_fuel t) (pool t !! i) Hci Hni) as (t1 & E1 & F1); [by apply (chain_length _ _ _ Hci)|].
  destruct F1 as (P1 & B1 & H1). destruct (IH t1 (i + 1)) as (t2 & E2 & F2); [|done|].
  - intros j Hj. destruct (Hc j ltac:(lia)) as [Hcj Hnj]. split; [|done]. rewrite P1.
    apply (chain_ext (ht_heap t)); [|done]. intros b e Hb He. exists e. rewrite H1, decide_False; [done|].
    intros Hbi. pose proof (Hd i j b Hbi Hb). lia.
  - exists t2. split.
    + cbn [free_slots]. rewrite (bind_ok get _ t t t eq_refl). erewrite bind_ok by exact E1. exact E2.
    + rewrite blocks_S. by apply (freed_app t t1).
Qed.

(** Every element that is in the table is freed, and nothing else. *)
Lemma hash_free_run t l :
  table_rep t l -> exists t', hash_free t = Ok tt t' /\ pool t' = ∅ /\ ht_brk t' = ht_brk t /\
    forall b, is_Some (ht_heap t' !! b) <-> is_Some (ht_heap t !! b) /\ forall i, b ∉ l i.
Proof.
  intros Hr. destruct (free_slots_run l (Z.to_nat HASH_SIZE) t 0) as (t1 & E1 & P1 & B1 & H1).
  { intros j _. split; [apply (tr_chain t l Hr)|apply (tr_nodup t l Hr)]. }
  { intros j k b. by apply (rep_disjoint t). }
  eexists. split; [unfold hash_free; by erewrite bind_ok by exact E1|]. split; [done|]. split; [done|].
  intros b. cbn. rewrite H1. case_decide as Hb.
  - apply elem_of_blocks in Hb as (j & _ & Hb). split; [by intros [? ?]|]. intros [_ H]. by apply H in Hb.
  - split; [|tauto]. intros Hs. split; [done|]. intros i Hi. apply Hb, elem_of_blocks. exists i. split; [|done].
    destruct (chain_elem _ _ _ b (tr_chain t l Hr i) Hi) as [e He].
    rewrite <- (tr_key t l Hr i b e Hi He). pose proof (bkdr_range (he_key e)). unfold HASH_SIZE in *. lia.
Qed.

Lemma hash_free_rel c t s :
  table_rel c t s -> exists t', hash_free t = Ok tt t' /\ table_rel c t' (fun _ => []) /\ (c = true -> ht_heap t' = ∅).
Proof.
  intros (l & Hr & _ & Hcl). destruct (hash_free_run t l Hr) as (t' & E & P & B & H). exists t'. split; [done|].
  assert (c = true -> ht_heap t' = ∅) as Hemp.
  { intros C. apply map_empty. intros b. apply eq_None_not_Some. intros [Hs Hb]%H.
    destruct (Hcl C b Hs) as [i Hi]. by apply Hb in Hi. }
  split; [|done]. exists (fun _ => []). split; [split|].
  - intros i. by rewrite P, lookup_empty.
  - intros i. apply NoDup_nil_2.
  - intros i b e Hb. by apply elem_of_nil in Hb.
  - intros b Hb. rewrite B. apply (tr_brk t l Hr). by apply H.
  - split; [done|]. intros C b. rewrite (Hemp C), lookup_empty. by intros [? ?].
Qed.

Lemma ht_zero_rel : table_rel true ht_zero (fun _ => []).
Proof.
  exists (fun _ => []). split; [split|]; cbn.
  - intros i. by rewrite lookup_empty.
  - intros i. apply NoDup_nil_2.
  - intros i b e Hb. by apply elem_of_nil in Hb.
  - intros b. rewrite lookup_empty. by intros [? ?].
  - split; [done|]. intros _ b. cbn. rewrite lookup_empty. by intros [? ?].
Qed.

(** ** Sequences of operations *)
(** The value behind the pointer that hash_get returns. *)
Definition hash_lookup (key : list Z) : HM (option (list Z)) :=
  let! he := hash_get key in
  match he with Some b => let! e := he_at b in ret (Some (he_value e)) | None => ret None end.

Lemma hash_lookup_rel c t s key : table_rel c t s -> hash_lookup key t = Ok (head (s key)) t.
Proof.
  intros (l & Hr & Hs & _). unfold hash_lookup. erewrite bind_ok by (by apply hash_get_run). rewrite <- Hs.
  pose proof (find_key_values (ht_heap t) key (l (bkdr_hash key))) as Hf. destruct (find_key _ _ _) as [b|].
  - destruct Hf as (_ & e & He & _ & ->). by erewrite bind_ok by (unfold he_at, bind; cbn [get]; by rewrite He).
  - by rewrite Hf.
Qed.

Inductive hash_op : Type :=
| OpPush (key v : list Z) | OpGet (key : list Z) | OpUpdate (key v : list Z) | OpDelete (key : list Z) | OpFree.

Definition run_op (o : hash_op) : HM (option (list Z)) :=
  match o with
  | OpPush key v => hash_push key v ;; ret None
  | OpGet key => hash_lookup key
  | OpUpdate key v => hash_update key v ;; ret None
  | OpDelete key => hash_delete key ;; ret None
  | OpFree => hash_free ;; ret None
  end.
Fixpoint run_ops (l : list hash_op) : HM (list (option (list Z))) :=
  match l with
  | [] => ret []
  | o :: l => let! r := run_op o in let! rs := run_ops l in ret (r :: rs)
  end.

(** The specification: what each operation does to the stacks and answers. *)
Definition spec_op (o : hash_op) (s : stacks) : stacks :=
  match o with
  | OpPush key v => stack_push key v s
  | OpGet _ => s
  | OpUpdate key v => stack_update key v s
  | OpDelete key => stack_pop key s
  | OpFree => fun _ => []
  end.
Definition spec_answer (o : hash_op) (s : stacks) : option (list Z) :=
  match o with OpGet key => head (s key) | _ => None end.
Fixpoint spec_ops (l : list hash_op) (s : stacks) : list (option (list Z)) :=
  match l with [] => [] | o :: l => spec_answer o s :: spec_ops l (spec_op o s) end.

Definition is_delete (o : hash_op) : bool := match o with OpDelete _ => true | _ => false end.

Lemma run_op_rel c t s o :
  table_rel c t s -> exists t', run_op o t = Ok (spec_answer o s) t' /\ table_rel (c && negb (is_delete o)) t' (spec_op o s).
Proof.
  intros H. destruct o as [k v|k|k v|k|]; cbn [is_delete negb run_op spec_op spec_answer];
    rewrite ?andb_true_r, ?andb_false_r.
  - destruct (hash_push_rel c t s k v H) as (t' & E & H'). exists t'. by erewrite bind_ok by exact E.
  - exists t. by erewrite hash_lookup_rel by exact H.
  - destruct (hash_update_rel c t s k v H) as (t' & E & H'). exists t'. by erewrite bind_ok by exact E.
  - destruct (hash_delete_rel c t s k H) as (t' & E & H'). exists t'. by erewrite bind_ok by exact E.
  - destruct (hash_free_rel c t s H) as (t' & E & H' & _). exists t'. by erewrite bind_ok by exact E.
Qed.

Lemma run_ops_rel l : forall c t s,
  table_rel c t s -> exists t' s', run_ops l t = Ok (spec_ops l s) t' /\
    table_rel (c && negb (existsb is_delete l)) t' s'.
Proof.
  induction l as [|o l IH]; intros c t s H; [exists t, s; by rewrite andb_true_r|].
  destruct (run_op_rel c t s o H) as (t1 & E1 & H1). destruct (IH _ _ _ H1) as (t2 & s2 & E2 & H2).
  exists t2, s2. cbn [run_ops existsb]. erewrite bind_ok by exact E1. erewrite bind_ok by exact E2.
  split; [done|]. by rewrite negb_orb, andb_assoc.
Qed.

(** C28: for every sequence of hash_push, hash_get (with writes through the pointer it
    returns), hash_delete and hash_free from an empty table, every walk along a chain
    ends without leaving the allocated elements, and every hash_get answers as a map from
    keys to stacks of values does, whatever the collisions of bkdr_hash: a push hides the
    older values of its key, a delete uncovers them, and no other key is affected.  After
    a hash_free no memory is left allocated, unless hash_delete was used: it takes the
    element out of its chain without freeing it. *)
Theorem hash_refines_stacks (ops : list hash_op) :
  exists t, run_ops ops ht_zero = Ok (spec_ops ops (fun _ => [])) t /\
    exists t', hash_free t = Ok tt t' /\ (existsb is_delete ops = false -> ht_heap t' = ∅).
Proof.
  destruct (run_ops_rel ops true ht_zero (fun _ => []) ht_zero_rel) as (t & s & E & H). exists t. split; [done|].
  destruct (hash_free_rel _ t s H) as (t' & E' & _ & Hc). exists t'. split; [done|]. intros Hd. apply Hc. by rewrite Hd.
Qed.

(** Two keys with the same hash. *)
Lemma hash_refines_stacks_witness :
  bkdr_hash [131] = bkdr_hash [1; 0] /\
  exists t, run_ops [OpPush [131] [1]; OpPush [1; 0] [2]; OpPush [131] [3]; OpGet [131]; OpDelete [131]; OpGet [131]; OpGet [1; 0]]
    ht_zero = Ok [None; None; None; Some [3]; None; Some [1]; Some [2]] t.
Proof.
  split; [reflexivity|].
  destruct (hash_refines_stacks [OpPush [131] [1]; OpPush [1; 0] [2]; OpPush [131] [3]; OpGet [131]; OpDelete [131]; OpGet [131]; OpGet [1; 0]])
    as (t & E & _). exists t. exact E.
Defined.

(** ** hash_foreach *)
(** The values of a key among the elements that the loop visits. *)
Definition element_value (key : list Z) (e : hash_element_t) : option (list Z) :=
  if hash_kv_equals (he_key e) key then Some (he_value e) else None.

Lemma foreach_slot_run t l : forall fuel p,
  chain (ht_heap t) p l -> (length l <= fuel)%nat ->
  exists es, foreach_slot fuel p t = Ok es t /\
    forall key, omap (element_value key) es = values (ht_heap t) key l.
Proof.
  induction l as [|b l IH]; intros fuel [b'|] Hc Hf; try done; [exists []; by destruct fuel|].
  destruct Hc as (-> & e & He & Hc). destruct fuel as [|fuel]; [cbn in Hf; lia|]. cbn [foreach_slot].
  erewrite bind_ok by (unfold he_at, bind; cbn [get]; by rewrite He).
  destruct (IH fuel (he_next e) Hc) as (es & E & Hes); [cbn in Hf; lia|]. exists (e :: es).
  erewrite bind_ok by exact E. split; [done|]. intros key.
  specialize (Hes key). unfold values in *. cbn. unfold value_for at 1, element_value at 1. rewrite He.
  destruct (hash_kv_equals (he_key e) key); by rewrite Hes.
Qed.

Lemma values_other t l key i :
  table_rep t l -> i <> bkdr_hash key -> values (ht_heap t) key (l i) = [].
Proof.
  intros Hr Hi. assert (forall r, (forall b, b ∈ r -> b ∈ l i) -> values (ht_heap t) key r = []) as H; [|by apply H].
  induction r as [|b r IH]; intros Hin; [done|]. unfold values in *. cbn. rewrite IH by (intros; apply Hin; by right).
  unfold value_for. destruct (ht_heap t !! b) as [e|] eqn:He; [|done]. unfold hash_kv_equals.
  case_bool_decide as Hk; [|done]. exfalso. apply Hi. rewrite <- (tr_key t l Hr i b e); [by rewrite Hk| |done]. apply Hin. left.
Qed.

Lemma foreach_slots_run t l n : table_rep t l -> forall i,
  exists es, foreach_slots n i t = Ok es t /\
    forall key, omap (element_value key) es =
      if decide (i <= bkdr_hash key < i + Z.of_nat n) then values (ht_heap t) key (l (bkdr_hash key)) else [].
Proof.
  intros Hr. induction n as [|n IH]; intros i.
  { exists []. split; [done|]. intros key. by rewrite decide_False by lia. }
  destruct (IH (i + 1)) as (ls & E & Hls). pose proof (rep_fuel t l i Hr) as Hf.
  destruct (foreach_slot_run t (l i) _ _ (tr_chain t l Hr i) Hf) as (es & Ee & Hes). exists (es ++ ls). split.
  { cbn [foreach_slots]. rewrite (bind_ok get _ t t t eq_refl). erewrite bind_ok by exact Ee. by erewrite bind_ok by exact E. }
  intros key. rewrite omap_app, Hls, Hes. destruct (decide (i = bkdr_hash key)) as [->|Hi].
  - rewrite decide_False, decide_True by lia. apply app_nil_r.
  - rewrite (values_other t l key i Hr Hi). cbn. repeat case_decide; try done; lia.
Qed.

(** The loop visits each value of each key once. *)
Lemma hash_foreach_rel c t s :
  table_rel c t s -> exists es, hash_foreach t = Ok es t /\ forall key, omap (element_value key) es = s key.
Proof.
  intros (l & Hr & Hs & _). destruct (foreach_slots_run t l (Z.to_nat HASH_SIZE) Hr 0) as (es & E & H). exists es.
  split; [done|]. intros key. rewrite H, decide_True; [apply Hs|]. pose proof (bkdr_range key). unfold HASH_SIZE in *. lia.
Qed.
