(* ===== verification/PerfProps.v ===== *)
(** * The profilers count

    instr-perf.c and elfperf.c keep one counter for each name they are given; what the
    counters hold after any sequence of instructions, and what the report prints. *)
From S2P Require Import Prelude Config Reg Fifo Ram Machine Elfsym Monitor MonitorProps ElfsymProps.
From S2P Require Import Hash Perf HashProps.
Local Open Scope nemu_scope.

(** ** Specification *)
Definition occurrences (k : list Z) (names : list (list Z)) : Z := Z.of_nat (length (filter (fun x => x = k) names)).
(** One counter of [w] bytes for each name, [d] more than its occurrences. *)
Definition counters (w : nat) (d : Z) (names : list (list Z)) : stacks :=
  fun k => if decide (k ∈ names) then [le_word w (occurrences k names + d)] else [].

Lemma occurrences_snoc k names x :
  occurrences k (names ++ [x]) = occurrences k names + b2z (bool_decide (x = k)).
Proof.
  unfold occurrences. rewrite filter_app, length_app, filter_cons, filter_nil.
  destruct (decide (x = k)); [rewrite bool_decide_true by done|rewrite bool_decide_false by done]; cbn; lia.
Qed.
Lemma occurrences_bound k names : 0 <= occurrences k names <= Z.of_nat (length names).
Proof. unfold occurrences. pose proof (length_filter (fun x => x = k) names). lia. Qed.
Lemma occurrences_absent k names : k ∉ names -> occurrences k names = 0.
Proof.
  intros H. unfold occurrences. assert (filter (fun x => x = k) names = []) as ->; [|done].
  apply elem_of_nil_inv. intros x [-> Hx]%list_elem_of_filter. done.
Qed.
Lemma occurrences_pos k names : k ∈ names -> 0 < occurrences k names.
Proof.
  intros Hk. unfold occurrences. destruct (filter _ names) eqn:Ef; [|cbn; lia]. exfalso. apply (not_elem_of_nil k).
  rewrite <- Ef. by apply list_elem_of_filter.
Qed.

Lemma counters_first w d names k x :
  k ∉ names -> counters w d (names ++ [k]) x = stack_push k (le_word w (1 + d)) (counters w d names) x.
Proof.
  intros Hk. unfold counters, stack_push. rewrite occurrences_snoc. destruct (decide (x = k)) as [->|Hx].
  - rewrite (decide_False (P := k ∈ names)) by done. rewrite decide_True by (apply elem_of_app; right; left).
    rewrite occurrences_absent, bool_decide_true by done. do 3 f_equal.
  - rewrite bool_decide_false, Z.add_0_r by congruence.
    destruct (decide (x ∈ names)), (decide (x ∈ names ++ [k])) as [H|H]; try done; rewrite elem_of_app, list_elem_of_singleton in H; tauto.
Qed.
Lemma counters_next w d names k x :
  k ∈ names -> counters w d (names ++ [k]) x =
    stack_update k (le_word w (occurrences k names + 1 + d)) (counters w d names) x.
Proof.
  intros Hk. unfold counters, stack_update. rewrite occurrences_snoc. destruct (decide (x = k)) as [->|Hx].
  - rewrite (decide_True (P := k ∈ names)) by done. rewrite decide_True by (apply elem_of_app; by left).
    rewrite bool_decide_true by done. done.
  - rewrite bool_decide_false, Z.add_0_r by congruence.
    destruct (decide (x ∈ names)), (decide (x ∈ names ++ [k])) as [H|H]; try done; rewrite elem_of_app, list_elem_of_singleton in H; tauto.
Qed.

Lemma table_rel_ext c t s s' : (forall k, s k = s' k) -> table_rel c t s -> table_rel c t s'.
Proof. intros E (l & Hr & Hs & Hc). exists l. split; [done|]. split; [|done]. intros k. by rewrite Hs. Qed.

(** ** Counters in memory *)
Lemma le_word_length n v : length (le_word n v) = n.
Proof. revert v. induction n as [|n IH]; intros v; [done|]. cbn. by rewrite IH. Qed.
Lemma le_word_value n v : le_bytes (le_word n v) = v mod 256 ^ Z.of_nat n.
Proof.
  revert v. induction n as [|n IH]; intros v; [cbn; by rewrite Z.mod_1_r|]. cbn [le_word le_bytes]. rewrite IH.
  rewrite Nat2Z.inj_succ, Z.pow_succ_r by lia. assert (0 < 256 ^ Z.of_nat n) by (apply Z.pow_pos_nonneg; lia).
  rewrite Z.rem_mul_r by lia. lia.
Qed.
Lemma le_word_small n v : 0 <= v < 256 ^ Z.of_nat n -> le_bytes (le_word n v) = v.
Proof. intros Hv. rewrite le_word_value. by apply Z.mod_small. Qed.

Lemma counter_read {S} (e : hash_element_t) n v (s : S) :
  he_value e = le_word n v -> buf_at (he_value e) 0 (Z.of_nat n) s = Ok (v mod 256 ^ Z.of_nat n) s.
Proof.
  intros ->. unfold buf_at, in_buf, bind. rewrite le_word_length. rewrite !(proj2 (Z.leb_le _ _)) by lia. cbn [andb].
  unfold ensure, ret, slice. change (Z.to_nat 0) with 0%nat. rewrite drop_0, Nat2Z.id, take_ge by (rewrite le_word_length; lia).
  by rewrite le_word_value.
Qed.

(** ** instr-perf.c *)
(** What the profilers do with an element they found. *)
Lemma found_update c t s key v r :
  table_rel c t s -> s key = v :: r -> exists b e, hash_get key t = Ok (Some b) t /\ he_at b t = Ok e t /\ he_value e = v /\
    forall v', exists t', modify (put_he b (set_he_value v' e)) t = Ok tt t' /\ table_rel c t' (stack_update key v' s).
Proof.
  intros H Hk. pose proof H as (l & Hr & Hs & _). pose proof (hash_get_run t l key Hr) as Hg.
  pose proof (find_key_values (ht_heap t) key (l (bkdr_hash key))) as Hf. rewrite Hs, Hk in Hf.
  destruct (find_key _ _ _) as [b|]; [|done]. destruct Hf as (_ & e & He & _ & [= Hv]).
  assert (he_at b t = Ok e t) as Ha by (unfold he_at, bind; cbn [get]; by rewrite He).
  exists b, e. do 2 (split; [done|]). split; [done|]. intros v'.
  destruct (hash_update_rel c t s key v' H) as (t' & E & H'). exists t'. split; [|done].
  unfold hash_update, bind in E. rewrite Hg, Ha in E. exact E.
Qed.
Lemma not_found c t s key : table_rel c t s -> s key = [] -> hash_get key t = Ok None t.
Proof.
  intros (l & Hr & Hs & _) Hk. rewrite (hash_get_run t l key Hr).
  pose proof (find_key_values (ht_heap t) key (l (bkdr_hash key))) as Hf. rewrite Hs, Hk in Hf.
  destruct (find_key _ _ _) as [b|]; [|done]. by destruct Hf as (_ & e & _ & _ & [=]).
Qed.

Lemma int_value_run e v t : he_value e = le_word 4 v -> 0 <= v < 2 ^ 31 -> int_value e t = Ok v t.
Proof.
  intros He Hv. unfold int_value. erewrite bind_ok by (exact (counter_read e 4 v t He)). unfold ret. f_equal.
  rewrite Z.mod_small by lia. unfold sw. rewrite Z.mod_small; lia.
Qed.

Lemma instrperf_record_run c t names k :
  table_rel c t (counters 4 (-1) names) -> Z.of_nat (length names) < 2 ^ 31 - 1 ->
  exists t', instrperf_record k t = Ok tt t' /\ table_rel c t' (counters 4 (-1) (names ++ [k])).
Proof.
  intros H Hn. pose proof (occurrences_bound k names) as Hb. unfold instrperf_record. destruct (decide (k ∈ names)) as [Hk|Hk].
  - assert (counters 4 (-1) names k = [le_word 4 (occurrences k names + -1)]) as Es by (unfold counters; by rewrite decide_True).
    pose proof (occurrences_pos k names Hk) as Hp.
    destruct (found_update c t _ k _ _ H Es) as (b & e & Hg & Ha & Hv & Hu).
    erewrite bind_ok by exact Hg. cbv beta iota. erewrite bind_ok by exact Ha. erewrite bind_ok by (apply int_value_run; [exact Hv|lia]).
    rewrite (proj2 (Z.ltb_lt _ _)) by lia. rewrite (bind_ok (ensure true HUndefined) _ t tt t eq_refl).
    destruct (Hu (le_word 4 (occurrences k names + -1 + 1))) as (t' & E & H'). exists t'. split; [done|].
    apply (table_rel_ext c t' _ _ (fun x => eq_sym (counters_next 4 (-1) names k x Hk))).
    replace (occurrences k names + 1 + -1) with (occurrences k names + -1 + 1) by lia. done.
  - assert (counters 4 (-1) names k = []) as Es by (unfold counters; by rewrite decide_False).
    erewrite bind_ok by (by apply (not_found c t (counters 4 (-1) names))).
    destruct (hash_push_rel c t _ k (le_word 4 0) H) as (t' & E & H'). exists t'. split; [done|].
    by apply (table_rel_ext c t' _ _ (fun x => eq_sym (counters_first 4 (-1) names k x Hk))).
Qed.

Fixpoint instrperf_records (names : list (list Z)) : HM unit :=
  match names with [] => ret tt | k :: names => instrperf_record k ;; instrperf_records names end.

Lemma instrperf_records_run c todo : forall names t,
  table_rel c t (counters 4 (-1) names) -> Z.of_nat (length (names ++ todo)) < 2 ^ 31 ->
  exists t', instrperf_records todo t = Ok tt t' /\ table_rel c t' (counters 4 (-1) (names ++ todo)).
Proof.
  induction todo as [|k todo IH]; intros names t H Hn; [exists t; by rewrite app_nil_r|].
  rewrite length_app in Hn. cbn [length] in Hn.
  destruct (instrperf_record_run c t names k H) as (t1 & E1 & H1); [lia|].
  destruct (IH (names ++ [k]) t1 H1) as (t2 & E2 & H2); [rewrite !length_app; cbn; lia|].
  exists t2. rewrite <- app_assoc in H2. cbn [instrperf_records]. by erewrite bind_ok by exact E1.
Qed.

Lemma report_lines_run es t :
  Forall (fun e => exists v, he_value e = le_word 4 v /\ 0 <= v < 2 ^ 31) es ->
  report_lines es t = Ok (map (fun e => (s32 (le_bytes (he_value e)), he_key e)) es) t.
Proof.
  induction 1 as [|e es (v & Hv & Hr) _ IH]; [done|]. cbn [report_lines map].
  erewrite bind_ok by (by apply int_value_run). erewrite bind_ok by exact IH. unfold ret. do 3 f_equal.
  rewrite Hv, le_word_small by (cbn; lia). unfold sw. rewrite Z.mod_small; lia.
Qed.

(** The counts printed for a name. *)
Definition printed (k : list Z) (lines : list (Z * list Z)) : list Z :=
  omap (fun l => if bool_decide (snd l = k) then Some (fst l) else None) lines.

Lemma instrperf_report_run t names :
  table_rel true t (counters 4 (-1) names) -> Z.of_nat (length names) < 2 ^ 31 ->
  exists total lines t', instrperf_report t = Ok (total, lines) t' /\ ht_heap t' = ∅ /\
    forall k, printed k lines = if decide (k ∈ names) then [occurrences k names - 1] else [].
Proof.
  intros H Hn. destruct (hash_foreach_rel true t _ H) as (es & E & Hes).
  assert (forall e, e ∈ es -> he_key e ∈ names /\ he_value e = le_word 4 (occurrences (he_key e) names - 1)) as Hel.
  { intros e He. specialize (Hes (he_key e)).
    assert (he_value e ∈ counters 4 (-1) names (he_key e)) as Hin.
    { rewrite <- Hes. apply list_elem_of_omap. exists e. split; [done|]. unfold element_value, hash_kv_equals.
      by rewrite bool_decide_true. }
    unfold counters in Hin. case_decide; [|by apply elem_of_nil in Hin]. apply list_elem_of_singleton in Hin. done. }
  assert (forall k, k ∈ names -> 0 <= occurrences k names - 1 < 2 ^ 31) as Hocc.
  { intros k Hk. pose proof (occurrences_bound k names). pose proof (occurrences_pos k names Hk). lia. }
  set (lines := map (fun e => (s32 (le_bytes (he_value e)), he_key e)) es).
  destruct (hash_free_rel true t _ H) as (t' & E' & _ & Hemp).
  eexists _, lines, t'. split.
  { unfold instrperf_report. erewrite bind_ok by exact E. erewrite bind_ok.
    2:{ apply report_lines_run, Forall_forall. intros e He. destruct (Hel e He) as [Hk Hv]. eexists. split; [exact Hv|by apply Hocc]. }
    by erewrite bind_ok by exact E'. }
  split; [by apply Hemp|]. intros k. specialize (Hes k).
  assert (printed k lines = map (fun v => s32 (le_bytes v)) (counters 4 (-1) names k)) as ->.
  { rewrite <- Hes. unfold printed, lines. clear. induction es as [|e es IH]; [done|]. cbn. unfold element_value at 1, hash_kv_equals.
    case_bool_decide; cbn; by rewrite IH. }
  unfold counters. case_decide as Hk; [|done]. cbn [map]. pose proof (Hocc k Hk).
  rewrite le_word_small by (cbn; lia). unfold sw. rewrite Z.mod_small by lia. f_equal. lia.
Qed.

(** ** elfperf.c *)
Lemma on_ht_read {A} (k : HM A) p a : k (perf_ht p) = Ok a (perf_ht p) -> on_ht k p = Ok a p.
Proof. intros H. unfold zoom. rewrite H. by destruct p. Qed.
Lemma u64_value_run e v p : he_value e = le_word 8 v -> 0 <= v < 2 ^ 64 -> u64_value e p = Ok v p.
Proof.
  intros He Hv. unfold u64_value. rewrite (bind_ok (ensure _ _) _ p tt p) by (rewrite He, le_word_length; done).
  change 8 with (Z.of_nat 8). rewrite (counter_read e 8 v p He). by rewrite Z.mod_small.
Qed.

(** The name that an address is counted under. *)
Definition name_of (e : elfsym_t) (pc : Z) : list Z := default [] (sym_bytes e (symbol_of e pc)).
Definition named (e : elfsym_t) (pc : Z) : Prop := is_Some (sym_bytes e (symbol_of e pc)).
Lemma sym_bytes_same e e' s : same_tables e e' -> sym_bytes e' s = sym_bytes e s.
Proof. intros (_ & _ & _ & H). unfold sym_bytes. by rewrite H. Qed.
Lemma name_of_same e e' pc : same_tables e e' -> name_of e' pc = name_of e pc.
Proof. intros H. unfold name_of. by rewrite (sym_bytes_same e e'), (symbol_of_same e e'). Qed.
Lemma named_same e e' pc : same_tables e e' -> named e pc -> named e' pc.
Proof. intros H. unfold named. by rewrite (sym_bytes_same e e'), (symbol_of_same e e'). Qed.
Lemma same_tables_trans e e1 e2 : same_tables e e1 -> same_tables e1 e2 -> same_tables e e2.
Proof. unfold same_tables. intuition congruence. Qed.

(** The state after the instructions in functions [names]. *)
Record perf_ok (p : elfperf_t) (names : list (list Z)) : Prop := mkPerfOk {
  pk_tables : tables_ok (ep_elfsym p);
  pk_cache : cache_good (ep_elfsym p);
  pk_counters : table_rel true (perf_ht p) (counters 8 0 names);
  pk_ninstr : ninstr p = Z.of_nat (length names)
}.

Lemma perf_update_run p names ms sym key :
  table_rel true (perf_ht p) (counters 8 0 names) -> sym_bytes (ep_elfsym p) sym = Some key -> Z.of_nat (length names) < 2 ^ 64 - 1 ->
  exists t', perf_update PerfInstr ms sym p = Ok tt (set_perf_ht t' p) /\ table_rel true t' (counters 8 0 (names ++ [key])).
Proof.
  intros H Hk Hn. unfold perf_update. rewrite (bind_ok get _ p p p eq_refl), Hk.
  pose proof (occurrences_bound key names) as Hb. set (t := perf_ht p) in *. destruct (decide (key ∈ names)) as [Hin|Hin].
  - assert (counters 8 0 names key = [le_word 8 (occurrences key names + 0)]) as Es by (unfold counters; by rewrite decide_True).
    destruct (found_update true t _ key _ _ H Es) as (b & e & Hg & Ha & Hv & Hu).
    erewrite bind_ok by (apply on_ht_read; exact Hg). cbv beta iota. erewrite bind_ok by (apply on_ht_read; exact Ha).
    erewrite bind_ok by (apply u64_value_run; [exact Hv|lia]). cbv beta iota. rewrite Z.add_0_r.
    rewrite (uw_small 64) by (unfold in_u; lia).
    destruct (Hu (le_word 8 (occurrences key names + 1))) as (t' & E & H'). exists t'.
    split; [apply zoom_ok; exact E|].
    apply (table_rel_ext true t' _ _ (fun x => eq_sym (counters_next 8 0 names key x Hin))). by rewrite Z.add_0_r.
  - assert (counters 8 0 names key = []) as Es by (unfold counters; by rewrite decide_False).
    erewrite bind_ok by (apply on_ht_read; by apply (not_found true t (counters 8 0 names))). cbv beta iota.
    destruct (hash_push_rel true t _ key (le_word 8 1) H) as (t' & E & H'). exists t'. split; [apply zoom_ok; exact E|].
    by apply (table_rel_ext true t' _ _ (fun x => eq_sym (counters_first 8 0 names key x Hin))).
Qed.

Lemma elfperf_record_run p names pc ms :
  perf_ok p names -> pc <> 0 -> named (ep_elfsym p) pc -> Z.of_nat (length names) < 2 ^ 64 - 1 ->
  exists p', elfperf_record PerfInstr pc ms p = Ok tt p' /\ perf_ok p' (names ++ [name_of (ep_elfsym p) pc]) /\
    same_tables (ep_elfsym p) (ep_elfsym p').
Proof.
  intros Hp Hpc [key Hk] Hn. pose proof Hp as [Ht Hc H Hi]. set (e := ep_elfsym p) in *.
  destruct (find_symbol_run pc e Ht Hc (or_introl Hpc)) as (e1 & E1 & S1 & G1 & _).
  unfold elfperf_record. erewrite bind_ok by (apply zoom_ok; exact E1). cbv beta iota.
  rewrite (bind_ok (modify _) _ _ tt _ eq_refl). set (p1 := set_ninstr _ _).
  destruct (perf_update_run p1 names ms (symbol_of e pc) key) as (t' & E & H');
    [done|unfold p1; cbn; by rewrite (sym_bytes_same e e1)|done|].
  exists (set_perf_ht t' p1). split; [done|]. split; [|done]. split; cbn.
  - by apply (tables_ok_same e).
  - done.
  - unfold name_of. by rewrite Hk.
  - rewrite Hi, length_app, uw_small by (unfold in_u; lia). cbn. lia.
Qed.

Fixpoint elfperf_records (kind : perf_kind) (trace : list (Z * Z)) : M elfperf_t unit :=
  match trace with
  | [] => ret tt
  | (pc, ms) :: trace => elfperf_record kind pc ms ;; elfperf_records kind trace
  end.

Lemma elfperf_records_run trace : forall p names,
  perf_ok p names -> Forall (fun x => fst x <> 0 /\ named (ep_elfsym p) (fst x)) trace ->
  Z.of_nat (length names + length trace) < 2 ^ 64 ->
  exists p', elfperf_records PerfInstr trace p = Ok tt p' /\
    perf_ok p' (names ++ map (fun x => name_of (ep_elfsym p) (fst x)) trace).
Proof.
  induction trace as [|[pc ms] trace IH]; intros p names Hp Hf Hn; [exists p; by rewrite app_nil_r|].
  apply Forall_cons in Hf as [[Hpc Hnm] Hf]. cbn [length fst] in *.
  destruct (elfperf_record_run p names pc ms Hp Hpc Hnm ltac:(lia)) as (p1 & E1 & Hp1 & S1).
  destruct (IH p1 _ Hp1) as (p2 & E2 & Hp2).
  - eapply Forall_impl; [exact Hf|]. intros x [Hx Hy]. split; [done|]. by apply (named_same (ep_elfsym p)).
  - rewrite length_app. cbn. lia.
  - exists p2. cbn [elfperf_records]. erewrite bind_ok by exact E1. split; [done|]. cbn [map fst].
    rewrite <- app_assoc in Hp2. cbn in Hp2. erewrite map_ext; [exact Hp2|]. intros x. symmetry. by apply name_of_same.
Qed.

(** C8: the profilers count exactly. After any sequence of fewer than 2^31 calls of
    instrperf_record, the report has one line for each handler name that was recorded and
    no other, and frees the table; the count it prints is one less than the number of
    calls, because the first one stores zero. With CONFIG_ELF_PERF_INSTR and symbol tables
    that lie in their buffers with terminated names, after any sequence of fewer than 2^64
    instructions at nonzero addresses, the counter of each function name (functions of the
    same name share one) is the number of instructions whose pc the symbol table places in
    such a function (or in no function, under the name "?"), and ninstr is the length of
    the sequence, whatever the state of the symbol cache. *)
Theorem profilers_count (names : list (list Z)) (e : elfsym_t) (trace : list (Z * Z)) :
  (Z.of_nat (length names) < 2 ^ 31 ->
   exists t total lines t', instrperf_records names ht_zero = Ok tt t /\ instrperf_report t = Ok (total, lines) t' /\
     ht_heap t' = ∅ /\ forall k, printed k lines = if decide (k ∈ names) then [occurrences k names - 1] else []) /\
  (tables_ok e -> Forall (fun x => fst x <> 0 /\ named e (fst x)) trace -> Z.of_nat (length trace) < 2 ^ 64 ->
   exists p, (elfperf_start ;; elfperf_records PerfInstr trace) (mkElfperf e ht_zero SymNull 0 0) = Ok tt p /\
     ninstr p = Z.of_nat (length trace) /\
     let called := map (fun x => name_of e (fst x)) trace in
     forall k, hash_lookup k (perf_ht p) =
       Ok (if decide (k ∈ called) then Some (le_word 8 (occurrences k called)) else None) (perf_ht p)).
Proof.
  split.
  - intros Hn. destruct (instrperf_records_run true names [] ht_zero) as (t & E & H); [|done|].
    { apply (table_rel_ext true ht_zero (fun _ => [])); [|apply ht_zero_rel]. intros k. unfold counters.
      by rewrite decide_False by apply not_elem_of_nil. }
    destruct (instrperf_report_run t names H Hn) as (total & lines & t' & E' & Hh & Hp). by exists t, total, lines, t'.
  - intros Ht Hf Hn. set (e1 := elfsym_optimize_find_symbol e). assert (same_tables e e1) as Hs by done.
    destruct (elfperf_records_run trace (mkElfperf e1 ht_zero SymNull 0 0) []) as (p & E & Hp).
    { split; cbn; [by apply (tables_ok_same e)|by intros c i s a [= <-]| |done].
      apply (table_rel_ext true ht_zero (fun _ => [])); [|apply ht_zero_rel]. intros k. unfold counters.
      by rewrite decide_False by apply not_elem_of_nil. }
    { eapply Forall_impl; [exact Hf|]. intros x [Hx Hy]. split; [done|]. by apply (named_same e). }
    { cbn. lia. }
    exists p. split; [exact E|]. destruct Hp as [_ _ Hc Hi]. cbn in Hc, Hi. rewrite length_map in Hi. split; [done|]. intros called k.
    rewrite (hash_lookup_rel true _ _ k Hc). f_equal. unfold counters.
    assert (map (fun x => name_of e1 (fst x)) trace = called) as -> by (apply map_ext; intros x; by apply name_of_same).
    case_decide; [|done]. by rewrite Z.add_0_r.
Qed.

Lemma profilers_count_witness :
  (exists t total lines t', instrperf_records [[97; 0]; [98; 0]; [97; 0]] ht_zero = Ok tt t /\
     instrperf_report t = Ok (total, lines) t' /\ printed [97; 0] lines = [1] /\ printed [99; 0] lines = []) /\
  exists p, (elfperf_start ;; elfperf_records PerfInstr [(0x80001004, 0); (0x80002004, 0); (0x80001000, 0)])
      (mkElfperf sample_elfsym ht_zero SymNull 0 0) = Ok tt p /\
    hash_lookup (name_of sample_elfsym 0x80001004) (perf_ht p) = Ok (Some (le_word 8 2)) (perf_ht p).
Proof.
  destruct (profilers_count [[97; 0]; [98; 0]; [97; 0]] sample_elfsym [(0x80001004, 0); (0x80002004, 0); (0x80001000, 0)]) as [H1 H2].
  split.
  - destruct H1 as (t & total & lines & t' & E & E' & _ & Hp); [reflexivity|]. exists t, total, lines, t'.
    split; [exact E|]. split; [exact E'|]. split; rewrite Hp; reflexivity.
  - destruct H2 as (p & E & _ & Hl).
    + split; [vm_compute; eexists; reflexivity|vm_compute; discriminate|].
      apply Forall_forall. intros s Hs. apply list_elem_of_In in Hs. vm_compute in Hs.
      destruct Hs as [<-|[<-|[]]]; vm_compute; reflexivity.
    + repeat constructor; try discriminate; vm_compute; eexists; reflexivity.
    + reflexivity.
    + exists p. split; [exact E|]. rewrite Hl. reflexivity.
Defined.
