(* ===== verification/FlashProps.v ===== *)
(** * The flash chip

    The command protocol of Flash.v as a driver sees it: a page program followed by a
    read of the same address. *)
From S2P Require Import Prelude Flash.
Local Open Scope nemu_scope.

(** Bytes clocked into the chip one after another, with the replies. *)
Fixpoint send (l : list Z) : FM (list Z) :=
  match l with
  | [] => ret []
  | b :: l =>
      let! r := m25p80_transfer8 b in
      let! rs := send l in
      ret (r :: rs)
  end.

(** The size is a power of two that fits a word and the reply buffer has its length. *)
Definition chip_ok (s : Flash) : Prop :=
  (exists k, 0 <= k <= 31 /\ fsize s = 2 ^ k) /\ length (fdata s) = 16%nat.

(** What page programs and reads leave alone. *)
Definition chip (s : Flash) := (fsize s, ear s, four_bytes_address_mode s, pi s, length (fdata s)).

(** The address bytes a command takes, and the address they give. *)
Definition addr_len (s : Flash) : Z :=
  if part_flags (pi s) =? EEPROM then 2 else if four_bytes_address_mode s then 4 else 3.
Definition big_endian (hi : Z) (l : list Z) : Z := fold_left (fun a b => a * 256 + b) l hi.
Definition address (s : Flash) (l : list Z) : Z :=
  big_endian (if addr_len s =? 3 then ear s else 0) l mod fsize s.

(** The i-th byte from an address, which wraps at the end of the chip. *)
Definition byte_from (s : Flash) (a i : Z) : Z := storage_at s ((a + i) mod fsize s).

Lemma chip_ok_eq s s' : chip s' = chip s -> chip_ok s -> chip_ok s'.
Proof. unfold chip, chip_ok. intros [= -> _ _ _ ->] H. done. Qed.

Lemma addr_len_eq s s' : chip s' = chip s -> addr_len s' = addr_len s.
Proof. unfold chip, addr_len. intros [= _ _ -> -> _]. done. Qed.

Lemma size_mask s x : chip_ok s -> Z.land x (u32 (fsize s - 1)) = x mod fsize s.
Proof.
  intros [(k & Hk & E) _]. rewrite E. pose proof (Z.pow_le_mono_r 2 k 31 ltac:(lia) ltac:(lia)).
  pose proof (Z.pow_pos_nonneg 2 k ltac:(lia) ltac:(lia)).
  rewrite uw_small by (unfold in_u; lia). rewrite Z.sub_1_r, <- Z.ones_equiv, Z.land_ones by lia. done.
Qed.

Lemma size_bounds s x : chip_ok s -> 0 <= x mod fsize s < fsize s /\ fsize s <= 2 ^ 31.
Proof.
  intros [(k & Hk & E) _]. rewrite E. pose proof (Z.pow_le_mono_r 2 k 31 ltac:(lia) ltac:(lia)).
  pose proof (Z.pow_pos_nonneg 2 k ltac:(lia) ltac:(lia)). split; [apply Z.mod_pos_bound; lia|lia].
Qed.

Lemma size_mod_u32 s x : chip_ok s -> u32 x mod fsize s = x mod fsize s.
Proof.
  intros [(k & Hk & E) _]. rewrite E. unfold uw. rewrite (Z.mod_mod_divide); [done|].
  exists (2 ^ (32 - k)). rewrite <- Z.pow_add_r by lia. f_equal. lia.
Qed.

(** ** Data phases *)
Lemma advance_addr s a :
  chip_ok s -> cur_addr s = a mod fsize s ->
  u32 (Z.land (u32 (cur_addr s + 1)) (u32 (fsize s - 1))) = (a + 1) mod fsize s.
Proof.
  intros Hs E. rewrite size_mask, size_mod_u32, E by done.
  pose proof (size_bounds s (a + 1) Hs). rewrite Zplus_mod_idemp_l. apply uw_small. unfold in_u. lia.
Qed.

Lemma sync_dirty_run p s :
  exists s', flash_sync_dirty p s = Ok tt s' /\ storage s' = storage s /\ chip s' = chip s /\
    fstate s' = fstate s /\ cur_addr s' = cur_addr s.
Proof.
  unfold flash_sync_dirty, flash_sync_page, flash_sync_area, bind, get, when. cbn.
  destruct (_ && _); [|by eexists]. cbn. destruct (blkio_file s); by eexists.
Qed.

Lemma program_run s a b :
  chip_ok s -> fstate s = STATE_PAGE_PROGRAM -> cur_addr s = a mod fsize s ->
  Z.land (part_flags (pi s)) EEPROM = 0 -> in_u 8 b ->
  exists s', m25p80_transfer8 b s = Ok 0 s' /\ chip s' = chip s /\ fstate s' = STATE_PAGE_PROGRAM /\
    cur_addr s' = (a + 1) mod fsize s /\
    storage s' = <[a mod fsize s := u8 (Z.land (byte_from s a 0) b)]> (storage s).
Proof.
  intros Hs Hst Ha Hfl Hb. pose proof (size_bounds s a Hs) as [Ha2 _].
  assert ((cur_addr s <? fsize s) = true) as Hlt by (apply Z.ltb_lt; lia).
  assert (exists s1, flash_write8 (cur_addr s) (u8 b) s = Ok tt s1 /\ chip s1 = chip s /\
    fstate s1 = fstate s /\ cur_addr s1 = cur_addr s /\
    storage s1 = <[cur_addr s := u8 (Z.land (storage_at s (cur_addr s)) (u8 b))]> (storage s))
    as (s1 & E1 & Hc & Hf & Hcur & Hsto).
  { unfold flash_write8. erewrite bind_ok by reflexivity. cbv beta zeta. rewrite Hlt, Hfl.
    erewrite bind_ok by reflexivity. erewrite bind_ok by reflexivity. set (s1 := set_storage _ s).
    destruct (sync_dirty_run (cur_addr s / page_size (pi s)) s1) as (s2 & E2 & Est & Ech & Ef & Ec).
    rewrite (bind_ok _ _ _ _ _ E2). eexists. split; [reflexivity|]. cbn. rewrite Est, Ef, Ec. done. }
  unfold m25p80_transfer8, bind, get. rewrite Hst, E1. cbn. eexists. split; [reflexivity|].
  split; [exact Hc|]. split; [cbn; congruence|]. split.
  - assert (fsize s1 = fsize s) as Esz by (unfold chip in Hc; congruence).
    cbn. rewrite Esz, Hcur. by apply advance_addr.
  - cbn. rewrite Hsto. unfold byte_from. rewrite Z.add_0_r, Ha, (uw_small 8 b) by done. done.
Qed.

Lemma read_run s a b :
  chip_ok s -> fstate s = STATE_READ -> cur_addr s = a mod fsize s ->
  exists s', m25p80_transfer8 b s = Ok (byte_from s a 0) s' /\ chip s' = chip s /\
    fstate s' = STATE_READ /\ cur_addr s' = (a + 1) mod fsize s /\ storage s' = storage s.
Proof.
  intros Hs Hst Ha. pose proof (size_bounds s a Hs) as [Ha2 _].
  assert ((cur_addr s <? fsize s) = true) as Hlt by (apply Z.ltb_lt; lia).
  unfold m25p80_transfer8, bind, get. rewrite Hst. cbn. rewrite Hlt. cbn.
  eexists. unfold byte_from. rewrite Z.add_0_r, <- Ha. split; [reflexivity|].
  split; [done|]. split; [done|]. split; [|done]. by apply advance_addr.
Qed.

Lemma storage_insert_at s m x v y :
  storage s = <[x := v]> m -> storage_at s y = if decide (y = x) then v else default 0xFF (m !! y).
Proof.
  intros E. unfold storage_at. rewrite E. destruct (decide (y = x)) as [->|].
  - by rewrite lookup_insert_eq.
  - by rewrite lookup_insert_ne.
Qed.

Lemma mod_shift_ne a i n : 0 < n -> 0 < i < n -> (a + i) mod n <> a mod n.
Proof.
  intros Hn Hi E. apply Z.cong_iff_ex in E as [k Ek].
  replace (a + i - a) with i in Ek by lia. assert (k = 0 \/ 1 <= k \/ k <= -1) as [->|[?|?]] by lia; nia.
Qed.

Lemma send_program data s a :
  chip_ok s -> fstate s = STATE_PAGE_PROGRAM -> cur_addr s = a mod fsize s ->
  Z.land (part_flags (pi s)) EEPROM = 0 -> Forall (in_u 8) data -> Z.of_nat (length data) <= fsize s ->
  exists s', send data s = Ok (replicate (length data) 0) s' /\ chip s' = chip s /\
    fstate s' = STATE_PAGE_PROGRAM /\
    (forall i b, data !! i = Some b ->
       byte_from s' a (Z.of_nat i) = Z.land (byte_from s a (Z.of_nat i)) b) /\
    (forall i, Z.of_nat (length data) <= i < fsize s -> byte_from s' a i = byte_from s a i).
Proof.
  revert s a. induction data as [|b data IH]; intros s a Hs Hst Ha Hfl Hd Hlen.
  { exists s. split_and!; done. }
  apply Forall_cons in Hd as [Hb Hd]. cbn [length] in Hlen.
  destruct (program_run s a b Hs Hst Ha Hfl Hb) as (s1 & E1 & C1 & F1 & A1 & S1).
  assert (fsize s1 = fsize s) as Z1 by (unfold chip in C1; congruence).
  assert (pi s1 = pi s) as P1 by (unfold chip in C1; congruence).
  destruct (IH s1 (a + 1)) as (s2 & E2 & C2 & F2 & R2 & O2); try done.
  { by apply (chip_ok_eq s). } { by rewrite Z1. } { by rewrite P1. } { rewrite Z1. lia. }
  assert (fsize s2 = fsize s) as Z2 by (unfold chip in C1, C2; congruence).
  pose proof (size_bounds s a Hs) as [Hsz _].
  assert (forall i, 0 < i < fsize s -> byte_from s1 a i = byte_from s a i) as Hold.
  { intros i Hi. unfold byte_from. rewrite Z1, (storage_insert_at s1 _ _ _ _ S1), decide_False; [done|].
    apply mod_shift_ne; lia. }
  assert (forall s i, byte_from s (a + 1) i = byte_from s a (i + 1)) as Hsh.
  { intros t i. unfold byte_from. do 2 f_equal. lia. }
  assert (byte_from s2 a 0 = Z.land (byte_from s a 0) b) as H0.
  { transitivity (byte_from s2 (a + 1) (fsize s - 1)).
    { unfold byte_from. rewrite Z2. f_equal. replace (a + 1 + (fsize s - 1)) with (a + 0 + 1 * fsize s) by lia.
      symmetry. apply Z_mod_plus_full. }
    rewrite O2 by (rewrite Z1; lia). rewrite Hsh. replace (fsize s - 1 + 1) with (fsize s) by lia.
    unfold byte_from. rewrite Z1. replace (a + fsize s) with (a + 1 * fsize s) by lia.
    rewrite Z_mod_plus_full, (storage_insert_at s1 _ _ _ _ S1), decide_True by done.
    apply uw_small. rewrite <- (uw_small 8 b) by done. rewrite uw_land by lia.
    rewrite Z.land_assoc. rewrite <- uw_land by lia. apply uw_range. lia. }
  exists s2. split; [cbn; unfold bind; by rewrite E1, E2|]. split; [congruence|]. split; [done|]. split.
  - intros [|i] c; cbn; [intros [= ->]; done|]. intros Hi.
    assert (Z.of_nat i < fsize s - 1) by (apply lookup_lt_Some in Hi; lia).
    specialize (R2 i c Hi). rewrite Hsh in R2. rewrite Nat2Z.inj_succ, <- Z.add_1_r.
    rewrite R2, Hsh, Hold by lia. done.
  - intros i Hi. cbn [length] in Hi. replace i with (i - 1 + 1) by lia.
    rewrite <- Hsh, O2, Hsh by (rewrite ?Z1; lia). apply Hold. lia.
Qed.

Lemma send_read pad s a :
  chip_ok s -> fstate s = STATE_READ -> cur_addr s = a mod fsize s ->
  exists s', send pad s = Ok (map (fun i => byte_from s a (Z.of_nat i)) (seq 0 (length pad))) s' /\
    storage s' = storage s.
Proof.
  revert s a. induction pad as [|b pad IH]; intros s a Hs Hst Ha.
  { by exists s. }
  destruct (read_run s a b Hs Hst Ha) as (s1 & E1 & C1 & F1 & A1 & S1).
  assert (fsize s1 = fsize s) as Z1 by (unfold chip in C1; congruence).
  destruct (IH s1 (a + 1)) as (s2 & E2 & S2); [by apply (chip_ok_eq s)|done|by rewrite Z1|].
  exists s2. split; [|congruence]. cbn [send length seq map]. unfold bind. rewrite E1, E2.
  unfold ret. do 2 f_equal. rewrite <- seq_shift, map_map. apply map_ext. intros i.
  unfold byte_from, storage_at. rewrite Z1, S1. do 3 f_equal. lia.
Qed.

(** ** Command phase *)
Lemma addr_byte a b : in_u 8 b -> u32 (Z.lor (u32 (Z.shiftl a 8)) b) = u32 (u32 a * 256 + b).
Proof.
  intros Hb. rewrite Z.shiftl_mul_pow2 by lia.
  assert (u32 (a * 2 ^ 8) = Z.shiftl (uw 24 a) 8) as ->.
  { unfold uw. rewrite Z.shiftl_mul_pow2 by lia. change (2 ^ 32) with (2 ^ 24 * 2 ^ 8).
    by rewrite Zmult_mod_distr_r. }
  rewrite lor_shift_add by (done || lia). change (2 ^ 8) with 256. unfold uw.
  replace (a mod 2 ^ 24 * 256) with ((a mod 2 ^ 32 * 256) mod 2 ^ 32).
  { by rewrite Zplus_mod_idemp_l. }
  rewrite Zmult_mod_idemp_l. change (2 ^ 32) with (2 ^ 24 * 256). by rewrite Zmult_mod_distr_r.
Qed.

Lemma fold_address l hi :
  Forall (in_u 8) l ->
  u32 (fold_left (fun a b => Z.lor (u32 (Z.shiftl a 8)) b) l hi) = u32 (big_endian hi l).
Proof.
  unfold big_endian. intros Hl.
  assert (forall x y, u32 x = u32 y ->
    u32 (fold_left (fun a b => Z.lor (u32 (Z.shiftl a 8)) b) l x) = u32 (fold_left (fun a b => a * 256 + b) l y)) as F;
    [|by apply F].
  induction Hl as [|b l Hb _ IH]; intros x y E; [done|]. cbn. apply IH.
  rewrite addr_byte, E by done. unfold uw. rewrite <- Zplus_mod_idemp_l, Zmult_mod_idemp_l, Zplus_mod_idemp_l. done.
Qed.

Lemma fold_data s l hi :
  (forall i b, l !! i = Some b -> data_at s (Z.of_nat i) = b) ->
  fold_left (fun a i => Z.lor (u32 (Z.shiftl a 8)) (data_at s (Z.of_nat i))) (seq 0 (length l)) hi =
  fold_left (fun a b => Z.lor (u32 (Z.shiftl a 8)) b) l hi.
Proof.
  intros Hl. assert (forall l k hi, (forall i b, l !! i = Some b -> data_at s (Z.of_nat (k + i)) = b) ->
    fold_left (fun a i => Z.lor (u32 (Z.shiftl a 8)) (data_at s (Z.of_nat i))) (seq k (length l)) hi =
    fold_left (fun a b => Z.lor (u32 (Z.shiftl a 8)) b) l hi) as F; [|by apply F].
  clear. induction l as [|b l IH]; intros k hi Hl; [done|]. cbn.
  rewrite <- (Hl 0%nat b), Nat.add_0_r by done. apply IH. intros i c Hi. rewrite <- (Hl (S i) c) by done. do 2 f_equal. lia.
Qed.

(** The commands of the claim: a page program and a read. *)
Inductive data_cmd : Z -> CMDState -> Prop :=
| cmd_pp : data_cmd PP STATE_PAGE_PROGRAM
| cmd_read : data_cmd READ STATE_READ.

(** The chip while [n] address bytes of command [c] come in, after those of [pre]. *)
Record collecting (s0 s : Flash) (c : Z) (pre : list Z) : Prop := mkCollecting {
  co_state : fstate s = STATE_COLLECTING_DATA;
  co_len : flen s = Z.of_nat (length pre);
  co_need : needed_bytes s = addr_len s0;
  co_cmd : cmd_in_progress s = c;
  co_data : forall i b, pre !! i = Some b -> data_at s (Z.of_nat i) = b;
  co_chip : chip s = chip s0;
  co_storage : storage s = storage s0
}.

Lemma addr_len_range s : 2 <= addr_len s <= 4.
Proof. unfold addr_len. repeat case_match; lia. Qed.

Lemma start_run s c st' :
  data_cmd c st' -> fstate s = STATE_IDLE ->
  exists s', m25p80_transfer8 c s = Ok 0 s' /\ collecting s s' c [].
Proof.
  intros Hc Hst. pose proof (addr_len_range s) as Hn.
  unfold m25p80_transfer8, bind, get. rewrite Hst.
  destruct Hc; (eexists; split; [reflexivity|]); (split; try done);
    apply (uw_small 8 (addr_len s)); unfold in_u; lia.
Qed.

Lemma put_byte s0 s c pre b :
  collecting s0 s c pre -> (length pre < 16)%nat -> length (fdata s) = 16%nat -> in_u 8 b ->
  let s' := set_flen (flen s + 1) (put_data (flen s) (u8 b) s) in collecting s0 s' c (pre ++ [b]).
Proof.
  intros [? Hl ? ? Hd ? ?] Hp Hf Hb s'. unfold s'. split; try done.
  - cbn. rewrite Hl, length_app. cbn [length]. rewrite uw_small by (unfold in_u; lia). lia.
  - intros i x Hi. unfold data_at. cbn. rewrite Hl. apply lookup_app_Some in Hi as [Hi|[Hge Hi]].
    + rewrite arr_get_set_ne; [by apply Hd|lia|lia|]. apply lookup_lt_Some in Hi. lia.
    + assert (i - length pre = 0)%nat as E by (apply lookup_lt_Some in Hi; cbn in Hi; lia).
      rewrite E in Hi. cbn in Hi. injection Hi as <-.
      replace (Z.of_nat i) with (Z.of_nat (length pre)) by lia. rewrite arr_get_set_eq by lia.
      rewrite !uw_small by (done || rewrite uw_small; done). done.
  - unfold chip in *. cbn. by rewrite length_arr_set.
Qed.

(** The last address byte starts the data phase. *)
Lemma complete_run s0 s c st' ab :
  data_cmd c st' -> chip_ok s0 -> collecting s0 s c ab -> Z.of_nat (length ab) = addr_len s0 ->
  Forall (in_u 8) ab ->
  exists s', complete_collecting_data s = Ok tt s' /\ chip s' = chip s0 /\ storage s' = storage s0 /\
    fstate s' = st' /\ cur_addr s' = address s0 ab.
Proof.
  intros Hc Hok [Hst Hl Hn Hcmd Hd Hch Hsto] Hlen Hab.
  assert (fsize s = fsize s0 /\ ear s = ear s0 /\ four_bytes_address_mode s = four_bytes_address_mode s0 /\ pi s = pi s0)
    as (Esz & Eear & Efb & Epi) by (unfold chip in Hch; injection Hch; auto).
  assert (get_addr_length s = addr_len s0) as En.
  { unfold get_addr_length, addr_len. rewrite Hcmd, Efb, Epi. by destruct Hc. }
  assert (u32 (Z.land (u32 (collect_addr s (get_addr_length s))) (u32 (fsize s - 1))) = address s0 ab) as Ea.
  { rewrite En, Esz, size_mask by done. unfold collect_addr, address. rewrite <- Hlen, Nat2Z.id.
    rewrite fold_data, fold_address, size_mod_u32, Eear by done.
    apply uw_small. pose proof (size_bounds s0 (big_endian (if Z.of_nat (length ab) =? 3 then ear s0 else 0) ab) Hok).
    unfold in_u. lia. }
  unfold complete_collecting_data, bind, get, modify. cbn. rewrite Hcmd.
  destruct Hc; (eexists; split; [reflexivity|]); cbn; split_and!; done.
Qed.

Lemma collect_run ab s0 s c st' pre :
  data_cmd c st' -> chip_ok s0 -> collecting s0 s c pre -> ab <> [] ->
  Z.of_nat (length (pre ++ ab)) = addr_len s0 -> Forall (in_u 8) (pre ++ ab) ->
  exists s', send ab s = Ok (replicate (length ab) 0) s' /\ chip s' = chip s0 /\ storage s' = storage s0 /\
    fstate s' = st' /\ cur_addr s' = address s0 (pre ++ ab).
Proof.
  revert s pre. induction ab as [|b ab IH]; intros s pre Hc Hok Hco Hne Hlen Hab; [done|].
  pose proof (addr_len_range s0) as Hn. rewrite length_app in Hlen. cbn [length] in Hlen.
  assert (length (fdata s) = 16%nat) as Hf.
  { destruct Hok as [_ <-]. pose proof (co_chip _ _ _ _ Hco) as Hch. unfold chip in Hch. congruence. }
  assert (in_u 8 b) as Hb by (apply Forall_app in Hab as [_ Hab]; by apply Forall_cons in Hab as [? _]).
  pose proof (put_byte s0 s c pre b Hco ltac:(lia) Hf Hb) as Hco'. cbv zeta in Hco'.
  set (s' := set_flen (flen s + 1) (put_data (flen s) (u8 b) s)) in *.
  assert (m25p80_transfer8 b s = bind (when (flen s' =? needed_bytes s') complete_collecting_data) (fun _ => ret 0) s') as E.
  { unfold m25p80_transfer8, bind, get. rewrite (co_state _ _ _ _ Hco), (co_len _ _ _ _ Hco).
    unfold M25P80_INTERNAL_DATA_BUFFER_SZ. rewrite (proj2 (Z.leb_gt _ _)) by lia.
    rewrite <- (co_len _ _ _ _ Hco). reflexivity. }
  cbn [send length]. unfold bind at 1. rewrite E.
  rewrite (co_len _ _ _ _ Hco'), (co_need _ _ _ _ Hco'), length_app. cbn [length].
  replace (pre ++ b :: ab) with ((pre ++ [b]) ++ ab) in * by (by rewrite <- app_assoc).
  destruct ab as [|b2 ab].
  - rewrite (proj2 (Z.eqb_eq _ _)) by (cbn in Hlen; lia). cbn [when]. rewrite app_nil_r in *.
    destruct (complete_run s0 s' c st' (pre ++ [b])) as (s2 & E2 & H2); try done.
    { rewrite length_app. cbn in *. lia. }
    exists s2. unfold bind. rewrite E2. done.
  - rewrite (proj2 (Z.eqb_neq _ _)) by (cbn [length] in Hlen; lia). cbn [when].
    destruct (IH s' (pre ++ [b])) as (s2 & E2 & H2); try done.
    { rewrite !length_app in *. cbn [length] in *. lia. }
    exists s2. unfold bind at 1. cbn [ret]. unfold bind. rewrite E2. done.
Qed.

(** A whole command: opcode, address, data phase. *)
Lemma command_run s c st' ab :
  data_cmd c st' -> chip_ok s -> fstate s = STATE_IDLE -> Z.of_nat (length ab) = addr_len s ->
  Forall (in_u 8) ab ->
  exists s', (forall l, send (c :: ab ++ l) s =
      match send l s' with
      | Ok rs s'' => Ok (replicate (S (length ab)) 0 ++ rs) s''
      | Exit s'' => Exit s'' | Stop h s'' => Stop h s'' end) /\
    chip s' = chip s /\ storage s' = storage s /\ fstate s' = st' /\ cur_addr s' = address s ab.
Proof.
  intros Hc Hok Hst Hlen Hab. destruct (start_run s c st' Hc Hst) as (s1 & E1 & Hco).
  destruct (collect_run ab s s1 c st' []) as (s2 & E2 & H2); try done.
  { intros ->. pose proof (addr_len_range s). cbn in Hlen. lia. }
  exists s2. split; [|done]. intros l. cbn [send]. unfold bind at 1. rewrite E1.
  assert (forall l1 l2 t, send (l1 ++ l2) t =
    bind (send l1) (fun r1 => bind (send l2) (fun r2 => ret (r1 ++ r2))) t) as Happ.
  { clear. induction l1 as [|x l1 IH]; intros l2 t; cbn [send app].
    - unfold bind, ret. by destruct (send l2 t).
    - unfold bind. destruct (m25p80_transfer8 x t) as [r t'|t'|h t']; [|done|done].
      rewrite IH. unfold bind. destruct (send l1 t') as [r1 t1|t1|h t1]; [|done|done].
      cbn. by destruct (send l2 t1). }
  unfold bind at 1. rewrite Happ. unfold bind. rewrite E2. by destruct (send l s2).
Qed.

Lemma cs_run s :
  fstate s <> STATE_COLLECTING_VAR_LEN_DATA ->
  exists s', m25p80_cs true s = Ok tt s' /\ storage s' = storage s /\ chip s' = chip s /\ fstate s' = STATE_IDLE.
Proof.
  intros Hst. unfold m25p80_cs, when. rewrite (bind_ok _ _ s s s) by done.
  rewrite bool_decide_eq_false_2 by done.
  do 4 (erewrite bind_ok by reflexivity). set (s1 := set_fstate _ _).
  destruct (sync_dirty_run (-1) s1) as (s2 & E2 & S2 & C2 & F2 & _). rewrite (bind_ok _ _ _ _ _ E2).
  eexists. split; [reflexivity|]. cbn. rewrite S2, F2. split; [done|]. split; [exact C2|done].
Qed.

(** C34: page program and read round trip.  On an idle chip (not an EEPROM part), clocking
    in PP, the address bytes of the current address mode and at most a chip's worth of
    data, deselecting the chip, and clocking in READ with the same address and as many
    bytes returns, for each byte, the conjunction of the byte stored before with the byte
    programmed (so the byte itself after an erase); addresses are big-endian, extended
    by the extended address register in three-byte mode, and wrap at the end of the
    chip. *)
Theorem flash_program_read s ab data pad :
  chip_ok s -> fstate s = STATE_IDLE -> Z.land (part_flags (pi s)) EEPROM = 0 ->
  Z.of_nat (length ab) = addr_len s -> Forall (in_u 8) ab -> Forall (in_u 8) data ->
  Z.of_nat (length data) <= fsize s -> length pad = length data ->
  exists r1 s1 s2 s3,
    send (PP :: ab ++ data) s = Ok r1 s1 /\ m25p80_cs true s1 = Ok tt s2 /\
    send (READ :: ab ++ pad) s2 =
      Ok (replicate (S (length ab)) 0 ++
          imap (fun i b => Z.land (byte_from s (address s ab) (Z.of_nat i)) b) data) s3.
Proof.
  intros Hok Hst Hfl Hlen Hab Hd Hsz Hpad.
  destruct (command_run s PP _ ab cmd_pp Hok Hst Hlen Hab) as (s1 & E1 & C1 & S1 & F1 & A1).
  assert (fsize s1 = fsize s /\ pi s1 = pi s) as [Z1 P1] by (unfold chip in C1; injection C1; auto).
  destruct (send_program data s1 (address s ab)) as (s2 & E2 & C2 & F2 & R2 & _); try done.
  { by apply (chip_ok_eq s). }
  { rewrite A1, Z1. symmetry. apply Z.mod_small. apply (size_bounds s _ Hok). }
  { by rewrite P1. } { by rewrite Z1. }
  destruct (cs_run s2) as (s3 & E3 & S3 & C3 & F3); [congruence|].
  assert (chip s3 = chip s) as C13 by congruence.
  assert (fsize s3 = fsize s /\ ear s3 = ear s) as [Z3 Ear3] by (unfold chip in C13; injection C13; auto).
  pose proof (chip_ok_eq s s3 C13 Hok) as Hok3. pose proof (addr_len_eq s s3 C13) as L3.
  destruct (command_run s3 READ _ ab cmd_read Hok3 F3) as (s4 & E4 & C4 & S4 & F4 & A4); [congruence|done|].
  assert (address s3 ab = address s ab) as EA by (unfold address; rewrite L3, Ear3, Z3; done).
  assert (fsize s4 = fsize s) as Z4 by (unfold chip in C4; congruence).
  destruct (send_read pad s4 (address s ab)) as (s5 & E5 & _); [by apply (chip_ok_eq s3)|done| |].
  { rewrite A4, EA, Z4. symmetry. apply Z.mod_small. apply (size_bounds s _ Hok). }
  do 4 eexists. split; [rewrite E1, E2; reflexivity|]. split; [exact E3|]. rewrite E4, E5.
  do 2 f_equal. rewrite Hpad. apply list_eq. intros i.
  rewrite list_lookup_fmap, list_lookup_imap. destruct (data !! i) as [b|] eqn:Ei; cbn.
  - rewrite lookup_seq_lt by (by apply lookup_lt_Some in Ei). cbn. f_equal.
    transitivity (byte_from s2 (address s ab) (Z.of_nat i)).
    { assert (fsize s2 = fsize s) as Z2 by (unfold chip in C2; congruence).
      unfold byte_from, storage_at. rewrite S4, S3, Z4, Z2. done. }
    rewrite (R2 i b Ei). unfold byte_from, storage_at. by rewrite S1, Z1.
  - rewrite lookup_seq_ge; [done|]. by apply lookup_ge_None in Ei.
Qed.

(** ** Initialisation *)
(** Every part of the table has a power of two of bytes, below 2^32. *)
Lemma parts_ok : Forall (fun p => exists k, 0 <= k <= 31 /\ part_bytes p = 2 ^ k) known_devices.
Proof.
  assert (forallb (fun p => existsb (fun k => part_bytes p =? 2 ^ Z.of_nat k) (seq 0 32)) known_devices = true) as H
    by (vm_compute; done).
  apply List.Forall_forall. intros p Hp. rewrite forallb_forall in H. apply H in Hp.
  apply existsb_exists in Hp as (k & Hk & E). apply in_seq in Hk. exists (Z.of_nat k). split; [lia|].
  by apply Z.eqb_eq.
Qed.

(** The chip after the emulator starts without a block device. *)
Definition blank_chip : Flash := st (flash_init None flash_zero).

(** Programming 0x12 0x34 at address 0x000102 of it and reading back. *)
Lemma flash_program_read_witness :
  exists r1 s1 s2 s3,
    send [PP; 0; 1; 2; 0x12; 0x34] blank_chip = Ok r1 s1 /\ m25p80_cs true s1 = Ok tt s2 /\
    send [READ; 0; 1; 2; 0; 0] s2 = Ok [0; 0; 0; 0; 0x12; 0x34] s3.
Proof.
  apply (flash_program_read blank_chip [0; 1; 2] [0x12; 0x34] [0; 0]); try (vm_compute; done).
  - split; [exists 29|]; vm_compute; done.
  - repeat constructor; unfold in_u; lia.
  - repeat constructor; unfold in_u; lia.
Defined.

(** ** Bounds *)
Definition chip_inv (s : Flash) : Prop := chip_ok s /\ 0 <= cur_addr s < fsize s.

(** The first byte an erase command clears: only a die erase rounds its address down. *)
Definition erase_start (cmd offset len : Z) : Z :=
  if cmd =? DIE_ERASE then Z.land offset (u32 (Z.lnot (len - 1))) else offset.

(** The chip, with writing enabled, has taken the address of the erase command in progress
    (it is in the state set before the command is run), and the range that command clears
    from that address does not fit the chip. *)
Definition erase_overrun (s : Flash) : Prop :=
  let cmd := cmd_in_progress s in
  one_of cmd [ERASE_4K; ERASE4_4K; ERASE_32K; ERASE4_32K; ERASE_SECTOR; ERASE4_SECTOR; DIE_ERASE] = true /\
  fstate s = STATE_IDLE /\ write_enable s = true /\
  exists len, erase_len s cmd = Some len /\ fsize s < erase_start cmd (cur_addr s) len + len.

Definition safe {A} (m : FM A) : Prop :=
  forall s, chip_inv s ->
    match m s with
    | Ok _ s' => chip_inv s'
    | Stop HUndefined s' => erase_overrun s'
    | _ => False
    end.

Lemma safe_ret {A} (a : A) : safe (ret a).
Proof. intros s Hs. done. Qed.
Lemma safe_bind {A B} (m : FM A) (k : A -> FM B) : safe m -> (forall a, safe (k a)) -> safe (bind m k).
Proof.
  intros Hm Hk s Hs. unfold bind. specialize (Hm s Hs). destruct (m s) as [a s'|s'|h s']; [by apply Hk|done|by destruct h].
Qed.
Lemma safe_get {A} (k : Flash -> FM A) : (forall s0, safe (k s0)) -> safe (bind get k).
Proof. intros Hk s Hs. apply (Hk s s Hs). Qed.
Lemma safe_if {A} (b : bool) (m1 m2 : FM A) : safe m1 -> safe m2 -> safe (if b then m1 else m2).
Proof. by destruct b. Qed.
Lemma safe_when b m : safe m -> safe (when b m).
Proof. destruct b; [done|intros; apply safe_ret]. Qed.
Lemma safe_decide {A} P `{Decision P} (m1 m2 : FM A) : safe m1 -> safe m2 -> safe (if decide P then m1 else m2).
Proof. by destruct (decide P). Qed.

(** Setters that leave the size, the address and the buffer length alone. *)
Lemma safe_modify f :
  (forall s, fsize (f s) = fsize s /\ cur_addr (f s) = cur_addr s /\ length (fdata (f s)) = length (fdata s)) ->
  safe (modify f).
Proof.
  intros Hf s [[(k & Hk & E) Hl] Hc]. destruct (Hf s) as (E1 & E2 & E3). cbn. unfold chip_inv, chip_ok.
  rewrite E1, E2, E3. split; [split; [by exists k|done]|done].
Qed.

Lemma length_fill_jedec s : length (fill_jedec s) = length (fdata s).
Proof.
  unfold fill_jedec. generalize (fdata s) as d. induction (seq _ _) as [|i l IH]; intros d; [done|].
  cbn. rewrite IH. apply length_arr_set.
Qed.

Ltac safe_step :=
  lazymatch goal with
  | |- safe (bind get _) => apply safe_get; intros ?
  | |- safe (bind _ _) => apply safe_bind; [|intros ?]
  | |- safe (when _ _) => apply safe_when
  | |- safe (if decide _ then _ else _) => apply safe_decide
  | |- safe (if _ then _ else _) => apply safe_if
  | |- safe (match ?x with _ => _ end) => destruct x
  | |- safe (modify _) => apply safe_modify; intros ?; split_and!; try reflexivity;
        try apply length_arr_set; try apply length_fill_jedec
  | |- safe (ret _) => apply safe_ret
  end.
Ltac run_safe := repeat first [safe_step | solve [eauto with flash_safe]].
Create HintDb flash_safe.

Lemma safe_sync_area off len : safe (flash_sync_area off len).
Proof. unfold flash_sync_area. run_safe. Qed.
Lemma safe_sync_dirty p : safe (flash_sync_dirty p).
Proof. unfold flash_sync_dirty, flash_sync_page. pose proof safe_sync_area. run_safe; auto. Qed.
#[local] Hint Resolve safe_sync_area safe_sync_dirty : flash_safe.

(** An erase stays in the chip, or its range does not fit and nothing has changed yet. *)
Lemma erase_run offset cmd s :
  one_of cmd [ERASE_4K; ERASE4_4K; ERASE_32K; ERASE4_32K; ERASE_SECTOR; ERASE4_SECTOR; BULK_ERASE; DIE_ERASE] = true ->
  chip_inv s ->
  match flash_erase offset cmd s with
  | Ok _ s' => chip_inv s'
  | Stop HUndefined s' => s' = s /\ write_enable s = true /\
      exists len, erase_len s cmd = Some len /\ fsize s < erase_start cmd offset len + len
  | _ => False
  end.
Proof.
  intros Hcmd Hs. unfold flash_erase. rewrite Hcmd. erewrite bind_ok by reflexivity.
  erewrite bind_ok by reflexivity. destruct (erase_len s cmd) as [len|] eqn:El; [|done].
  destruct (write_enable s); cbn [negb]; [|done]. fold (erase_start cmd offset len).
  set (off := erase_start cmd offset len).
  destruct (Z.leb_spec (off + len) (fsize s)) as [Hfit|Hfit].
  - erewrite bind_ok by reflexivity.
    assert (safe (modify (fun s => set_storage (erase_range off len (storage s)) s) ;; flash_sync_area off len)) as H
      by run_safe.
    specialize (H s Hs). destruct ((modify _ ;; flash_sync_area off len) s) as [a s'|s'|[] s'] eqn:E; try done.
    unfold flash_sync_area, bind, modify in E. cbn in E. by destruct (blkio_file s).
  - erewrite bind_stop by reflexivity. split_and!; [done|done|]. by exists len.
Qed.

Lemma safe_write8 data s :
  chip_inv s ->
  match flash_write8 (cur_addr s) data s with
  | Ok _ s' => chip_inv s' | Stop HUndefined s' => erase_overrun s' | _ => False end.
Proof.
  intros Hs. unfold flash_write8. erewrite bind_ok by reflexivity. cbv zeta.
  rewrite (proj2 (Z.ltb_lt _ _)) by apply Hs. erewrite bind_ok by reflexivity.
  match goal with |- match ?m s with _ => _ end => assert (safe m) as H; [|exact (H s Hs)] end.
  run_safe.
Qed.

Lemma safe_wrsr : safe complete_wrsr.
Proof. unfold complete_wrsr. run_safe. Qed.
Lemma safe_rdid : safe complete_rdid.
Proof. unfold complete_rdid. run_safe. Qed.
#[local] Hint Resolve safe_wrsr safe_rdid : flash_safe.

(** The address of a completed command is masked before it is used. *)
Lemma safe_complete : safe complete_collecting_data.
Proof.
  intros s Hs. unfold complete_collecting_data. do 4 (erewrite bind_ok by reflexivity).
  erewrite bind_ok by reflexivity.
  set (s1 := set_fstate STATE_IDLE _).
  assert (chip_inv s1) as H1.
  { destruct Hs as [Hok Hc]. split; [exact Hok|]. unfold s1. cbn.
    rewrite size_mask by done. pose proof (size_bounds s (u32 (collect_addr s (get_addr_length s))) Hok).
    rewrite uw_small by (unfold in_u; lia). lia. }
  assert (fstate s1 = STATE_IDLE) as Hst by done.
  clearbody s1. set (cmd := cmd_in_progress s1).
  destruct (one_of cmd [ERASE_4K; ERASE4_4K; ERASE_32K; ERASE4_32K; ERASE_SECTOR; ERASE4_SECTOR; DIE_ERASE]) eqn:Ee.
  - destruct (one_of cmd [DPP; QPP; QPP_4; PP; PP4; PP4_4]); [apply (safe_modify (set_fstate STATE_PAGE_PROGRAM)); done|].
    destruct (one_of cmd [READ; READ4; FAST_READ; FAST_READ4; DOR; DOR4; QOR; QOR4; DIOR; DIOR4; QIOR; QIOR4]);
      [apply (safe_modify (set_fstate STATE_READ)); done|].
    assert (one_of cmd [ERASE_4K; ERASE4_4K; ERASE_32K; ERASE4_32K; ERASE_SECTOR; ERASE4_SECTOR; BULK_ERASE; DIE_ERASE] = true)
      as Ee' by (clear - Ee; unfold one_of in *; cbn in *; rewrite !orb_true_iff in *; tauto).
    pose proof (erase_run (cur_addr s1) cmd s1 Ee' H1) as R.
    destruct (flash_erase (cur_addr s1) cmd s1) as [a s'|s'|[] s']; try done.
    destruct R as (-> & Hw & len & El & Hlen). split_and!; try done. by exists len.
  - match goal with |- match ?m s1 with _ => _ end => assert (safe m) as H; [|exact (H s1 H1)] end.
    run_safe.
Qed.
#[local] Hint Resolve safe_complete : flash_safe.

Lemma safe_cur_addr_0 : safe (modify (set_cur_addr 0)).
Proof.
  intros s [Hok Hc]. cbn. split; [exact Hok|]. cbn. pose proof (size_bounds s 0 Hok).
  change (u32 0) with 0. lia.
Qed.
#[local] Hint Resolve safe_cur_addr_0 : flash_safe.

Lemma safe_reset : safe reset_memory.
Proof.
  unfold reset_memory, or_volatile, or_enh.
  apply safe_bind; [run_safe|intros _]. apply safe_bind; [apply safe_cur_addr_0|intros _]. run_safe.
Qed.
#[local] Hint Resolve safe_reset : flash_safe.

Lemma safe_start_collecting n : safe (start_collecting n).
Proof. unfold start_collecting. run_safe. Qed.
Lemma safe_start_reading n : safe (start_reading n).
Proof. unfold start_reading. run_safe. Qed.
Lemma safe_decode_wrsr : safe decode_wrsr.
Proof. unfold decode_wrsr. run_safe. Qed.
#[local] Hint Resolve safe_start_collecting safe_start_reading safe_decode_wrsr : flash_safe.
Lemma safe_reads : safe decode_fast_read_cmd /\ safe decode_dio_read_cmd /\ safe decode_qio_read_cmd.
Proof. split_and!; apply safe_get; intros s; apply safe_start_collecting. Qed.

Lemma safe_bulk_erase : safe (flash_erase 0 BULK_ERASE).
Proof.
  intros s Hs. pose proof (erase_run 0 BULK_ERASE s eq_refl Hs) as R.
  destruct (flash_erase 0 BULK_ERASE s) as [a s'|s'|[] s']; try done.
  destruct R as (_ & _ & len & El & Hlen). injection El as <-. cbn in Hlen. lia.
Qed.
#[local] Hint Resolve safe_bulk_erase : flash_safe.

Lemma safe_decode_new_cmd v : safe (decode_new_cmd v).
Proof. destruct safe_reads as (? & ? & ?). unfold decode_new_cmd. run_safe. Qed.
#[local] Hint Resolve safe_decode_new_cmd : flash_safe.

Lemma safe_cs select : safe (m25p80_cs select).
Proof. unfold m25p80_cs. run_safe. Qed.

Lemma safe_advance : safe advance.
Proof.
  intros s [Hok Hc]. cbn. split; [exact Hok|]. cbn. rewrite size_mask by done.
  pose proof (size_bounds s (u32 (cur_addr s + 1)) Hok). rewrite uw_small by (unfold in_u; lia). lia.
Qed.
#[local] Hint Resolve safe_advance : flash_safe.

Lemma safe_transfer8 b : safe (m25p80_transfer8 b).
Proof.
  intros s Hs. unfold m25p80_transfer8. erewrite bind_ok by reflexivity.
  assert (forall m : FM Z, safe m -> match m s with
    | Ok _ s' => chip_inv s' | Stop HUndefined s' => erase_overrun s' | _ => False end) as F by (intros m Hm; apply (Hm s Hs)).
  destruct (fstate s) eqn:Est.
  - apply F. run_safe.
  - pose proof (safe_write8 (u8 b) s Hs) as H.
    destruct (flash_write8 (cur_addr s) (u8 b) s) as [a s'|s'|h s'] eqn:E; [|done|].
    + rewrite (bind_ok _ _ _ _ _ E). assert (safe (advance ;; ret 0)) as H2 by run_safe. exact (H2 s' H).
    + rewrite (bind_stop _ _ _ _ _ E). exact H.
  - rewrite (proj2 (Z.ltb_lt _ _)) by apply Hs. apply F. apply safe_bind; [apply safe_ret|intros _]. run_safe.
  - apply F. run_safe.
  - apply F. run_safe.
  - apply F. run_safe.
Qed.

Lemma safe_send l : safe (send l).
Proof.
  induction l as [|b l IH]; [apply safe_ret|]. cbn [send].
  apply safe_bind; [apply safe_transfer8|intros r]. apply safe_bind; [done|intros rs; apply safe_ret].
Qed.

(** C35: whatever bytes are clocked into the chip, its storage is accessed inside the
    allocation and the chip stays well formed, with one exception: the chip stops in an
    access outside only when, with writing enabled, it has just taken the address of the
    erase command in progress and the range of that command, counted from this address
    without rounding it down (but for a die erase), runs past the end; a read, a page
    program or a bulk erase never gets there.  The exception does happen: WREN and an
    erase of the last sector from its last byte on a chip of 512 MiB. *)
Theorem flash_access_bounds l s :
  chip_inv s ->
  match send l s with
  | Ok _ s' => chip_inv s'
  | Stop HUndefined s' => erase_overrun s'
  | _ => False
  end /\
  exists s', send [WREN; ERASE4_SECTOR; 0x1F; 0xFF; 0xFF; 0xFF] blank_chip = Stop HUndefined s'.
Proof. intros Hs. split; [exact (safe_send l s Hs)|]. eexists. vm_compute. reflexivity. Qed.

Lemma blank_chip_inv : chip_inv blank_chip.
Proof. split; [split; [exists 29|]|]; vm_compute; done. Qed.

(** Reading the identification of the chip. *)
Lemma flash_access_bounds_witness :
  match send [JEDEC_READ; 0; 0; 0] blank_chip with
  | Ok _ s' => chip_inv s'
  | Stop HUndefined s' => erase_overrun s'
  | _ => False
  end /\
  exists s', send [WREN; ERASE4_SECTOR; 0x1F; 0xFF; 0xFF; 0xFF] blank_chip = Stop HUndefined s'.
Proof. apply (flash_access_bounds [JEDEC_READ; 0; 0; 0] blank_chip). apply blank_chip_inv. Defined.
