(* ===== verification/FloatSpec.v ===== *)
(** * Reference rounding and the rounding of softfloat

    What an IEEE-754 operation must return, stated on integers only, and the proof
    that shiftRightJamming and roundAndPackFloat of Softfloat.v compute it.

    Every finite value of a format is an integer multiple of the smallest subnormal;
    [fval] is that multiple, and an exact result is a fraction [num / den] of it.
    [rounds f num den r] says that [r], an encoding without its sign bit, is the
    nearest value of the format, ties to even, infinity on overflow. *)
From S2P Require Import Prelude Softfloat.

(** [m] is the integer nearest to n / d, the even one on a tie. *)
Definition nearest_even (n d m : Z) : Prop :=
  Z.abs (2 * (n - m * d)) <= d /\ (Z.abs (2 * (n - m * d)) = d -> Z.even m = true).

(** ffrac + 1 bits of precision: the exact value lies in the binade of exponent [e]
    (0 is that of the subnormals) and is rounded to a multiple of 2^e.  The encoding
    counts the implicit bit of [m] into the exponent. *)
Definition rounds (f : fmt) (num den r : Z) : Prop :=
  exists e m,
    0 <= e /\ num < den * 2 ^ (ffrac f + 1 + e) /\ (e = 0 \/ den * 2 ^ (ffrac f + e) <= num) /\
    nearest_even num (den * 2 ^ e) m /\
    r = Z.min (e * 2 ^ ffrac f + m) (fexpmax f * 2 ^ ffrac f).

(** The magnitude of a finite encoding, in units of the smallest subnormal. *)
Definition fval (f : fmt) (a : Z) : Z :=
  if extractExp f a =? 0 then extractFrac f a
  else (2 ^ ffrac f + extractFrac f a) * 2 ^ (extractExp f a - 1).

(** Exponents stay far from the ends of int16; the default NaN is a NaN. *)
Definition fmt_side (f : fmt) : Prop :=
  ffrac f <= 112 /\ in_u (fw f) (fdefault_nan f) /\
  fexpmax f * 2 ^ ffrac f < fdefault_nan f mod 2 ^ (fw f - 1).

(** What the proofs use of a format. *)
Record fmt_ok (f : fmt) : Prop := mkFmtOk {
  fo_frac : 2 <= ffrac f;
  fo_extra : 3 <= fextra f;
  fo_width : fw f = ffrac f + fextra f + 2;
  fo_pow : exists j, 0 <= j /\ fw f = 2 ^ j;
  fo_exp : fexpmax f = 2 ^ (fw f - 1 - ffrac f) - 1;
  fo_expbits : 3 <= fw f - 1 - ffrac f <= 14;
  fo_side : fmt_side f
}.

Lemma F32_ok : fmt_ok F32.
Proof. split; [..|by vm_compute]; cbn; try lia. exists 5. lia. Qed.
Lemma F64_ok : fmt_ok F64.
Proof. split; [..|by vm_compute]; cbn; try lia. exists 6. lia. Qed.
#[export] Hint Resolve F32_ok F64_ok : words.

(** ** The reference *)
Lemma nearest_even_unique n d m m' :
  0 < d -> nearest_even n d m -> nearest_even n d m' -> m = m'.
Proof.
  intros Hd [H1 T1] [H2 T2].
  assert (Z.abs (m - m') <= 1) as Hm by nia.
  destruct (decide (m = m')) as [|Hne]; [done|].
  assert (Z.abs (2 * (n - m * d)) = d /\ Z.abs (2 * (n - m' * d)) = d) as [E1 E2] by nia.
  specialize (T1 E1). specialize (T2 E2).
  apply Z.even_spec in T1 as [k ->], T2 as [k' ->]. lia.
Qed.

Lemma nearest_even_scale c n d m :
  0 < c -> nearest_even (c * n) (c * d) m <-> nearest_even n d m.
Proof.
  intros Hc. unfold nearest_even.
  replace (2 * (c * n - m * (c * d))) with (c * (2 * (n - m * d))) by ring.
  rewrite Z.abs_mul, (Z.abs_eq c) by lia. split; intros [H1 H2]; split.
  - nia.
  - intros E. apply H2. congruence.
  - nia.
  - intros E. apply H2. nia.
Qed.

(** The binade is determined by the value, and so is the result. *)
Lemma rounds_unique f num den r r' :
  0 <= ffrac f -> 0 < den -> rounds f num den r -> rounds f num den r' -> r = r'.
Proof.
  intros Hp Hd (e & m & He & Hu & Hl & Hm & ->) (e' & m' & He' & Hu' & Hl' & Hm' & ->).
  assert (forall e1 e2, 0 <= e1 -> 0 <= e2 -> (e1 = 0 \/ den * 2 ^ (ffrac f + e1) <= num) ->
            num < den * 2 ^ (ffrac f + 1 + e2) -> e1 <= e2) as F.
  { intros e1 e2 H1 H2 [->|Hl1] Hu2; [lia|]. destruct (decide (e1 <= e2)); [done|].
    pose proof (Z.pow_le_mono_r 2 (ffrac f + 1 + e2) (ffrac f + e1)). nia. }
  assert (e = e') as <- by (pose proof (F e e'); pose proof (F e' e); lia).
  rewrite (nearest_even_unique num (den * 2 ^ e) m m'); [done| |done|done].
  pose proof (Z.pow_pos_nonneg 2 e). nia.
Qed.

Lemma rounds_scale c f num den r : 0 < c -> rounds f (c * num) (c * den) r <-> rounds f num den r.
Proof.
  intros Hc. unfold rounds. split; intros (e & m & He & Hu & Hl & Hm & ->); exists e, m.
  - rewrite <- !Z.mul_assoc in *. split_and!; [done|nia| |by eapply nearest_even_scale|done].
    destruct Hl; [by left|right; nia].
  - rewrite <- !Z.mul_assoc. split_and!; [done|nia| |by apply nearest_even_scale|done].
    destruct Hl; [by left|right; nia].
Qed.

(** ** Sticky significands

    [sticky d S N D]: the integer [S] stands for N / D with enough information to
    round it to a multiple of 2^d: it is exact, or both lie strictly between the same two
    multiples of half of 2^d. *)
Definition sticky (d S N D : Z) : Prop :=
  N = S * D \/
  exists c, c * 2 ^ (d - 1) < S < (c + 1) * 2 ^ (d - 1) /\
    c * 2 ^ (d - 1) * D < N < (c + 1) * 2 ^ (d - 1) * D.

Lemma pow2_split d : 1 <= d -> 2 ^ d = 2 * 2 ^ (d - 1).
Proof. intros. rewrite <- Z.pow_succ_r by lia. f_equal. lia. Qed.

Lemma pow2_half d : 1 <= d -> 2 ^ d / 2 = 2 ^ (d - 1).
Proof. intros. rewrite pow2_split, Z.mul_comm by lia. apply Z.div_mul. lia. Qed.

Lemma pow2_pos d : 0 <= d -> 0 < 2 ^ d.
Proof. intros. apply Z.pow_pos_nonneg; lia. Qed.

Lemma pow2_div a b : 0 <= a <= b -> 2 ^ b = 2 ^ (b - a) * 2 ^ a.
Proof. intros. rewrite <- Z.pow_add_r by lia. f_equal. lia. Qed.

Lemma nearest_even_sticky d S N D m :
  1 <= d -> 0 < D -> sticky d S N D ->
  nearest_even S (2 ^ d) m -> nearest_even N (D * 2 ^ d) m.
Proof.
  intros Hd HD [->|(c & HS & HN)] Hm.
  { rewrite (Z.mul_comm S). by apply nearest_even_scale. }
  destruct Hm as [Hm _]. rewrite pow2_split in * by lia. pose proof (pow2_pos (d - 1) ltac:(lia)).
  set (h := 2 ^ (d - 1)) in *.
  assert (2 * m - 1 <= c <= 2 * m) as Hc by nia.
  assert ((2 * m - 1) * (h * D) < N < (2 * m + 1) * (h * D)) as Hb.
  { assert (0 < h * D) by nia. rewrite <- !Z.mul_assoc in HN. clear - HN Hc H0. nia. }
  split; lia.
Qed.

Lemma sticky_ge d S N D M :
  1 <= d -> 0 < D -> M mod 2 ^ (d - 1) = 0 -> M <= S -> sticky d S N D -> M * D <= N.
Proof.
  intros Hd HD HM HS [->|(c & Hc & HN)]; [nia|]. pose proof (pow2_pos (d - 1) ltac:(lia)).
  apply Z.mod_divide in HM as [k ->]; [|lia]. assert (k <= c) by nia.
  assert (k * 2 ^ (d - 1) <= c * 2 ^ (d - 1)) by nia. nia.
Qed.

Lemma sticky_lt d S N D M :
  1 <= d -> 0 < D -> M mod 2 ^ (d - 1) = 0 -> S < M -> sticky d S N D -> N < M * D.
Proof.
  intros Hd HD HM HS [->|(c & Hc & HN)]; [nia|]. pose proof (pow2_pos (d - 1) ltac:(lia)).
  apply Z.mod_divide in HM as [k ->]; [|lia]. assert (c + 1 <= k) by nia.
  assert ((c + 1) * 2 ^ (d - 1) <= k * 2 ^ (d - 1)) by nia. nia.
Qed.

Lemma sticky_shiftl d i S N D :
  0 <= i < d -> sticky (d - i) S N D -> sticky d (S * 2 ^ i) (N * 2 ^ i) D.
Proof.
  intros Hi [->|(c & HS & HN)]; [left; ring|right]. exists c. pose proof (pow2_pos i ltac:(lia)).
  replace (2 ^ (d - 1)) with (2 ^ (d - i - 1) * 2 ^ i) by (rewrite <- Z.pow_add_r by lia; f_equal; lia).
  set (h := 2 ^ (d - i - 1)) in *. set (g := 2 ^ i) in *.
  replace (c * (h * g) * D) with (c * h * D * g) by ring.
  replace ((c + 1) * (h * g) * D) with ((c + 1) * h * D * g) by ring. rewrite !Z.mul_assoc.
  split; split; apply Z.mul_lt_mono_pos_r; lia.
Qed.

(** ** shiftRightJamming *)
(** The bits shifted out are or-ed into the last one. *)
Definition jam (a k : Z) : Z := Z.lor (Z.shiftr a k) (b2z (negb (a mod 2 ^ k =? 0))).

Lemma land_low_bit x b : Z.lor x (b2z b) = if b then 2 * (x / 2) + 1 else x.
Proof.
  destruct b; cbn [b2z]; [|apply Z.lor_0_r]. apply Z.bits_inj'. intros i Hi.
  rewrite Z.lor_spec. destruct (decide (i = 0)) as [->|].
  - rewrite Z.testbit_odd_0, orb_true_r. done.
  - replace i with (Z.succ (i - 1)) by lia. rewrite Z.testbit_odd_succ by lia.
    change 1 with (2 * 0 + 1) at 2. rewrite (Z.testbit_odd_succ 0) by lia.
    rewrite Z.bits_0, orb_false_r, <- Z.div2_div, Z.div2_spec, Z.shiftr_spec by lia. f_equal; lia.
Qed.

Lemma jam_spec a k :
  0 <= k -> jam a k = if a mod 2 ^ k =? 0 then a / 2 ^ k else 2 * (a / 2 ^ k / 2) + 1.
Proof.
  intros Hk. unfold jam. rewrite Z.shiftr_div_pow2, land_low_bit by lia.
  by destruct (a mod 2 ^ k =? 0).
Qed.

Lemma shiftRightJamming_jam w a k :
  (exists j, 0 <= j /\ w = 2 ^ j) -> in_u w a -> 0 <= k -> shiftRightJamming w a k = jam a k.
Proof.
  intros (j & Hj & Hw) Ha Hk. assert (0 < w) by (subst; apply Z.pow_pos_nonneg; lia).
  unfold shiftRightJamming, jam.
  destruct (Z.eqb_spec k 0) as [->|Hk0].
  { rewrite Z.shiftr_0_r, Z.pow_0_r, Z.mod_1_r. cbn. by rewrite Z.lor_0_r. }
  destruct (Z.ltb_spec k w) as [Hkw|Hkw].
  - do 3 f_equal. replace (w - 1) with (Z.ones j) by (rewrite Z.ones_equiv; lia).
    rewrite Z.land_ones, <- Hw by lia.
    replace ((- k) mod w) with (w - k) by (apply Z.mod_unique with (-1); lia).
    rewrite Z.shiftl_mul_pow2 by lia. unfold uw.
    replace (2 ^ w) with (2 ^ k * 2 ^ (w - k)) by (rewrite <- Z.pow_add_r by lia; f_equal; lia).
    pose proof (Z.pow_pos_nonneg 2 (w - k)). pose proof (Z.pow_pos_nonneg 2 k).
    rewrite Z.mul_mod_distr_r by lia. pose proof (Z.mod_pos_bound a (2 ^ k)).
    destruct (Z.eqb_spec (a mod 2 ^ k * 2 ^ (w - k)) 0), (Z.eqb_spec (a mod 2 ^ k) 0); nia || done.
  - pose proof (Z.pow_le_mono_r 2 w k). unfold in_u in Ha.
    rewrite Z.shiftr_div_pow2, Z.div_small, Z.mod_small by lia. done.
Qed.

(** Jamming stays between the same even numbers. *)
Lemma jam_cell S k c h :
  0 <= k -> 0 < h -> c * (2 * h) * 2 ^ k < S < (c + 1) * (2 * h) * 2 ^ k ->
  c * (2 * h) < jam S k < (c + 1) * (2 * h).
Proof.
  intros Hk Hh HS. rewrite jam_spec by lia. pose proof (pow2_pos k Hk).
  pose proof (Z.div_mod S (2 ^ k) ltac:(lia)) as Ediv.
  pose proof (Z.mod_pos_bound S (2 ^ k) ltac:(lia)) as Hr.
  set (q := S / 2 ^ k) in *. set (r := S mod 2 ^ k) in *. set (g := 2 ^ k) in *. clearbody q r g.
  assert (c * (2 * h) <= q < (c + 1) * (2 * h)) as Hq by nia.
  destruct (Z.eqb_spec r 0) as [->|E]; [nia|].
  pose proof (Z.div_mod q 2 ltac:(lia)). pose proof (Z.mod_pos_bound q 2 ltac:(lia)). lia.
Qed.

(** Jamming keeps the rounding information. *)
Lemma sticky_jam d S N D k :
  2 <= d -> 0 < D -> 0 <= k -> sticky d S N D -> sticky d (jam S k) N (D * 2 ^ k).
Proof.
  intros Hd HD Hk Hs. pose proof (pow2_pos k Hk) as Hg. pose proof (pow2_pos (d - 1 - 1) ltac:(lia)) as Hh.
  pose proof (pow2_split (d - 1) ltac:(lia)) as Eh.
  assert (forall c, c * 2 ^ (d - 1) * 2 ^ k < S < (c + 1) * 2 ^ (d - 1) * 2 ^ k ->
    c * 2 ^ (d - 1) * 2 ^ k * D < N < (c + 1) * 2 ^ (d - 1) * 2 ^ k * D ->
    sticky d (jam S k) N (D * 2 ^ k)) as Hcell.
  { intros c HS HN. right. exists c. rewrite Eh in *. split; [by apply jam_cell|].
    clear - HN. set (g := 2 ^ k) in *. set (h := 2 ^ (d - 1 - 1)) in *. lia. }
  destruct Hs as [->|(c & HS & HN)].
  - destruct (decide (S mod 2 ^ k = 0)) as [E|E].
    + left. rewrite jam_spec, E, Z.eqb_refl by done. pose proof (Z.div_mod S (2 ^ k) ltac:(lia)) as Ed.
      rewrite Ed at 1. rewrite E. ring.
    + pose proof (Z.div_mod S (2 ^ k) ltac:(lia)). pose proof (Z.mod_pos_bound S (2 ^ k) ltac:(lia)).
      set (q := S / 2 ^ k) in *. set (r := S mod 2 ^ k) in *.
      pose proof (Z.div_mod q (2 ^ (d - 1)) ltac:(lia)). pose proof (Z.mod_pos_bound q (2 ^ (d - 1)) ltac:(lia)).
      assert (q / 2 ^ (d - 1) * 2 ^ (d - 1) * 2 ^ k < S < (q / 2 ^ (d - 1) + 1) * 2 ^ (d - 1) * 2 ^ k) as HS.
      { clearbody q r. set (c := q / 2 ^ (d - 1)) in *. clearbody c.
        assert (c * 2 ^ (d - 1) <= q /\ q + 1 <= (c + 1) * 2 ^ (d - 1)) as [H3 H4] by lia.
        clear - H3 H4 H H0 E Hg. nia. }
      apply (Hcell _ HS). split; apply Z.mul_lt_mono_pos_r; lia.
  - pose proof (Z.div_mod c (2 ^ k) ltac:(lia)). pose proof (Z.mod_pos_bound c (2 ^ k) ltac:(lia)).
    set (e := c / 2 ^ k) in *. set (h := 2 ^ (d - 1)) in *. set (g := 2 ^ k) in *. clearbody e.
    assert (e * g <= c /\ c + 1 <= (e + 1) * g) as [H1 H2] by lia.
    assert (0 < h * D) by (apply Z.mul_pos_pos; lia).
    assert (e * h * g <= c * h /\ (c + 1) * h <= (e + 1) * h * g) as [H4 H5].
    { replace (e * h * g) with (e * g * h) by ring. replace ((e + 1) * h * g) with ((e + 1) * g * h) by ring.
      split; apply Z.mul_le_mono_nonneg_r; lia. }
    apply (Hcell e); [lia|]. split.
    + apply Z.le_lt_trans with (c * h * D); [apply Z.mul_le_mono_nonneg_r; lia|lia].
    + apply Z.lt_le_trans with ((c + 1) * h * D); [lia|apply Z.mul_le_mono_nonneg_r; lia].
Qed.

Lemma sticky_jam_exact d a k : 2 <= d -> 0 <= k -> sticky d (jam a k) a (2 ^ k).
Proof.
  intros. rewrite <- (Z.mul_1_l (2 ^ k)). apply sticky_jam; [done|lia|done|]. left. ring.
Qed.

(** ** roundAndPackFloat *)
Lemma rounds_cross f N D num den r :
  0 < D -> 0 < den -> num * D = den * N -> rounds f N D r -> rounds f num den r.
Proof.
  intros HD Hd E H. apply (rounds_scale D); [done|].
  rewrite (Z.mul_comm D num), E, (Z.mul_comm D den). by apply rounds_scale.
Qed.

Lemma clear_low_bit z b : Z.land z (Z.lnot (b2z b)) = if b then 2 * (z / 2) else z.
Proof.
  rewrite <- Z.ldiff_land. destruct b; cbn [b2z]; [|apply Z.ldiff_0_r].
  change 1 with (Z.ones 1). rewrite Z.ldiff_ones_r, Z.shiftr_div_pow2, Z.shiftl_mul_pow2 by lia.
  change (2 ^ 1) with 2. lia.
Qed.

Lemma roundIncrement_zero d s : 1 <= d -> roundIncrement status_zero d s = 2 ^ (d - 1).
Proof. intros. unfold roundIncrement. cbn. rewrite Z.shiftl_1_l. done. Qed.

Lemma round_shift_spec w d S :
  1 <= d -> 0 <= S -> S + 2 ^ (d - 1) < 2 ^ w ->
  nearest_even S (2 ^ d) (round_shift status_zero w d (2 ^ (d - 1)) S).
Proof.
  intros Hd HS Hw. unfold round_shift, is_nearest_even. cbn [float_rounding_mode status_zero].
  rewrite bool_decide_eq_true_2, andb_true_r, clear_low_bit by done.
  rewrite Z.shiftl_1_l, uw_small by (unfold in_u; lia).
  rewrite Z.shiftr_div_pow2, Z.land_ones by lia.
  assert (0 < 2 ^ (d - 1)) by (apply Z.pow_pos_nonneg; lia).
  rewrite (pow2_split d) by lia. set (h := 2 ^ (d - 1)) in *.
  pose proof (Z.div_mod S (2 * h) ltac:(lia)). pose proof (Z.mod_pos_bound S (2 * h) ltac:(lia)).
  set (q := S / (2 * h)) in *. set (r := S mod (2 * h)) in *.
  replace ((S + h) / (2 * h)) with (if r <? h then q else q + 1).
  2: { destruct (Z.ltb_spec r h); [apply Z.div_unique with (r + h)|apply Z.div_unique with (r - h)]; lia. }
  destruct (Z.eqb_spec (Z.lxor r h) 0) as [E|E].
  - apply Z.lxor_eq in E. rewrite (proj2 (Z.ltb_ge r h)) by lia.
    pose proof (Z.div_mod (q + 1) 2 ltac:(lia)). pose proof (Z.mod_pos_bound (q + 1) 2 ltac:(lia)).
    split; [nia|]. intros _. apply Z.even_spec. by eexists.
  - assert (r <> h) by (intros ->; apply E, Z.lxor_nilpotent).
    destruct (Z.ltb_spec r h); split; nia.
Qed.

(** A nearest integer lies within the integer bounds of its argument. *)
Lemma nearest_even_bounds n d m lo hi :
  0 < d -> lo * d <= n <= hi * d -> nearest_even n d m -> lo <= m <= hi.
Proof. intros Hd Hn [Hm _]. nia. Qed.

Section RoundAndPack.
Context (f : fmt) (Hf : fmt_ok f).

Lemma packFloat_spec s e m :
  s = 0 \/ s = 1 -> 0 <= e -> 0 <= m -> e * 2 ^ ffrac f + m < 2 ^ (fw f - 1) ->
  packFloat f s e m = s * 2 ^ (fw f - 1) + (e * 2 ^ ffrac f + m).
Proof using Hf.
  intros Hs He Hm Hlt. destruct Hf. unfold packFloat.
  rewrite !Z.shiftl_mul_pow2 by lia.
  assert (0 < 2 ^ ffrac f) by (apply Z.pow_pos_nonneg; lia).
  pose proof (pow2_split (fw f) ltac:(lia)). set (W := 2 ^ (fw f - 1)) in *.
  rewrite (uw_small (fw f) (e * 2 ^ ffrac f)), (uw_small (fw f) m) by (unfold in_u; nia).
  rewrite uw_small by (unfold in_u; nia). lia.
Qed.

Lemma expmax_lt : fexpmax f * 2 ^ ffrac f + 2 ^ ffrac f = 2 ^ (fw f - 1).
Proof using Hf.
  destruct Hf. rewrite fo_exp0. replace (fw f - 1) with ((fw f - 1 - ffrac f) + ffrac f) at 2 by lia.
  rewrite Z.pow_add_r by lia. ring.
Qed.

Lemma jam_lt a k n : 0 <= k -> 1 <= n -> 0 <= a < 2 ^ n * 2 ^ k -> 0 <= jam a k < 2 ^ n.
Proof using.
  intros Hk Hn Ha. assert (0 < 2 ^ k) by (apply Z.pow_pos_nonneg; lia).
  assert (0 <= a / 2 ^ k < 2 ^ n) as Hq by (split; [apply Z.div_pos|apply Z.div_lt_upper_bound]; lia).
  rewrite jam_spec, (pow2_split n) in * by lia. set (h := 2 ^ (n - 1)) in *.
  pose proof (Z.div_mod (a / 2 ^ k) 2 ltac:(lia)).
  pose proof (Z.mod_pos_bound (a / 2 ^ k) 2 ltac:(lia)). case_match; lia.
Qed.

Lemma u16_small z : 0 <= z <= 32000 -> u16 z = z.
Proof using. intros. apply uw_small. unfold in_u. lia. Qed.
Lemma u16_negative z : -32000 <= z < 0 -> 32000 < u16 z.
Proof using. intros. unfold uw. rewrite <- (Z.mod_add z 1) by lia. rewrite Z.mod_small by lia. lia. Qed.

#[local] Abbreviation W := (2 ^ (fw f - 1)).
#[local] Abbreviation P := (2 ^ ffrac f).
#[local] Abbreviation X := (2 ^ fextra f).

Lemma powers : 0 < P /\ 0 < X /\ 2 ^ (fw f - 2) = P * X /\ W = 2 * P * X /\ 2 * W = 2 ^ fw f /\
  2 ^ (fextra f - 1) < P * X /\ 2 * 2 ^ (fextra f - 1) = X /\ 0 < 2 ^ (fextra f - 1).
Proof using Hf.
  destruct Hf. assert (0 < P) by (apply Z.pow_pos_nonneg; lia).
  assert (0 < 2 ^ (fextra f - 1)) by (apply Z.pow_pos_nonneg; lia).
  pose proof (pow2_split (fextra f) ltac:(lia)).
  assert (2 ^ (fw f - 2) = P * X) by (rewrite <- Z.pow_add_r by lia; f_equal; lia).
  pose proof (pow2_split (fw f) ltac:(lia)). pose proof (pow2_split (fw f - 1) ltac:(lia)) as E.
  replace (fw f - 1 - 1) with (fw f - 2) in E by lia. split_and!; nia.
Qed.

(** Rounding the significand rounds the value it stands for. *)
Lemma rounds_intro e m S N D :
  0 <= e -> 0 < D -> S < W -> (e = 0 \/ P * X <= S) -> sticky (fextra f) S N D ->
  nearest_even S X m ->
  rounds f (N * 2 ^ e) (D * X) (Z.min (e * P + m) (fexpmax f * P)).
Proof using Hf.
  intros He HD HS Hn Hst Hm. pose proof powers as (HP & HX & E2 & E1 & E0 & Hh & EX & Hh0).
  destruct Hf. assert (0 < 2 ^ e) as He2 by (apply Z.pow_pos_nonneg; lia).
  exists e, m. split; [done|]. rewrite !Z.pow_add_r, Z.pow_1_r by lia.
  split; [|split; [|split; [|done]]].
  - replace (D * X * (P * 2 * 2 ^ e)) with (2 * P * X * D * 2 ^ e) by ring.
    apply Z.mul_lt_mono_pos_r; [done|]. apply (sticky_lt (fextra f) S); [lia|done| |lia|done].
    rewrite <- EX. replace (2 * P * (2 * 2 ^ (fextra f - 1))) with (2 * P * 2 * 2 ^ (fextra f - 1)) by ring.
    apply Z_mod_mult.
  - destruct Hn as [|Hn]; [by left|right].
    replace (D * X * (P * 2 ^ e)) with (P * X * D * 2 ^ e) by ring.
    apply Z.mul_le_mono_pos_r; [done|]. apply (sticky_ge (fextra f) S); [lia|done| |done|done].
    rewrite <- EX. replace (P * (2 * 2 ^ (fextra f - 1))) with (P * 2 * 2 ^ (fextra f - 1)) by ring.
    apply Z_mod_mult.
  - rewrite (Z.mul_comm N), (Z.mul_comm (D * X)). apply nearest_even_scale; [done|].
    by apply (nearest_even_sticky (fextra f) S); [lia| | |].
Qed.

(** The part of roundAndPackFloat after the tests: round and pack. *)
Definition finish s e zSig : Z :=
  let zSig := round_shift status_zero (fw f) (fextra f) (2 ^ (fextra f - 1)) zSig in
  packFloat f s (if zSig =? 0 then 0 else e) zSig.

Lemma roundAndPack_finish s zExp zSig :
  roundAndPackFloat status_zero f s zExp zSig =
  if fexpmax f - 2 <=? u16 zExp then
    if (fexpmax f - 2 <? zExp) ||
       ((zExp =? fexpmax f - 2) && (W <=? uw (fw f) (zSig + 2 ^ (fextra f - 1))))
    then packFloat f s (fexpmax f) (- b2z (2 ^ (fextra f - 1) =? 0))
    else if zExp <? 0 then finish s 0 (shiftRightJamming (fw f) zSig (- zExp))
    else finish s zExp zSig
  else finish s zExp zSig.
Proof using Hf.
  unfold roundAndPackFloat. rewrite roundIncrement_zero by (destruct Hf; lia). reflexivity.
Qed.

Lemma finish_spec s e S N D :
  s = 0 \/ s = 1 -> 0 <= e -> 0 <= S < W -> (e = 0 \/ P * X <= S) -> 0 < D ->
  (e < fexpmax f - 2 \/ e = fexpmax f - 2 /\ S + 2 ^ (fextra f - 1) < W) ->
  sticky (fextra f) S N D ->
  exists r, rounds f (N * 2 ^ e) (D * X) r /\ 0 <= r < W /\ finish s e S = s * W + r.
Proof using Hf.
  intros Hs He HS Hn HD Hov Hst. pose proof powers as (HP & HX & E2 & E1 & E0 & Hh & EX & Hh0).
  pose proof expmax_lt as Emax. destruct Hf.
  assert (0 < 2 ^ e) as He2 by (apply Z.pow_pos_nonneg; lia).
  pose proof (round_shift_spec (fw f) (fextra f) S ltac:(lia) ltac:(lia) ltac:(lia)) as Hm.
  unfold finish. set (m := round_shift _ _ _ _ _) in *.
  assert (0 <= m <= 2 * P) as Hm2 by (apply (nearest_even_bounds S X); [lia|nia|done]).
  assert (e = fexpmax f - 2 -> m <= 2 * P - 1) as Hm3.
  { intros Ee. destruct Hov as [|[_ Hlt]]; [lia|]. destruct Hm as [Hm _].
    clear - Hm Hlt E1 EX HX. nia. }
  assert (e = 0 \/ P <= m) as Hm4.
  { destruct Hn; [by left|right]. apply (nearest_even_bounds S X m P (2 * P)); [lia|nia|done]. }
  assert (e * P + m < fexpmax f * P) as Hlt.
  { clear - Hov Hm2 Hm3 HP. destruct (decide (e = fexpmax f - 2)); nia. }
  exists (e * P + m). split.
  - rewrite <- (Z.min_l (e * P + m) (fexpmax f * P)) by lia. apply (rounds_intro e m S); done || lia.
  - assert (0 <= e * P + m) by (clear - He HP Hm2; nia). split; [lia|]. destruct (Z.eqb_spec m 0) as [Em|Em].
    + rewrite Em, packFloat_spec by lia. destruct Hm4; [subst e; lia|lia].
    + apply packFloat_spec; lia.
Qed.

(** The contract of roundAndPackFloat in nearest-even mode: a normalised significand
    that stands for N / D, with exponent zExp, is rounded to the nearest value. *)
Lemma roundAndPack_spec s zExp zSig N D :
  s = 0 \/ s = 1 -> -32000 <= zExp <= 32000 -> 2 ^ (fw f - 2) <= zSig < W ->
  0 < D -> sticky (fextra f) zSig N D ->
  exists r, rounds f (N * 2 ^ Z.max 0 zExp) (D * 2 ^ (fextra f + Z.max 0 (- zExp))) r /\
    0 <= r < W /\ roundAndPackFloat status_zero f s zExp zSig = s * W + r.
Proof using Hf.
  intros Hs He HS HD Hst. pose proof powers as (HP & HX & E2 & E1 & E0 & Hh & EX & Hh0).
  pose proof expmax_lt as Emax. pose proof (fo_exp f Hf). pose proof (fo_expbits f Hf).
  pose proof (fo_extra f Hf). pose proof (fo_width f Hf). pose proof (fo_frac f Hf).
  assert (fexpmax f < 2 ^ 14) as Hx.
  { pose proof (Z.pow_le_mono_r 2 (fw f - 1 - ffrac f) 14). lia. }
  assert (7 <= fexpmax f) as Hx0.
  { pose proof (Z.pow_le_mono_r 2 3 (fw f - 1 - ffrac f)). lia. }
  rewrite roundAndPack_finish.
  destruct (Z.ltb_spec zExp 0) as [Hneg|Hpos].
  - rewrite (proj2 (Z.leb_le _ _)) by (pose proof (u16_negative zExp); lia).
    rewrite (proj2 (Z.ltb_ge _ _)), (proj2 (Z.eqb_neq _ _)) by lia. cbn [orb andb].
    rewrite shiftRightJamming_jam by (apply fo_pow, Hf || unfold in_u; lia).
    rewrite Z.max_l, (Z.max_r 0 (- zExp)) by lia.
    destruct (finish_spec s 0 (jam zSig (- zExp)) N (D * 2 ^ (- zExp))) as (r & Hr & Hr2 & ->);
      [done|lia| |by left|pose proof (Z.pow_pos_nonneg 2 (- zExp)); nia|left; lia|
       apply sticky_jam; lia || done|].
    { pose proof (jam_lt zSig (- zExp) (fw f - 1)) as Hj.
      pose proof (Z.pow_pos_nonneg 2 (- zExp) ltac:(lia) ltac:(lia)) as Hp. clear - Hj HS Hp E2 HP HX Hneg H2 H3 H1.
      apply Hj; lia || nia. }
    exists r. split; [|done]. rewrite Z.pow_add_r by lia.
    by replace (D * (X * 2 ^ (- zExp))) with (D * 2 ^ (- zExp) * X) by ring.
  - rewrite Z.max_r, (Z.max_l 0 (- zExp)), Z.add_0_r by lia. rewrite u16_small by lia.
    destruct (decide (zExp < fexpmax f - 2 \/ zExp = fexpmax f - 2 /\ zSig + 2 ^ (fextra f - 1) < W))
      as [Hok|Hov].
    + replace (if fexpmax f - 2 <=? zExp then _ else _) with (finish s zExp zSig).
      { apply finish_spec; try done; try lia. }
      destruct (Z.leb_spec (fexpmax f - 2) zExp); [|done].
      destruct Hok as [|[-> Hlt]]; [lia|]. rewrite Z.ltb_irrefl, Z.eqb_refl.
      rewrite uw_small by (unfold in_u; lia). by rewrite (proj2 (Z.leb_gt _ _)) by lia.
    + rewrite (proj2 (Z.leb_le _ _)) by lia.
      assert ((fexpmax f - 2 <? zExp) ||
        (zExp =? fexpmax f - 2) && (W <=? uw (fw f) (zSig + 2 ^ (fextra f - 1))) = true) as ->.
      { rewrite uw_small by (unfold in_u; lia).
        destruct (Z.ltb_spec (fexpmax f - 2) zExp); [done|]. cbn [orb].
        rewrite (proj2 (Z.eqb_eq _ _)), (proj2 (Z.leb_le _ _)) by lia. done. }
      rewrite (proj2 (Z.eqb_neq _ _)) by lia. cbn [b2z]. rewrite Z.opp_0, packFloat_spec by lia.
      exists (fexpmax f * P). split; [|split; [lia|lia]].
      set (m := round_shift status_zero (fw f) (fextra f) (2 ^ (fextra f - 1)) zSig).
      pose proof (round_shift_spec (fw f) (fextra f) zSig ltac:(lia) ltac:(lia) ltac:(lia)) as Hm.
      fold m in Hm.
      assert (P <= m <= 2 * P) as Hm2 by (apply (nearest_even_bounds zSig X); [lia|nia|done]).
      assert (zExp = fexpmax f - 2 -> m = 2 * P) as Hm3.
      { intros Ee. destruct (decide (m = 2 * P)); [done|]. destruct Hm as [Hm Ht].
        assert (zSig + 2 ^ (fextra f - 1) >= W) as Hge by lia. clear - Hm Ht Hge HS Hm2 n E1 EX HX.
        assert (m = 2 * P - 1) as Em by nia.
        assert (Z.even m = true) as Hev by (apply Ht; nia).
        apply Z.even_spec in Hev as [k Hk]. lia. }
      rewrite <- (Z.min_r (zExp * P + m) (fexpmax f * P)).
      2: { clear - Hov Hm2 Hm3 HP. destruct (decide (zExp = fexpmax f - 2)); nia. }
      apply (rounds_intro zExp m zSig); try done; lia.
Qed.
End RoundAndPack.
