(* ===== verification/FloatProps.v ===== *)
(** * Floating point multiplication, division and addition

    The operations of Softfloat.v in nearest-even mode (the mode of every handler)
    return the correctly rounded result, for all operands: special values, subnormals,
    overflow and underflow included. *)
From S2P Require Import Prelude Softfloat FloatSpec.

(** Decide the tests of the special cases by what [operand_cases] below says. *)
Ltac split_tests :=
  repeat (match goal with |- context [?x =? ?y] => destruct (Z.eqb_spec x y) end;
          cbn [negb andb orb];
          try congruence; try (match goal with H : _ \/ _ |- _ => destruct H; congruence end)).

(** ** Classes of encodings *)
Section Classes.
Context (f : fmt) (Hf : fmt_ok f).
#[local] Abbreviation W := (2 ^ (fw f - 1)).
#[local] Abbreviation P := (2 ^ ffrac f).
#[local] Abbreviation X := (2 ^ fextra f).

Definition sign_of (a : Z) : Z := a / W.
Definition mag_of (a : Z) : Z := a mod W.
Definition inf_mag : Z := fexpmax f * P.
Definition nan (a : Z) : Prop := inf_mag < mag_of a.
Definition infinite (a : Z) : Prop := mag_of a = inf_mag.
Definition finite (a : Z) : Prop := mag_of a < inf_mag.

(** The bias of the exponent. *)
Definition bias : Z := (fexpmax f - 1) / 2.

(** The fields of an encoding. *)
Lemma fields a :
  in_u (fw f) a ->
  0 <= extractFrac f a < P /\ 0 <= extractExp f a <= fexpmax f /\
  (extractSign f a = 0 \/ extractSign f a = 1) /\
  extractSign f a = sign_of a /\ mag_of a = extractExp f a * P + extractFrac f a /\
  a = extractSign f a * W + mag_of a.
Proof using Hf.
  intros [Ha0 Ha1]. destruct Hf as [? ? ? ? Hexp ? ?].
  pose proof (pow2_pos (ffrac f) ltac:(lia)) as HP. pose proof (pow2_pos (fw f - 1) ltac:(lia)) as HW.
  rewrite (pow2_split (fw f)) in Ha1 by lia.
  assert (W = 2 ^ (fw f - 1 - ffrac f) * P) as EW by (apply pow2_div; lia).
  assert (fexpmax f = Z.ones (fw f - 1 - ffrac f)) as Eo by (rewrite Z.ones_equiv; lia).
  unfold extractFrac, extractExp, extractSign, sign_of, mag_of. rewrite Eo.
  rewrite !Z.land_ones, !Z.shiftr_div_pow2 by lia.
  set (G := 2 ^ (fw f - 1 - ffrac f)) in *. pose proof (pow2_pos (fw f - 1 - ffrac f) ltac:(lia)).
  fold G in H. pose proof (Z.mod_pos_bound a P HP). pose proof (Z.mod_pos_bound (a / P) G ltac:(lia)).
  split; [done|]. split; [rewrite Z.ones_equiv; fold G; lia|].
  assert (0 <= a / W < 2) by (split; [apply Z.div_pos|apply Z.div_lt_upper_bound]; lia).
  split; [lia|]. split; [done|]. split.
  - rewrite EW, (Z.mul_comm G), Z.rem_mul_r by lia. lia.
  - pose proof (Z.div_mod a W ltac:(lia)). lia.
Qed.

Lemma class_exp a :
  in_u (fw f) a ->
  (finite a <-> extractExp f a <> fexpmax f) /\
  (nan a <-> extractExp f a = fexpmax f /\ extractFrac f a <> 0) /\
  (infinite a <-> extractExp f a = fexpmax f /\ extractFrac f a = 0).
Proof using Hf.
  intros Ha. destruct (fields a Ha) as (HF & HE & _ & _ & Hm & _).
  unfold finite, nan, infinite, inf_mag. rewrite Hm.
  destruct (decide (extractExp f a = fexpmax f)) as [E|E].
  - rewrite E. intuition lia.
  - assert (extractExp f a + 1 <= fexpmax f) by lia. split_and!; split; intros; nia.
Qed.

Lemma fval_zero a : in_u (fw f) a -> fval f a = 0 <-> mag_of a = 0.
Proof using Hf.
  intros Ha. destruct (fields a Ha) as (HF & HE & _ & _ & Hm & _). unfold fval. rewrite Hm.
  destruct (Z.eqb_spec (extractExp f a) 0) as [->|E]; [lia|].
  pose proof (pow2_pos (extractExp f a - 1) ltac:(lia)). nia.
Qed.

Lemma fval_nonneg a : in_u (fw f) a -> 0 <= fval f a.
Proof using Hf.
  intros Ha. destruct (fields a Ha) as (HF & HE & _ & _ & Hm & _). unfold fval.
  destruct (Z.eqb_spec (extractExp f a) 0) as [E|E]; [lia|].
  pose proof (pow2_pos (extractExp f a - 1) ltac:(lia)). nia.
Qed.

Lemma sign_pack s r :
  s = 0 \/ s = 1 -> 0 <= r < W ->
  in_u (fw f) (s * W + r) /\ sign_of (s * W + r) = s /\ mag_of (s * W + r) = r.
Proof using Hf.
  intros Hs Hr. unfold in_u, sign_of, mag_of. destruct Hf. rewrite (pow2_split (fw f)) by lia.
  split_and!; [nia|nia| |].
  - symmetry. apply Z.div_unique with r; lia.
  - symmetry. apply Z.mod_unique with s; lia.
Qed.

(** ** NaNs *)
Lemma quiet_spec a : in_u (fw f) a -> is_quiet_nan f a = (inf_mag + P / 2 <=? mag_of a).
Proof using Hf.
  intros Ha. destruct (fields a Ha) as (_ & _ & Hs & _ & _ & Ea).
  unfold is_quiet_nan, inf_mag. destruct Hf as [? ? ? ? ? ? ?].
  pose proof (expmax_lt f Hf). pose proof (pow2_pos (ffrac f) ltac:(lia)).
  pose proof (Z.mod_pos_bound a W ltac:(apply pow2_pos; lia)) as Hm. fold (mag_of a) in Hm.
  assert (2 * (P / 2) = P) as Eh.
  { rewrite pow2_half, <- pow2_split by lia. done. }
  rewrite !Z.shiftl_mul_pow2, Z.mul_1_l, Z.pow_add_r, Z.pow_1_r by lia.
  assert (uw (fw f) (a * 2) = 2 * mag_of a) as ->.
  { unfold uw. rewrite (pow2_split (fw f)) by lia. symmetry.
    apply Z.mod_unique with (extractSign f a); [lia|]. rewrite Ea at 1. ring. }
  rewrite uw_small by (unfold in_u; rewrite (pow2_split (fw f)) by lia; nia).
  apply eq_iff_eq_true. rewrite !Z.leb_le. nia.
Qed.

Lemma signaling_spec a :
  in_u (fw f) a -> is_signaling_nan f a = (inf_mag <? mag_of a) && (mag_of a <? inf_mag + P / 2).
Proof using Hf.
  intros Ha. destruct (fields a Ha) as (HF & HE & Hs & _ & Hm & Ea).
  unfold is_signaling_nan, inf_mag. destruct Hf as [? ? ? ? Hexp ? ?].
  pose proof (pow2_pos (ffrac f - 1) ltac:(lia)) as HP1. pose proof (pow2_split (ffrac f) ltac:(lia)) as EP.
  assert (P / 2 = 2 ^ (ffrac f - 1)) as -> by (apply pow2_half; lia).
  set (Q := 2 ^ (ffrac f - 1)) in *. set (eb := fw f - 1 - ffrac f) in *.
  pose proof (pow2_pos eb ltac:(lia)) as HG.
  assert (2 * fexpmax f + 1 = Z.ones (eb + 1)) as ->.
  { rewrite Z.ones_equiv, Z.pow_add_r, Z.pow_1_r by lia. lia. }
  rewrite !Z.land_ones, Z.shiftr_div_pow2 by lia. fold Q.
  assert (W = 2 ^ (eb + 1) * Q) as EW by (unfold Q; rewrite <- Z.pow_add_r by lia; f_equal; lia).
  assert ((a / Q) mod 2 ^ (eb + 1) = mag_of a / Q /\ a mod Q = mag_of a mod Q) as [-> ->].
  { assert (forall x y k, 0 <= y < W -> x = y + k * 2 ^ (eb + 1) * Q ->
      (x / Q) mod 2 ^ (eb + 1) = y / Q /\ x mod Q = y mod Q) as F.
    { intros x y k Hy ->. rewrite Z.div_add, !Z.mod_add by lia. split; [|done].
      rewrite Z.mod_small; [done|]. split; [apply Z.div_pos; lia|apply Z.div_lt_upper_bound; lia]. }
    apply (F a (mag_of a) (extractSign f a)).
    - apply Z.mod_pos_bound. lia.
    - rewrite Ea at 1. rewrite EW. ring. }
  pose proof (Z.div_mod (mag_of a) Q ltac:(lia)). pose proof (Z.mod_pos_bound (mag_of a) Q ltac:(lia)).
  apply eq_iff_eq_true. rewrite !andb_true_iff, negb_true_iff, Z.eqb_eq, Z.eqb_neq, !Z.ltb_lt.
  split; [intros [E ?]; rewrite E in *; lia|intros [? ?]]. assert (mag_of a / Q = 2 * fexpmax f) by nia. nia.
Qed.

Lemma nan_cases a : in_u (fw f) a -> nan a <-> is_quiet_nan f a || is_signaling_nan f a = true.
Proof using Hf.
  intros Ha. rewrite quiet_spec, signaling_spec by done. unfold nan. destruct Hf.
  pose proof (Z.div_pos P 2 ltac:(apply Z.lt_le_incl, pow2_pos; lia) ltac:(lia)).
  assert (0 < P / 2).
  { rewrite pow2_half by lia. apply pow2_pos. lia. }
  rewrite orb_true_iff, andb_true_iff, Z.leb_le, !Z.ltb_lt. lia.
Qed.

Lemma silence_nan a : in_u (fw f) a -> nan a -> in_u (fw f) (maybe_silence_nan f a) /\ nan (maybe_silence_nan f a).
Proof using Hf.
  intros Ha Hn. unfold maybe_silence_nan. destruct (is_signaling_nan f a); [|done].
  destruct Hf. assert (in_u (fw f) (Z.lor a (Z.shiftl 1 (ffrac f - 1)))) as Hu.
  { apply lor_in_u; [lia|done|]. rewrite Z.shiftl_1_l. split; [apply Z.lt_le_incl, pow2_pos; lia|].
    apply Z.pow_lt_mono_r; lia. }
  split; [done|]. apply class_exp in Hn as [HE HF]; [|done]. apply class_exp; [done|].
  unfold extractExp, extractFrac in *. rewrite Z.shiftr_lor, Z.shiftr_shiftl_r by lia.
  replace (ffrac f - (ffrac f - 1)) with 1 by lia. rewrite Z.lor_0_r.
  split; [done|]. intros E. apply HF. rewrite Z.land_lor_distr_l in E.
  by apply Z.lor_eq_0_iff in E as [].
Qed.

Lemma propagate_nan a b :
  in_u (fw f) a -> in_u (fw f) b -> nan a \/ nan b ->
  in_u (fw f) (propagateNaN status_zero f a b) /\ nan (propagateNaN status_zero f a b).
Proof using Hf.
  intros Ha Hb Hn. unfold propagateNaN. cbn [default_nan_mode status_zero].
  set (larger := if _ <? _ then _ else _). clearbody larger.
  rewrite (nan_cases a Ha), (nan_cases b Hb) in Hn.
  pose proof (nan_cases a Ha) as Ca. pose proof (nan_cases b Hb) as Cb.
  destruct (pickNaN _ _ _ _ larger) eqn:E; apply silence_nan; try done;
    [apply Cb|apply Ca]; revert E Hn; unfold pickNaN;
    destruct (is_quiet_nan f a), (is_signaling_nan f a), (is_quiet_nan f b), (is_signaling_nan f b), larger;
    cbn; intros; intuition congruence.
Qed.

Lemma default_nan_nan : in_u (fw f) (fdefault_nan f) /\ nan (fdefault_nan f).
Proof using Hf. apply (fo_side f Hf). Qed.

(** ** Operands *)
(** The significand [M] of an operand with its leading bit at the hidden bit and the
    exponent [e] that goes with it. *)
Definition normal_form (a e M : Z) : Prop :=
  P <= M < 2 * P /\ - ffrac f <= e < fexpmax f /\
  forall A B, 0 <= A -> 0 <= B -> A - B = e - 1 -> M * 2 ^ A = fval f a * 2 ^ B.

Lemma lor_hidden x : 0 <= x < P -> Z.lor x P = P + x.
Proof using Hf.
  intros Hx. rewrite Z.lor_comm. replace P with (Z.shiftl 1 (ffrac f)) at 1 by apply Z.shiftl_1_l.
  destruct Hf. rewrite lor_shift_add by (unfold in_u; lia). lia.
Qed.

Lemma norm_operand_spec a :
  in_u (fw f) a -> finite a -> fval f a <> 0 ->
  let '(e, sig) := norm_operand f (extractExp f a) (extractFrac f a) in
  normal_form a e (Z.lor sig P) /\ in_u (fw f) sig.
Proof using Hf.
  intros Ha Hfin Hnz. destruct (fields a Ha) as (HF & HE & _ & _ & Hm & _).
  apply (class_exp a Ha) in Hfin. unfold norm_operand, normal_form, fval in *.
  pose proof (powers f Hf) as (HP & HX & _ & EW & EW2 & _). destruct Hf as [? ? ? ? ? ? _].
  destruct (Z.eqb_spec (extractExp f a) 0) as [E|E].
  - unfold normalizeSubnormal, countLeadingZeros. rewrite (proj2 (Z.eqb_neq _ _)) by done.
    set (F := extractFrac f a) in *. set (l := Z.log2 F).
    pose proof (Z.log2_spec F ltac:(lia)) as Hl. fold l in Hl. rewrite Z.pow_succ_r in Hl by apply Z.log2_nonneg.
    assert (0 <= l < ffrac f) as Hl2.
    { split; [apply Z.log2_nonneg|]. apply Z.log2_lt_pow2; lia. }
    replace (fw f - 1 - l - (fw f - ffrac f - 1)) with (ffrac f - l) by lia. cbv zeta.
    pose proof (pow2_pos (ffrac f - l) ltac:(lia)).
    assert (P = 2 ^ l * 2 ^ (ffrac f - l)) as EP by (rewrite <- Z.pow_add_r by lia; f_equal; lia).
    rewrite Z.shiftl_mul_pow2 by lia.
    rewrite (uw_small (fw f) (F * 2 ^ (ffrac f - l))) by (unfold in_u; nia).
    assert (P <= F * 2 ^ (ffrac f - l) < 2 * P) as HM by nia.
    replace (Z.lor (F * 2 ^ (ffrac f - l)) P) with (F * 2 ^ (ffrac f - l)).
    2: { set (M := F * 2 ^ (ffrac f - l)) in *. replace M with (P + (M - P)) by lia.
         rewrite <- (lor_hidden (M - P)), <- Z.lor_assoc, Z.lor_diag by lia. done. }
    split; [|unfold in_u; nia]. split; [done|]. split; [lia|]. intros A B HA HB EAB.
    rewrite <- Z.mul_assoc, <- Z.pow_add_r by lia. do 2 f_equal. lia.
  - rewrite lor_hidden by done. split; [|unfold in_u; nia]. split; [lia|]. split; [lia|].
    intros A B HA HB EAB. rewrite <- Z.mul_assoc, <- Z.pow_add_r by lia. do 2 f_equal. lia.
Qed.

Lemma bias_spec :
  1 <= bias /\ fexpmax f = 2 * bias + 1 /\ fexpmax f <= 16383 /\ ffrac f <= 112.
Proof using Hf.
  unfold bias. destruct Hf as [? ? ? ? Hexp Hb [? _]].
  pose proof (Z.pow_le_mono_r 2 3 (fw f - 1 - ffrac f) ltac:(lia) ltac:(lia)).
  pose proof (Z.pow_le_mono_r 2 (fw f - 1 - ffrac f) 14 ltac:(lia) ltac:(lia)).
  rewrite (pow2_split (fw f - 1 - ffrac f)) in * by lia. set (h := 2 ^ (fw f - 1 - ffrac f - 1)) in *.
  replace (fexpmax f - 1) with ((h - 1) * 2) by lia. rewrite Z.div_mul by lia.
  change (2 ^ 3) with 8 in *. change (2 ^ 14) with 16384 in *. lia.
Qed.

(** ** Multiplication *)
Definition mul_result (a b z : Z) : Prop :=
  in_u (fw f) z /\
  (nan z <-> nan a \/ nan b \/ infinite a /\ mag_of b = 0 \/ mag_of a = 0 /\ infinite b) /\
  (nan z \/ sign_of z = Z.lxor (sign_of a) (sign_of b)) /\
  (infinite a \/ infinite b -> nan z \/ infinite z) /\
  (finite a -> finite b ->
     rounds f (fval f a * fval f b) (2 ^ (bias + ffrac f - 1)) (mag_of z)).

Lemma pow_ratio M F A B A' B' :
  0 <= A -> 0 <= B -> 0 <= A' -> 0 <= B' -> A - B = A' - B' ->
  M * 2 ^ A = F * 2 ^ B -> M * 2 ^ A' = F * 2 ^ B'.
Proof using.
  intros HA HB HA' HB' E H. pose proof (pow2_pos B HB).
  apply (Z.mul_cancel_r _ _ (2 ^ B)); [lia|].
  rewrite <- Z.mul_assoc, <- Z.pow_add_r by lia. replace (A' + B) with (A + B') by lia.
  rewrite Z.pow_add_r, Z.mul_assoc, H by lia. ring.
Qed.

Lemma product_form a b ea eb Ma Mb A B :
  normal_form a ea Ma -> normal_form b eb Mb ->
  0 <= A -> 0 <= B -> A - B = ea + eb - 2 ->
  Ma * Mb * 2 ^ A = fval f a * fval f b * 2 ^ B.
Proof using.
  intros (_ & _ & Ha) (_ & _ & Hb) HA HB E.
  specialize (Ha (Z.max 0 (ea - 1)) (Z.max 0 (1 - ea)) ltac:(lia) ltac:(lia) ltac:(lia)).
  specialize (Hb (Z.max 0 (eb - 1)) (Z.max 0 (1 - eb)) ltac:(lia) ltac:(lia) ltac:(lia)).
  apply (pow_ratio _ _ (Z.max 0 (ea - 1) + Z.max 0 (eb - 1)) (Z.max 0 (1 - ea) + Z.max 0 (1 - eb)));
    try lia.
  rewrite !Z.pow_add_r by lia.
  transitivity (Ma * 2 ^ Z.max 0 (ea - 1) * (Mb * 2 ^ Z.max 0 (eb - 1))); [ring|]. rewrite Ha, Hb. ring.
Qed.

(** The product of two significands, 2 * fw bits wide, jammed to fw bits. *)
Definition mul_finish (s zExp zSig : Z) : Z :=
  if W <=? uw (fw f) (Z.shiftl zSig 1) then roundAndPackFloat status_zero f s zExp zSig
  else roundAndPackFloat status_zero f s (zExp - 1) (uw (fw f) (Z.shiftl zSig 1)).

Lemma mul_cross a b ea eb Ma Mb c r :
  normal_form a ea Ma -> normal_form b eb Mb -> 0 <= c ->
  rounds f (Ma * X * (Mb * (2 * X)) * 2 ^ c * 2 ^ Z.max 0 (ea + eb - bias - c))
    (2 ^ fw f * 2 ^ (fextra f + Z.max 0 (- (ea + eb - bias - c)))) r ->
  rounds f (fval f a * fval f b) (2 ^ (bias + ffrac f - 1)) r.
Proof using Hf.
  intros Na Nb Hc. pose proof bias_spec. destruct Hf as [Hfr Hex Hwd _ _ _ _].
  apply rounds_cross; [apply Z.mul_pos_pos; apply pow2_pos; lia|apply pow2_pos; lia|].
  rewrite <- Z.pow_add_r by lia.
  rewrite <- (product_form a b ea eb Ma Mb
    (bias + ffrac f + 2 * fextra f + c + Z.max 0 (ea + eb - bias - c))) by (done || lia).
  replace (bias + ffrac f + 2 * fextra f + c + Z.max 0 (ea + eb - bias - c)) with
    ((bias + ffrac f - 1) + 1 + fextra f + fextra f + c + Z.max 0 (ea + eb - bias - c)) by lia.
  rewrite (Z.pow_add_r _ _ (Z.max _ _)), (Z.pow_add_r _ _ c), !(Z.pow_add_r _ _ (fextra f)),
    (Z.pow_add_r _ _ 1) by lia. ring.
Qed.

Lemma jam_ge n k : 0 <= k -> n / 2 ^ k <= jam n k.
Proof using.
  intros Hk. rewrite jam_spec by done. case_match; [lia|].
  pose proof (Z.div_mod (n / 2 ^ k) 2). pose proof (Z.mod_pos_bound (n / 2 ^ k) 2). lia.
Qed.

Lemma mul_core a b ea eb Ma Mb s :
  s = 0 \/ s = 1 -> normal_form a ea Ma -> normal_form b eb Mb ->
  exists r, rounds f (fval f a * fval f b) (2 ^ (bias + ffrac f - 1)) r /\ 0 <= r < W /\
    mul_finish s (ea + eb - bias) (jam (Ma * X * (Mb * (2 * X))) (fw f)) = s * W + r.
Proof using Hf.
  intros Hs Na Nb. pose proof (powers f Hf) as (HP & HX & E2 & E1 & E0 & _ & EX & Hh).
  pose proof bias_spec as (Hb1 & Hb2 & Hb3 & Hb6). unfold mul_finish.
  pose proof Na as ([Ha1 Ha2] & Hea & _). pose proof Nb as ([Hb4 Hb5] & Heb & _).
  assert (0 < 2 ^ fw f) as HW2 by lia.
  set (N := Ma * X * (Mb * (2 * X))).
  assert (0 <= N < 2 ^ (fw f - 1) * 2 ^ fw f) as HN.
  { assert (0 <= Ma * X < W) as HA by (clear - Ha1 Ha2 HP HX E1; nia).
    assert (0 <= Mb * (2 * X) < 2 ^ fw f) as HB by (clear - Hb4 Hb5 HP HX E0 E1; nia).
    unfold N. split; [apply Z.mul_nonneg_nonneg; lia|apply Z.mul_lt_mono_nonneg; lia]. }
  destruct Hf as [Hfr Hex Hwd _ _ _ _].
  pose proof (jam_lt N (fw f) (fw f - 1) ltac:(lia) ltac:(lia) HN) as HS.
  pose proof (sticky_jam_exact (fextra f - 1) N (fw f) ltac:(lia) ltac:(lia)) as Hst.
  pose proof (sticky_jam_exact (fextra f) N (fw f) ltac:(lia) ltac:(lia)) as Hst'.
  set (S := jam N (fw f)) in *.
  rewrite Z.shiftl_mul_pow2, Z.pow_1_r, uw_small by (unfold in_u; lia).
  destruct (Z.leb_spec W (S * 2)) as [HS2|HS2].
  - edestruct (roundAndPack_spec f Hf s (ea + eb - bias) S N (2 ^ fw f)) as (r & Hr & Hr2 & Er);
      [done|lia|lia|done|done|]. exists r. split; [|done].
    apply (mul_cross a b ea eb Ma Mb 0); [done|done|lia|]. by rewrite Z.pow_0_r, Z.mul_1_r, Z.sub_0_r.
  - edestruct (roundAndPack_spec f Hf s (ea + eb - bias - 1) (S * 2) (N * 2 ^ 1) (2 ^ fw f))
      as (r & Hr & Hr2 & Er); [done|lia| |done| |].
    + assert (P * 2 ^ (fextra f - 1) <= S); [|nia].
      etransitivity; [|apply jam_ge; lia]. apply Z.div_le_lower_bound; [done|].
      replace (2 ^ fw f * (P * 2 ^ (fextra f - 1))) with (P * X * (P * (2 * X))) by (rewrite <- E0, E1, <- EX; ring).
      clear - Ha1 Hb4 HP HX. apply Z.mul_le_mono_nonneg; nia.
    + apply (sticky_shiftl _ 1); [lia|done].
    + exists r. split; [|done]. by apply (mul_cross a b ea eb Ma Mb 1).
Qed.

(** What a result with sign [s] and magnitude [r] is. *)
Lemma packed s r :
  s = 0 \/ s = 1 -> 0 <= r <= inf_mag ->
  let z := s * W + r in
  in_u (fw f) z /\ sign_of z = s /\ mag_of z = r /\ (nan z <-> False) /\ (infinite z <-> r = inf_mag).
Proof using Hf.
  intros Hs Hr. pose proof (expmax_lt f Hf). pose proof (powers f Hf) as (HP & _).
  unfold inf_mag in Hr. destruct (sign_pack s r Hs ltac:(lia)) as (Hu & E1 & E2).
  cbv zeta. unfold nan, infinite. rewrite E1, E2. split; [done|]. unfold inf_mag. lia.
Qed.

Lemma rounds_le_inf num den r : 0 <= num -> 0 < den -> rounds f num den r -> 0 <= r <= inf_mag.
Proof using Hf.
  intros Hn Hd (e & m & He & _ & _ & Hm & ->). unfold inf_mag. pose proof (powers f Hf) as (HP & _).
  pose proof bias_spec. pose proof (pow2_pos e He).
  assert (0 <= m) by (destruct Hm as [Hm _]; nia). split; [|lia].
  apply Z.min_glb; [nia|]. apply Z.mul_nonneg_nonneg; lia.
Qed.

Lemma rounds_zero den : 0 < den -> rounds f 0 den 0.
Proof using Hf.
  intros Hd. pose proof (powers f Hf) as (HP & _). pose proof bias_spec. exists 0, 0.
  unfold nearest_even. pose proof (fo_frac f Hf). pose proof (pow2_pos (ffrac f + 1 + 0) ltac:(lia)).
  assert (0 <= fexpmax f * P) by (apply Z.mul_nonneg_nonneg; lia).
  split_and!; lia.
Qed.

Lemma pack_inf s : s = 0 \/ s = 1 -> packFloat f s (fexpmax f) 0 = s * W + inf_mag.
Proof using Hf.
  intros Hs. pose proof bias_spec. pose proof (expmax_lt f Hf). pose proof (powers f Hf) as (HP & _).
  rewrite (packFloat_spec f Hf) by (done || lia). unfold inf_mag. lia.
Qed.
Lemma pack_zero s : s = 0 \/ s = 1 -> packFloat f s 0 0 = s * W + 0.
Proof using Hf.
  intros Hs. rewrite (packFloat_spec f Hf) by (done || (pose proof (powers f Hf); lia)). lia.
Qed.

Lemma sign_xor a b :
  in_u (fw f) a -> in_u (fw f) b ->
  Z.lxor (sign_of a) (sign_of b) = 0 \/ Z.lxor (sign_of a) (sign_of b) = 1.
Proof using Hf.
  intros Ha Hb. destruct (fields a Ha) as (_ & _ & [H1|H1] & <- & _), (fields b Hb) as (_ & _ & [H2|H2] & <- & _);
    rewrite H1, H2; auto.
Qed.

(** An operand is a NaN, an infinity, a zero or has a normal form. *)
Inductive operand (a : Z) : Prop :=
| op_nan : extractExp f a = fexpmax f -> extractFrac f a <> 0 -> nan a -> operand a
| op_inf : extractExp f a = fexpmax f -> extractFrac f a = 0 -> infinite a -> operand a
| op_zero : extractExp f a = 0 -> extractFrac f a = 0 -> finite a -> mag_of a = 0 -> operand a
| op_fin e sig : extractExp f a <> fexpmax f -> (extractExp f a <> 0 \/ extractFrac f a <> 0) ->
    norm_operand f (extractExp f a) (extractFrac f a) = (e, sig) -> normal_form a e (Z.lor sig P) ->
    in_u (fw f) sig -> finite a -> mag_of a <> 0 -> operand a.

Lemma operand_cases a : in_u (fw f) a -> operand a.
Proof using Hf.
  intros Ha. destruct (class_exp a Ha) as (Cf & Cn & Ci). destruct (fields a Ha) as (HF & HE & _ & _ & Hm & _).
  destruct (decide (extractExp f a = fexpmax f)) as [E|E].
  - destruct (decide (extractFrac f a = 0)) as [E'|E'].
    + apply op_inf; [done|done|]. by apply Ci.
    + apply op_nan; [done|done|]. by apply Cn.
  - pose proof (proj2 Cf E) as Hfin. pose proof (fval_zero a Ha) as Hz.
    destruct (decide (mag_of a = 0)) as [E'|E'].
    + pose proof (powers f Hf) as (HP & _). apply op_zero; [nia|nia|done|done].
    + pose proof (norm_operand_spec a Ha Hfin ltac:(tauto)) as Hs.
      destruct (norm_operand _ _ _) as [e sig] eqn:En. destruct Hs. apply (op_fin a e sig); try done. lia.
Qed.

(** Classes are disjoint. *)
Lemma class_disjoint a :
  (nan a -> infinite a -> False) /\ (nan a -> finite a -> False) /\ (infinite a -> finite a -> False) /\
  (infinite a -> mag_of a <> 0) /\ (nan a -> mag_of a <> 0).
Proof using Hf.
  pose proof bias_spec. pose proof (powers f Hf) as (HP & _).
  assert (0 < inf_mag) by (apply Z.mul_pos_pos; lia). unfold nan, infinite, finite. lia.
Qed.

Lemma mul_nan a b z :
  in_u (fw f) z -> nan z -> ~ (finite a /\ finite b) ->
  (nan a \/ nan b \/ infinite a /\ mag_of b = 0 \/ mag_of a = 0 /\ infinite b) -> mul_result a b z.
Proof using. intros Hu Hn Hfin Hc. split; [done|]. split; [tauto|]. tauto. Qed.

Lemma mul_packed a b s r :
  s = Z.lxor (sign_of a) (sign_of b) -> s = 0 \/ s = 1 -> 0 <= r <= inf_mag -> ~ nan a -> ~ nan b ->
  (infinite a \/ infinite b -> r = inf_mag /\ mag_of a <> 0 /\ mag_of b <> 0) ->
  (finite a -> finite b -> rounds f (fval f a * fval f b) (2 ^ (bias + ffrac f - 1)) r) ->
  mul_result a b (s * W + r).
Proof using Hf.
  intros Es Hs Hr Ha Hb Hi Hfin. destruct (packed s r Hs Hr) as (Hu & E1 & E2 & En & Ei).
  split; [done|]. rewrite E1, E2, En, Ei. split; [|tauto]. tauto.
Qed.

Lemma lor_eqb_0 x y : (Z.lor x y =? 0) = (x =? 0) && (y =? 0).
Proof using.
  apply eq_iff_eq_true. rewrite andb_true_iff, !Z.eqb_eq. apply Z.lor_eq_0_iff.
Qed.

Lemma mul_cases_spec a b k :
  in_u (fw f) a -> in_u (fw f) b ->
  (forall s ea sa eb sb, s = 0 \/ s = 1 ->
     normal_form a ea (Z.lor sa P) -> normal_form b eb (Z.lor sb P) ->
     k s ea sa eb sb = Some (mul_finish s (ea + eb - bias) (jam (Z.lor sa P * X * (Z.lor sb P * (2 * X))) (fw f)))) ->
  exists z, mul_cases status_zero f a b k = Some z /\ mul_result a b z.
Proof using Hf.
  intros Ha Hb Hk. pose proof (sign_xor a b Ha Hb) as Hs. pose proof bias_spec.
  pose proof (class_disjoint a) as Da. pose proof (class_disjoint b) as Db.
  assert (fexpmax f <> 0) as Hmax by lia. clear H.
  pose proof (propagate_nan a b Ha Hb) as Hp. pose proof default_nan_nan as [Hd1 Hd2].
  destruct (fields a Ha) as (_ & _ & _ & Sa & _). destruct (fields b Hb) as (_ & _ & _ & Sb & _).
  unfold mul_cases. rewrite Sa, Sb, !lor_eqb_0. set (s := Z.lxor (sign_of a) (sign_of b)) in *.
  assert (0 <= 0 <= inf_mag /\ 0 <= inf_mag <= inf_mag) as [Hz Hi].
  { unfold inf_mag. pose proof (powers f Hf) as (HP & _). pose proof bias_spec. nia. }
  assert (fval f a = 0 <-> mag_of a = 0) as Za by by apply fval_zero.
  assert (fval f b = 0 <-> mag_of b = 0) as Zb by by apply fval_zero.
  destruct (operand_cases a Ha) as [Ea Fa Ca|Ea Fa Ca|Ea Fa Ca Ma|ea sa Ea Fa Na NFa Ua Ca Ma];
  destruct (operand_cases b Hb) as [Eb Fb Cb|Eb Fb Cb|Eb Fb Cb Mb|eb sb Eb Fb Nb NFb Ub Cb Mb];
  split_tests; try (eexists; split; [reflexivity|]).
  all: try (apply mul_nan; [by try apply Hp; auto|by try apply Hp; auto|tauto|tauto]).
  all: rewrite ?pack_inf, ?pack_zero by done.
  all: try (apply mul_packed; [done|done|done|tauto|tauto|tauto|try tauto; intros _ _]).
  all: try (assert (fval f a * fval f b = 0) as -> by (apply Z.mul_eq_0; tauto);
            apply rounds_zero, pow2_pos; pose proof bias_spec; pose proof (fo_frac f Hf); lia).
  all: rewrite Na, Nb, (Hk s ea sa eb sb) by done;
    destruct (mul_core a b ea eb _ _ s Hs NFa NFb) as (r & Hr & _ & ->).
  all: eexists; split; [reflexivity|].
  all: clear - Hf Ha Hb Hr Da Db Ca Cb Hs.
  all: apply mul_packed; [reflexivity|exact Hs| |tauto|tauto|tauto|intros _ _; exact Hr].
  all: apply (rounds_le_inf _ _ r) in Hr; [exact Hr| |].
  all: try (apply Z.mul_nonneg_nonneg; by apply fval_nonneg).
  all: apply pow2_pos; pose proof bias_spec; pose proof (fo_frac f Hf); lia.
Qed.
End Classes.

Lemma squash_zero f a : squash_input_denormal status_zero f a = a.
Proof. done. Qed.

(** A significand shifted left within the word. *)
Lemma shl_word w x n : 0 <= n <= w -> 0 <= x < 2 ^ (w - n) -> uw w (Z.shiftl x n) = x * 2 ^ n.
Proof.
  intros Hn Hx. rewrite Z.shiftl_mul_pow2 by lia. apply uw_small. unfold in_u.
  rewrite (pow2_div n w) by lia. pose proof (pow2_pos n ltac:(lia)). nia.
Qed.

Lemma float32_mul_spec a b :
  in_u 32 a -> in_u 32 b -> exists z, float32_mul status_zero a b = Some z /\ mul_result F32 a b z.
Proof.
  intros Ha Hb. unfold float32_mul. rewrite !squash_zero.
  apply (mul_cases_spec F32 F32_ok); [done|done|].
  intros s ea sa eb sb Hs ((Ha1 & Ha2) & _) ((Hb1 & Hb2) & _). cbn [ffrac fextra fw F32] in *.
  change 0x00800000 with (2 ^ 23). set (Ma := Z.lor sa (2 ^ 23)) in *. set (Mb := Z.lor sb (2 ^ 23)) in *.
  cbv zeta. rewrite (shl_word 32 Ma), (shl_word 32 Mb) by lia.
  rewrite (uw_small 64) by (unfold in_u; nia).
  unfold shift64RightJamming. rewrite shiftRightJamming_jam; [| |unfold in_u; nia|lia].
  2: { exists 6. lia. }
  change (2 * 2 ^ 7) with (2 ^ 8). set (S := jam _ 32).
  assert (in_u 32 S) as HS by (apply jam_lt; [lia|lia|nia]). clearbody S.
  by rewrite (uw_small 32 S).
Qed.

(** ** 128-bit arithmetic *)
Lemma add_carry w x y :
  0 <= w -> in_u w x -> in_u w y -> uw w (x + y) + 2 ^ w * b2z (uw w (x + y) <? y) = x + y.
Proof.
  unfold in_u, uw. intros Hw Hx Hy. pose proof (Z.div_mod (x + y) (2 ^ w) ltac:(lia)).
  pose proof (Z.mod_pos_bound (x + y) (2 ^ w) ltac:(lia)).
  assert ((x + y) / 2 ^ w = 0 \/ (x + y) / 2 ^ w = 1) as [E|E].
  { assert (0 <= (x + y) / 2 ^ w < 2); [|lia]. split; [apply Z.div_pos; lia|apply Z.div_lt_upper_bound; lia]. }
  all: rewrite E in *; destruct (Z.ltb_spec ((x + y) mod 2 ^ w) y); cbn [b2z]; lia.
Qed.

Lemma word_halves w x :
  0 <= w -> in_u (w + w) x ->
  let h := uw w (Z.shiftr x w) in let l := uw w x in
  in_u w h /\ in_u w l /\ x = h * 2 ^ w + l /\ Z.shiftr x w = h /\
  uw (w + w) (Z.shiftl x w) = l * 2 ^ w.
Proof.
  intros Hw Hx h l. unfold in_u, uw in *. pose proof (pow2_pos w Hw) as HW. rewrite Z.pow_add_r in * by lia.
  pose proof (Z.div_mod x (2 ^ w) ltac:(lia)). subst h l.
  rewrite Z.shiftr_div_pow2, Z.shiftl_mul_pow2 by lia.
  assert (0 <= x / 2 ^ w < 2 ^ w) by (split; [apply Z.div_pos; lia|apply Z.div_lt_upper_bound; lia]).
  rewrite (Z.mod_small (x / 2 ^ w)), Zmult_mod_distr_r by lia.
  pose proof (Z.mod_pos_bound x (2 ^ w) ltac:(lia)). split_and!; lia.
Qed.

(** mul64To128: the product, high and low word. *)
Lemma mul64To128_spec a b :
  in_u 64 a -> in_u 64 b ->
  let z := mul64To128 a b in in_u 64 z.1 /\ in_u 64 z.2 /\ z.1 * 2 ^ 64 + z.2 = a * b.
Proof.
  intros Ha Hb. unfold mul64To128. cbv zeta. cbn [fst snd].
  pose proof (word_halves 32 a ltac:(lia) Ha) as (Hah & Hal & Ea & _).
  pose proof (word_halves 32 b ltac:(lia) Hb) as (Hbh & Hbl & Eb & _).
  set (ah := u32 (Z.shiftr a 32)) in *. set (al := u32 a) in *.
  set (bh := u32 (Z.shiftr b 32)) in *. set (bl := u32 b) in *. clearbody ah al bh bl.
  assert (forall x y, in_u 32 x -> in_u 32 y -> 0 <= x * y <= (2 ^ 32 - 1) * (2 ^ 32 - 1)) as M.
  { unfold in_u. intros x y Hx Hy. split; [|apply Z.mul_le_mono_nonneg]; lia. }
  pose proof (M al bl Hal Hbl). pose proof (M al bh Hal Hbh).
  pose proof (M ah bl Hah Hbl). pose proof (M ah bh Hah Hbh).
  assert (a * b = ah * bh * 2 ^ 64 + (al * bh + ah * bl) * 2 ^ 32 + al * bl) as Eab by (rewrite Ea, Eb; ring).
  assert (0 <= a * b < 2 ^ 64 * 2 ^ 64) as Hab by (unfold in_u in *; nia).
  set (ll := al * bl) in *. set (lh := al * bh) in *. set (hl := ah * bl) in *. set (hh := ah * bh) in *.
  rewrite Eab in *. clear - H H0 H1 H2 Hab. clearbody ll lh hl hh.
  rewrite (uw_small 64 ll), (uw_small 64 lh), (uw_small 64 hl), (uw_small 64 hh) by (unfold in_u; lia).
  pose proof (add_carry 64 lh hl ltac:(lia) ltac:(unfold in_u; lia) ltac:(unfold in_u; lia)) as C1.
  set (m := u64 (lh + hl)) in *. assert (in_u 64 m) as Hm by (apply uw_range; lia).
  pose proof (word_halves 32 m ltac:(lia) Hm) as (Hmh & Hml & Em & E1 & E2).
  change (32 + 32) with 64 in *. rewrite E1, E2. set (mh := u32 (Z.shiftr m 32)) in *. set (ml := u32 m) in *.
  clearbody m mh ml. unfold in_u in Hm, Hmh, Hml.
  pose proof (add_carry 64 ll (ml * 2 ^ 32) ltac:(lia) ltac:(unfold in_u; lia) ltac:(unfold in_u; lia)) as C2.
  set (z1 := u64 (ll + ml * 2 ^ 32)) in *. assert (in_u 64 z1) as Hz by (apply uw_range; lia).
  set (c1 := b2z (m <? hl)) in *. set (c2 := b2z (z1 <? ml * 2 ^ 32)) in *.
  rewrite Z.shiftl_mul_pow2 by lia.
  assert (0 <= c1 <= 1 /\ 0 <= c2 <= 1) as [H3 H4] by
    (unfold c1, c2; split; [destruct (m <? hl)|destruct (z1 <? _)]; cbn; lia).
  clearbody c1 c2 z1. unfold in_u in *.
  assert ((hh + (c1 * 2 ^ 32 + mh) + c2) * 2 ^ 64 + z1 = hh * 2 ^ 64 + (lh + hl) * 2 ^ 32 + ll) by lia.
  rewrite (uw_small 64 (hh + _)), uw_small by (unfold in_u; lia). lia.
Qed.

Lemma jam_halves w z0 z1 :
  0 <= w -> in_u w z1 -> Z.lor z0 (b2z (negb (z1 =? 0))) = jam (z0 * 2 ^ w + z1) w.
Proof.
  unfold in_u, jam. intros Hw Hz. rewrite Z.shiftr_div_pow2, Z.add_comm by lia.
  by rewrite Z.div_add, Z.mod_add, Z.div_small, Z.mod_small by lia.
Qed.

Lemma float64_mul_spec a b :
  in_u 64 a -> in_u 64 b -> exists z, float64_mul status_zero a b = Some z /\ mul_result F64 a b z.
Proof.
  intros Ha Hb. unfold float64_mul. rewrite !squash_zero.
  apply (mul_cases_spec F64 F64_ok); [done|done|].
  intros s ea sa eb sb Hs ((Ha1 & Ha2) & _) ((Hb1 & Hb2) & _). cbn [ffrac fextra fw F64] in *.
  change 0x0010000000000000 with (2 ^ 52). set (Ma := Z.lor sa (2 ^ 52)) in *.
  set (Mb := Z.lor sb (2 ^ 52)) in *. clearbody Ma Mb.
  cbv zeta. rewrite (shl_word 64 Ma), (shl_word 64 Mb) by lia.
  pose proof (mul64To128_spec (Ma * 2 ^ 10) (Mb * 2 ^ 11) ltac:(unfold in_u; lia) ltac:(unfold in_u; lia)) as H.
  destruct (mul64To128 _ _) as [z0 z1]. cbn [fst snd] in H. destruct H as (H0 & H1 & E).
  rewrite (jam_halves 64), E by (done || lia). change (2 * 2 ^ 10) with (2 ^ 11). done.
Qed.

(** C30: floating-point multiplication (mul.s and mul.d run it) always returns, and
    returns what IEEE 754 prescribes in round-to-nearest-even mode, in both precisions
    and for every pair of encodings: a NaN exactly when an operand is one or the product
    is infinity times zero; otherwise the exclusive or of the signs, infinity for an
    infinite operand, and for finite operands (zeros and subnormals included) the
    magnitude nearest to the exact product, ties to even, subnormal on underflow and
    infinity on overflow. *)
Theorem float_mul_correct a b :
  (in_u 32 a -> in_u 32 b -> exists z, float32_mul status_zero a b = Some z /\ mul_result F32 a b z) /\
  (in_u 64 a -> in_u 64 b -> exists z, float64_mul status_zero a b = Some z /\ mul_result F64 a b z).
Proof. split; [apply float32_mul_spec|apply float64_mul_spec]. Qed.

(** 0x1.8p+0 * 0x1.4p+1 in single precision; the product of the smallest subnormal
    double and one half. *)
Lemma float_mul_correct_witness :
  (exists z, float32_mul status_zero 0x3FC00000 0x40200000 = Some z /\ mul_result F32 0x3FC00000 0x40200000 z) /\
  (exists z, float64_mul status_zero 1 0x3FE0000000000000 = Some z /\ mul_result F64 1 0x3FE0000000000000 z).
Proof.
  split; [apply (float_mul_correct 0x3FC00000 0x40200000)|apply (float_mul_correct 1 0x3FE0000000000000)];
    unfold in_u; lia.
Defined.
