(* ===== verification/FloatAdd.v ===== *)
(** * Floating point addition and subtraction

    addFloatSigs and subFloatSigs of Softfloat.v return the correctly rounded sum and
    difference of the magnitudes.  An exact sum is an integer number of smallest
    subnormals, so the reference is [rounds] with denominator 1. *)
From S2P Require Import Prelude Softfloat FloatSpec FloatProps.

(** The operand that keeps its place is even, so jamming the other one is jamming the
    whole sum or difference. *)
Lemma jam_add A B d : 0 <= d -> A mod 2 = 0 -> A + jam B d = jam (A * 2 ^ d + B) d.
Proof.
  intros Hd HA. pose proof (pow2_pos d Hd). apply Z.mod_divide in HA as [k ->]; [|lia].
  rewrite !jam_spec, (Z.add_comm _ B), Z.mod_add, Z.div_add by lia.
  destruct (B mod 2 ^ d =? 0); [lia|]. rewrite Z.div_add by lia. lia.
Qed.

Lemma jam_sub A B d : 0 <= d -> A mod 2 = 0 -> A - jam B d = jam (A * 2 ^ d - B) d.
Proof.
  intros Hd HA. pose proof (pow2_pos d Hd). apply Z.mod_divide in HA as [k ->]; [|lia].
  rewrite !jam_spec by lia. pose proof (Z.div_mod B (2 ^ d) ltac:(lia)) as E.
  pose proof (Z.mod_pos_bound B (2 ^ d) ltac:(lia)) as Hr.
  set (q := B / 2 ^ d) in *. set (r := B mod 2 ^ d) in *.
  destruct (Z.eqb_spec r 0) as [E0|E0].
  - replace (k * 2 * 2 ^ d - B) with ((k * 2 - q) * 2 ^ d) by (rewrite E, E0; ring).
    by rewrite Z_mod_mult, Z.div_mul by lia.
  - assert (k * 2 * 2 ^ d - B = 2 ^ d * (k * 2 - q - 1) + (2 ^ d - r)) as EN by (rewrite E; ring).
    assert (0 <= 2 ^ d - r < 2 ^ d \/ 2 ^ d < 2 ^ d - r <= 0) as Hb by lia.
    rewrite <- (Z.mod_unique _ _ _ _ Hb EN), <- (Z.div_unique _ _ _ _ Hb EN).
    rewrite (proj2 (Z.eqb_neq _ _)) by lia.
    pose proof (Z.div_mod q 2). pose proof (Z.mod_pos_bound q 2).
    pose proof (Z.div_mod (k * 2 - q - 1) 2). pose proof (Z.mod_pos_bound (k * 2 - q - 1) 2). lia.
Qed.

Section AddSub.
Context (f : fmt) (Hf : fmt_ok f).
#[local] Abbreviation W := (2 ^ (fw f - 1)).
#[local] Abbreviation P := (2 ^ ffrac f).
#[local] Abbreviation X := (2 ^ fextra f).
#[local] Abbreviation Y := (2 ^ (fextra f - 1)).

(** The tail of addFloatSigs: one bit of room, or renormalised by one place. *)
Definition add_finish (s e Zs : Z) : Z :=
  let zSig := uw (fw f) (Z.shiftl (uw (fw f) Zs) 1) in
  if W <=? zSig then roundAndPackFloat status_zero f s e (uw (fw f) Zs)
  else roundAndPackFloat status_zero f s (e - 1) zSig.

Lemma even_pow x n : 1 <= n -> (x * 2 ^ n) mod 2 = 0.
Proof using.
  intros. rewrite (pow2_split n) by lia. replace (x * (2 * 2 ^ (n - 1))) with (x * 2 ^ (n - 1) * 2) by ring.
  apply Z_mod_mult.
Qed.

Lemma add_core s e Ma Mb d v :
  s = 0 \/ s = 1 -> P <= Ma < 2 * P -> 0 <= Mb < 2 * P -> 0 <= d <= e - 1 -> e < fexpmax f ->
  v = Ma * 2 ^ (e - 1) + Mb * 2 ^ (e - 1 - d) ->
  exists r, rounds f v 1 r /\ 0 <= r < W /\ add_finish s e (Ma * Y + jam (Mb * Y) d) = s * W + r.
Proof using Hf.
  intros Hs HMa HMb Hd He ->. pose proof (powers f Hf) as (HP & HX & E2 & E1 & E0 & Hh & EX & Hh0).
  pose proof (bias_spec f Hf) as (_ & _ & Hmax & _). unfold add_finish. cbv zeta.
  destruct Hf as [Hfr Hex Hwd _ _ _ _].
  assert (P * Y = 2 ^ (fw f - 3)) as EPY by (rewrite <- Z.pow_add_r by lia; f_equal; lia).
  assert (0 <= jam (Mb * Y) d < 2 ^ (fw f - 2)) as HJ.
  { apply jam_lt; [lia|lia|]. pose proof (pow2_pos d ltac:(lia)). nia. }
  rewrite jam_add by (try apply even_pow; lia).
  replace (Ma * Y * 2 ^ d + Mb * Y) with ((Ma * 2 ^ d + Mb) * Y) by ring.
  set (N := (Ma * 2 ^ d + Mb) * Y). pose proof (pow2_pos d ltac:(lia)) as HD.
  assert (forall c, 0 <= c <= 1 -> (N * 2 ^ c * 2 ^ Z.max 0 (e - c)) * 1 =
    (Ma * 2 ^ (e - 1) + Mb * 2 ^ (e - 1 - d)) * (2 ^ d * 2 ^ (fextra f + Z.max 0 (- (e - c))))) as Hv.
  { intros c Hc. rewrite Z.max_r, Z.max_l, Z.add_0_r by lia. unfold N.
    rewrite Z.mul_1_r, <- !Z.mul_assoc, <- (Z.pow_add_r 2 c) by lia.
    replace (c + (e - c)) with (1 + (d + (e - 1 - d))) by lia.
    replace (e - 1) with (d + (e - 1 - d)) at 2 by lia. rewrite !Z.pow_add_r, <- EX by lia. ring. }
  assert (P * Y <= jam N d < W) as HZ.
  { unfold N. replace ((Ma * 2 ^ d + Mb) * Y) with (Ma * Y * 2 ^ d + Mb * Y) by ring.
    rewrite <- jam_add by (try apply even_pow; lia). nia. }
  rewrite (uw_small (fw f) (jam N d)) by (unfold in_u; nia).
  rewrite Z.shiftl_mul_pow2, Z.pow_1_r, (uw_small (fw f) (jam N d * 2)) by (unfold in_u; nia).
  destruct (Z.leb_spec W (jam N d * 2)) as [HS|HS].
  - edestruct (roundAndPack_spec f Hf s e (jam N d) (N * 2 ^ 0) (2 ^ d)) as (r & Hr & Hr2 & Er);
      [done|lia|lia|done|rewrite Z.pow_0_r, Z.mul_1_r; apply sticky_jam_exact; lia|].
    exists r. split; [|done]. specialize (Hv 0 ltac:(lia)). rewrite Z.sub_0_r in Hv.
    eapply rounds_cross; [| |symmetry in Hv; rewrite Hv; apply Z.mul_comm|exact Hr]; lia.
  - edestruct (roundAndPack_spec f Hf s (e - 1) (jam N d * 2) (N * 2 ^ 1) (2 ^ d)) as (r & Hr & Hr2 & Er);
      [done|lia|nia|done| |].
    { apply (sticky_shiftl _ 1); [lia|]. apply sticky_jam_exact; lia. }
    exists r. split; [|done]. specialize (Hv 1 ltac:(lia)).
    eapply rounds_cross; [| |symmetry in Hv; rewrite Hv; apply Z.mul_comm|exact Hr]; lia.
Qed.

(** ** Renormalisation after a subtraction *)
Lemma clz_spec Zs :
  0 < Zs < W ->
  let c := countLeadingZeros (fw f) Zs - 1 in
  0 <= c <= fw f /\ 2 ^ (fw f - 2) <= Zs * 2 ^ c < W.
Proof using Hf.
  intros HZ. unfold countLeadingZeros. rewrite (proj2 (Z.eqb_neq _ _)) by lia. cbv zeta.
  pose proof (Z.log2_spec Zs ltac:(lia)) as Hl. pose proof (Z.log2_nonneg Zs) as Hn.
  assert (Z.log2 Zs < fw f - 1) by (apply Z.log2_lt_pow2; lia).
  set (l := Z.log2 Zs) in *. replace (fw f - 1 - l - 1) with (fw f - 2 - l) by lia.
  split; [lia|]. rewrite Z.pow_succ_r in Hl by lia. pose proof (pow2_pos (fw f - 2 - l) ltac:(lia)).
  pose proof (pow2_split (fw f - 1)) as E. replace (fw f - 1 - 1) with (fw f - 2) in E by lia.
  rewrite E by (destruct Hf; lia). rewrite (pow2_div l (fw f - 2)) by lia. nia.
Qed.

Lemma norm_core s e N d v :
  s = 0 \/ s = 1 -> 0 <= d <= e - 1 -> e < fexpmax f -> 0 < jam N d < W ->
  N = jam N d * 2 ^ d \/ P * Y <= jam N d ->
  N * 2 ^ (e - 1 - d) = v * X ->
  exists r, rounds f v 1 r /\ 0 <= r < W /\
    normalizeRoundAndPackFloat status_zero f s (e - 1) (jam N d) = s * W + r.
Proof using Hf.
  intros Hs Hd He HZ Hst Hv. pose proof (powers f Hf) as (HP & HX & E2 & E1 & E0 & Hh & EX & Hh0).
  pose proof (bias_spec f Hf) as (_ & _ & Hmax & _). pose proof (clz_spec (jam N d) HZ) as [Hc HZc].
  unfold normalizeRoundAndPackFloat. cbv zeta. set (c := countLeadingZeros (fw f) (jam N d) - 1) in *.
  clearbody c. destruct Hf as [Hfr Hex Hwd _ _ Heb [Hside _]].
  rewrite Z.shiftl_mul_pow2, uw_small by (unfold in_u; lia).
  pose proof (pow2_pos d ltac:(lia)) as HD. pose proof (pow2_pos c ltac:(lia)) as HC.
  edestruct (roundAndPack_spec f Hf s (e - 1 - c) (jam N d * 2 ^ c) (N * 2 ^ c) (2 ^ d)) as (r & Hr & Hr2 & Er);
    [done|lia|lia|done| |].
  - destruct Hst as [E|Hge]; [left; rewrite E at 1; ring|].
    assert (c <= 1) as Hc1.
    { destruct (decide (c <= 1)); [done|]. pose proof (Z.pow_le_mono_r 2 2 c). nia. }
    apply sticky_shiftl; [lia|]. apply sticky_jam_exact; lia.
  - exists r. split; [|done]. eapply rounds_cross; [| | |exact Hr]; [|lia|].
    { apply Z.mul_pos_pos; [done|]. apply pow2_pos. lia. }
    rewrite (Z.pow_add_r 2 (fextra f)) by lia.
    transitivity (v * X * (2 ^ d * 2 ^ Z.max 0 (- (e - 1 - c)))); [ring|].
    rewrite <- Hv, Z.mul_1_l, <- !Z.mul_assoc, <- !Z.pow_add_r by lia. do 2 f_equal. lia.
Qed.

(** ** Finite operands *)
(** The significand and exponent that addition uses: no hidden bit and exponent 1 for
    a subnormal. *)
Definition sig_of (a : Z) : Z := if extractExp f a =? 0 then extractFrac f a else P + extractFrac f a.
Definition exp_of (a : Z) : Z := Z.max 1 (extractExp f a).

Lemma sig_exp a :
  in_u (fw f) a ->
  0 <= sig_of a < 2 * P /\ 1 <= exp_of a /\ fval f a = sig_of a * 2 ^ (exp_of a - 1) /\
  (extractExp f a <> 0 -> P <= sig_of a /\ exp_of a = extractExp f a) /\
  (extractExp f a = 0 -> sig_of a < P /\ exp_of a = 1).
Proof using Hf.
  intros Ha. destruct (fields f Hf a Ha) as (HF & HE & _). unfold sig_of, exp_of, fval.
  destruct (Z.eqb_spec (extractExp f a) 0) as [E|E].
  - rewrite E, Z.max_l, Z.sub_diag, Z.pow_0_r by lia. lia.
  - rewrite Z.max_r by lia. lia.
Qed.

(** A significand placed [n] bits up, with the hidden bit or'ed in. *)
Lemma place n a :
  in_u (fw f) a -> 0 <= n <= fextra f ->
  uw (fw f) (Z.shiftl (extractFrac f a) n) = extractFrac f a * 2 ^ n /\
  Z.lor (extractFrac f a * 2 ^ n) (Z.shiftl 1 (ffrac f + n)) = (P + extractFrac f a) * 2 ^ n /\
  (extractFrac f a * 2 ^ n = 0 <-> extractFrac f a = 0).
Proof using Hf.
  intros Ha Hn. destruct (fields f Hf a Ha) as (HF & _). pose proof (pow2_pos n ltac:(lia)).
  destruct Hf as [Hfr Hex Hwd _ _ _ _]. split; [|split; [|nia]].
  - apply shl_word; [lia|]. split; [lia|]. apply Z.lt_le_trans with P; [lia|].
    apply Z.pow_le_mono_r; lia.
  - rewrite Z.lor_comm, lor_shift_add; [rewrite Z.pow_add_r by lia; ring|lia|].
    unfold in_u. rewrite Z.pow_add_r by lia. nia.
Qed.

Lemma sig_normal a : extractExp f a <> 0 -> sig_of a = P + extractFrac f a.
Proof using. intros E. unfold sig_of. by rewrite (proj2 (Z.eqb_neq _ _)). Qed.

Lemma align n a D c :
  in_u (fw f) a -> 0 <= n <= fextra f ->
  (if extractExp f a =? 0 then (D + c, extractFrac f a * 2 ^ n)
   else (D, Z.lor (extractFrac f a * 2 ^ n) (Z.shiftl 1 (ffrac f + n)))) =
  (D + c * (exp_of a - extractExp f a), sig_of a * 2 ^ n).
Proof using Hf.
  intros Ha Hn. destruct (fields f Hf a Ha) as (_ & HE & _). unfold sig_of, exp_of.
  destruct (Z.eqb_spec (extractExp f a) 0) as [E|E].
  - rewrite E. f_equal. lia.
  - rewrite (proj1 (proj2 (place n a Ha Hn))). f_equal. rewrite Z.max_r by lia. lia.
Qed.

Lemma shift_jam n a d :
  in_u (fw f) a -> 0 <= n <= fextra f -> 0 <= d ->
  shiftRightJamming (fw f) (sig_of a * 2 ^ n) d = jam (sig_of a * 2 ^ n) d.
Proof using Hf.
  intros Ha Hn Hd. apply shiftRightJamming_jam; [apply (fo_pow f Hf)| |done].
  destruct (sig_exp a Ha) as (Hsig & _). pose proof (powers f Hf) as (HP & HX & _ & E1 & E0 & _).
  pose proof (pow2_pos n ltac:(lia)). pose proof (Z.pow_le_mono_r 2 n (fextra f)). unfold in_u. nia.
Qed.

(** A value below 2^(ffrac + 1) is its own encoding. *)
Lemma rounds_exact v : 0 <= v < 2 * P -> rounds f v 1 v.
Proof using Hf.
  intros Hv. pose proof (bias_spec f Hf) as Hb. pose proof (fo_frac f Hf). exists 0, v. unfold nearest_even.
  rewrite !Z.pow_0_r, !Z.add_0_r, Z.pow_add_r by lia.
  assert (v <= fexpmax f * P) by nia. split_and!; lia.
Qed.

(** A significand moved down leaves the hidden bit free. *)
Lemma jam_small n a e :
  in_u (fw f) a -> extractExp f a < e -> 1 <= n ->
  0 <= jam (sig_of a * 2 ^ n) (e - exp_of a) < 2 ^ (ffrac f + n).
Proof using Hf.
  intros Ha He Hn. destruct (sig_exp a Ha) as (Hsa & Hea & _ & Na & Za).
  destruct (fields f Hf a Ha) as (_ & HE & _). pose proof (fo_frac f Hf).
  pose proof (pow2_pos n ltac:(lia)).
  apply jam_lt; [unfold exp_of; lia|lia|]. rewrite Z.pow_add_r by lia. split; [nia|].
  assert (sig_of a < P * 2 ^ (e - exp_of a)); [|nia].
  destruct (decide (extractExp f a = 0)) as [E|E].
  - destruct (Za E) as [? ->]. pose proof (pow2_pos (e - 1) ltac:(lia)). nia.
  - destruct (Na E) as [_ ->]. pose proof (Z.pow_le_mono_r 2 1 (e - extractExp f a)). nia.
Qed.

Lemma jam_hidden n a e :
  in_u (fw f) a -> extractExp f a < e -> 1 <= n ->
  Z.lor (jam (sig_of a * 2 ^ n) (e - exp_of a)) (Z.shiftl 1 (ffrac f + n)) =
  P * 2 ^ n + jam (sig_of a * 2 ^ n) (e - exp_of a).
Proof using Hf.
  intros Ha He Hn. pose proof (fo_frac f Hf).
  rewrite Z.lor_comm, lor_shift_add; [rewrite Z.pow_add_r by lia; ring|lia|].
  by apply jam_small.
Qed.

Lemma add_gt a b s :
  in_u (fw f) a -> in_u (fw f) b -> s = 0 \/ s = 1 ->
  extractExp f a < fexpmax f -> extractExp f b < extractExp f a ->
  exists r, rounds f (fval f a + fval f b) 1 r /\ 0 <= r < W /\
    add_finish s (extractExp f a)
      (sig_of a * Y + jam (sig_of b * Y) (extractExp f a - exp_of b)) = s * W + r.
Proof using Hf.
  intros Ha Hb Hs Hmax Hlt. destruct (fields f Hf b Hb) as (_ & HE & _).
  destruct (sig_exp a Ha) as (Hsa & _ & Va & Na & _). destruct (sig_exp b Hb) as (Hsb & Heb & Vb & Nb & Zb).
  destruct (Na ltac:(lia)) as [Hna Ea].
  assert (exp_of b <= extractExp f a) by (unfold exp_of; lia).
  apply add_core; try lia. rewrite Va, Vb, Ea. do 3 f_equal. lia.
Qed.

Lemma add_finite a b s :
  in_u (fw f) a -> in_u (fw f) b -> s = 0 \/ s = 1 ->
  extractExp f a <> fexpmax f -> extractExp f b <> fexpmax f ->
  exists r, rounds f (fval f a + fval f b) 1 r /\ 0 <= r < W /\
    addFloatSigs status_zero f a b s = s * W + r.
Proof using Hf.
  intros Ha Hb Hs Hma Hmb. pose proof (fo_extra f Hf) as Hex.
  destruct (place (fextra f - 1) a Ha ltac:(lia)) as (Pa & Pa' & _).
  destruct (place (fextra f - 1) b Hb ltac:(lia)) as (Pb & Pb' & _).
  destruct (fields f Hf a Ha) as (HFa & HEa & _). destruct (fields f Hf b Hb) as (HFb & HEb & _).
  unfold addFloatSigs. rewrite Pa, Pb.
  destruct (Z.ltb_spec 0 (extractExp f a - extractExp f b)) as [Hd|Hd].
  { rewrite (proj2 (Z.eqb_neq _ _)) by done.
    change (extractExp f a - extractExp f b - 1) with (extractExp f a - extractExp f b + -1).
    rewrite align by (done || lia). cbv zeta.
    rewrite shift_jam by (done || lia || (unfold exp_of; lia)).
    destruct (add_gt a b s) as (r & Hr & Hr2 & Er); try done; try lia. exists r. split; [done|]. split; [done|].
    rewrite <- Er. unfold add_finish.
    rewrite Pa', <- (sig_normal a) by lia.
    replace (extractExp f a - extractExp f b + -1 * (exp_of b - extractExp f b)) with (extractExp f a - exp_of b) by lia.
    done. }
  destruct (Z.ltb_spec (extractExp f a - extractExp f b) 0) as [Hd'|Hd'].
  { rewrite (proj2 (Z.eqb_neq _ _)) by done. rewrite align by (done || lia). cbv zeta.
    replace (- (extractExp f a - extractExp f b + 1 * (exp_of a - extractExp f a)))
      with (extractExp f b - exp_of a) by lia.
    rewrite shift_jam by (done || lia || (unfold exp_of; lia)).
    destruct (add_gt b a s) as (r & Hr & Hr2 & Er); try done; try lia. exists r.
    rewrite Z.add_comm. split; [done|]. split; [done|]. rewrite <- Er. unfold add_finish.
    rewrite jam_hidden, (sig_normal b) by (done || lia).
    by replace ((P * Y + jam (sig_of a * Y) (extractExp f b - exp_of a)) + extractFrac f b * Y) with
      ((P + extractFrac f b) * Y + jam (sig_of a * Y) (extractExp f b - exp_of a)) by ring. }
  assert (extractExp f b = extractExp f a) as E by lia.
  rewrite (proj2 (Z.eqb_neq _ _)) by done.
  pose proof (powers f Hf) as (HP & HX & E2 & E1 & E0 & Hh & EX & Hh0).
  unfold fval. rewrite E. destruct (Z.eqb_spec (extractExp f a) 0) as [E0a|E0a].
  - exists (extractFrac f a + extractFrac f b). split; [apply rounds_exact; lia|]. split; [nia|].
    cbn [flush_to_zero status_zero]. rewrite uw_small by (unfold in_u; nia).
    rewrite Z.shiftr_div_pow2, <- Z.mul_add_distr_r, Z.div_mul by lia.
    rewrite (packFloat_spec f Hf) by (done || nia). lia.
  - pose proof (bias_spec f Hf) as Hbias. rewrite Z.shiftl_1_l, E2.
    edestruct (roundAndPack_spec f Hf s (extractExp f a) ((2 * P + extractFrac f a + extractFrac f b) * Y)
      ((2 * P + extractFrac f a + extractFrac f b) * Y) 1) as (r & Hr & Hr2 & Er); [done|lia|nia|lia|left; lia|].
    exists r. split; [|split; [done|]].
    + eapply rounds_cross; [| | |exact Hr]; [apply Z.mul_pos_pos; [lia|]; apply pow2_pos; lia|lia|].
      rewrite (Z.max_r 0 (extractExp f a)), (Z.max_l 0 (- extractExp f a)), Z.add_0_r by lia.
      rewrite <- EX, (pow2_split (extractExp f a)) by lia. ring.
    + rewrite <- Er. clear - HFa HFb E0 E1 EX HP Hh0 HX.
      replace (P * X + extractFrac f a * Y + extractFrac f b * Y)
        with ((2 * P + extractFrac f a + extractFrac f b) * Y) by (rewrite <- EX; ring).
      rewrite uw_small by (unfold in_u; nia). done.
Qed.

Lemma jam_exact N d : 0 <= d -> N mod 2 ^ d = 0 -> N = jam N d * 2 ^ d.
Proof using.
  intros Hd E. rewrite jam_spec, E, Z.eqb_refl by done. pose proof (pow2_pos d Hd).
  pose proof (Z.div_mod N (2 ^ d) ltac:(lia)). lia.
Qed.

Lemma sub_gt a b s :
  in_u (fw f) a -> in_u (fw f) b -> s = 0 \/ s = 1 ->
  extractExp f a < fexpmax f -> extractExp f b < extractExp f a ->
  fval f b < fval f a /\
  exists r, rounds f (fval f a - fval f b) 1 r /\ 0 <= r < W /\
    normalizeRoundAndPackFloat status_zero f s (extractExp f a - 1)
      (uw (fw f) (sig_of a * X - jam (sig_of b * X) (extractExp f a - exp_of b))) = s * W + r.
Proof using Hf.
  intros Ha Hb Hs Hmax Hlt. destruct (fields f Hf b Hb) as (_ & HE & _).
  destruct (sig_exp a Ha) as (Hsa & _ & Va & Na & _). destruct (sig_exp b Hb) as (Hsb & Heb & Vb & Nb & Zb).
  destruct (Na ltac:(lia)) as [Hna Ea]. pose proof (fo_extra f Hf) as Hex. pose proof (fo_frac f Hf) as Hfr.
  pose proof (powers f Hf) as (HP & HX & E2 & E1 & E0 & Hh & EX & Hh0).
  pose proof (jam_small (fextra f) b (extractExp f a) Hb Hlt ltac:(lia)) as HJ.
  rewrite Z.pow_add_r in HJ by lia.
  assert (exp_of b <= extractExp f a) by (unfold exp_of; lia).
  set (d := extractExp f a - exp_of b) in *.
  assert (fval f a - fval f b = (sig_of a * 2 ^ d - sig_of b) * 2 ^ (exp_of b - 1)) as Ev.
  { rewrite Va, Vb, Ea. replace (extractExp f a - 1) with (d + (exp_of b - 1)) by lia.
    rewrite Z.pow_add_r by lia. ring. }
  pose proof (pow2_pos d ltac:(lia)) as HD. pose proof (pow2_pos (exp_of b - 1) ltac:(lia)) as HE2.
  assert (0 < sig_of a * 2 ^ d - sig_of b) as Hpos.
  { destruct (decide (extractExp f b = 0)) as [E|E]; [destruct (Zb E) as [Hsb' _]; clear - Hna HD Hsb Hsb'; nia|].
    destruct (Nb E) as [_ E']. pose proof (Z.pow_le_mono_r 2 1 d ltac:(lia) ltac:(lia)) as HD2.
    clear - Hna Hsb HP HD2. nia. }
  split; [clear - Ev Hpos HE2; nia|]. set (N := sig_of a * X * 2 ^ d - sig_of b * X).
  assert (sig_of a * X - jam (sig_of b * X) d = jam N d) as EN by (apply jam_sub; [lia|apply even_pow; lia]).
  assert (0 < jam N d < W) as HZ by (rewrite <- EN; clear - Hna Hsa HX HJ E1; nia).
  rewrite EN, uw_small by (unfold in_u; lia). apply norm_core; try done; try lia.
  - destruct (decide (d <= 1)) as [Hd1|Hd1].
    + left. apply jam_exact; [lia|]. unfold N. rewrite <- EX.
      replace (sig_of a * (2 * Y) * 2 ^ d - sig_of b * (2 * Y)) with ((sig_of a * 2 ^ d - sig_of b) * Y * 2) by ring.
      assert (d = 0 \/ d = 1) as [-> | ->] by lia; [apply Z.mod_1_r|apply Z_mod_mult].
    + right. rewrite <- EN. assert (jam (sig_of b * X) d < 2 ^ (ffrac f + (fextra f - 1))) as HJ2.
      { apply jam_lt; [lia|lia|]. rewrite Z.pow_add_r by lia.
        pose proof (Z.pow_le_mono_r 2 2 d ltac:(lia) ltac:(lia)). split; [clear - Hsb HX; nia|].
        apply Z.lt_le_trans with (P * Y * 4); [clear - Hsb EX Hh0; nia|].
        apply Z.mul_le_mono_nonneg_l; [clear - HP Hh0; nia|lia]. }
      rewrite Z.pow_add_r in HJ2 by lia. clear - Hna HJ2 EX Hh0. nia.
  - unfold N. rewrite Ev. replace (extractExp f a - 1 - d) with (exp_of b - 1) by lia. ring.
Qed.

(** Equal exponents: the difference is exact. *)
Lemma sub_eq a b s :
  in_u (fw f) a -> in_u (fw f) b -> s = 0 \/ s = 1 ->
  extractExp f a < fexpmax f -> extractExp f b = extractExp f a -> extractFrac f b < extractFrac f a ->
  fval f b < fval f a /\
  exists r, rounds f (fval f a - fval f b) 1 r /\ 0 <= r < W /\
    normalizeRoundAndPackFloat status_zero f s (exp_of a - 1)
      (uw (fw f) (extractFrac f a * X - extractFrac f b * X)) = s * W + r.
Proof using Hf.
  intros Ha Hb Hs Hmax E Hlt. destruct (fields f Hf b Hb) as (HFb & _ & _). destruct (fields f Hf a Ha) as (HFa & _ & _).
  destruct (sig_exp a Ha) as (_ & Hea & Va & _). destruct (sig_exp b Hb) as (_ & _ & Vb & _).
  pose proof (powers f Hf) as (HP & HX & E2 & E1 & E0 & Hh & EX & Hh0). pose proof (bias_spec f Hf).
  assert (exp_of b = exp_of a) as Ee by (unfold exp_of; congruence).
  assert (fval f a - fval f b = (extractFrac f a - extractFrac f b) * 2 ^ (exp_of a - 1)) as Ev.
  { rewrite Va, Vb, Ee. unfold sig_of. rewrite E. case_match; ring. }
  pose proof (pow2_pos (exp_of a - 1) ltac:(lia)) as HE2. split; [clear - Ev HE2 Hlt; nia|].
  set (N := extractFrac f a * X - extractFrac f b * X). assert (jam N 0 = N) as EN.
  { symmetry. rewrite (jam_exact N 0) at 1 by (done || lia || apply Z.mod_1_r). lia. }
  assert (0 < N < W) as HN by (unfold N; clear - HFa HFb Hlt HX HP E1; nia). rewrite uw_small by (unfold in_u; lia).
  rewrite <- EN. apply norm_core; try lia; rewrite ?EN; try lia.
  - unfold exp_of. lia.
  - rewrite Ev, Z.sub_0_r. unfold N. ring.
Qed.

(** [z] is the difference of the magnitudes, with sign [s] when that of [a] is larger. *)
Definition difference (a b s z : Z) : Prop :=
  exists r, rounds f (Z.abs (fval f a - fval f b)) 1 r /\ 0 <= r < W /\
    z = (if fval f a =? fval f b then 0 else if fval f b <? fval f a then s else 1 - s) * W + r.

Lemma difference_gt a b s z :
  (fval f b < fval f a /\ exists r, rounds f (fval f a - fval f b) 1 r /\ 0 <= r < W /\ z = s * W + r) ->
  difference a b s z.
Proof using.
  intros (Hlt & r & Hr). exists r. rewrite Z.abs_eq, (proj2 (Z.eqb_neq _ _)), (proj2 (Z.ltb_lt _ _)) by lia. done.
Qed.

Lemma difference_lt a b s z :
  (fval f a < fval f b /\ exists r, rounds f (fval f b - fval f a) 1 r /\ 0 <= r < W /\ z = (1 - s) * W + r) ->
  difference a b s z.
Proof using.
  intros (Hlt & r & Hr). exists r. rewrite (proj2 (Z.eqb_neq _ _)), (proj2 (Z.ltb_ge _ _)) by lia.
  rewrite Z.abs_neq, Z.opp_sub_distr, Z.add_comm, Z.add_opp_r by lia. done.
Qed.

Lemma sub_finite a b s :
  in_u (fw f) a -> in_u (fw f) b -> s = 0 \/ s = 1 ->
  extractExp f a <> fexpmax f -> extractExp f b <> fexpmax f ->
  difference a b s (subFloatSigs status_zero f a b s).
Proof using Hf.
  intros Ha Hb Hs Hma Hmb. pose proof (fo_extra f Hf) as Hex.
  destruct (place (fextra f) a Ha ltac:(lia)) as (Pa & Pa' & _).
  destruct (place (fextra f) b Hb ltac:(lia)) as (Pb & Pb' & _).
  destruct (fields f Hf a Ha) as (HFa & HEa & _). destruct (fields f Hf b Hb) as (HFb & HEb & _).
  pose proof (powers f Hf) as (HP & HX & _).
  assert (Z.lxor s 1 = 1 - s /\ (1 - s = 0 \/ 1 - s = 1)) as [Ex Hs'] by (destruct Hs as [-> | ->]; auto).
  unfold subFloatSigs. rewrite Pa, Pb, Pa', Pb', Ex. cbv zeta.
  destruct (Z.ltb_spec 0 (extractExp f a - extractExp f b)) as [Hd|Hd].
  { rewrite (proj2 (Z.eqb_neq _ _)) by done.
    change (extractExp f a - extractExp f b - 1) with (extractExp f a - extractExp f b + -1).
    rewrite <- Pb', align by (done || lia).
    rewrite shift_jam by (done || lia || (unfold exp_of; lia)).
    replace (extractExp f a - extractExp f b + -1 * (exp_of b - extractExp f b)) with (extractExp f a - exp_of b) by lia.
    rewrite <- (sig_normal a) by lia. apply difference_gt, sub_gt; done || lia. }
  destruct (Z.ltb_spec (extractExp f a - extractExp f b) 0) as [Hd'|Hd'].
  { rewrite (proj2 (Z.eqb_neq _ _)) by done. rewrite <- Pa', align by (done || lia).
    replace (- (extractExp f a - extractExp f b + 1 * (exp_of a - extractExp f a)))
      with (extractExp f b - exp_of a) by lia.
    rewrite shift_jam by (done || lia || (unfold exp_of; lia)).
    rewrite <- (sig_normal b) by lia. apply difference_lt, sub_gt; done || lia. }
  assert (extractExp f b = extractExp f a) as E by lia. rewrite (proj2 (Z.eqb_neq _ _)) by done.
  replace (if extractExp f a =? 0 then 1 else extractExp f a) with (exp_of a) by 
    (unfold exp_of; destruct (Z.eqb_spec (extractExp f a) 0); lia).
  destruct (Z.ltb_spec (extractFrac f b * X) (extractFrac f a * X)) as [HL|HL].
  { apply difference_gt, sub_eq; done || lia || (clear - HL HX; nia). }
  destruct (Z.ltb_spec (extractFrac f a * X) (extractFrac f b * X)) as [HL'|HL'].
  { replace (exp_of a) with (exp_of b) by (unfold exp_of; congruence).
    apply difference_lt, sub_eq; done || lia || (clear - HL' HX; nia). }
  assert (fval f a = fval f b) as Ev.
  { unfold fval. rewrite E. replace (extractFrac f b) with (extractFrac f a) by (clear - HL HL' HX; nia). done. }
  exists 0. rewrite Ev, Z.eqb_refl, Z.sub_diag. split; [apply (rounds_zero f Hf); lia|].
  split; [pose proof (pow2_pos (fw f - 1)); destruct Hf; lia|].
  apply (pack_zero f Hf 0). auto.
Qed.

(** ** The contract of addition *)
Definition signed (s v : Z) : Z := if s =? 0 then v else - v.

(** [z] is a + b, where [tb] is the sign that b counts with. *)
Definition sum_result (a b tb z : Z) : Prop :=
  in_u (fw f) z /\
  (nan f z <-> nan f a \/ nan f b \/ infinite f a /\ infinite f b /\ sign_of f a <> tb) /\
  (infinite f a -> nan f z \/ infinite f z /\ sign_of f z = sign_of f a) /\
  (infinite f b -> nan f z \/ infinite f z /\ sign_of f z = tb) /\
  (finite f a -> finite f b ->
     let v := signed (sign_of f a) (fval f a) + signed tb (fval f b) in
     rounds f (Z.abs v) 1 (mag_of f z) /\
     sign_of f z = (if v =? 0 then if sign_of f a =? tb then tb else 0 else b2z (v <? 0))).

Lemma sum_nan a b tb z :
  in_u (fw f) z -> nan f z -> ~ (finite f a /\ finite f b) ->
  nan f a \/ nan f b \/ infinite f a /\ infinite f b /\ sign_of f a <> tb -> sum_result a b tb z.
Proof using. intros Hu Hn Hfin Hc. split; [done|]. tauto. Qed.

Lemma sum_propagate a b tb :
  in_u (fw f) a -> in_u (fw f) b -> nan f a \/ nan f b ->
  sum_result a b tb (propagateNaN status_zero f a b).
Proof using Hf.
  intros Ha Hb Hn. destruct (propagate_nan f Hf a b Ha Hb Hn) as [Hu Hz].
  pose proof (class_disjoint f Hf a) as (_ & Da & _). pose proof (class_disjoint f Hf b) as (_ & Db & _).
  apply sum_nan; [done|done|tauto|tauto].
Qed.

(** An infinite result. *)
Lemma sum_inf a b tb s :
  s = 0 \/ s = 1 -> ~ nan f a -> ~ nan f b -> ~ (finite f a /\ finite f b) ->
  (infinite f a -> s = sign_of f a) -> (infinite f b -> s = tb) ->
  sum_result a b tb (s * W + inf_mag f).
Proof using Hf.
  intros Hs Na Nb Hfin Ia Ib. pose proof (class_disjoint f Hf a). pose proof (bias_spec f Hf).
  assert (0 <= inf_mag f <= inf_mag f) as Hi.
  { unfold inf_mag. pose proof (powers f Hf) as (HP & _). clear - HP H0. nia. }
  destruct (packed f Hf s (inf_mag f) Hs Hi) as (Hu & E1 & E2 & En & Ei).
  split; [done|]. rewrite E1, E2, En, Ei. clear - Na Nb Hfin Ia Ib.
  split; [|tauto]. split; [done|]. intros [?|[?|(Ha & Hb & Hne)]]; try tauto.
  apply Hne. rewrite <- Ia; auto.
Qed.

Lemma sum_fin a b tb s r :
  finite f a -> finite f b -> s = 0 \/ s = 1 -> 0 <= r < W ->
  (let v := signed (sign_of f a) (fval f a) + signed tb (fval f b) in
   rounds f (Z.abs v) 1 r /\
   s = (if v =? 0 then if sign_of f a =? tb then tb else 0 else b2z (v <? 0))) ->
  sum_result a b tb (s * W + r).
Proof using Hf.
  intros Fa Fb Hs Hr [Hv Hsv]. pose proof (class_disjoint f Hf a). pose proof (class_disjoint f Hf b).
  apply (rounds_le_inf f Hf) in Hv as Hr2; [|lia|lia].
  destruct (packed f Hf s r Hs Hr2) as (Hu & E1 & E2 & En & Ei).
  split; [done|]. rewrite E1, E2, En, Ei. split; [tauto|]. split; [tauto|]. split; [tauto|]. intros _ _. done.
Qed.

(** The whole encoding of an infinity. *)
Lemma infinity_bits a : in_u (fw f) a -> infinite f a -> a = sign_of f a * W + inf_mag f.
Proof using Hf.
  intros Ha Hi. destruct (fields f Hf a Ha) as (_ & _ & _ & Es & _ & Ea). rewrite <- Hi, <- Es. done.
Qed.

(** The tests on the shifted fractions. *)
Lemma frac_eqb n a :
  in_u (fw f) a -> 0 <= n <= fextra f ->
  (uw (fw f) (Z.shiftl (extractFrac f a) n) =? 0) = (extractFrac f a =? 0).
Proof using Hf.
  intros Ha Hn. destruct (place n a Ha Hn) as (-> & _ & E). apply eq_iff_eq_true. rewrite !Z.eqb_eq. done.
Qed.

Lemma signed_pair s u v : s = 0 \/ s = 1 -> 0 <= u -> 0 <= v ->
  Z.abs (signed s u + signed s v) = u + v /\
  s = (if signed s u + signed s v =? 0 then if s =? s then s else 0 else b2z (signed s u + signed s v <? 0)) /\
  Z.abs (signed s u + signed (1 - s) v) = Z.abs (u - v) /\
  (if u =? v then 0 else if v <? u then s else 1 - s) =
    (if signed s u + signed (1 - s) v =? 0 then if s =? 1 - s then 1 - s else 0
     else b2z (signed s u + signed (1 - s) v <? 0)).
Proof using.
  intros [-> | ->] Hu Hv; unfold signed; change (1 - 0) with 1; change (1 - 1) with 0;
    change (1 =? 0) with false; change (0 =? 0) with true; cbn iota;
    split_and!; repeat (match goal with
    | |- context [?x =? ?y] => destruct (Z.eqb_spec x y)
    | |- context [?x <? ?y] => destruct (Z.ltb_spec x y) end); cbn [b2z]; lia.
Qed.

Lemma addFloatSigs_result a b :
  in_u (fw f) a -> in_u (fw f) b ->
  sum_result a b (sign_of f a) (addFloatSigs status_zero f a b (sign_of f a)).
Proof using Hf.
  intros Ha Hb. destruct (fields f Hf a Ha) as (_ & HEa & Hs & Es & _). rewrite Es in Hs.
  destruct (fields f Hf b Hb) as (_ & HEb & _). destruct (class_exp f Hf a Ha) as (Cf & Cn & Ci).
  destruct (class_exp f Hf b Hb) as (Df & Dn & Di).
  destruct (decide (extractExp f a = fexpmax f \/ extractExp f b = fexpmax f)) as [Hm|Hm].
  2: { destruct (add_finite a b (sign_of f a)) as (r & Hr & Hr2 & ->); try done; try tauto.
       destruct (signed_pair (sign_of f a) (fval f a) (fval f b)) as (E1 & E2 & _);
         try done; try by apply fval_nonneg. apply sum_fin; try tauto. cbv zeta. rewrite E1. done. }
  pose proof (class_disjoint f Hf a) as Ka. pose proof (class_disjoint f Hf b) as Kb.
  pose proof (fo_extra f Hf).
  unfold addFloatSigs. cbv zeta. rewrite lor_eqb_0, !frac_eqb by (done || lia).
  destruct (Z.ltb_spec 0 (extractExp f a - extractExp f b)) as [Hd|Hd].
  { assert (extractExp f a = fexpmax f) as E by lia. rewrite (proj2 (Z.eqb_eq _ _)) by done.
    assert (extractExp f b <> fexpmax f) as E' by lia. clear Hd Hm HEa HEb.
    destruct (Z.eqb_spec (extractFrac f a) 0).
    - rewrite (infinity_bits a Ha) at 3 by tauto. apply sum_inf; tauto.
    - apply sum_propagate; [done|done|left; by apply Cn]. }
  destruct (Z.ltb_spec (extractExp f a - extractExp f b) 0) as [Hd'|Hd'].
  { assert (extractExp f b = fexpmax f) as E by lia. rewrite (proj2 (Z.eqb_eq (extractExp f b) _)) by done.
    assert (extractExp f a <> fexpmax f) as E' by lia. clear Hd Hd' Hm HEa HEb.
    destruct (Z.eqb_spec (extractFrac f b) 0).
    - rewrite (pack_inf f Hf) by done. apply sum_inf; tauto.
    - apply sum_propagate; [done|done|right; by apply Dn]. }
  assert (extractExp f a = fexpmax f) as E by lia. rewrite (proj2 (Z.eqb_eq _ _)) by done.
  assert (extractExp f b = fexpmax f) as E' by lia. clear Hd Hd' Hm HEa HEb.
  destruct (Z.eqb_spec (extractFrac f a) 0) as [Za|Za]; [|apply sum_propagate; [done|done|left; by apply Cn]].
  destruct (Z.eqb_spec (extractFrac f b) 0) as [Zb|Zb]; [|apply sum_propagate; [done|done|right; by apply Dn]].
  pose proof (proj2 Ci (conj E Za)) as Ia. pose proof (proj2 Di (conj E' Zb)) as Ib. clear Cf Cn Ci Df Dn Di.
  cbn [andb]. rewrite (infinity_bits a Ha) at 3 by tauto. apply sum_inf; tauto.
Qed.

Lemma subFloatSigs_result a b :
  in_u (fw f) a -> in_u (fw f) b ->
  sum_result a b (1 - sign_of f a) (subFloatSigs status_zero f a b (sign_of f a)).
Proof using Hf.
  intros Ha Hb. destruct (fields f Hf a Ha) as (_ & HEa & Hs & Es & _). rewrite Es in Hs.
  destruct (fields f Hf b Hb) as (_ & HEb & _). destruct (class_exp f Hf a Ha) as (Cf & Cn & Ci).
  destruct (class_exp f Hf b Hb) as (Df & Dn & Di).
  assert (Z.lxor (sign_of f a) 1 = 1 - sign_of f a /\ (1 - sign_of f a = 0 \/ 1 - sign_of f a = 1) /\
    sign_of f a <> 1 - sign_of f a) as (Ex & Hs' & Hne) by (destruct Hs as [-> | ->]; auto).
  destruct (decide (extractExp f a = fexpmax f \/ extractExp f b = fexpmax f)) as [Hm|Hm].
  2: { destruct (sub_finite a b (sign_of f a)) as (r & Hr & Hr2 & ->); try done; try tauto.
       destruct (signed_pair (sign_of f a) (fval f a) (fval f b)) as (_ & _ & E1 & E2);
         try done; try by apply fval_nonneg.
       apply sum_fin; try tauto; cbv zeta.
       - clear - Hs Hs'. destruct (fval f a =? fval f b); [auto|]. by destruct (fval f b <? fval f a).
       - by rewrite E1, E2. }
  pose proof (class_disjoint f Hf a) as Ka. pose proof (class_disjoint f Hf b) as Kb.
  pose proof (fo_extra f Hf).
  pose proof (default_nan_nan f Hf) as [Hd1 Hd2].
  unfold subFloatSigs. cbv zeta. rewrite lor_eqb_0, !frac_eqb, Ex by (done || lia).
  destruct (Z.ltb_spec 0 (extractExp f a - extractExp f b)) as [Hd|Hd].
  { assert (extractExp f a = fexpmax f) as E by lia. rewrite (proj2 (Z.eqb_eq _ _)) by done.
    assert (extractExp f b <> fexpmax f) as E' by lia. clear Hd Hm HEa HEb.
    destruct (Z.eqb_spec (extractFrac f a) 0).
    - rewrite (infinity_bits a Ha) at 3 by tauto. apply sum_inf; tauto.
    - apply sum_propagate; [done|done|left; by apply Cn]. }
  destruct (Z.ltb_spec (extractExp f a - extractExp f b) 0) as [Hd'|Hd'].
  { assert (extractExp f b = fexpmax f) as E by lia. rewrite (proj2 (Z.eqb_eq (extractExp f b) _)) by done.
    assert (extractExp f a <> fexpmax f) as E' by lia. clear Hd Hd' Hm HEa HEb.
    destruct (Z.eqb_spec (extractFrac f b) 0).
    - rewrite (pack_inf f Hf) by done. apply sum_inf; tauto.
    - apply sum_propagate; [done|done|right; by apply Dn]. }
  assert (extractExp f a = fexpmax f) as E by lia. rewrite (proj2 (Z.eqb_eq _ _)) by done.
  assert (extractExp f b = fexpmax f) as E' by lia. clear Hd Hd' Hm HEa HEb.
  destruct (Z.eqb_spec (extractFrac f a) 0) as [Za|Za]; [|apply sum_propagate; [done|done|left; by apply Cn]].
  destruct (Z.eqb_spec (extractFrac f b) 0) as [Zb|Zb]; [|apply sum_propagate; [done|done|right; by apply Dn]].
  pose proof (proj2 Ci (conj E Za)) as Ia. pose proof (proj2 Di (conj E' Zb)) as Ib. clear Cf Cn Ci Df Dn Di.
  apply sum_nan; tauto.
Qed.

Lemma float_add_spec a b :
  in_u (fw f) a -> in_u (fw f) b ->
  sum_result a b (sign_of f b) (float_add status_zero f a b) /\
  sum_result a b (1 - sign_of f b) (float_sub status_zero f a b).
Proof using Hf.
  intros Ha Hb. unfold float_add, float_sub. rewrite !squash_zero.
  destruct (fields f Hf a Ha) as (_ & _ & Hsa & Ea & _). destruct (fields f Hf b Hb) as (_ & _ & Hsb & Eb & _).
  rewrite Ea, Eb in *. destruct (Z.eqb_spec (sign_of f a) (sign_of f b)) as [E|E].
  - rewrite <- E. split; [by apply addFloatSigs_result|by apply subFloatSigs_result].
  - replace (sign_of f b) with (1 - sign_of f a) by lia.
    replace (1 - (1 - sign_of f a)) with (sign_of f a) by lia.
    split; [by apply subFloatSigs_result|by apply addFloatSigs_result].
Qed.
End AddSub.

(** C31: floating-point addition and subtraction (add.s, add.d, sub.s, sub.d) return
    what IEEE 754 prescribes in round-to-nearest-even mode, in both precisions and for
    every pair of encodings: a NaN exactly when an operand is one or infinities cancel;
    infinity with its sign for an infinite operand; and for finite operands the
    magnitude nearest to the exact sum, ties to even, with the sign of the sum, where a
    zero sum is +0 unless both terms are -0. *)
Theorem float_add_correct a b :
  (in_u 32 a -> in_u 32 b ->
     sum_result F32 a b (sign_of F32 b) (float32_add status_zero a b) /\
     sum_result F32 a b (1 - sign_of F32 b) (float32_sub status_zero a b)) /\
  (in_u 64 a -> in_u 64 b ->
     sum_result F64 a b (sign_of F64 b) (float64_add status_zero a b) /\
     sum_result F64 a b (1 - sign_of F64 b) (float64_sub status_zero a b)).
Proof. split; [apply (float_add_spec F32 F32_ok)|apply (float_add_spec F64 F64_ok)]. Qed.

(** 1.5 + -2^-24 and 1.5 - -2^-24, which need a sticky bit; -0 and +0. *)
Lemma float_add_correct_witness :
  (sum_result F32 0x3FC00000 0xB3800000 1 (float32_add status_zero 0x3FC00000 0xB3800000) /\
   sum_result F32 0x3FC00000 0xB3800000 0 (float32_sub status_zero 0x3FC00000 0xB3800000)) /\
  (sum_result F64 0x8000000000000000 0 0 (float64_add status_zero 0x8000000000000000 0) /\
   sum_result F64 0x8000000000000000 0 1 (float64_sub status_zero 0x8000000000000000 0)).
Proof.
  split; [apply (float_add_correct 0x3FC00000 0xB3800000)|apply (float_add_correct 0x8000000000000000 0)];
    unfold in_u; lia.
Defined.
