(* ===== verification/FloatDiv.v ===== *)
(** * Floating point division

    float32_div divides in 64 bits and float64_div estimates a 128-bit quotient and
    corrects it; both keep enough of the remainder to round correctly, and the
    correction loops end. *)
From S2P Require Import Prelude Softfloat FloatSpec FloatProps.

(** ** Quotients as sticky significands *)
(** A significand at or above the quotient, inside the same cell. *)
Lemma sticky_inside d S N D q c :
  1 <= d -> 0 < D -> q * D <= N < (q + 1) * D ->
  c * 2 ^ (d - 1) < q -> q <= S < (c + 1) * 2 ^ (d - 1) -> sticky d S N D.
Proof.
  intros Hd HD Hq Hc HS. right. exists c. split; [lia|]. set (h := 2 ^ (d - 1)) in *. split.
  - apply Z.lt_le_trans with (q * D); [apply Z.mul_lt_mono_pos_r; lia|lia].
  - apply Z.lt_le_trans with ((q + 1) * D); [lia|apply Z.mul_le_mono_nonneg_r; lia].
Qed.

(** The quotient with "the remainder is not zero" or'ed into its last bit. *)
Lemma sticky_odd d N D q (b : bool) :
  2 <= d -> 0 < D -> q * D <= N < (q + 1) * D -> (b = false <-> N = q * D) ->
  sticky d (Z.lor q (b2z b)) N D.
Proof.
  intros Hd HD Hq Hb. rewrite land_low_bit. destruct b; [|left; by apply Hb].
  assert (N <> q * D) by (rewrite <- Hb; done). right. exists (q / 2 ^ (d - 1)).
  rewrite (pow2_split (d - 1)) in * by lia. pose proof (pow2_pos (d - 1 - 1) ltac:(lia)).
  set (h := 2 ^ (d - 1 - 1)) in *.
  pose proof (Z.div_mod q (2 * h) ltac:(lia)). pose proof (Z.mod_pos_bound q (2 * h) ltac:(lia)).
  set (c := q / (2 * h)) in *. assert (c * (2 * h) <= q < (c + 1) * (2 * h)) as Hc by lia.
  pose proof (Z.div_mod q 2 ltac:(lia)). pose proof (Z.mod_pos_bound q 2 ltac:(lia)). split; [lia|]. split.
  - apply Z.le_lt_trans with (q * D); [apply Z.mul_le_mono_nonneg_r; lia|lia].
  - apply Z.lt_le_trans with ((q + 1) * D); [lia|apply Z.mul_le_mono_nonneg_r; lia].
Qed.

Lemma odd_bounds n q b : 2 ^ (n - 2) <= q < 2 ^ (n - 1) -> 2 <= n -> 2 ^ (n - 2) <= Z.lor q (b2z b) < 2 ^ (n - 1).
Proof.
  intros Hq Hn. rewrite land_low_bit. destruct b; [|done]. rewrite (pow2_split (n - 1)) in * by lia.
  pose proof (Z.div_mod q 2 ltac:(lia)). pose proof (Z.mod_pos_bound q 2 ltac:(lia)). lia.
Qed.

Section Division.
Context (f : fmt) (Hf : fmt_ok f).
#[local] Abbreviation W := (2 ^ (fw f - 1)).
#[local] Abbreviation P := (2 ^ ffrac f).
#[local] Abbreviation X := (2 ^ fextra f).

Definition div_result (a b z : Z) : Prop :=
  in_u (fw f) z /\
  (nan f z <-> nan f a \/ nan f b \/ infinite f a /\ infinite f b \/ mag_of f a = 0 /\ mag_of f b = 0) /\
  (nan f z \/ sign_of f z = Z.lxor (sign_of f a) (sign_of f b)) /\
  (infinite f a \/ mag_of f b = 0 -> nan f z \/ infinite f z) /\
  (infinite f b -> nan f z \/ mag_of f z = 0) /\
  (finite f a -> finite f b -> mag_of f b <> 0 ->
     rounds f (fval f a * 2 ^ (bias f + ffrac f - 1)) (fval f b) (mag_of f z)).

Lemma quotient_form a b ea eb Ma Mb A B :
  normal_form f a ea Ma -> normal_form f b eb Mb -> 0 <= A -> 0 <= B -> A - B = ea - eb ->
  fval f b * Ma * 2 ^ A = fval f a * Mb * 2 ^ B.
Proof using.
  intros (_ & _ & Ha) (_ & _ & Hb) HA HB E.
  specialize (Ha (Z.max 0 (ea - 1)) (Z.max 0 (1 - ea)) ltac:(lia) ltac:(lia) ltac:(lia)).
  specialize (Hb (Z.max 0 (eb - 1)) (Z.max 0 (1 - eb)) ltac:(lia) ltac:(lia) ltac:(lia)).
  apply (pow_ratio _ _ (Z.max 0 (ea - 1) + Z.max 0 (1 - eb)) (Z.max 0 (1 - ea) + Z.max 0 (eb - 1)));
    try lia.
  rewrite !Z.pow_add_r by lia.
  transitivity (Ma * 2 ^ Z.max 0 (ea - 1) * (fval f b * 2 ^ Z.max 0 (1 - eb))); [ring|]. rewrite Ha, <- Hb. ring.
Qed.

Lemma normal_pos a e M : in_u (fw f) a -> normal_form f a e M -> 0 < fval f a.
Proof using Hf.
  intros Ha (HM & _ & E). specialize (E (Z.max 0 (e - 1)) (Z.max 0 (1 - e)) ltac:(lia) ltac:(lia) ltac:(lia)).
  pose proof (pow2_pos (Z.max 0 (e - 1)) ltac:(lia)). pose proof (powers f Hf) as (HP & _).
  pose proof (fval_nonneg f Hf a Ha). assert (fval f a <> 0); [|lia]. intros E0. rewrite E0 in E. nia.
Qed.

Lemma div_cross a b ea eb Ma Mb i r :
  in_u (fw f) b -> normal_form f a ea Ma -> normal_form f b eb Mb -> (i = 0 \/ i = 1) ->
  let z := ea - eb + (bias f - 2) + i in
  rounds f (Ma * 2 ^ (fextra f - i) * 2 ^ fw f * 2 ^ Z.max 0 z)
    (Mb * 2 ^ (fextra f + 1) * 2 ^ (fextra f + Z.max 0 (- z))) r ->
  rounds f (fval f a * 2 ^ (bias f + ffrac f - 1)) (fval f b) r.
Proof using Hf.
  intros Ub Na Nb Hi z. pose proof (bias_spec f Hf) as (Hb & _). pose proof Nb as (HM & _).
  pose proof (powers f Hf) as (HP & _). pose proof (normal_pos b eb Mb Ub Nb) as Hpos.
  pose proof (fo_frac f Hf) as Hfr. pose proof (fo_extra f Hf) as Hex. pose proof (fo_width f Hf) as Hwd.
  pose proof (quotient_form a b ea eb Ma Mb (fextra f - i + fw f + Z.max 0 z)
      (bias f + ffrac f - 1 + (fextra f + 1) + fextra f + Z.max 0 (- z)) Na Nb ltac:(lia) ltac:(lia) ltac:(lia)) as E.
  clear Na Nb. clearbody z. apply rounds_cross; [|done|].
  - repeat apply Z.mul_pos_pos; [lia|apply pow2_pos; lia|apply pow2_pos; lia].
  - clear HM HP Hpos. rewrite (Z.pow_add_r _ (_ + fw f)), (Z.pow_add_r _ (fextra f - i)) in E by lia.
    rewrite (Z.pow_add_r 2 (fextra f) (Z.max _ _)) by lia.
    rewrite (Z.pow_add_r _ (bias f + ffrac f - 1 + (fextra f + 1) + fextra f)),
      (Z.pow_add_r _ (_ + (fextra f + 1))), (Z.pow_add_r _ (bias f + ffrac f - 1)) in E by lia.
    rewrite !Z.mul_assoc in *. symmetry. etransitivity; [exact E|ring].
Qed.

(** The dividend is halved ([i] = 1) or not ([i] = 0) so that the quotient has its
    leading bit in place; [zSig] stands for that quotient. *)
Lemma div_core a b ea eb Ma Mb s i zSig :
  s = 0 \/ s = 1 -> in_u (fw f) b -> normal_form f a ea Ma -> normal_form f b eb Mb -> (i = 0 \/ i = 1) ->
  2 ^ (fw f - 2) <= zSig < W ->
  sticky (fextra f) zSig (Ma * 2 ^ (fextra f - i) * 2 ^ fw f) (Mb * 2 ^ (fextra f + 1)) ->
  exists r, rounds f (fval f a * 2 ^ (bias f + ffrac f - 1)) (fval f b) r /\ 0 <= r < W /\
    roundAndPackFloat status_zero f s (ea - eb + (bias f - 2) + i) zSig = s * W + r.
Proof using Hf.
  intros Hs Ub Na Nb Hi HS Hst. pose proof (bias_spec f Hf) as (Hb1 & Hb2 & Hb3 & Hb4).
  pose proof Na as ([Ha1 Ha2] & Hea & _). pose proof Nb as ([Hb5 Hb6] & Heb & _).
  pose proof (powers f Hf) as (HP & HX & _).
  destruct Hf as [Hfr Hex Hwd _ _ _ _].
  edestruct (roundAndPack_spec f Hf s (ea - eb + (bias f - 2) + i) zSig) as (r & Hr & Hr2 & Er);
    [done|lia|done| |exact Hst|].
  { apply Z.mul_pos_pos; [lia|apply pow2_pos; lia]. }
  exists r. split; [|done]. by apply (div_cross a b ea eb Ma Mb i).
Qed.

Lemma div_nan a b z :
  in_u (fw f) z -> nan f z -> ~ (finite f a /\ finite f b /\ mag_of f b <> 0) ->
  (nan f a \/ nan f b \/ infinite f a /\ infinite f b \/ mag_of f a = 0 /\ mag_of f b = 0) -> div_result a b z.
Proof using. intros Hu Hn Hfin Hc. split; [done|]. tauto. Qed.

Lemma div_packed a b s r :
  s = Z.lxor (sign_of f a) (sign_of f b) -> s = 0 \/ s = 1 -> 0 <= r <= inf_mag f -> ~ nan f a -> ~ nan f b ->
  ~ (infinite f a /\ infinite f b) -> ~ (mag_of f a = 0 /\ mag_of f b = 0) ->
  (infinite f a \/ mag_of f b = 0 -> r = inf_mag f) -> (infinite f b -> r = 0) ->
  (finite f a -> finite f b -> mag_of f b <> 0 ->
     rounds f (fval f a * 2 ^ (bias f + ffrac f - 1)) (fval f b) r) ->
  div_result a b (s * W + r).
Proof using Hf.
  intros Es Hs Hr Na Nb Hii Hzz Hi Hz Hfin. destruct (packed f Hf s r Hs Hr) as (Hu & E1 & E2 & En & Ei).
  split; [done|]. rewrite E1, E2, En, Ei. split; [|tauto]. split; [done|]. tauto.
Qed.

Lemma div_cases_spec a b k :
  in_u (fw f) a -> in_u (fw f) b ->
  (forall s ea sa eb sb, s = 0 \/ s = 1 ->
     normal_form f a ea (Z.lor sa P) -> normal_form f b eb (Z.lor sb P) ->
     exists i zSig, (i = 0 \/ i = 1) /\ 2 ^ (fw f - 2) <= zSig < W /\
       sticky (fextra f) zSig (Z.lor sa P * 2 ^ (fextra f - i) * 2 ^ fw f) (Z.lor sb P * 2 ^ (fextra f + 1)) /\
       k s ea sa eb sb = Some (roundAndPackFloat status_zero f s (ea - eb + (bias f - 2) + i) zSig)) ->
  exists z, div_cases status_zero f a b k = Some z /\ div_result a b z.
Proof using Hf.
  intros Ha Hb Hk. pose proof (sign_xor f Hf a b Ha Hb) as Hs. pose proof (bias_spec f Hf).
  pose proof (class_disjoint f Hf a) as Da. pose proof (class_disjoint f Hf b) as Db.
  assert (fexpmax f <> 0) as Hmax by lia. clear H.
  pose proof (propagate_nan f Hf a b Ha Hb) as Hp. pose proof (default_nan_nan f Hf) as [Hd1 Hd2].
  destruct (fields f Hf a Ha) as (_ & _ & _ & Sa & _). destruct (fields f Hf b Hb) as (_ & _ & _ & Sb & _).
  unfold div_cases. rewrite Sa, Sb, !lor_eqb_0. set (s := Z.lxor (sign_of f a) (sign_of f b)) in *.
  assert (0 <= 0 <= inf_mag f /\ 0 <= inf_mag f <= inf_mag f) as [Hz Hi].
  { unfold inf_mag. pose proof (powers f Hf) as (HP & _). pose proof (bias_spec f Hf). nia. }
  assert (fval f a = 0 <-> mag_of f a = 0) as Za by by apply fval_zero.
  assert (fval f b = 0 <-> mag_of f b = 0) as Zb by by apply fval_zero.
  destruct (operand_cases f Hf a Ha) as [Ea Fa Ca|Ea Fa Ca|Ea Fa Ca Ma|ea sa Ea Fa Na NFa Ua Ca Ma];
  destruct (operand_cases f Hf b Hb) as [Eb Fb Cb|Eb Fb Cb|Eb Fb Cb Mb|eb sb Eb Fb Nb NFb Ub Cb Mb];
  split_tests; try (eexists; split; [reflexivity|]).
  all: try (apply div_nan; [by try apply Hp; auto|by try apply Hp; auto|tauto|tauto]).
  all: try (rewrite ?(pack_inf f Hf), ?(pack_zero f Hf) by done; clear Hk Hp Hd1 Hd2 Sa Sb Ea Eb Fa Fb;
            apply div_packed; [done|done|done|tauto|tauto|tauto|tauto|tauto|tauto|try tauto; intros _ _ _]).
  all: try (rewrite (proj2 Za), Z.mul_0_l by done; apply rounds_zero; [done|];
            pose proof (fval_nonneg f Hf b Hb); assert (fval f b <> 0) by tauto; lia).
  all: destruct (Hk s ea sa eb sb Hs NFa NFb) as (i & zSig & Hi' & HzS & Hst & Ek).
  all: destruct (div_core a b ea eb _ _ s i zSig Hs Hb NFa NFb Hi' HzS Hst) as (r & Hr & _ & Er).
  all: exists (s * W + r); rewrite Na, Nb, Ek, Er; split; [done|].
  all: pose proof (normal_pos b eb _ Hb NFb) as Hbpos.
  all: clear - Hf Ha Hb Hr Da Db Ca Cb Hs Mb Hbpos.
  all: apply div_packed; [reflexivity|exact Hs| |tauto|tauto|tauto|tauto|tauto|tauto|intros _ _ _; exact Hr].
  all: apply (rounds_le_inf f Hf _ _ r) in Hr; [exact Hr| |exact Hbpos].
  all: apply Z.mul_nonneg_nonneg; [by apply fval_nonneg|apply Z.pow_nonneg; lia].
Qed.

(** The quotient has its leading bit at fw - 2. *)
Lemma quotient_range Ma Mb i :
  P <= Ma < 2 * P -> P <= Mb < 2 * P -> (i = 1 /\ Mb <= Ma \/ i = 0 /\ Ma < Mb) ->
  let A := Ma * 2 ^ (fextra f - i) in let B := Mb * 2 ^ (fextra f + 1) in
  let q := A * 2 ^ fw f / B in
  0 <= A < B /\ 0 < B < 2 ^ fw f /\ 2 ^ (fw f - 2) <= q < W /\ q * B <= A * 2 ^ fw f < (q + 1) * B.
Proof using Hf.
  intros Ha Hb Hi A B q. pose proof (powers f Hf) as (HP & HX & E2 & E1 & E0 & _ & EX & Hh).
  assert (B = 2 * Mb * X) as EB by (unfold B; rewrite Z.pow_add_r by (destruct Hf; lia); lia).
  assert (0 <= A /\ 4 * A < 2 * B /\ B <= 4 * A /\ 2 * A <= B) as (HA & HAB & HBA & _).
  { destruct Hi as [[-> Hi]|[-> Hi]].
    - assert (2 * A = Ma * X) as EA by (unfold A; rewrite <- EX; ring). clear - EA EB Ha Hb Hi HP HX. nia.
    - assert (A = Ma * X) as EA by (unfold A; rewrite Z.sub_0_r; ring). clear - EA EB Ha Hb Hi HP HX. nia. }
  assert (0 < B) as HB by (rewrite EB; clear - Hb HP HX; nia).
  assert (B < 2 ^ fw f) as HB2 by (clear - EB Hb E0 E1 HX; nia).
  pose proof (Z.div_mod (A * 2 ^ fw f) B ltac:(lia)) as Ed. fold q in Ed.
  pose proof (Z.mod_pos_bound (A * 2 ^ fw f) B ltac:(lia)) as Hm.
  split; [lia|]. split; [done|]. split; [|lia].
  assert (4 * (P * X) = 2 ^ fw f) as EW by lia. rewrite E2, E1. unfold q. rewrite <- EW. split.
  - apply Z.div_le_lower_bound; [done|]. pose proof (Z.mul_pos_pos _ _ HP HX). clear - HBA H.
    replace (A * (4 * (P * X))) with (4 * A * (P * X)) by ring. apply Z.mul_le_mono_nonneg_r; lia.
  - apply Z.div_lt_upper_bound; [done|]. pose proof (Z.mul_pos_pos _ _ HP HX). clear - HAB H.
    replace (A * (4 * (P * X))) with (4 * A * (P * X)) by ring.
    replace (B * (2 * P * X)) with (2 * B * (P * X)) by ring. apply Z.mul_lt_mono_pos_r; lia.
Qed.
End Division.

Lemma float32_div_spec a b :
  in_u 32 a -> in_u 32 b -> exists z, float32_div status_zero a b = Some z /\ div_result F32 a b z.
Proof.
  intros Ha Hb. unfold float32_div. rewrite !squash_zero.
  apply (div_cases_spec F32 F32_ok); [done|done|].
  intros s ea sa eb sb Hs (HMa & _) (HMb & _). cbn [ffrac fextra fw F32] in *.
  change 0x00800000 with (2 ^ 23). set (Ma := Z.lor sa (2 ^ 23)) in *. set (Mb := Z.lor sb (2 ^ 23)) in *.
  cbv zeta. rewrite (shl_word 32 Ma), (shl_word 32 Mb), (uw_small 32 (_ + _)) by (unfold in_u; lia).
  set (i := b2z (Mb <=? Ma)).
  assert (i = 1 /\ Mb <= Ma \/ i = 0 /\ Ma < Mb) as Hi by (unfold i; destruct (Z.leb_spec Mb Ma); cbn; lia).
  destruct (quotient_range F32 F32_ok Ma Mb i HMa HMb Hi) as (HA & HB & Hq & HqB).
  cbn [ffrac fextra fw F32] in *. change (7 + 1) with 8 in *.
  replace (if Mb * 2 ^ 8 <=? Ma * 2 ^ 7 + Ma * 2 ^ 7 then _ else _)
    with (Ma * 2 ^ (7 - i), ea - eb + 0x7D + i).
  2: { destruct (Z.leb_spec (Mb * 2 ^ 8) (Ma * 2 ^ 7 + Ma * 2 ^ 7)), Hi as [[-> Hi]|[-> Hi]]; try lia; f_equal; try lia.
       rewrite Z.shiftr_div_pow2 by lia. change (2 ^ (7 - 1)) with (2 ^ 6).
       replace (Ma * 2 ^ 7) with (Ma * 2 ^ 6 * 2 ^ 1) by lia. by rewrite Z.div_mul by lia. }
  set (A := Ma * 2 ^ (7 - i)) in *. set (B := Mb * 2 ^ 8) in *. rewrite (shl_word 64) by lia.
  set (q := A * 2 ^ 32 / B) in *. rewrite (uw_small 32 q) by (unfold in_u; lia).
  rewrite (uw_small 64 (B * q)) by (unfold in_u; nia).
  eexists i, _. split; [lia|]. split; [|split; [|reflexivity]].
  - destruct (Z.land q 63 =? 0); [|done]. by apply odd_bounds.
  - change 63 with (Z.ones 6). rewrite Z.land_ones by lia. change (Ma * 2 ^ (7 - i)) with A.
    destruct (Z.eqb_spec (q mod 2 ^ 6) 0) as [E|E].
    + apply sticky_odd; [lia|lia|done|]. rewrite negb_false_iff, Z.eqb_eq. split; intros ?; lia.
    + pose proof (Z.div_mod q (2 ^ 6) ltac:(lia)). pose proof (Z.mod_pos_bound q (2 ^ 6) ltac:(lia)).
      apply (sticky_inside _ _ _ _ q (q / 2 ^ 6)); [lia|lia|done|lia|lia].
Qed.

(** ** 128-bit remainders *)
(** The two words of a number modulo 2^128. *)
Definition words (r : Z) : Z * Z := ((r / 2 ^ 64) mod 2 ^ 64, r mod 2 ^ 64).

Lemma words_pair h l : in_u 64 h -> in_u 64 l -> words (h * 2 ^ 64 + l) = (h, l).
Proof.
  unfold in_u, words. intros Hh Hl. rewrite Z.add_comm, Z.div_add, Z.mod_add, (Z.div_small l) by lia.
  by rewrite Z.add_0_l, !Z.mod_small by lia.
Qed.

Lemma add128_words x y :
  add128 (words x).1 (words x).2 (words y).1 (words y).2 = words (x + y).
Proof.
  unfold words, add128. cbn [fst snd]. cbv zeta.
  pose proof (Z.div_mod x (2 ^ 64) ltac:(lia)). pose proof (Z.div_mod y (2 ^ 64) ltac:(lia)).
  pose proof (Z.mod_pos_bound x (2 ^ 64) ltac:(lia)). pose proof (Z.mod_pos_bound y (2 ^ 64) ltac:(lia)).
  set (x0 := x / 2 ^ 64) in *. set (x1 := x mod 2 ^ 64) in *. set (y0 := y / 2 ^ 64) in *.
  set (y1 := y mod 2 ^ 64) in *.
  pose proof (add_carry 64 y1 x1 ltac:(lia) ltac:(done) ltac:(done)) as Hc. rewrite (Z.add_comm y1) in Hc.
  assert (in_u 64 (u64 (x1 + y1))) as Hz by (apply uw_range; lia).
  set (z1 := u64 (x1 + y1)) in *. set (c := b2z (z1 <? x1)) in *. unfold in_u in Hz.
  clearbody x0 y0 x1 y1 z1 c.
  assert (x + y = 2 ^ 64 * (x0 + y0 + c) + z1) as E by lia.
  rewrite <- (Z.mod_unique (x + y) (2 ^ 64) (x0 + y0 + c) z1), <- (Z.div_unique (x + y) (2 ^ 64) (x0 + y0 + c) z1) by lia.
  f_equal. unfold uw. rewrite <- Z.add_assoc, Z.add_mod_idemp_l, (Z.add_comm x0), <- Z.add_assoc by lia.
  rewrite Z.add_mod_idemp_l by lia. f_equal. lia.
Qed.

Lemma sub128_words x y :
  sub128 (words x).1 (words x).2 (words y).1 (words y).2 = words (x - y).
Proof.
  unfold words, sub128. cbn [fst snd].
  pose proof (Z.div_mod x (2 ^ 64) ltac:(lia)). pose proof (Z.div_mod y (2 ^ 64) ltac:(lia)).
  pose proof (Z.mod_pos_bound x (2 ^ 64) ltac:(lia)). pose proof (Z.mod_pos_bound y (2 ^ 64) ltac:(lia)).
  set (x0 := x / 2 ^ 64) in *. set (x1 := x mod 2 ^ 64) in *. set (y0 := y / 2 ^ 64) in *.
  set (y1 := y mod 2 ^ 64) in *. set (c := b2z (x1 <? y1)).
  assert (u64 (x1 - y1) = x1 - y1 + 2 ^ 64 * c) as Ez.
  { unfold uw. symmetry. apply Z.mod_unique with (- c); unfold c; destruct (Z.ltb_spec x1 y1); cbn [b2z]; lia. }
  assert (0 <= u64 (x1 - y1) < 2 ^ 64) as Hz by (apply uw_range; lia). set (z1 := u64 (x1 - y1)) in *.
  clearbody x0 y0 x1 y1 z1 c.
  assert (x - y = 2 ^ 64 * (x0 - y0 - c) + z1) as E by lia.
  rewrite <- (Z.mod_unique (x - y) (2 ^ 64) (x0 - y0 - c) z1), <- (Z.div_unique (x - y) (2 ^ 64) (x0 - y0 - c) z1) by lia.
  f_equal. unfold uw. rewrite <- Z.sub_add_distr, Zminus_mod_idemp_l.
  replace (x0 - (y0 mod 2 ^ 64 + c)) with (x0 - c - y0 mod 2 ^ 64) by lia.
  rewrite Zminus_mod_idemp_r. f_equal. lia.
Qed.

Lemma neg64_words r : - 2 ^ 126 <= r < 2 ^ 126 -> neg64 (words r).1 = (r <? 0).
Proof.
  intros Hr. unfold neg64, words. cbn [fst].
  assert (- 2 ^ 62 <= r / 2 ^ 64 < 2 ^ 62) as Hq.
  { split; [apply Z.div_le_lower_bound|apply Z.div_lt_upper_bound]; lia. }
  pose proof (Z.div_mod r (2 ^ 64) ltac:(lia)). pose proof (Z.mod_pos_bound r (2 ^ 64) ltac:(lia)).
  set (q := r / 2 ^ 64) in *. destruct (Z.ltb_spec r 0) as [Hn|Hn].
  - rewrite <- (Z.mod_unique q (2 ^ 64) (-1) (q + 2 ^ 64)) by lia. apply Z.leb_le. lia.
  - rewrite Z.mod_small by lia. apply Z.leb_gt. lia.
Qed.

(** ** estimateDiv128To64 *)
(** One digit of schoolbook division in base 2^32: dividing the leading parts is at
    most two too large (Knuth, algorithm D). *)
Lemma digit_estimate b u0 u1 :
  2 ^ 63 <= b < 2 ^ 64 -> 0 <= u0 -> 0 <= u1 < 2 ^ 32 -> u0 * 2 ^ 32 + u1 < b * 2 ^ 32 ->
  let b0 := b / 2 ^ 32 in
  let e := if b0 * 2 ^ 32 <=? u0 then 2 ^ 32 - 1 else u0 / b0 in
  let d := (u0 * 2 ^ 32 + u1) / b in 0 <= d /\ d <= e <= d + 2 /\ e < 2 ^ 32.
Proof.
  intros Hb Hu0 Hu1 HU b0 e d. set (U := u0 * 2 ^ 32 + u1) in *.
  pose proof (Z.div_mod U b ltac:(lia)) as EU. fold d in EU. pose proof (Z.mod_pos_bound U b ltac:(lia)) as HrU.
  pose proof (Z.div_mod b (2 ^ 32) ltac:(lia)) as Eb. fold b0 in Eb.
  pose proof (Z.mod_pos_bound b (2 ^ 32) ltac:(lia)) as Hbl.
  set (bl := b mod 2 ^ 32) in *. set (rU := U mod b) in *.
  assert (2 ^ 31 <= b0 < 2 ^ 32) as Hb0 by lia.
  assert (0 <= d < 2 ^ 32) as Hd by (split; [apply Z.div_pos|apply Z.div_lt_upper_bound]; lia).
  assert (d * b0 <= u0) as Hdb by (clearbody b0 d; nia).
  assert (0 <= e < 2 ^ 32 /\ d <= e /\ e * b0 <= u0) as (He & Hde & Heb).
  { unfold e. destruct (Z.leb_spec (b0 * 2 ^ 32) u0) as [Hle|Hlt].
    - split; [lia|]. split; [lia|]. clearbody b0 d. nia.
    - pose proof (Z.div_mod u0 b0 ltac:(lia)). pose proof (Z.mod_pos_bound u0 b0 ltac:(lia)).
      assert (u0 / b0 < 2 ^ 32) by (apply Z.div_lt_upper_bound; lia).
      assert (d <= u0 / b0) by (apply Z.div_le_lower_bound; lia). lia. }
  split; [lia|]. split; [|lia]. split; [done|].
  assert (e * bl <= (2 ^ 32 - 1) * (2 ^ 32 - 1)) by (apply Z.mul_le_mono_nonneg; lia).
  assert (e * b < (d + 3) * b); [|clearbody b0 e d; nia].
  assert (e * b = e * b0 * 2 ^ 32 + e * bl) as -> by (rewrite Eb at 1; ring). lia.
Qed.

Lemma step_words b : in_u 64 b -> words (b * 2 ^ 32) = (Z.shiftr b 32, u64 (Z.shiftl b 32)).
Proof.
  intros Hb. pose proof (word_halves 32 b ltac:(lia) Hb) as (Hh & Hl & E & Es & El).
  change (32 + 32) with 64 in El. rewrite Es, El, <- words_pair; [f_equal; lia| |];
    unfold in_u in *; lia.
Qed.

Lemma estimateDiv_loop_spec n b z r fuel :
  (n <= fuel <= 8)%nat -> 2 ^ 63 <= b < 2 ^ 64 -> Z.of_nat n * 2 ^ 32 <= z < 2 ^ 64 ->
  - Z.of_nat n * (b * 2 ^ 32) <= r < b * 2 ^ 32 ->
  exists k, 0 <= k <= Z.of_nat n /\ 0 <= r + k * (b * 2 ^ 32) < b * 2 ^ 32 /\
    estimateDiv_loop fuel b (Z.shiftr b 32) z (words r).1 (words r).2 =
      Some (z - k * 2 ^ 32, (words (r + k * (b * 2 ^ 32))).1, (words (r + k * (b * 2 ^ 32))).2).
Proof.
  revert z r fuel. induction n as [|n IH]; intros z r fuel Hn Hb Hz Hr.
  - exists 0. rewrite !Z.mul_0_l, Z.add_0_r, Z.sub_0_r. split; [lia|]. split; [lia|].
    destruct fuel; cbn [estimateDiv_loop]; rewrite neg64_words, (proj2 (Z.ltb_ge _ _)) by lia; done.
  - destruct (decide (0 <= r)) as [Hp|Hp].
    { exists 0. rewrite !Z.mul_0_l, Z.add_0_r, Z.sub_0_r. split; [lia|]. split; [lia|].
      destruct fuel; cbn [estimateDiv_loop]; rewrite neg64_words, (proj2 (Z.ltb_ge _ _)) by lia; done. }
    destruct fuel as [|fuel]; [lia|]. cbn [estimateDiv_loop].
    assert (Z.of_nat (S n) * (b * 2 ^ 32) <= 8 * (2 ^ 64 * 2 ^ 32)) by (apply Z.mul_le_mono_nonneg; lia).
    rewrite neg64_words, (proj2 (Z.ltb_lt _ _)) by lia. cbv zeta.
    assert ((Z.shiftr b 32, u64 (Z.shiftl b 32)) = words (b * 2 ^ 32)) as Es
      by (symmetry; apply step_words; unfold in_u; lia).
    apply (f_equal fst) in Es as E0. apply (f_equal snd) in Es as E1. cbn [fst snd] in E0, E1.
    assert (add128 (words r).1 (words r).2 (Z.shiftr b 32) (u64 (Z.shiftl b 32)) = words (r + b * 2 ^ 32)) as ->
      by (rewrite E0, E1; apply add128_words).
    rewrite uw_small by (unfold in_u; lia).
    destruct (IH (z - 2 ^ 32) (r + b * 2 ^ 32) fuel) as (k & Hk & Hr' & Ek); [lia|done|lia|lia|].
    exists (k + 1). split; [lia|].
    replace (r + (k + 1) * (b * 2 ^ 32)) with (r + b * 2 ^ 32 + k * (b * 2 ^ 32)) by ring.
    replace (z - (k + 1) * 2 ^ 32) with (z - 2 ^ 32 - k * 2 ^ 32) by ring.
    split; [done|]. rewrite <- Ek. by change 0x100000000 with (2 ^ 32).
Qed.

Lemma middle_words r :
  0 <= r < 2 ^ 96 -> Z.lor (u64 (Z.shiftl (words r).1 32)) (Z.shiftr (words r).2 32) = r / 2 ^ 32.
Proof.
  intros Hr. unfold words. cbn [fst snd].
  pose proof (Z.div_mod r (2 ^ 64) ltac:(lia)) as E. pose proof (Z.mod_pos_bound r (2 ^ 64) ltac:(lia)).
  assert (0 <= r / 2 ^ 64 < 2 ^ 32) by (split; [apply Z.div_pos; lia|apply Z.div_lt_upper_bound; lia]).
  rewrite (Z.mod_small (r / 2 ^ 64)), shl_word, Z.shiftr_div_pow2, <- Z.shiftl_mul_pow2 by lia.
  rewrite lor_shift_add; [|lia|].
  - rewrite E at 3. replace (2 ^ 64 * (r / 2 ^ 64) + r mod 2 ^ 64) with (r mod 2 ^ 64 + r / 2 ^ 64 * 2 ^ 32 * 2 ^ 32) by lia.
    rewrite Z.div_add by lia. lia.
  - unfold in_u. split; [apply Z.div_pos; lia|apply Z.div_lt_upper_bound; lia].
Qed.

(** The estimate is the quotient or at most two more. *)
Lemma estimateDiv_spec a0 a1 b :
  in_u 64 a0 -> in_u 64 a1 -> 2 ^ 63 <= b < 2 ^ 64 -> a0 < b ->
  let q := (a0 * 2 ^ 64 + a1) / b in
  exists z, estimateDiv128To64 a0 a1 b = Some z /\ 0 <= q /\ q <= z <= q + 2 /\ in_u 64 z.
Proof.
  intros Ha0 Ha1 Hb Hab q. unfold in_u in *. set (a := a0 * 2 ^ 64 + a1) in *.
  unfold estimateDiv128To64. rewrite (proj2 (Z.leb_gt _ _)) by lia. cbv zeta.
  pose proof (word_halves 32 b ltac:(lia) ltac:(unfold in_u; lia)) as (Hb0 & _ & Eb & Eb0 & _).
  set (b0 := Z.shiftr b 32) in *. assert (b0 = b / 2 ^ 32) as Eb0' by (unfold b0; apply Z.shiftr_div_pow2; lia).
  rewrite <- Eb0 in Hb0. unfold in_u in Hb0.
  rewrite (shl_word 64 b0) by lia. change 0xFFFFFFFF00000000 with ((2 ^ 32 - 1) * 2 ^ 32).
  destruct (digit_estimate b a0 (a1 / 2 ^ 32) Hb ltac:(lia)) as (Hd0 & He & He32);
    [split; [apply Z.div_pos; lia|apply Z.div_lt_upper_bound; lia]| |].
  { pose proof (Z.mul_div_le a1 (2 ^ 32)). nia. }
  rewrite <- Eb0' in He, He32. set (e := if b0 * 2 ^ 32 <=? a0 then 2 ^ 32 - 1 else a0 / b0) in *.
  set (d := (a0 * 2 ^ 32 + a1 / 2 ^ 32) / b) in *.
  replace (if b0 * 2 ^ 32 <=? a0 then (2 ^ 32 - 1) * 2 ^ 32 else u64 (Z.shiftl (a0 / b0) 32)) with (e * 2 ^ 32).
  2: { unfold e in *. destruct (b0 * 2 ^ 32 <=? a0); [done|]. rewrite shl_word by lia. done. }
  assert (a / (b * 2 ^ 32) = d) as Ed.
  { unfold d, a. rewrite (Z.mul_comm b), <- Z.div_div by lia. f_equal.
    replace (a0 * 2 ^ 64 + a1) with (a1 + a0 * 2 ^ 32 * 2 ^ 32) by lia. rewrite Z.div_add by lia. lia. }
  pose proof (Z.div_mod a (b * 2 ^ 32) ltac:(lia)) as Ea. rewrite Ed in Ea.
  pose proof (Z.mod_pos_bound a (b * 2 ^ 32) ltac:(lia)) as Hr. set (rest := a mod (b * 2 ^ 32)) in *.
  pose proof (mul64To128_spec b (e * 2 ^ 32) ltac:(unfold in_u; lia) ltac:(unfold in_u; lia)) as (Hm0 & Hm1 & Em).
  assert (sub128 a0 a1 (mul64To128 b (e * 2 ^ 32)).1 (mul64To128 b (e * 2 ^ 32)).2 = words (a - b * (e * 2 ^ 32))) as ->.
  { rewrite <- Em, <- sub128_words. unfold a. by rewrite !words_pair. }
  destruct (estimateDiv_loop_spec (Z.to_nat (e - d)) b (e * 2 ^ 32) (a - b * (e * 2 ^ 32)) loop_fuel)
    as (k & Hk & Hrk & Ek); [unfold loop_fuel; lia|done|lia| |].
  { rewrite Z2Nat.id by lia. clearbody d rest e. split; [|nia].
    replace (a - b * (e * 2 ^ 32)) with (rest - (e - d) * (b * 2 ^ 32)) by (rewrite Ea; ring). lia. }
  fold b0 in Ek. rewrite Ek. rewrite Z2Nat.id in Hk by lia.
  assert (k = e - d) as Ekd.
  { replace (a - b * (e * 2 ^ 32) + k * (b * 2 ^ 32)) with (rest + (k - (e - d)) * (b * 2 ^ 32)) in Hrk by (rewrite Ea; ring).
    clearbody rest d e. nia. }
  replace (a - b * (e * 2 ^ 32) + k * (b * 2 ^ 32)) with rest in * by (rewrite Ekd, Ea; ring).
  replace (e * 2 ^ 32 - k * 2 ^ 32) with (d * 2 ^ 32) by (rewrite Ekd; ring).
  rewrite middle_words by lia.
  destruct (digit_estimate b (rest / 2 ^ 32) (rest mod 2 ^ 32) Hb) as (Hd2 & He2 & He3);
    [apply Z.div_pos; lia|apply Z.mod_pos_bound; lia|pose proof (Z.div_mod rest (2 ^ 32)); lia|].
  rewrite <- Eb0' in *. change 0xFFFFFFFF with (2 ^ 32 - 1).
  set (e2 := if b0 * 2 ^ 32 <=? rest / 2 ^ 32 then 2 ^ 32 - 1 else rest / 2 ^ 32 / b0) in *.
  replace (rest / 2 ^ 32 * 2 ^ 32 + rest mod 2 ^ 32) with rest in * by (pose proof (Z.div_mod rest (2 ^ 32)); lia).
  eexists. split; [reflexivity|].
  rewrite <- Z.shiftl_mul_pow2, lor_shift_add by (unfold in_u; lia).
  assert (q = d * 2 ^ 32 + rest / b) as ->.
  { unfold q. rewrite Ea. replace (b * 2 ^ 32 * d + rest) with (rest + d * 2 ^ 32 * b) by ring.
    rewrite Z.div_add by lia. lia. }
  lia.
Qed.

Lemma div64_loop_spec n b z r fuel :
  (n <= fuel <= 8)%nat -> 2 ^ 63 <= b < 2 ^ 64 -> Z.of_nat n <= z < 2 ^ 64 -> - Z.of_nat n * b <= r < b ->
  exists k, 0 <= k <= Z.of_nat n /\ 0 <= r + k * b < b /\
    div64_loop fuel b z (words r).1 (words r).2 = Some (z - k, (words (r + k * b)).2).
Proof.
  revert z r fuel. induction n as [|n IH]; intros z r fuel Hn Hb Hz Hr.
  - exists 0. rewrite !Z.mul_0_l, Z.add_0_r, Z.sub_0_r. split; [lia|]. split; [lia|].
    destruct fuel; cbn [div64_loop]; rewrite neg64_words, (proj2 (Z.ltb_ge _ _)) by lia; done.
  - destruct (decide (0 <= r)) as [Hp|Hp].
    { exists 0. rewrite !Z.mul_0_l, Z.add_0_r, Z.sub_0_r. split; [lia|]. split; [lia|].
      destruct fuel; cbn [div64_loop]; rewrite neg64_words, (proj2 (Z.ltb_ge _ _)) by lia; done. }
    destruct fuel as [|fuel]; [lia|]. cbn [div64_loop].
    assert (Z.of_nat (S n) * b <= 8 * 2 ^ 64) by (apply Z.mul_le_mono_nonneg; lia).
    rewrite neg64_words, (proj2 (Z.ltb_lt _ _)) by lia. cbv zeta.
    assert (add128 (words r).1 (words r).2 0 b = words (r + b)) as ->.
    { rewrite <- add128_words. replace b with (0 * 2 ^ 64 + b) at 2 3 by lia. by rewrite words_pair by (unfold in_u; lia). }
    rewrite uw_small by (unfold in_u; lia).
    destruct (IH (z - 1) (r + b) fuel) as (k & Hk & Hr' & Ek); [lia|done|lia|lia|].
    exists (k + 1). split; [lia|]. replace (r + (k + 1) * b) with (r + b + k * b) by ring.
    replace (z - (k + 1)) with (z - 1 - k) by ring. done.
Qed.

(** The correction step of float64_div. *)
Lemma div64_correct A B q z :
  0 <= A < B -> 2 ^ 63 <= B < 2 ^ 64 -> q = A * 2 ^ 64 / B -> q <= z <= q + 2 -> in_u 64 z ->
  let t := mul64To128 B z in
  let r := sub128 A 0 t.1 t.2 in
  div64_loop loop_fuel B z r.1 r.2 = Some (q, (A * 2 ^ 64) mod B).
Proof.
  intros HA HB Eq Hz Hzu. unfold in_u in Hzu. cbv zeta.
  pose proof (Z.div_mod (A * 2 ^ 64) B ltac:(lia)) as Ed. rewrite <- Eq in Ed.
  pose proof (Z.mod_pos_bound (A * 2 ^ 64) B ltac:(lia)) as Hm. set (m := (A * 2 ^ 64) mod B) in *.
  assert (0 <= q) by (subst q; apply Z.div_pos; lia).
  pose proof (mul64To128_spec B z ltac:(unfold in_u; lia) Hzu) as (H0 & H1 & Em).
  assert (sub128 A 0 (mul64To128 B z).1 (mul64To128 B z).2 = words (A * 2 ^ 64 + 0 - B * z)) as ->.
  { rewrite <- Em, <- sub128_words. by rewrite !words_pair by (done || unfold in_u; lia). }
  clearbody m. clear Eq.
  replace (A * 2 ^ 64 + 0 - B * z) with (m - (z - q) * B) by (rewrite Z.add_0_r, Ed; ring).
  destruct (div64_loop_spec (Z.to_nat (z - q)) B z (m - (z - q) * B) loop_fuel) as (k & Hk & Hr & ->);
    [unfold loop_fuel; lia|done|lia|nia|].
  assert (k = z - q) as -> by nia.
  replace (m - (z - q) * B + (z - q) * B) with m by ring.
  unfold words. cbn [snd]. rewrite Z.mod_small by lia. do 2 f_equal. lia.
Qed.

Lemma float64_div_spec a b :
  in_u 64 a -> in_u 64 b -> exists z, float64_div status_zero a b = Some z /\ div_result F64 a b z.
Proof.
  intros Ha Hb. unfold float64_div. rewrite !squash_zero.
  apply (div_cases_spec F64 F64_ok); [done|done|].
  intros s ea sa eb sb Hs (HMa & _) (HMb & _). cbn [ffrac fextra fw F64] in *.
  change 0x0010000000000000 with (2 ^ 52). set (Ma := Z.lor sa (2 ^ 52)) in *. set (Mb := Z.lor sb (2 ^ 52)) in *.
  cbv zeta. rewrite (shl_word 64 Ma), (shl_word 64 Mb), (uw_small 64 (_ + _)) by (unfold in_u; lia).
  set (i := b2z (Mb <=? Ma)).
  assert (i = 1 /\ Mb <= Ma \/ i = 0 /\ Ma < Mb) as Hi by (unfold i; destruct (Z.leb_spec Mb Ma); cbn; lia).
  destruct (quotient_range F64 F64_ok Ma Mb i HMa HMb Hi) as (HA & HB & Hq & HqB).
  cbn [ffrac fextra fw F64] in *. change (10 + 1) with 11 in *.
  replace (if Mb * 2 ^ 11 <=? Ma * 2 ^ 10 + Ma * 2 ^ 10 then _ else _)
    with (Ma * 2 ^ (10 - i), ea - eb + 0x3FD + i).
  2: { destruct (Z.leb_spec (Mb * 2 ^ 11) (Ma * 2 ^ 10 + Ma * 2 ^ 10)), Hi as [[-> Hi]|[-> Hi]]; try lia; f_equal; try lia.
       rewrite Z.shiftr_div_pow2 by lia. change (2 ^ (10 - 1)) with (2 ^ 9).
       replace (Ma * 2 ^ 10) with (Ma * 2 ^ 9 * 2 ^ 1) by lia. by rewrite Z.div_mul by lia. }
  set (A := Ma * 2 ^ (10 - i)) in *.
  assert (2 ^ 63 <= Mb * 2 ^ 11) as HB2 by lia. set (B := Mb * 2 ^ 11) in *.
  destruct (estimateDiv_spec A 0 B) as (z & -> & Hq0 & Hz & Hzu); [unfold in_u; lia|unfold in_u; lia|lia|lia|].
  rewrite Z.add_0_r in *. set (q := A * 2 ^ 64 / B) in *.
  change 0x1FF with (Z.ones 9). rewrite Z.land_ones by lia.
  pose proof (Z.div_mod z (2 ^ 9) ltac:(lia)) as Ez. pose proof (Z.mod_pos_bound z (2 ^ 9) ltac:(lia)) as Hzm.
  destruct (Z.leb_spec (z mod 2 ^ 9) 2) as [Hlow|Hlow].
  - rewrite (div64_correct A B q z) by (done || lia).
    eexists i, _. split; [lia|]. split; [|split; [|reflexivity]]; [apply odd_bounds; lia|].
    apply sticky_odd; [lia|lia|done|]. rewrite negb_false_iff, Z.eqb_eq.
    pose proof (Z.div_mod (A * 2 ^ 64) B ltac:(lia)) as Ed. fold q in Ed. lia.
  - eexists i, z. split; [lia|]. split; [|split; [|reflexivity]]; [lia|].
    apply (sticky_inside _ _ _ _ q (z / 2 ^ 9)); [lia|lia|done|lia|lia].
Qed.

(** C32: floating-point division (div.s, div.d) always returns: the estimate of the
    128-bit quotient and the correction loops of the double-precision code end, since the
    estimate is at most two too large.  The result is what IEEE 754 prescribes in
    round-to-nearest-even mode for every pair of encodings: a NaN exactly when an operand
    is one, for 0/0 and for infinity/infinity; otherwise the exclusive or of the signs,
    infinity for an infinite dividend or a zero divisor, zero for an infinite divisor,
    and for finite operands the magnitude nearest to the exact quotient, ties to even. *)
Theorem float_div_correct a b :
  (in_u 32 a -> in_u 32 b -> exists z, float32_div status_zero a b = Some z /\ div_result F32 a b z) /\
  (in_u 64 a -> in_u 64 b -> exists z, float64_div status_zero a b = Some z /\ div_result F64 a b z).
Proof. split; [apply float32_div_spec|apply float64_div_spec]. Qed.

(** 1 / 3 in single precision, 1 / 0 in double precision. *)
Lemma float_div_correct_witness :
  (exists z, float32_div status_zero 0x3F800000 0x40400000 = Some z /\ div_result F32 0x3F800000 0x40400000 z) /\
  (exists z, float64_div status_zero 0x3FF0000000000000 0 = Some z /\ div_result F64 0x3FF0000000000000 0 z).
Proof.
  split; [apply (float_div_correct 0x3F800000 0x40400000)|apply (float_div_correct 0x3FF0000000000000 0)];
    unfold in_u; lia.
Defined.
