(* ===== verification/FloatSqrt.v ===== *)
(** * Floating point square root

    float32_sqrt and float64_sqrt refine a table-driven estimate by Newton steps and
    correct the last bits when they matter.  The estimate is never more than a few units
    from the root, so the correction loops end and the result is correctly rounded. *)
From S2P Require Import Prelude Softfloat FloatSpec FloatProps FloatDiv.

(** ** Newton steps on integers *)
(** A mean of N / z and z is at least the root, up to what truncation loses. *)
Lemma mean_square N z y : 0 < z -> 0 <= N -> N + z * z < z * y -> 4 * N < y * y.
Proof.
  intros Hz HN H. assert (0 <= z * z) by nia. set (u := N + z * z) in *. set (v := z * y) in *.
  assert (u * u < v * v) by (apply Z.mul_lt_mono_nonneg; lia).
  assert (4 * N * (z * z) <= u * u) by (unfold u; pose proof (Z.square_nonneg (N - z * z)); lia).
  apply (Z.mul_lt_mono_pos_r (z * z)); [nia|]. unfold v in *. lia.
Qed.

Lemma newton_low N z :
  0 < z -> 0 <= N -> let w := N / (2 * z) + z / 2 in 4 * N < (2 * w + 3) * (2 * w + 3).
Proof.
  intros Hz HN w. apply (mean_square N z); [done|done|].
  pose proof (Z.div_mod N (2 * z) ltac:(lia)). pose proof (Z.mod_pos_bound N (2 * z) ltac:(lia)).
  pose proof (Z.div_mod z 2 ltac:(lia)). pose proof (Z.mod_pos_bound z 2 ltac:(lia)).
  unfold w. set (u := N / (2 * z)) in *. set (v := z / 2) in *. nia.
Qed.

(** When z is near the root the mean is near it too. *)
Lemma newton_high N z w k E s :
  0 < z -> 0 <= E -> 2 * z * w <= N + z * z -> N < s * s -> Z.abs (s - z) <= E -> E * E <= 2 * z * k -> w < s + k.
Proof.
  intros Hz HE Hw HN Hs Hk. destruct (Z.lt_ge_cases w (s + k)) as [|Hge]; [done|]. exfalso.
  assert (2 * z * (s + k) <= 2 * z * w) by nia.
  assert ((s - z) * (s - z) <= E * E) by nia. nia.
Qed.

Lemma newton_floor N z : 0 < z -> 2 * z * (N / (2 * z) + z / 2) <= N + z * z.
Proof.
  intros Hz. pose proof (Z.div_mod N (2 * z) ltac:(lia)). pose proof (Z.mod_pos_bound N (2 * z) ltac:(lia)).
  pose proof (Z.div_mod z 2 ltac:(lia)). pose proof (Z.mod_pos_bound z 2 ltac:(lia)). nia.
Qed.

(** Bounds on the integer root. *)
Lemma root_spec N : 0 <= N ->
  0 <= Z.sqrt N /\ Z.sqrt N * Z.sqrt N <= N < (Z.sqrt N + 1) * (Z.sqrt N + 1).
Proof. intros HN. split; [apply Z.sqrt_nonneg|]. exact (Z.sqrt_spec N HN). Qed.
Lemma sqrt_lt N y : 0 <= N -> 0 <= y -> N < y * y -> Z.sqrt N < y.
Proof.
  intros HN Hy H. destruct (Z.lt_ge_cases (Z.sqrt N) y) as [|Hge]; [done|].
  destruct (root_spec N HN) as (_ & H1 & _). assert (y * y <= Z.sqrt N * Z.sqrt N) by (apply Z.mul_le_mono_nonneg; lia). lia.
Qed.
Lemma sqrt_ge N y : 0 <= N -> y * y <= N -> y <= Z.sqrt N.
Proof.
  intros HN H. destruct (Z.le_gt_cases y (Z.sqrt N)) as [|Hgt]; [done|].
  destruct (root_spec N HN) as (H0 & _ & Hs).
  assert ((Z.sqrt N + 1) * (Z.sqrt N + 1) <= y * y) by (apply Z.mul_le_mono_nonneg; lia). lia.
Qed.

(** ** The tables *)
(** First approximation of the root of a (even exponents) and of a / 2 (odd exponents). *)
Definition first_even (t : Z) : Z := 0x8000 + t - arr_get sqrtEvenAdjustments (Z.land (Z.shiftr t 10) 15).
Definition first_odd (t : Z) : Z := 0x4000 + t - arr_get sqrtOddAdjustments (Z.land (Z.shiftr t 10) 15).

Definition table_ok (t : Z) : bool :=
  let z := first_even t in let y := first_odd t in
  (0 <=? z - 207) && ((z - 207) * (z - 207) <=? t * 2 ^ 17) && ((t + 1) * 2 ^ 17 <=? (z + 207) * (z + 207)) &&
  (0 <=? y - 148) && (2 * ((y - 148) * (y - 148)) <=? t * 2 ^ 17) && ((t + 1) * 2 ^ 17 <=? 2 * ((y + 148) * (y + 148))) &&
  (46100 <=? z) && (z <? 2 ^ 16 + 207) && (32764 <=? y) && (y <? 2 ^ 16).

Fixpoint tables_ok (n : nat) (t : Z) : bool :=
  match n with O => true | S n => table_ok t && tables_ok n (t + 1) end.

Lemma tables_checked : tables_ok (Z.to_nat (2 ^ 14)) (2 ^ 14) = true.
Proof. vm_compute. reflexivity. Qed.

Lemma table_spec t : 2 ^ 14 <= t < 2 ^ 15 -> table_ok t = true.
Proof.
  assert (forall n u, tables_ok n u = true -> u <= t < u + Z.of_nat n -> table_ok t = true) as H.
  { induction n as [|n IH]; intros u E Hu; [lia|]. cbn [tables_ok] in E. apply andb_true_iff in E as [E1 E2].
    destruct (decide (t = u)) as [->|]; [done|]. apply (IH (u + 1)); [done|lia]. }
  intros Ht. apply (H _ _ tables_checked). lia.
Qed.

(** ** estimateSqrt32 *)
(** What the callers use of the estimate [w] of the root of N. *)
Definition near_root (N w : Z) : Prop := 4 * N < (2 * w + 3) * (2 * w + 3) /\ w <= Z.sqrt N + 1 /\ 0 <= w < 2 ^ 32.

(** The last Newton step, from z near the root. *)
Lemma last_step N z :
  2 ^ 62 <= N -> Z.sqrt N <= 2 ^ 32 - 3 -> 2 ^ 30 <= z -> Z.abs (Z.sqrt N + 1 - z) <= 2 ^ 15 ->
  near_root N (N / (2 * z) + z / 2).
Proof.
  intros HN Hq Hz Hd. split; [apply newton_low; lia|]. pose proof (newton_floor N z ltac:(lia)) as Hf.
  destruct (root_spec N ltac:(lia)) as (H0 & _ & H1).
  pose proof (newton_high N z _ 1 (2 ^ 15) (Z.sqrt N + 1) ltac:(lia) ltac:(lia) Hf ltac:(lia) Hd ltac:(lia)).
  assert (0 <= N / (2 * z)) by (apply Z.div_pos; lia). assert (0 <= z / 2) by (apply Z.div_pos; lia). lia.
Qed.

(** The first Newton step for even exponents: within one of twice the root of a. *)
Lemma first_step_even a z0 :
  0 < a -> 46100 <= z0 -> 0 <= z0 - 207 -> (z0 - 207) * (z0 - 207) <= a <= (z0 + 207) * (z0 + 207) ->
  let z1 := a / z0 + z0 in 4 * a < (z1 + 1) * (z1 + 1) /\ z1 <= Z.sqrt (4 * a) + 1.
Proof.
  intros Ha Hz Hp Hb z1. pose proof (Z.div_mod a z0 ltac:(lia)) as Ed. pose proof (Z.mod_pos_bound a z0 ltac:(lia)) as Hm.
  assert (z0 * z1 = a - a mod z0 + z0 * z0) as E by (unfold z1; lia). split.
  - apply (mean_square a z0); [lia|lia|]. lia.
  - destruct (root_spec (4 * a) ltac:(lia)) as (_ & _ & H1).
    assert (2 * z0 - 414 <= Z.sqrt (4 * a)) by (apply sqrt_ge; lia).
    assert (Z.sqrt (4 * a) < 2 * z0 + 415) by (apply sqrt_lt; lia).
    pose proof (newton_high (4 * a) (2 * z0) z1 1 415 (Z.sqrt (4 * a) + 1) ltac:(lia) ltac:(lia) ltac:(lia) ltac:(lia)
      ltac:(lia) ltac:(lia)). lia.
Qed.

(** For odd exponents: four times the root of a / 2. *)
Lemma first_step_odd a z0 :
  0 < a -> 32764 <= z0 -> 2 * ((z0 - 148) * (z0 - 148)) <= a <= 2 * ((z0 + 148) * (z0 + 148)) ->
  let y1 := a / z0 + 2 * z0 in 8 * a < (y1 + 1) * (y1 + 1) /\ y1 <= Z.sqrt (8 * a) + 2.
Proof.
  intros Ha Hz Hb y1. pose proof (Z.div_mod a z0 ltac:(lia)) as Ed. pose proof (Z.mod_pos_bound a z0 ltac:(lia)) as Hm.
  assert (z0 * y1 = a - a mod z0 + 2 * (z0 * z0)) as E by (unfold y1; lia). split.
  - replace (8 * a) with (4 * (2 * a)) by ring. apply (mean_square (2 * a) (2 * z0)); lia.
  - destruct (root_spec (8 * a) ltac:(lia)) as (_ & _ & H1).
    assert (4 * z0 - 592 <= Z.sqrt (8 * a)) by (apply sqrt_ge; lia).
    assert (Z.sqrt (8 * a) < 4 * z0 + 593) by (apply sqrt_lt; lia).
    pose proof (newton_high (8 * a) (4 * z0) y1 2 593 (Z.sqrt (8 * a) + 1) ltac:(lia) ltac:(lia) ltac:(lia) ltac:(lia)
      ltac:(lia) ltac:(lia)). lia.
Qed.

(** The tables, at the argument of estimateSqrt32. *)
Lemma first_approximation a :
  2 ^ 31 <= a < 2 ^ 32 -> let t := Z.shiftr a 17 in
  arr_get sqrtEvenAdjustments (Z.land (Z.shiftr a 27) 15) = 0x8000 + t - first_even t /\
  arr_get sqrtOddAdjustments (Z.land (Z.shiftr a 27) 15) = 0x4000 + t - first_odd t /\
  46100 <= first_even t < 2 ^ 16 + 207 /\ 32764 <= first_odd t < 2 ^ 16 /\
  (first_even t - 207) * (first_even t - 207) <= a <= (first_even t + 207) * (first_even t + 207) /\
  2 * ((first_odd t - 148) * (first_odd t - 148)) <= a <= 2 * ((first_odd t + 148) * (first_odd t + 148)).
Proof.
  intros Ha t. assert (t = a / 2 ^ 17) as Et by (apply Z.shiftr_div_pow2; lia).
  pose proof (Z.div_mod a (2 ^ 17) ltac:(lia)) as Ed. pose proof (Z.mod_pos_bound a (2 ^ 17) ltac:(lia)) as Hm.
  rewrite <- Et in Ed. assert (2 ^ 14 <= t < 2 ^ 15) as Ht by lia.
  pose proof (table_spec t Ht) as H. unfold table_ok in H. rewrite !andb_true_iff, !Z.leb_le, !Z.ltb_lt in H.
  assert (Z.shiftr t 10 = Z.shiftr a 27) as Es by (unfold t; rewrite Z.shiftr_shiftr by lia; done).
  unfold first_even at 1. unfold first_odd at 1. rewrite Es. split_and!; lia.
Qed.

(** The C expression for the last step. *)
Lemma mean_word a z :
  0 <= a < 2 ^ 32 -> 0 < z < 2 ^ 32 -> 0 <= a * 2 ^ 32 / (2 * z) + z / 2 < 2 ^ 32 ->
  u32 (u32 (u64 (Z.shiftl a 31) / z) + Z.shiftr z 1) = a * 2 ^ 32 / (2 * z) + z / 2.
Proof.
  intros Ha Hz Hw. rewrite shl_word, Z.shiftr_div_pow2 by lia. change (2 ^ 1) with 2.
  replace (a * 2 ^ 32 / (2 * z)) with (a * 2 ^ 31 / z) in *.
  2:{ replace (a * 2 ^ 32) with (2 * (a * 2 ^ 31)) by ring. rewrite Z.div_mul_cancel_l by lia. done. }
  assert (0 <= a * 2 ^ 31 / z) by (apply Z.div_pos; lia). assert (0 <= z / 2) by (apply Z.div_pos; lia).
  rewrite (uw_small 32 (_ / z)), uw_small by (unfold in_u; lia). done.
Qed.

(** Near the top of the range, where the mean of a and 2^32 is taken. *)
Lemma estimate_top a :
  2 ^ 31 <= a < 2 ^ 32 -> 2 ^ 32 - 2 ^ 16 - 1 <= a -> near_root (a * 2 ^ 32) (u32 (Z.shiftr (s32 a) 1)).
Proof.
  intros Ha Ht. assert (u32 (Z.shiftr (s32 a) 1) = (2 ^ 32 + a) / 2) as ->.
  { rewrite s32_cases, (proj2 (Z.ltb_ge _ _)), Z.shiftr_div_pow2 by (unfold in_u; lia). unfold uw.
    change (2 ^ 1) with 2. replace (a - 2 ^ 32) with (2 ^ 32 + a + - 2 ^ 32 * 2) by ring. rewrite Z.div_add by lia.
    assert (0 <= (2 ^ 32 + a) / 2 < 2 ^ 32) by (split; [apply Z.div_pos|apply Z.div_lt_upper_bound]; lia).
    symmetry. apply Z.mod_unique with (-1); lia. }
  set (w := (2 ^ 32 + a) / 2). pose proof (Z.div_mod (2 ^ 32 + a) 2 ltac:(lia)) as Ed. fold w in Ed.
  pose proof (Z.mod_pos_bound (2 ^ 32 + a) 2 ltac:(lia)) as Hm. set (N := a * 2 ^ 32).
  destruct (root_spec N ltac:(lia)) as (R0 & _ & R2).
  assert (a <= Z.sqrt N) by (apply sqrt_ge; [unfold N; lia|apply Z.mul_le_mono_nonneg_l; lia]).
  assert (Z.sqrt N < 2 ^ 32) by (apply sqrt_lt; unfold N; lia). split; [|split; [|lia]].
  - apply (mean_square N (2 ^ 32)); unfold N; lia.
  - pose proof (newton_high N (2 ^ 32) w 1 (2 ^ 16 + 1) (Z.sqrt N + 1) ltac:(lia) ltac:(lia) ltac:(unfold N; lia)
      ltac:(lia) ltac:(lia) ltac:(lia)). lia.
Qed.

Lemma estimate_even aExp a :
  Z.land aExp 1 = 0 -> 2 ^ 31 <= a < 2 ^ 32 -> near_root (a * 2 ^ 32) (estimateSqrt32 aExp a).
Proof.
  intros Hi Ha. unfold estimateSqrt32. rewrite Hi. cbn [Z.eqb negb].
  destruct (first_approximation a Ha) as (-> & _ & Hz0 & _ & Hb & _). set (t := Z.shiftr a 17) in *.
  replace (0x8000 + t - (0x8000 + t - first_even t)) with (first_even t) by lia. set (z0 := first_even t) in *.
  rewrite (uw_small 32 z0) by (unfold in_u; lia).
  destruct (first_step_even a z0) as [L1 L2]; [lia|lia|lia|done|]. set (z1 := a / z0 + z0) in *.
  set (N := a * 2 ^ 32). destruct (root_spec N ltac:(lia)) as (R0 & R1 & R2). 
  assert (a / z0 < 2 ^ 17) by (apply Z.div_lt_upper_bound; lia). assert (0 <= a / z0) by (apply Z.div_pos; lia).
  rewrite (uw_small 32 z1) by (unfold in_u; lia). assert (0 <= z1) by lia.
  assert ((z1 - 1) * (z1 - 1) <= 4 * a) as L3.
  { destruct (root_spec (4 * a) ltac:(lia)) as (? & ? & _).
    assert ((z1 - 1) * (z1 - 1) <= Z.sqrt (4 * a) * Z.sqrt (4 * a)) by (apply Z.mul_le_mono_nonneg; lia). lia. }
  set (z := if 0x20000 <=? z1 then 0xFFFF8000 else u32 (Z.shiftl z1 15)).
  assert (N < (z + 2 ^ 15) * (z + 2 ^ 15) /\ (z - 2 ^ 15) * (z - 2 ^ 15) <= N /\ 2 ^ 30 <= z <= 2 ^ 32 - 2 ^ 15) as (Z1 & Z2 & Z3).
  { unfold z, N. destruct (Z.leb_spec 0x20000 z1).
    - split; [lia|]. split; [|lia]. assert ((2 ^ 17 - 1) * (2 ^ 17 - 1) <= 4 * a); [|lia].
      etrans; [|exact L3]. apply Z.mul_le_mono_nonneg; lia.
    - rewrite shl_word by lia. replace (z1 * 2 ^ 15 + 2 ^ 15) with ((z1 + 1) * 2 ^ 15) by ring.
      replace (z1 * 2 ^ 15 - 2 ^ 15) with ((z1 - 1) * 2 ^ 15) by ring. split; [lia|]. split; [lia|].
      split; [|lia]. assert (2 ^ 16 <= z1); [|lia]. destruct (Z.le_gt_cases (2 ^ 16) z1); [done|].
      assert ((z1 + 1) * (z1 + 1) <= 2 ^ 16 * 2 ^ 16) by (apply Z.mul_le_mono_nonneg; lia). lia. }
  clearbody z. clear L1 L2 L3 Hb.
  assert (Z.sqrt N < z + 2 ^ 15) as S1 by (apply sqrt_lt; lia).
  assert (z - 2 ^ 15 <= Z.sqrt N) as S2 by (apply sqrt_ge; lia).
  destruct (Z.leb_spec z a) as [Hza|Hza].
  - apply estimate_top; [done|]. unfold N in Z1. destruct (Z.le_gt_cases (2 ^ 32 - 2 ^ 16 - 1) z); [lia|].
    assert (z * (z + 2 ^ 16) <= z * (2 ^ 32 - 2)) by (apply Z.mul_le_mono_nonneg_l; lia). lia.
  - assert (Z.sqrt N < 2 ^ 32 - 2) as S3.
    { apply sqrt_lt; [lia|lia|]. unfold N. lia. }
    destruct (last_step N z) as (W1 & W2 & W3); [unfold N; lia|lia|lia|lia|].
    replace (u32 (u32 (u64 (Z.shiftl a 31) / z) + Z.shiftr z 1)) with (N / (2 * z) + z / 2); [done|].
    by rewrite mean_word by (done || lia).
Qed.

Lemma estimate_odd aExp a :
  Z.land aExp 1 = 1 -> 2 ^ 31 <= a < 2 ^ 32 -> near_root (a / 2 * 2 ^ 32) (estimateSqrt32 aExp a).
Proof.
  intros Hi Ha. unfold estimateSqrt32. rewrite Hi. cbn [Z.eqb negb].
  destruct (first_approximation a Ha) as (_ & -> & _ & Hz0 & _ & Hb). set (t := Z.shiftr a 17) in *.
  replace (0x4000 + t - (0x4000 + t - first_odd t)) with (first_odd t) by lia. set (z0 := first_odd t) in *.
  rewrite (uw_small 32 z0) by (unfold in_u; lia).
  destruct (first_step_odd a z0) as [L1 L2]; [lia|lia|done|].
  assert (a / z0 < 2 ^ 17 + 2 ^ 7) by (apply Z.div_lt_upper_bound; lia). assert (0 <= a / z0) by (apply Z.div_pos; lia).
  rewrite (shl_word 32 (a / z0)), (shl_word 32 z0) by lia. set (y1 := a / z0 + 2 * z0) in *.
  replace (a / z0 * 2 ^ 14 + z0 * 2 ^ 15) with (y1 * 2 ^ 14) by (unfold y1; ring).
  pose proof (Z.div_mod a 2 ltac:(lia)) as Ed. pose proof (Z.mod_pos_bound a 2 ltac:(lia)) as Hm.
  rewrite (Z.shiftr_div_pow2 a 1) by lia. change (2 ^ 1) with 2. set (b := a / 2) in *. set (N := b * 2 ^ 32).
  destruct (root_spec N ltac:(lia)) as (R0 & R1 & R2). destruct (root_spec (8 * a) ltac:(lia)) as (Q0 & Q1 & Q2).
  assert ((y1 - 2) * (y1 - 2) <= 8 * a) as L3.
  { assert ((y1 - 2) * (y1 - 2) <= Z.sqrt (8 * a) * Z.sqrt (8 * a)) by (apply Z.mul_le_mono_nonneg; lia). lia. }
  assert (2 ^ 31 <= Z.sqrt N) as S0 by (apply sqrt_ge; unfold N; lia).
  assert (Z.sqrt N < 2 ^ 32 - 2 ^ 30) as S3 by (apply sqrt_lt; unfold N; lia).
  set (z := y1 * 2 ^ 14).
  assert (Z.sqrt N < z + 2 ^ 14) as S1 by (apply sqrt_lt; unfold N, z; lia).
  assert (z - 2 ^ 15 <= Z.sqrt N + 1) as S2.
  { destruct (Z.le_gt_cases (z - 2 ^ 15) (Z.sqrt N + 1)) as [|Hgt]; [done|].
    assert ((Z.sqrt N + 2) * (Z.sqrt N + 2) <= (z - 2 ^ 15) * (z - 2 ^ 15)) by (apply Z.mul_le_mono_nonneg; lia).
    unfold z, N in *. lia. }
  rewrite (uw_small 32 z) by (unfold in_u; lia).
  pose proof (last_step N z ltac:(unfold N; lia) ltac:(lia) ltac:(lia) ltac:(lia)) as Hw.
  rewrite mean_word; [done|lia|lia|apply Hw].
Qed.

(** ** The correction loops *)
Lemma neg64_small r : - 2 ^ 63 <= r < 2 ^ 63 -> neg64 (u64 r) = (r <? 0).
Proof.
  intros Hr. unfold neg64, uw. destruct (Z.ltb_spec r 0).
  - rewrite <- (Z.mod_unique r (2 ^ 64) (-1) (r + 2 ^ 64)) by lia. apply Z.leb_le. lia.
  - rewrite Z.mod_small by lia. apply Z.leb_gt. lia.
Qed.

(** The remainder of z, at or a little above the root. *)
Lemma remainder_sign N n :
  0 <= N -> 0 <= n -> let q := Z.sqrt N in let z := q + n in
  - (n * (2 * q + n)) <= N - z * z <= 2 * q /\ (N - z * z <? 0) = (0 <? n).
Proof.
  intros HN Hn q z. destruct (root_spec N HN) as (H0 & H1 & H2). fold q in H0, H1, H2. unfold z.
  split; [nia|]. destruct (Z.ltb_spec (N - (q + n) * (q + n)) 0), (Z.ltb_spec 0 n); try done; nia.
Qed.

Lemma sqrt32_loop_spec N n fuel :
  0 <= N -> Z.sqrt N < 2 ^ 32 - 8 -> (n <= fuel <= 8)%nat ->
  let q := Z.sqrt N in let z := q + Z.of_nat n in
  sqrt32_loop fuel z (u64 (N - z * z)) = Some (q, N - q * q).
Proof.
  intros HN Hq. cbv zeta. set (q := Z.sqrt N) in *. destruct (root_spec N HN) as (H0 & H1 & H2).
  revert fuel. induction n as [|n IH]; intros fuel Hn.
  - rewrite Z.add_0_r. destruct (remainder_sign N 0 HN ltac:(lia)) as [Hb Hs]. fold q in Hb, Hs. rewrite Z.add_0_r in *.
    assert (u64 (N - q * q) = N - q * q) as E by (apply uw_small; unfold in_u; lia).
    destruct fuel; cbn [sqrt32_loop]; rewrite neg64_small, Hs, E by lia; done.
  - destruct fuel as [|fuel]; [lia|]. destruct (remainder_sign N (Z.of_nat (S n)) HN ltac:(lia)) as [Hb Hs].
    fold q in Hb, Hs. cbn [sqrt32_loop].
    assert (Z.of_nat (S n) * (2 * q + Z.of_nat (S n)) <= 8 * (2 * q + 8)) by (apply Z.mul_le_mono_nonneg; lia).
    rewrite neg64_small, Hs, (proj2 (Z.ltb_lt _ _)) by lia. cbv zeta.
    replace (q + Z.of_nat (S n) - 1) with (q + Z.of_nat n) by lia. rewrite (uw_small 32) by (unfold in_u; lia).
    rewrite shl_word by lia. rewrite <- (IH fuel) by lia. f_equal.
    rewrite <- (Z.shiftl_mul_pow2 _ 1), lor_shift_add by (lia || unfold in_u; lia).
    unfold uw. rewrite Z.add_mod_idemp_l by lia. f_equal. lia.
Qed.

Lemma root_words z : 0 <= z < 2 ^ 63 -> words (2 * z + 1) = (Z.shiftr z 63, Z.lor (u64 (2 * z)) 1).
Proof.
  intros Hz. rewrite Z.shiftr_div_pow2, Z.div_small by lia. rewrite uw_small by (unfold in_u; lia).
  replace (2 * z) with (Z.shiftl z 1) at 2 by (rewrite Z.shiftl_mul_pow2 by lia; lia).
  rewrite lor_shift_add by (lia || unfold in_u; lia). unfold words.
  rewrite Z.div_small, !Z.mod_small by lia. f_equal. lia.
Qed.

Lemma sqrt64_loop_spec N n fuel :
  0 <= N -> Z.sqrt N < 2 ^ 63 - 8 -> (n <= fuel <= 8)%nat ->
  let q := Z.sqrt N in let z := q + Z.of_nat n in
  sqrt64_loop fuel z (u64 (2 * z)) (words (N - z * z)).1 (words (N - z * z)).2 =
  Some (q, (words (N - q * q)).1, (words (N - q * q)).2).
Proof.
  intros HN Hq. cbv zeta. set (q := Z.sqrt N) in *. destruct (root_spec N HN) as (H0 & H1 & H2).
  revert fuel. induction n as [|n IH]; intros fuel Hn.
  - rewrite Z.add_0_r. destruct (remainder_sign N 0 HN ltac:(lia)) as [Hb Hs]. fold q in Hb, Hs. rewrite Z.add_0_r in *.
    destruct fuel; cbn [sqrt64_loop]; rewrite neg64_words, Hs by lia; done.
  - destruct fuel as [|fuel]; [lia|]. destruct (remainder_sign N (Z.of_nat (S n)) HN ltac:(lia)) as [Hb Hs].
    fold q in Hb, Hs. cbn [sqrt64_loop].
    assert (Z.of_nat (S n) * (2 * q + Z.of_nat (S n)) <= 8 * (2 * q + 8)) by (apply Z.mul_le_mono_nonneg; lia).
    rewrite neg64_words, Hs, (proj2 (Z.ltb_lt _ _)) by lia. cbv zeta.
    replace (q + Z.of_nat (S n) - 1) with (q + Z.of_nat n) by lia. rewrite (uw_small 64 (q + Z.of_nat n)) by (unfold in_u; lia).
    assert (u64 (u64 (2 * (q + Z.of_nat (S n))) - 2) = u64 (2 * (q + Z.of_nat n))) as ->.
    { unfold uw. rewrite Zminus_mod_idemp_l. f_equal. lia. }
    pose proof (root_words (q + Z.of_nat n) ltac:(lia)) as Ew.
    apply (f_equal fst) in Ew as E0. apply (f_equal snd) in Ew as E1. cbn [fst snd] in E0, E1.
    rewrite <- E0, <- E1, add128_words.
    replace (N - (q + Z.of_nat (S n)) * (q + Z.of_nat (S n)) + (2 * (q + Z.of_nat n) + 1))
      with (N - (q + Z.of_nat n) * (q + Z.of_nat n)) by lia.
    apply IH. lia.
Qed.

(** ** Rounding a root *)
(** m * d is the multiple of d nearest to the root of K, the even one on a tie. *)
Definition nearest_root (K d m : Z) : Prop :=
  0 < m /\ ((2 * m - 1) * d) * ((2 * m - 1) * d) <= 4 * K <= ((2 * m + 1) * d) * ((2 * m + 1) * d) /\
  (4 * K = ((2 * m - 1) * d) * ((2 * m - 1) * d) \/ 4 * K = ((2 * m + 1) * d) * ((2 * m + 1) * d) -> Z.even m = true).

(** [S] stands for the root of N when it is to be rounded to a multiple of 2^d. *)
Definition sticky_root (d S N : Z) : Prop :=
  N = S * S \/
  exists c, 0 <= c /\ c * 2 ^ (d - 1) < S < (c + 1) * 2 ^ (d - 1) /\
    (c * 2 ^ (d - 1)) * (c * 2 ^ (d - 1)) < N < ((c + 1) * 2 ^ (d - 1)) * ((c + 1) * 2 ^ (d - 1)).

Lemma square_le x y : 0 <= x <= y -> x * x <= y * y.
Proof. intros. apply Z.mul_le_mono_nonneg; lia. Qed.
Lemma square_inj x y : 0 <= x -> 0 <= y -> x * x = y * y -> x = y.
Proof. intros. nia. Qed.

Lemma nearest_root_sticky d S N m :
  1 <= d -> 2 ^ d <= S -> sticky_root d S N -> nearest_even S (2 ^ d) m -> nearest_root N (2 ^ d) m.
Proof.
  intros Hd HS Hst [Hm Ht]. rewrite pow2_split in * by lia. pose proof (pow2_pos (d - 1) ltac:(lia)).
  set (h := 2 ^ (d - 1)) in *. assert (0 < m) as Hm0 by nia.
  replace ((2 * m - 1) * (2 * h) * ((2 * m - 1) * (2 * h))) with (4 * (((2 * m - 1) * h) * ((2 * m - 1) * h))) by ring.
  assert (0 <= (2 * m - 1) * h /\ 0 <= (2 * m + 1) * h) as [P1 P2] by nia. split; [done|].
  replace ((2 * m + 1) * (2 * h) * ((2 * m + 1) * (2 * h))) with (4 * (((2 * m + 1) * h) * ((2 * m + 1) * h))) by ring.
  destruct Hst as [->|(c & Hc0 & HSc & HN)].
  - assert ((2 * m - 1) * h <= S <= (2 * m + 1) * h) as HSm by lia. split.
    + pose proof (square_le ((2 * m - 1) * h) S). pose proof (square_le S ((2 * m + 1) * h)). lia.
    + intros [E|E]; apply Ht; (assert (S = (2 * m - 1) * h \/ S = (2 * m + 1) * h) as [->| ->];
        [|lia|lia]); [left|right]; apply square_inj; lia.
  - assert (2 * m - 1 <= c <= 2 * m) as Hc by nia.
    assert ((2 * m - 1) * h <= c * h /\ (c + 1) * h <= (2 * m + 1) * h) as [C1 C2]
      by (split; apply Z.mul_le_mono_nonneg_r; lia).
    pose proof (square_le _ _ (conj P1 C1)). pose proof (square_le ((c + 1) * h) ((2 * m + 1) * h)).
    assert (0 <= (c + 1) * h) by nia. split; [lia|]. intros [E|E]; lia.
Qed.

Lemma nearest_root_scale K d N d' m :
  0 < d -> 0 < d' -> K * (d' * d') = N * (d * d) -> nearest_root N d' m -> nearest_root K d m.
Proof.
  intros Hd Hd' E (Hm & Hb & Ht).
  assert (forall x, (x * d) * (x * d) * (d' * d') = (x * d') * (x * d') * (d * d)) as F by (intros; ring).
  assert (0 < d * d /\ 0 < d' * d') as [P1 P2] by nia.
  assert (4 * K * (d' * d') = 4 * N * (d * d)) as E4 by lia.
  split; [done|]. split.
  - split; apply (Z.mul_le_mono_pos_r _ _ (d' * d')); try done; rewrite F, E4; apply Z.mul_le_mono_nonneg_r; lia.
  - intros H. apply Ht. destruct H as [H|H]; [left|right]; apply (Z.mul_cancel_r _ _ (d * d)); try lia;
      rewrite <- E4, H, F; done.
Qed.

Lemma land_1_mod e : Z.land e 1 = e mod 2.
Proof. change 1 with (Z.ones 1). by rewrite Z.land_ones by lia. Qed.

Section Root.
Context (f : fmt) (Hf : fmt_ok f).
#[local] Abbreviation W := (2 ^ (fw f - 1)).
#[local] Abbreviation P := (2 ^ ffrac f).
#[local] Abbreviation X := (2 ^ fextra f).

(** [r] is the encoding of the value nearest to the root of K: a binade, and the multiple
    of its unit nearest to the root. *)
Definition rounds_root (K r : Z) : Prop :=
  exists e m, 0 <= e /\ 2 ^ (ffrac f + e) * 2 ^ (ffrac f + e) <= K < 2 ^ (ffrac f + 1 + e) * 2 ^ (ffrac f + 1 + e) /\
    nearest_root K (2 ^ e) m /\ r = e * P + m.

Definition sqrt_result (a z : Z) : Prop :=
  in_u (fw f) z /\
  (nan f z <-> nan f a \/ sign_of f a = 1 /\ mag_of f a <> 0) /\
  (mag_of f a = 0 \/ infinite f a /\ sign_of f a = 0 -> z = a) /\
  (finite f a -> mag_of f a <> 0 -> sign_of f a = 0 ->
     sign_of f z = 0 /\ finite f z /\ rounds_root (fval f a * 2 ^ (bias f + ffrac f - 1)) (mag_of f z)).

(** The exponent of the root. *)
Definition root_exp (e : Z) : Z := Z.shiftr (e - bias f) 1 + (bias f - 1).

Lemma root_exp_spec e :
  - ffrac f <= e < fexpmax f -> ffrac f + 3 <= bias f -> Z.odd (bias f) = true ->
  0 <= root_exp e < fexpmax f - 2 /\ 2 * root_exp e = e + bias f - 3 + Z.land e 1.
Proof using Hf.
  intros He Hb Ho. pose proof (bias_spec f Hf) as (_ & Hx & _). unfold root_exp.
  rewrite Z.shiftr_div_pow2 by lia. change (2 ^ 1) with 2.
  rewrite land_1_mod. pose proof (Z.div_mod (e - bias f) 2 ltac:(lia)) as Ed.
  pose proof (Z.div_mod e 2 ltac:(lia)) as Ee. pose proof (Z.mod_pos_bound e 2 ltac:(lia)).
  pose proof (Z.mod_pos_bound (e - bias f) 2 ltac:(lia)).
  apply Z.odd_spec in Ho as [k Hk]. lia.
Qed.

(** The square that the significand of the root stands for. *)
Definition root_square (e M : Z) : Z := M * 2 ^ (ffrac f + 2 * fextra f + 1 - Z.land e 1).

Lemma root_square_range e M :
  P <= M < 2 * P -> (P * X) * (P * X) <= root_square e M < (2 * (P * X)) * (2 * (P * X)).
Proof using Hf.
  intros HM. unfold root_square. pose proof (powers f Hf) as (HP & HX & _). destruct Hf as [Hfr Hex _ _ _ _ _].
  rewrite land_1_mod. pose proof (Z.mod_pos_bound e 2 ltac:(lia)) as Hi.
  assert (2 ^ (ffrac f + 2 * fextra f + 1) = 2 * (P * X * X)) as E.
  { rewrite !Z.pow_add_r, (Z.mul_comm 2 (fextra f)), Z.pow_mul_r by lia. ring. }
  assert (0 < P * X * X) by (apply Z.mul_pos_pos; [apply Z.mul_pos_pos|]; done).
  destruct (decide (e mod 2 = 0)) as [->|]; [rewrite Z.sub_0_r, E; nia|].
  replace (e mod 2) with 1 by lia. rewrite Z.add_simpl_r.
  assert (2 ^ (ffrac f + 2 * fextra f) = P * X * X) as -> by (rewrite Z.pow_add_r in E by lia; lia). nia.
Qed.

Lemma root_core a e M S :
  normal_form f a e M -> ffrac f + 3 <= bias f -> Z.odd (bias f) = true ->
  P * X <= S < W -> sticky_root (fextra f) S (root_square e M) ->
  exists r, roundAndPackFloat status_zero f 0 (root_exp e) S = r /\ 0 <= r < inf_mag f /\
    rounds_root (fval f a * 2 ^ (bias f + ffrac f - 1)) r.
Proof using Hf.
  intros (HM & He & Hv) Hb Ho HS Hst. destruct (root_exp_spec e He Hb Ho) as [Hz Ez]. set (z := root_exp e) in *.
  pose proof (bias_spec f Hf) as (_ & Hx & Hx2 & _). pose proof (powers f Hf) as (HP & HX & E2 & E1 & E0 & Hh & EX & _).
  pose proof (root_square_range e M HM) as HR. pose proof (expmax_lt f Hf) as Emax.
  assert (1 <= fextra f) by (destruct Hf; lia). assert (2 <= ffrac f) by (destruct Hf; lia).
  pose proof (pow2_pos z ltac:(lia)) as Hp.
  pose proof (round_shift_spec (fw f) (fextra f) S ltac:(lia) ltac:(lia) ltac:(lia)) as Hm.
  rewrite roundAndPack_finish, u16_small, (proj2 (Z.leb_gt _ _)) by (done || lia). unfold finish.
  set (m := round_shift _ _ _ _ _) in *.
  assert (P <= m <= 2 * P) as Hm2 by (apply (nearest_even_bounds S X); [lia|lia|done]).
  assert (0 <= z * P + m < fexpmax f * P) as Hr by (clear - Hz Hm2 HP; nia).
  rewrite (proj2 (Z.eqb_neq m 0)), (packFloat_spec f Hf) by lia.
  exists (z * P + m). split; [lia|]. split; [unfold inf_mag; lia|].
  set (K := fval f a * _). set (N := root_square e M) in *.
  assert (K * (X * X) = N * (2 ^ z * 2 ^ z)) as EK.
  { unfold K, N, root_square. rewrite <- !Z.mul_assoc, <- !Z.pow_add_r by (rewrite ?land_1_mod; pose proof (Z.mod_pos_bound e 2); lia).
    symmetry. apply Hv; [lia|lia|]. lia. }
  exists z, m. split; [lia|]. split; [|split; [|done]].
  - rewrite !Z.pow_add_r, Z.pow_1_r by lia. assert (0 < X * X) by (apply Z.mul_pos_pos; done).
    assert (0 < 2 ^ z * 2 ^ z) by (apply Z.mul_pos_pos; done).
    split; [apply (Z.mul_le_mono_pos_r _ _ (X * X))|apply (Z.mul_lt_mono_pos_r (X * X))]; try done; rewrite EK.
    + replace (P * 2 ^ z * (P * 2 ^ z) * (X * X)) with ((P * X) * (P * X) * (2 ^ z * 2 ^ z)) by ring.
      apply Z.mul_le_mono_nonneg_r; lia.
    + replace (P * 2 * 2 ^ z * (P * 2 * 2 ^ z) * (X * X)) with ((2 * (P * X)) * (2 * (P * X)) * (2 ^ z * 2 ^ z)) by ring.
      apply Z.mul_lt_mono_pos_r; lia.
  - apply (nearest_root_scale K (2 ^ z) N X); [done|done|done|].
    apply (nearest_root_sticky (fextra f) S); [lia|clear - HS HP HX; nia|done|done].
Qed.

Lemma sqrt_cases_spec a nan2 k :
  in_u (fw f) a -> in_u (fw f) nan2 -> ffrac f + 3 <= bias f -> Z.odd (bias f) = true ->
  (forall e sig, normal_form f a e (Z.lor sig P) -> exists S, P * X <= S < W /\
     sticky_root (fextra f) S (root_square e (Z.lor sig P)) /\
     k e sig = Some (roundAndPackFloat status_zero f 0 (root_exp e) S)) ->
  exists z, sqrt_cases status_zero f a nan2 k = Some z /\ sqrt_result a z.
Proof using Hf.
  intros Ha Hn2 Hb Ho Hk. destruct (fields f Hf a Ha) as (_ & _ & Hs & Es & _ & Ea).
  pose proof (class_disjoint f Hf a) as Da. pose proof (default_nan_nan f Hf) as [Hd1 Hd2].
  unfold sqrt_cases, sqrt_result. rewrite !lor_eqb_0. rewrite Es in *.
  destruct (operand_cases f Hf a Ha) as [E F C|E F C|E F C M|e sig E F N NF U C M].
  - rewrite E, Z.eqb_refl, (proj2 (Z.eqb_neq _ _) F). cbn [negb]. eexists. split; [done|].
    destruct (propagate_nan f Hf a nan2 Ha Hn2 (or_introl C)). split; [done|]. tauto.
  - rewrite E, F, Z.eqb_refl. cbn [Z.eqb negb]. destruct Hs as [-> | ->]; eexists; (split; [done|]).
    + split; [done|]. split; [|tauto]. intuition lia.
    + split; [done|]. split; [|intuition lia]. intuition lia.
  - pose proof (bias_spec f Hf). rewrite E, F, (proj2 (Z.eqb_neq 0 _)) by lia. cbn [Z.eqb andb].
    exists a. split; [|split; [done|]; split; [intuition lia|tauto]].
    destruct Hs as [Hs|Hs]; rewrite Hs in *; [|done]. cbn [Z.eqb negb]. rewrite Ea, M. done.
  - rewrite (proj2 (Z.eqb_neq _ _) E). destruct Hs as [Hs|Hs]; rewrite Hs in *; cbn [Z.eqb negb].
    + assert ((extractExp f a =? 0) && (extractFrac f a =? 0) = false) as ->
        by (destruct (Z.eqb_spec (extractExp f a) 0), (Z.eqb_spec (extractFrac f a) 0); tauto).
      rewrite N. destruct (Hk e sig NF) as (S & HS & Hst & ->).
      destruct (root_core a e _ S NF Hb Ho HS Hst) as (r & -> & Hr & HR).
      destruct (packed f Hf 0 r ltac:(lia) ltac:(lia)) as (P1 & P2 & P3 & P4 & P5).
      rewrite Z.mul_0_l, Z.add_0_l in *. exists r. split; [done|]. split; [done|].
      unfold finite. rewrite P2, P3. split; [intuition lia|]. split; [intuition|].
      intros _ _ _. split; [done|]. split; [lia|done].
    + assert ((extractExp f a =? 0) && (extractFrac f a =? 0) = false) as ->
        by (destruct (Z.eqb_spec (extractExp f a) 0), (Z.eqb_spec (extractFrac f a) 0); tauto).
      eexists. split; [done|]. split; [done|]. intuition lia.
Qed.
End Root.

(** ** Corrected and uncorrected roots *)
(** The integer root with "the remainder is not zero" or'ed into its last bit. *)
Lemma sticky_root_odd d N (b : bool) :
  2 <= d -> 0 <= N -> let q := Z.sqrt N in (b = false <-> N = q * q) -> sticky_root d (Z.lor q (b2z b)) N.
Proof.
  intros Hd HN q Hb. destruct (root_spec N HN) as (Q0 & Q1 & Q2). fold q in Q0, Q1, Q2.
  rewrite land_low_bit. destruct b; [|left; by apply Hb].
  assert (N <> q * q) by (rewrite <- Hb; done). right. exists (q / 2 ^ (d - 1)).
  rewrite (pow2_split (d - 1)) in * by lia. pose proof (pow2_pos (d - 1 - 1) ltac:(lia)).
  set (h := 2 ^ (d - 1 - 1)) in *.
  pose proof (Z.div_mod q (2 * h) ltac:(lia)). pose proof (Z.mod_pos_bound q (2 * h) ltac:(lia)).
  assert (0 <= q / (2 * h)) by (apply Z.div_pos; lia).
  set (c := q / (2 * h)) in *. assert (c * (2 * h) <= q < (c + 1) * (2 * h)) as Hc by lia.
  pose proof (Z.div_mod q 2 ltac:(lia)). pose proof (Z.mod_pos_bound q 2 ltac:(lia)). split; [done|]. split; [lia|].
  pose proof (square_le (c * (2 * h)) q). pose proof (square_le (q + 1) ((c + 1) * (2 * h))).
  assert (0 <= c * (2 * h)) by (apply Z.mul_nonneg_nonneg; lia). lia.
Qed.

(** An estimate at most [n] too large whose low bits are above [n]. *)
Lemma sticky_root_near d N z n :
  1 <= d -> 0 <= N -> Z.sqrt N <= z <= Z.sqrt N + n -> n < z mod 2 ^ (d - 1) -> sticky_root d z N.
Proof.
  intros Hd HN Hz Hm. destruct (root_spec N HN) as (Q0 & Q1 & Q2). set (q := Z.sqrt N) in *. right.
  pose proof (pow2_pos (d - 1) ltac:(lia)). set (h := 2 ^ (d - 1)) in *.
  pose proof (Z.div_mod z h ltac:(lia)). pose proof (Z.mod_pos_bound z h ltac:(lia)).
  assert (0 <= z / h) by (apply Z.div_pos; lia). exists (z / h). set (c := z / h) in *. split; [done|]. split; [lia|].
  pose proof (square_le (c * h + 1) q). pose proof (square_le (q + 1) ((c + 1) * h)).
  assert (0 <= c * h) by (apply Z.mul_nonneg_nonneg; lia). lia.
Qed.

(** Shifting right one place, with jamming, halves the root. *)
Lemma sticky_root_half d S N : 2 <= d -> 0 <= S -> sticky_root (d + 1) S (4 * N) -> sticky_root d (jam S 1) N.
Proof.
  intros Hd HS. unfold sticky_root at 1. replace (d + 1 - 1) with (d - 1 + 1) by lia. intros [E|(c & Hc & Hb & HN)].
  - left. rewrite jam_spec by lia. change (2 ^ 1) with 2.
    pose proof (Z.div_mod S 2 ltac:(lia)). pose proof (Z.mod_pos_bound S 2 ltac:(lia)).
    set (k := S / 2) in *. destruct (Z.eqb_spec (S mod 2) 0); nia.
  - right. exists c. rewrite Z.pow_add_r in * by lia. rewrite (pow2_split (d - 1)) in * by lia.
    pose proof (pow2_pos (d - 1 - 1) ltac:(lia)). set (h := 2 ^ (d - 1 - 1)) in *. change (2 ^ 1) with 2 in *.
    split; [done|]. split; [|lia]. apply (jam_cell S 1); [lia|done|]. change (2 ^ 1) with 2. lia.
Qed.

Lemma half_bounds S lo hi : 0 <= lo -> 2 * lo <= S < 2 * (2 * hi) -> lo <= jam S 1 < 2 * hi.
Proof.
  intros Hlo HS. rewrite jam_spec by lia. change (2 ^ 1) with 2.
  pose proof (Z.div_mod S 2 ltac:(lia)). pose proof (Z.mod_pos_bound S 2 ltac:(lia)).
  pose proof (Z.div_mod (S / 2) 2 ltac:(lia)). pose proof (Z.mod_pos_bound (S / 2) 2 ltac:(lia)).
  case_match; lia.
Qed.

(** ** sqrt.s *)
(** The estimate plus two is at least one and at most three above the root. *)
Lemma near_root_above N w :
  2 ^ 62 <= N -> near_root N w -> Z.sqrt N + 1 <= w + 2 <= Z.sqrt N + 3.
Proof.
  intros HN (L & U & R). destruct (root_spec N ltac:(lia)) as (Q0 & Q1 & Q2). set (q := Z.sqrt N) in *.
  split; [|lia]. destruct (Z.le_gt_cases (q + 1) (w + 2)); [done|].
  pose proof (square_le (2 * w + 4) (2 * q)). lia.
Qed.

(** The argument of the estimate for both parities of the exponent. *)
Lemma estimate_spec e a :
  2 ^ 31 <= a < 2 ^ 32 -> near_root (Z.shiftr a (Z.land e 1) * 2 ^ 32) (estimateSqrt32 e a).
Proof.
  intros Ha. pose proof (Z.mod_pos_bound e 2 ltac:(lia)). rewrite <- land_1_mod in *.
  destruct (decide (Z.land e 1 = 0)) as [E|E].
  - rewrite E, Z.shiftr_0_r. by apply estimate_even.
  - assert (Z.land e 1 = 1) as E1 by lia. rewrite E1, Z.shiftr_div_pow2 by lia. by apply estimate_odd.
Qed.

(** The last shift of sqrt.s. *)
Lemma half_sig S R :
  2 ^ 31 <= S < 2 ^ 32 -> sticky_root 8 S (4 * R) ->
  2 ^ 23 * 2 ^ 7 <= shift32RightJamming S 1 < 2 ^ 31 /\ sticky_root 7 (shift32RightJamming S 1) R.
Proof.
  intros HS Hst. unfold shift32RightJamming.
  rewrite shiftRightJamming_jam; [|exists 5; lia|unfold in_u; lia|lia].
  split; [apply (half_bounds _ _ (2 ^ 30)); lia|]. apply sticky_root_half; [lia|lia|done].
Qed.

Lemma float32_sqrt_spec a :
  in_u 32 a -> exists z, float32_sqrt status_zero a = Some z /\ sqrt_result F32 a z.
Proof.
  intros Ha. unfold float32_sqrt. rewrite squash_zero.
  apply (sqrt_cases_spec F32 F32_ok); [done|unfold in_u; cbn; lia|by vm_compute|done|].
  intros e sig (HM & _). unfold root_square, root_exp. change (bias F32) with 0x7F. cbn [ffrac fextra fw F32] in *.
  change 0x00800000 with (2 ^ 23). set (M := Z.lor sig (2 ^ 23)) in *. cbv zeta.
  rewrite (shl_word 32 M) by lia. pose proof (estimate_spec e (M * 2 ^ 8) ltac:(lia)) as Hw.
  set (w := estimateSqrt32 e _) in *. set (a1 := Z.shiftr (M * 2 ^ 8) (Z.land e 1)) in *.
  assert (a1 * 2 ^ 32 = 4 * (M * 2 ^ (23 + 2 * 7 + 1 - Z.land e 1)) /\ 2 ^ 30 <= a1 <= 2 ^ 32 - 2 ^ 8) as [EN Ha1].
  { unfold a1. rewrite Z.shiftr_div_pow2 by (rewrite land_1_mod; apply Z.mod_pos_bound; lia).
    pose proof (Z.mod_pos_bound e 2 ltac:(lia)). rewrite <- land_1_mod in *.
    assert (Z.land e 1 = 0 \/ Z.land e 1 = 1) as [-> | ->] by lia; [rewrite Z.div_1_r; lia|].
    replace (M * 2 ^ 8) with (M * 2 ^ 7 * 2 ^ 1) by lia. rewrite Z.div_mul by lia. lia. }
  set (N := a1 * 2 ^ 32) in *. set (R := M * 2 ^ (23 + 2 * 7 + 1 - Z.land e 1)) in *.
  assert (0 <= N) as HN0 by lia. pose proof (near_root_above N w ltac:(lia) Hw) as Hz.
  assert (Z.sqrt N < 2 ^ 32 - 127) as Hq by (apply sqrt_lt; lia).
  assert (2 ^ 31 <= Z.sqrt N) as Hq2 by (apply sqrt_ge; lia).
  rewrite (uw_small 32 (w + 2)) by (unfold in_u; lia). set (zSig := w + 2) in *.
  change 0x7F with (Z.ones 7) at 1 2. rewrite Z.land_ones by lia.
  destruct (Z.leb_spec (zSig mod 2 ^ 7) 5) as [Hlow|Hlow].
  - rewrite (proj2 (Z.ltb_ge zSig 2)) by lia. rewrite (shl_word 64 a1) by lia. fold N.
    assert (u64 (zSig * zSig) = zSig * zSig) as ->.
    { apply uw_small. pose proof (square_le zSig (2 ^ 32 - 1)). unfold in_u. nia. }
    pose proof (sqrt32_loop_spec N (Z.to_nat (zSig - Z.sqrt N)) loop_fuel HN0 ltac:(lia) ltac:(unfold loop_fuel; lia)) as Hl.
    cbv zeta in Hl. rewrite Z2Nat.id in Hl by lia. replace (Z.sqrt N + (zSig - Z.sqrt N)) with zSig in Hl by lia.
    rewrite Hl. set (b := negb _). destruct (odd_bounds 33 (Z.sqrt N) b ltac:(lia) ltac:(lia)) as [B1 B2].
    assert (sticky_root 8 (Z.lor (Z.sqrt N) (b2z b)) (4 * R)) as Hst.
    { rewrite <- EN. apply sticky_root_odd; [lia|done|]. unfold b. rewrite negb_false_iff, Z.eqb_eq. lia. }
    destruct (half_sig _ R (conj B1 B2) Hst). eexists. split; [done|]. split; [done|reflexivity].
  - assert (sticky_root 8 zSig (4 * R)) as Hst.
    { rewrite <- EN. apply (sticky_root_near _ _ _ 5); [lia|done|lia|done]. }
    destruct (half_sig zSig R ltac:(lia) Hst). eexists. split; [done|]. split; [done|reflexivity].
Qed.

(** ** sqrt.d *)
(** estimateDiv128To64 is exact when the low half of the divisor is zero. *)
Lemma estimateDiv_exact A w :
  0 <= A < 2 ^ 62 -> 2 ^ 31 - 1 <= w < 2 ^ 32 ->
  estimateDiv128To64 A 0 (w * 2 ^ 32) = Some (A * 2 ^ 32 / w).
Proof.
  intros HA Hw. unfold estimateDiv128To64. rewrite (proj2 (Z.leb_gt _ _)) by lia.
  rewrite Z.shiftr_div_pow2, Z.div_mul by lia. cbv zeta. rewrite (shl_word 64 w), (proj2 (Z.leb_gt _ A)) by lia.
  pose proof (Z.div_mod A w ltac:(lia)) as Ed. pose proof (Z.mod_pos_bound A w ltac:(lia)) as Hm.
  assert (0 <= A / w < 2 ^ 32) as Hd by (split; [apply Z.div_pos|apply Z.div_lt_upper_bound]; lia).
  set (d := A / w) in *. set (m := A mod w) in *. rewrite (shl_word 64 d) by lia.
  destruct (mul64To128_spec (w * 2 ^ 32) (d * 2 ^ 32)) as (H0 & H1 & Em); [unfold in_u; lia|unfold in_u; lia|].
  assert (sub128 A 0 (mul64To128 (w * 2 ^ 32) (d * 2 ^ 32)).1 (mul64To128 (w * 2 ^ 32) (d * 2 ^ 32)).2 = (m, 0)) as ->.
  { rewrite <- (words_pair m 0) by (unfold in_u; lia).
    replace (m * 2 ^ 64 + 0) with (A * 2 ^ 64 + 0 - w * 2 ^ 32 * (d * 2 ^ 32)) by (rewrite Ed; ring).
    rewrite <- Em, <- sub128_words. by rewrite !words_pair by (done || unfold in_u; lia). }
  cbn [fst snd]. unfold loop_fuel. cbn [estimateDiv_loop]. unfold neg64. rewrite (proj2 (Z.leb_gt _ m)) by lia.
  rewrite (shl_word 64 m), Z.shiftr_0_l, Z.lor_0_r, (proj2 (Z.leb_gt _ _)) by lia. f_equal.
  assert (0 <= m * 2 ^ 32 / w < 2 ^ 32) by (split; [apply Z.div_pos|apply Z.div_lt_upper_bound]; lia).
  rewrite <- (Z.shiftl_mul_pow2 d), lor_shift_add by (lia || unfold in_u; lia).
  rewrite Ed. replace ((w * d + m) * 2 ^ 32) with (m * 2 ^ 32 + d * 2 ^ 32 * w) by ring.
  rewrite Z.div_add by lia. lia.
Qed.

(** The step in 64 bits: never below the root, at most four above. *)
Lemma root64_step A Na w :
  Na <= 4 * A < Na + 2 ^ 32 -> 2 ^ 62 <= Na -> near_root Na w ->
  let z := A * 2 ^ 32 / w + w * 2 ^ 30 in let q := Z.sqrt (A * 2 ^ 64) in
  2 ^ 31 - 1 <= w < 2 ^ 32 /\ q <= z <= q + 4.
Proof.
  intros HA HN (L & U & R) z q. destruct (root_spec Na ltac:(lia)) as (R0 & R1 & _).
  destruct (root_spec (A * 2 ^ 64) ltac:(lia)) as (Q0 & Q1 & Q2). fold q in Q0, Q1, Q2.
  assert (2 ^ 31 - 1 <= w) as Hw.
  { destruct (Z.le_gt_cases (2 ^ 31 - 1) w); [done|]. pose proof (square_le (2 * w + 3) (2 ^ 32 - 1)). lia. }
  pose proof (Z.div_mod (A * 2 ^ 32) w ltac:(lia)) as Ed. pose proof (Z.mod_pos_bound (A * 2 ^ 32) w ltac:(lia)) as Hm.
  set (v := w * 2 ^ 31). assert (2 * v * z = A * 2 ^ 64 - (A * 2 ^ 32) mod w * 2 ^ 32 + v * v) as E
    by (unfold v, z; lia).
  split; [lia|]. split.
  - assert (4 * (A * 2 ^ 64) < (2 * z + 2) * (2 * z + 2)) as Hs
      by (apply (mean_square (A * 2 ^ 64) v); unfold v in *; lia).
    assert (0 <= z) by (assert (0 <= A * 2 ^ 32 / w) by (apply Z.div_pos; lia); unfold z; lia).
    assert (q < z + 1) by (apply sqrt_lt; lia). lia.
  - assert (q < (4 * w + 11) * 2 ^ 29 + 1) as Hhi.
    { apply sqrt_lt; [lia|lia|]. assert (16 * (4 * A) <= (4 * w + 11) * (4 * w + 11)); [lia|].
      pose proof (square_le (2 * (2 * w + 3)) (2 * (2 * w + 3))). lia. }
    assert ((w - 1) * 2 ^ 31 <= q) as Hlo.
    { apply sqrt_ge; [lia|]. pose proof (square_le (w - 1) (Z.sqrt Na)). lia. }
    pose proof (newton_high (A * 2 ^ 64) v z 4 (11 * 2 ^ 29 + 1) (q + 1)). unfold v in *. lia.
Qed.

Lemma words_zero r : 0 <= r < 2 ^ 126 -> (Z.lor (words r).1 (words r).2 =? 0) = (r =? 0).
Proof.
  intros Hr. unfold words. cbn [fst snd]. pose proof (Z.div_mod r (2 ^ 64) ltac:(lia)).
  pose proof (Z.mod_pos_bound r (2 ^ 64) ltac:(lia)).
  assert (0 <= r / 2 ^ 64 < 2 ^ 64) by (split; [apply Z.div_pos|apply Z.div_lt_upper_bound]; lia).
  rewrite (Z.mod_small (r / 2 ^ 64)) by lia. apply eq_bool_prop_intro. rewrite !Is_true_true, !Z.eqb_eq, Z.lor_eq_0_iff. lia.
Qed.

(** The correction step of sqrt.d. *)
Lemma sqrt64_correct A z :
  0 <= A < 2 ^ 62 -> let q := Z.sqrt (A * 2 ^ 64) in q < 2 ^ 63 - 8 -> q <= z <= q + 4 ->
  let t := mul64To128 z z in let r := sub128 A 0 t.1 t.2 in
  sqrt64_loop loop_fuel z (u64 (Z.shiftl z 1)) r.1 r.2 =
  Some (q, (words (A * 2 ^ 64 - q * q)).1, (words (A * 2 ^ 64 - q * q)).2).
Proof.
  intros HA q Hq Hz. cbv zeta. assert (0 <= q) by apply Z.sqrt_nonneg.
  destruct (mul64To128_spec z z) as (H0 & H1 & Em); [unfold in_u; lia|unfold in_u; lia|].
  assert (sub128 A 0 (mul64To128 z z).1 (mul64To128 z z).2 = words (A * 2 ^ 64 - z * z)) as ->.
  { replace (A * 2 ^ 64) with (A * 2 ^ 64 + 0) by lia. rewrite <- Em, <- sub128_words.
    by rewrite !words_pair by (done || unfold in_u; lia). }
  rewrite Z.shiftl_mul_pow2, Z.mul_comm by lia. change (2 ^ 1) with 2.
  pose proof (sqrt64_loop_spec (A * 2 ^ 64) (Z.to_nat (z - q)) loop_fuel ltac:(lia) Hq ltac:(unfold loop_fuel; lia)) as Hl.
  cbv zeta in Hl. fold q in Hl. rewrite Z2Nat.id in Hl by lia. by replace (q + (z - q)) with z in Hl by lia.
Qed.

Lemma float64_sqrt_spec a :
  in_u 64 a -> exists z, float64_sqrt status_zero a = Some z /\ sqrt_result F64 a z.
Proof.
  intros Ha. unfold float64_sqrt. rewrite squash_zero. cbv zeta.
  apply (sqrt_cases_spec F64 F64_ok); [done|done|by vm_compute|done|].
  intros e sig (HM & _). unfold root_square, root_exp. change (bias F64) with 0x3FF. cbn [ffrac fextra fw F64] in *.
  change 0x0010000000000000 with (2 ^ 52). set (M := Z.lor sig (2 ^ 52)) in *. cbv zeta.
  pose proof (Z.mod_pos_bound e 2 ltac:(lia)) as Hi. rewrite <- land_1_mod in Hi. set (i := Z.land e 1) in *.
  set (A := M * 2 ^ (9 - i)).
  assert (u64 (Z.shiftl M (9 - i)) = A /\ 2 ^ 60 <= A <= 2 ^ 62 - 2 ^ 9 /\ M * 2 ^ (52 + 2 * 10 + 1 - i) = A * 2 ^ 64) as (-> & HA & ->).
  { unfold A. assert (i = 0 \/ i = 1) as [-> | ->] by lia; cbn [Z.sub Z.add Z.mul Z.opp Z.pos_sub];
      (split; [apply shl_word; lia|lia]). }
  assert (u32 (Z.shiftr M 21) = M / 2 ^ 21) as ->.
  { rewrite Z.shiftr_div_pow2 by lia. apply uw_small. unfold in_u. split; [apply Z.div_pos|apply Z.div_lt_upper_bound]; lia. }
  set (a1 := M / 2 ^ 21). assert (2 ^ 31 <= a1 < 2 ^ 32) as Ha1.
  { unfold a1. split; [apply Z.div_le_lower_bound|apply Z.div_lt_upper_bound]; lia. }
  pose proof (estimate_spec e a1 Ha1) as Hw. fold i in Hw. set (w := estimateSqrt32 e a1) in *.
  assert (Z.shiftr a1 i * 2 ^ 32 <= 4 * A < Z.shiftr a1 i * 2 ^ 32 + 2 ^ 32 /\ 2 ^ 62 <= Z.shiftr a1 i * 2 ^ 32) as [HNa HNa2].
  { unfold a1, A. rewrite Z.shiftr_div_pow2, Z.div_div by lia.
    assert (i = 0 \/ i = 1) as [-> | ->] by lia; cbn [Z.sub Z.add Z.opp Z.pos_sub].
    - pose proof (Z.div_mod M (2 ^ 21 * 2 ^ 0) ltac:(lia)). pose proof (Z.mod_pos_bound M (2 ^ 21 * 2 ^ 0) ltac:(lia)). lia.
    - pose proof (Z.div_mod M (2 ^ 21 * 2 ^ 1) ltac:(lia)). pose proof (Z.mod_pos_bound M (2 ^ 21 * 2 ^ 1) ltac:(lia)). lia. }
  destruct (root64_step A _ w HNa HNa2 Hw) as [Hwr Hz]. rewrite (shl_word 64 w 32), (shl_word 64 w 30) by lia.
  rewrite estimateDiv_exact by lia. set (N := A * 2 ^ 64) in *.
  assert (Z.sqrt N < 2 ^ 63 - 255) as Hq by (apply sqrt_lt; unfold N; lia).
  assert (2 ^ 62 <= Z.sqrt N) as Hq2 by (apply sqrt_ge; unfold N; lia).
  rewrite (uw_small 64 (_ / w + _)) by (unfold in_u; lia). set (zSig := A * 2 ^ 32 / w + w * 2 ^ 30) in *.
  change 0x1FF with (Z.ones 9). rewrite Z.land_ones by lia.
  destruct (Z.leb_spec (zSig mod 2 ^ 9) 5) as [Hlow|Hlow].
  - rewrite sqrt64_correct by (fold N; lia). fold N. destruct (root_spec N ltac:(lia)) as (Q0 & Q1 & Q2).
    rewrite words_zero by lia. eexists. split; [|split; [|reflexivity]]; [apply (odd_bounds 64); lia|].
    apply sticky_root_odd; [lia|lia|]. rewrite negb_false_iff, Z.eqb_eq. lia.
  - eexists. split; [|split; [|reflexivity]]; [lia|]. apply (sticky_root_near _ _ _ 5); [lia|lia|lia|done].
Qed.

(** C24: the square root instructions (sqrt.s, sqrt.d) always return: the table-driven
    estimate is so close to the root that the correction loops end within their fuel of
    eight turns.  For every encoding the result is what IEEE 754 prescribes in
    round-to-nearest-even mode: a NaN exactly for a NaN or a negative non-zero operand,
    the operand itself for a zero of either sign and for positive infinity, and for every
    other operand, subnormals included, a positive finite value whose magnitude is the
    one nearest to the exact root, ties to even. *)
Theorem float_sqrt_correct a :
  (in_u 32 a -> exists z, float32_sqrt status_zero a = Some z /\ sqrt_result F32 a z) /\
  (in_u 64 a -> exists z, float64_sqrt status_zero a = Some z /\ sqrt_result F64 a z).
Proof. split; [apply float32_sqrt_spec|apply float64_sqrt_spec]. Qed.

Lemma float_sqrt_correct_witness :
  (exists z, float32_sqrt status_zero 0x40000000 = Some z /\ sqrt_result F32 0x40000000 z) /\
  (exists z, float64_sqrt status_zero 3 = Some z /\ sqrt_result F64 3 z).
Proof.
  split; [apply (proj1 (float_sqrt_correct 0x40000000))|apply (proj2 (float_sqrt_correct 3))]; unfold in_u; lia.
Defined.
