(* ===== verification/FloatInt.v ===== *)
(** * Conversion to integers

    float32_to_int32 and float64_to_int32, which the trunc.w and cvt.w handlers call
    with a zeroed float_status. *)
From S2P Require Import Prelude Softfloat FloatSpec FloatProps FloatAdd FloatDiv.

Definition clamp32 (m : Z) : Z := Z.max (- 2 ^ 31) (Z.min (2 ^ 31 - 1) m).

(** The integer nearest to the value, ties to even, saturated; NaNs give 2^31 - 1. *)
Definition int_result (f : fmt) (a z : Z) : Prop :=
  (nan f a -> z = 2 ^ 31 - 1) /\
  (infinite f a -> z = if sign_of f a =? 0 then 2 ^ 31 - 1 else - 2 ^ 31) /\
  (finite f a -> exists m,
     nearest_even (signed (sign_of f a) (fval f a)) (2 ^ (bias f + ffrac f - 1)) m /\ z = clamp32 m).

Lemma nearest_even_opp n d m : nearest_even n d m -> nearest_even (- n) d (- m).
Proof.
  unfold nearest_even. intros [H1 H2]. replace (2 * (- n - - m * d)) with (- (2 * (n - m * d))) by ring.
  by rewrite Z.abs_opp, Z.even_opp.
Qed.

Lemma s32_high m : 2 ^ 31 <= m < 2 ^ 32 -> s32 m = m - 2 ^ 32.
Proof.
  intros Hm. unfold sw. rewrite <- (Z.mod_unique (m + 2 ^ (32 - 1)) (2 ^ 32) 1 (m - 2 ^ 31)) by lia. lia.
Qed.

(** roundAndPackInt32: seven fraction bits are rounded away. *)
Lemma roundAndPackInt32_spec s absZ :
  s = 0 \/ s = 1 -> 0 <= absZ < 2 ^ 63 ->
  exists m, nearest_even absZ (2 ^ 7) m /\ 0 <= m /\ roundAndPackInt32 status_zero s absZ = clamp32 (signed s m).
Proof.
  intros Hs Ha. unfold roundAndPackInt32. rewrite roundIncrement_zero by lia. change (7 - 1) with 6.
  pose proof (round_shift_spec 64 7 absZ ltac:(lia) ltac:(lia) ltac:(lia)) as Hm. change (7 - 1) with 6 in Hm.
  set (m := round_shift _ _ _ _ _) in *. exists m. split; [done|].
  assert (0 <= m <= 2 ^ 56) as Hm2 by (apply (nearest_even_bounds absZ (2 ^ 7)); [lia|lia|done]).
  split; [lia|]. clearbody m. rewrite Z.shiftr_div_pow2 by lia. unfold signed, clamp32.
  destruct (Z.ltb_spec m (2 ^ 32)) as [H32|H32].
  2: { assert (1 <= m / 2 ^ 32) by (apply Z.div_le_lower_bound; lia).
       rewrite (proj2 (Z.eqb_neq _ _)) by lia. destruct Hs as [-> | ->]; cbn [negb orb Z.eqb]; lia. }
  rewrite Z.div_small by lia. cbn [Z.eqb negb orb].
  destruct (Z.ltb_spec m (2 ^ 31)) as [H31|H31].
  - rewrite (sw_small 32 m), (sw_small 32 (- m)) by lia.
    destruct Hs as [-> | ->]; cbn [negb Z.eqb].
    + rewrite (proj2 (Z.ltb_ge _ _)) by lia. rewrite andb_false_r. lia.
    + destruct (Z.eqb_spec (- m) 0), (Z.ltb_spec (- m) 0); cbn; lia.
  - rewrite (s32_high m) by lia. replace (- (m - 2 ^ 32)) with (2 ^ 32 - m) by lia.
    destruct Hs as [-> | ->]; cbn [negb Z.eqb].
    + rewrite (proj2 (Z.eqb_neq _ _)), (proj2 (Z.ltb_lt _ _)) by lia. cbn. lia.
    + destruct (decide (m = 2 ^ 31)) as [->|Hne]; [vm_compute; done|].
      rewrite (sw_small 32 (2 ^ 32 - m)), (proj2 (Z.eqb_neq _ _)), (proj2 (Z.ltb_ge _ _)) by lia. cbn. lia.
Qed.

(** The two conversions differ in where the point of the shifted significand is: [k]
    places to the right of seven fraction bits when the exponent field is 0. *)
Section ToInt.
Context (f : fmt) (Hf : fmt_ok f).
#[local] Abbreviation P := (2 ^ ffrac f).

Definition to_int (n k a : Z) : Z :=
  let aSign := if (extractExp f a =? fexpmax f) && negb (extractFrac f a =? 0) then 0 else extractSign f a in
  let aSig := if extractExp f a =? 0 then extractFrac f a else Z.lor (extractFrac f a) P in
  let sig := uw 64 (Z.shiftl aSig n) in
  roundAndPackInt32 status_zero aSign
    (if 0 <? k - extractExp f a then shiftRightJamming 64 sig (k - extractExp f a) else sig).

Lemma nearest_even_exists v d : 0 <= v -> 1 <= d -> exists m, nearest_even v (2 ^ d) m.
Proof using.
  intros Hv Hd. exists (round_shift status_zero (v + 2 * d + 1) d (2 ^ (d - 1)) v).
  apply round_shift_spec; [done|done|].
  pose proof (Z.pow_gt_lin_r 2 (v + d) ltac:(lia)). pose proof (pow2_pos (d - 1) ltac:(lia)).
  replace (v + 2 * d + 1) with ((v + d) + (d - 1) + 2) by lia.
  rewrite (Z.pow_add_r _ _ 2), (Z.pow_add_r _ (v + d)) by lia.
  set (N := 2 ^ (v + d)) in *. set (q := 2 ^ (d - 1)) in *. clearbody N q.
  assert (N * 1 <= N * q) by (apply Z.mul_le_mono_nonneg_l; lia).
  assert (1 * q <= N * q) by (apply Z.mul_le_mono_nonneg_r; lia). lia.
Qed.

Lemma nearest_even_signed s v d m :
  s = 0 \/ s = 1 -> nearest_even v d m -> nearest_even (signed s v) d (signed s m).
Proof using. intros [-> | ->] H; [done|]. by apply nearest_even_opp. Qed.

Lemma clamp_big s m : s = 0 \/ s = 1 -> 2 ^ 31 <= m -> clamp32 (signed s m) = if s =? 0 then 2 ^ 31 - 1 else - 2 ^ 31.
Proof using. intros [-> | ->] Hm; unfold clamp32, signed; cbn [Z.eqb]; lia. Qed.

(** The exponent places the point inside or to the left of the 64 bits. *)
Lemma to_int_small n k a m :
  in_u (fw f) a -> 0 <= n -> 39 <= ffrac f + n <= bias f + 8 -> k = bias f + ffrac f + n - 7 ->
  extractExp f a < k ->
  nearest_even (jam (sig_of f a * 2 ^ n) (k - extractExp f a)) (2 ^ 7) m ->
  nearest_even (fval f a) (2 ^ (bias f + ffrac f - 1)) m.
Proof using Hf.
  intros Ha Hn Hfn Ek Hlt Hm. pose proof (fo_frac f Hf) as Hfr.
  destruct (fields f Hf a Ha) as (HF & HE & _). destruct (sig_exp f Hf a Ha) as (Hsig & Hexp & Hval & Hnorm & Hsub).
  apply (nearest_even_sticky 7 _ (sig_of f a * 2 ^ n) (2 ^ (k - extractExp f a))) in Hm;
    [|lia|apply pow2_pos; lia|apply sticky_jam_exact; lia].
  rewrite <- Z.pow_add_r in Hm by lia. pose proof (pow2_pos n Hn) as Hpn.
  destruct (decide (extractExp f a = 0)) as [E|E].
  - destruct (Hsub E) as [HM Ee]. rewrite Hval, Ee, Z.sub_diag, Z.pow_0_r, Z.mul_1_r.
    assert (m = 0) as ->.
    { apply (nearest_even_unique (sig_of f a * 2 ^ n) (2 ^ (k - extractExp f a + 7))); [apply pow2_pos; lia|done|].
      replace (k - extractExp f a + 7) with (bias f - 1 + 1 + ffrac f + n) by lia. rewrite !Z.pow_add_r by lia.
      pose proof (pow2_pos (bias f - 1) ltac:(lia)). pose proof (pow2_pos (ffrac f) ltac:(lia)).
      assert (2 * (sig_of f a * 2 ^ n) < 2 ^ (bias f - 1) * 2 ^ 1 * P * 2 ^ n); [|split; lia].
      apply Z.lt_le_trans with (2 * (P * 2 ^ n)); [clear - HM Hpn; nia|].
      assert (0 < P * 2 ^ n) by (apply Z.mul_pos_pos; lia). change (2 ^ 1) with 2. clear - H1 H. nia. }
    replace (bias f + ffrac f - 1) with (bias f - 2 + 1 + ffrac f) by lia. rewrite !Z.pow_add_r by lia.
    pose proof (pow2_pos (bias f - 2) ltac:(lia)). pose proof (pow2_pos (ffrac f) ltac:(lia)).
    assert (2 * sig_of f a < 2 ^ (bias f - 2) * 2 ^ 1 * P); [|split; lia].
    change (2 ^ 1) with 2. clear - HM H H0. nia.
  - destruct (Hnorm E) as [HM Ee]. rewrite Hval, Ee.
    apply (nearest_even_scale (2 ^ (extractExp f a - 1))) in Hm; [|apply pow2_pos; lia].
    apply (nearest_even_scale (2 ^ n)); [done|]. rewrite <- Z.pow_add_r in Hm |- * by lia.
    replace (extractExp f a - 1 + (k - extractExp f a + 7)) with (n + (bias f + ffrac f - 1)) in Hm by lia.
    replace (2 ^ n * (sig_of f a * 2 ^ (extractExp f a - 1))) with (2 ^ (extractExp f a - 1) * (sig_of f a * 2 ^ n)) by ring.
    done.
Qed.

Lemma to_int_spec n k a :
  in_u (fw f) a -> 0 <= n -> 39 <= ffrac f + n <= 61 -> ffrac f + n <= bias f + 8 ->
  k = bias f + ffrac f + n - 7 -> int_result f a (to_int n k a).
Proof using Hf.
  intros Ha Hn Hfn Hfb Ek. unfold to_int. cbv zeta.
  destruct (fields f Hf a Ha) as (HF & HE & Hs & Es & _). destruct (class_exp f Hf a Ha) as (Cf & Cn & Ci).
  destruct (sig_exp f Hf a Ha) as (Hsig & Hexp & Hval & Hnorm & Hsub).
  pose proof (bias_spec f Hf) as (Hb1 & Hb2 & _). pose proof (fo_frac f Hf) as Hfr.
  assert ((if extractExp f a =? 0 then extractFrac f a else Z.lor (extractFrac f a) P) = sig_of f a) as ->.
  { unfold sig_of. destruct (_ =? 0); [done|]. by apply lor_hidden. }
  assert (2 * P * 2 ^ n <= 2 ^ 62) as Hle.
  { rewrite <- Z.mul_assoc, <- Z.pow_add_r by lia. rewrite <- Z.pow_succ_r by lia. apply Z.pow_le_mono_r; lia. }
  rewrite Z.shiftl_mul_pow2 by lia. pose proof (pow2_pos n Hn) as Hpn. pose proof (powers f Hf) as (HP & _).
  assert (0 <= sig_of f a * 2 ^ n < 2 ^ 62) as HM by (clear - Hsig Hle Hpn; nia).
  rewrite uw_small by (unfold in_u; lia).
  destruct (Z.ltb_spec 0 (k - extractExp f a)) as [Hd|Hd].
  - rewrite shiftRightJamming_jam; [|by exists 6|unfold in_u; lia|lia].
    rewrite (proj2 (Z.eqb_neq _ _)) by lia. cbn [andb]. rewrite Es in *.
    destruct (roundAndPackInt32_spec (sign_of f a) (jam (sig_of f a * 2 ^ n) (k - extractExp f a))) as (m & Hm & Hm0 & ->);
      [done|apply jam_lt; [lia|lia|pose proof (pow2_pos (k - extractExp f a)); nia]|].
    split; [intros [? _]%Cn; lia|]. split; [intros [? _]%Ci; lia|]. intros _. exists (signed (sign_of f a) m).
    split; [|done]. apply nearest_even_signed; [done|]. apply (to_int_small n k); done || lia.
  - destruct (Hnorm ltac:(lia)) as [HM2 Ee].
    set (s := if (extractExp f a =? fexpmax f) && negb (extractFrac f a =? 0) then 0 else extractSign f a).
    assert (s = 0 \/ s = 1) as Hs' by (unfold s; destruct (_ && _); auto).
    destruct (roundAndPackInt32_spec s (sig_of f a * 2 ^ n)) as (m & Hm & Hm0 & ->); [done|lia|].
    assert (2 ^ 32 <= m) as Hbig.
    { apply (nearest_even_bounds (sig_of f a * 2 ^ n) (2 ^ 7) m _ (2 ^ 62)); [lia| |done].
      assert (2 ^ 39 <= sig_of f a * 2 ^ n); [|lia]. apply Z.le_trans with (P * 2 ^ n); [|clear - HM2 Hpn; nia].
      rewrite <- Z.pow_add_r by lia. apply Z.pow_le_mono_r; lia. }
    rewrite clamp_big by (done || lia). unfold s, int_result. rewrite <- Es. split; [|split].
    + intros [-> HF0]%Cn. rewrite Z.eqb_refl, (proj2 (Z.eqb_neq (extractFrac f a) 0)) by done. done.
    + intros [-> ->]%Ci. rewrite Z.eqb_refl. done.
    + intros Hfin%Cf. rewrite (proj2 (Z.eqb_neq (extractExp f a) _)) by done. cbn [andb].
      destruct (nearest_even_exists (fval f a) (bias f + ffrac f - 1)) as (m' & Hm'); [by apply fval_nonneg|lia|].
      exists (signed (extractSign f a) m'). split; [by apply nearest_even_signed|]. rewrite clamp_big; [done|done|].
      apply (nearest_even_bounds (fval f a) (2 ^ (bias f + ffrac f - 1)) m' _ (fval f a)); [apply pow2_pos; lia| |done].
      split; [|pose proof (fval_nonneg f Hf a Ha); pose proof (pow2_pos (bias f + ffrac f - 1)); nia].
      rewrite Hval, <- Z.pow_add_r by lia. apply Z.le_trans with (P * 2 ^ (exp_of f a - 1)).
      * rewrite <- Z.pow_add_r by lia. apply Z.pow_le_mono_r; lia.
      * apply Z.mul_le_mono_nonneg_r; [apply Z.pow_nonneg; lia|done].
Qed.
End ToInt.

(** C33: the conversions that trunc.w.s and trunc.w.d run do not truncate: for every
    encoding they return the integer nearest to the value, ties to even, saturated to
    the range of int32_t, and 2^31 - 1 for a NaN. *)
Theorem to_int32_nearest a :
  (in_u 32 a -> int_result F32 a (float32_to_int32 status_zero a)) /\
  (in_u 64 a -> int_result F64 a (float64_to_int32 status_zero a)).
Proof.
  split; intros Ha.
  - apply (to_int_spec F32 F32_ok 32 0xAF); [done|..]; by vm_compute.
  - replace (float64_to_int32 status_zero a) with (to_int F64 0 0x42C a).
    { apply (to_int_spec F64 F64_ok); [done|..]; by vm_compute. }
    unfold to_int, float64_to_int32. rewrite squash_zero, Z.shiftl_0_r, uw_small; [done|].
    destruct (fields F64 F64_ok a Ha) as (HF & _). cbn [ffrac F64] in *.
    destruct (_ =? 0); [unfold in_u; lia|]. 
    rewrite (lor_hidden F64 F64_ok : forall x, 0 <= x < 2 ^ 52 -> Z.lor x (2 ^ 52) = 2 ^ 52 + x) by done.
    unfold in_u. lia.
Qed.

(** 1.5 becomes 2, not 1. *)
Lemma to_int32_nearest_witness :
  int_result F32 0x3FC00000 (float32_to_int32 status_zero 0x3FC00000) /\
  float32_to_int32 status_zero 0x3FC00000 = 2.
Proof. split; [apply (to_int32_nearest 0x3FC00000); unfold in_u; lia|reflexivity]. Defined.

